(* ===== verification/_CoqProject ===== *)
-Q . S2P
Prelude.v
CSem.v
Wire.v
CStack.v
BlockStack.v
CallStack.v
MonitorData.v
MonitorRun.v
RunSpec.v
RunRefine.v
RunTotal.v
Dot.v
LoadSections.v
Relocate.v
MonitorLoad.v
LoadWf.v
LoadTotal.v
LoadFree.v
LoadSpec.v
Client.v
Main.v
Sessions.v
LoadRuns.v
LoadAnswers.v
Failures.v
LoadFailures.v
LoadPackets.v
Network.v
MonitorLog.v
Text.v
Ir.v
Pass.v
Injector.v
PassTable.v
PassAnalysis.v
PassFiles.v
Debug.v
InjectSpec.v
PassRun.v
Exec.v
Prelink.v
PrelinkSpec.v
Startup.v
LoadModule.v
LongSections.v
Build.v
BuildSpec.v
BuildPack.v
Program.v
RelocTotal.v
Binary.v
Linking.v
Source.v
Processes.v
StartupSpec.v
Wrappers.v
ClientProcess.v
Protocol.v
Closing.v
PassRefusals.v
PassType.v
PassLimits.v
PassExamples.v
ProgramExamples.v
PassProps.v
StartupProps.v
Examples.v
RunProps.v
StackProps.v
WireProps.v
LoadProps.v
SystemProps.v
