(* ===== verification/Prelude.v ===== *)
(** * Picon: verification development

    ** The program

    Picon enforces control-flow integrity.  An LLVM pass (src/llvm_pass) runs
    on each module of a program: it numbers the functions and the basic blocks,
    extracts the call graph and the control-flow graphs, appends them to text
    files that the modules of one binary share (the function table .fctid, the
    call graph .trans, the control-flow graphs .bbtrans, the post-dominators
    .ipdom), and inserts calls to a small run-time support
    (src/include/picon/injected_code.c).  A script (src/prelink/picon-prelink)
    reads these files before the link and generates C code: the tables, packed
    in string literals, and a constructor that sends them to the monitor.  The
    monitor (src/monitor) is the parent of the protected program:
    - [main] (main.c) creates the pipes and forks: the child executes the
      protected program, the parent loads the graphs and then checks signals;
    - the loader (monitor_load.c) reads loading packets, one section at a
      time, fills the data of each module, resolves the external functions of
      all modules by name, and runs the checks on the initialisation
      functions of each module;
    - the checks (monitor_run.c) are a state machine over the signals of the
      client, with a stack of basic blocks and a stack of suspended calls
      (block_stack.c, call_stack.c); each accepted signal is answered, and a
      refused one ends in the client being killed;
    - monitor_dot.c dumps the graphs, shared.h fixes the wire format and
      the macros that read and write it.

    ** The files

    Semantic base:
    - [Prelude]: machine integers as [Z] with their wrap-around ([u8] ...
      [u64], [s32]); outcomes [res] of a C computation (a value, an undefined
      behaviour, an exhausted loop); pointers to owned allocations [cptr]
      (null, live, freed); checked arrays; the lemmas and hint databases on
      them.
    - [CSem]: bytes and little-endian fields; [world], what a process
      exchanges with its environment: the answers of the allocator (failure,
      in place, moved), of [pselect] and of [write], the packets in the two
      incoming pipes, the visible output, and a log of what it does on the pipes,
      in order ([w_log]); the monad [C] of computations on it; the packets of
      a write on the loading pipe ([write_load], [pipe_packets]).

    Components:
    - [Wire]: include/picon/shared.h (signals, answers, loading packets, the
      packed module-and-function number, the READ / WRITE / FREE macros).
    - [CStack], [BlockStack], [CallStack]: the two stacks.  They are the same
      code on two element types, so the code is in [CStack] with the
      allocations explicit, and the two others instantiate it.  The class
      [StackContract] is what a stack promises to [MonitorRun].
    - [MonitorData]: monitor_load.h, defs.h, defs.c; the well-formedness
      invariants [wf_data], [relocs_ok], [full_rows].
    - [MonitorRun]: monitor_run.c, each case of the switch a definition;
      [run_state] holds the local variables.
    - [Dot]: monitor_dot.c.
    - [LoadSections], [Relocate], [MonitorLoad]: monitor_load.c (section
      readers; relocations; modules, initialisation runs, release).  The
      release functions are written with an account of the allocations that are
      freed, in order ([monitor_data_free]).
    - [Main]: main.c.
    - [Client]: injected_code.c.
    - [Text]: what the pass and the script use of the C++ and Python libraries
      to write and read text (numbers, words, lines).
    - [Debug]: log.h, Debug.hh, [IdentifyBB] of CFI.cpp, DebugPrintRT.cpp.
    - [Ir]: the modules, functions, blocks, instructions and constants of LLVM
      as far as the pass observes or changes them, and their well-formedness.
    - [Pass]: llvm_pass/CFI/CFI.hh and CFI.cpp, a definition for each method of
      ControlFlowIntegrity, in a monad of assertions and fatal errors.
    - [Injector]: CFIInjector.cpp, and [runOnModule] of CFIModulePass.cpp.
    - [Prelink]: picon-prelink (parsers, packers, literals, packets sent).
    - [Startup]: the code that the script generates: the constructor of a binary
      (descriptors, packets, module number, then the constructors of the
      program), its destructor, the text of the wrappers; and the environment
      that main.c leaves to it.  The code of the program, and the state in which
      each binary has its copy of the support, are parameters.

    Specifications and the proofs that relate the components to them:
    - [RunSpec]: the pushdown automaton [astep] over signals, and the grammar
      ([run_trace]) of the traces of one activation; they are equivalent.
    - [RunRefine]: [monitor_run] simulates the automaton.
    - [RunTotal]: [monitor_run] ends, whatever its inputs.
    - [LoadWf], [LoadTotal], [LoadFree], [LoadSpec]: the loader keeps the
      data well-formed and links it, ends, frees each allocation that the data
      own exactly once (but for the arrays of a module without functions, which
      are never freed), and reads back what the encoders of the sections write.
    - [Sessions]: the successive runs of [main].
    - [LoadRuns]: the runs of the initialisation functions made by the loader,
      on the modules loaded so far.  [LoadAnswers]: the numbers of the modules
      are all that the monitor writes on the loading pipe.
    - [Failures]: a run that is accepted is the same when no allocation and no
      write fails and no time-out expires ([settled]).  [LoadFailures]: a load
      that succeeds builds the same data, but for the names that could not be
      copied ([data_le]), which the checks do not read.
    - [Network]: two logs played together by any scheduler, on pipes of bounded
      capacity ([advance], [never_blocks]).  [MonitorLog]: the log of a load and
      of the runs that are accepted.
    - [Protocol]: the log of any sequence of calls to the support and that of
      any runs of the monitor, played together: what a point of a schedule says
      of the two processes ([played]), how far the one can be ahead of the other
      ([reached_lag]), and that an accepted session goes on to its end
      ([session_closes]).
    - [LongSections]: what the loader makes of the writes that the pipe splits.
    - [PassTable], [PassAnalysis], [PassFiles], [InjectSpec], [PassRun]: what one
      compilation does: the table it reads and writes; what it finds in a
      module that is supported; the rows of the graphs it writes; the code it
      leaves ([instrument]); [runOnModule] as a whole.
    - [PassType], [PassRefusals], [PassLimits]: the module it leaves is
      well-formed; what it refuses; what it does not support or not detect.
    - [Exec]: executions of the code, and the signals they send; those of an
      instrumented function are wrapped as the grammar wants them.
    - [PrelinkSpec], [LoadPackets], [LoadModule]: the script reads back what the
      pass writes, the loader reads back what the script packs ([loaded]).
    - [Build], [BuildSpec], [BuildPack]: the compilations of a binary one after
      the other ([builds]), what its files say of it, what is packed of them.
    - [Program]: a process with its binaries, its dynamic linker and its monitor
      ([process]); executions of its instrumented code are activations.
    - [RelocTotal], [Binary], [Linking]: the relocations end; a binary and the
      module that is loaded from it; the binaries of a program in the order of
      loading and where the dynamic linker lands their calls
      ([linked_program]), which is where the relocations of the monitor do.
    - [Source]: the calls and branches of the source, the traces they allow.
    - [Processes]: a program of any number of binaries ([whole_program]): load,
      constructors, [main], destructors, and the verdict of the monitor in the
      terms of [Source]; what it accepts in a world with failures.
    - [StartupSpec], [Wrappers]: what the generated constructor does in any
      world; what the wrappers call.
    - [ClientProcess], [Closing]: the client process of a whole program, with a
      copy of the support for each binary; the two processes, each fed with what
      the other writes, and the schedules of their logs.
    - [Examples]: a library and a program that calls it, on which the
      theorems on the monitor are instantiated; [PassExamples]: two modules, on
      which those on the pass are; [ProgramExamples]: a library and a program,
      from their sources, on which those on whole programs are.

    ** The theorems

    Properties are numbered C1 to C40 by importance, in the comments before
    them; they are grouped by what they are about.
    - [PassProps]: from the sources to the verdict.  A compilation of a
      supported module ends and leaves a well-formed module; the compilations
      of a binary agree on one table, whose flags are the roles in the binary;
      the script accepts their files; the monitor that has loaded them allows
      exactly the direct calls and the branches of the code; an execution of
      instrumented functions is an activation of the grammar; and so a program
      of any number of binaries is accepted, the signals that are accepted are
      exactly those that follow the sources, and nothing else is accepted when
      writes fail or time-outs expire.  Then what is refused (indirect calls,
      invokes), and the limits (sections longer than a packet of the pipe, early
      returns, the lock, malformed tables, two modules that
      define the same name).
    - [StartupProps]: the client and the monitor close each other's loop, from the
      generated constructors to the last destructor, and never wait for each
      other, whatever the schedule; a constructor that cannot
      send its packets or get its number aborts before any code of the program;
      the wrappers call each constructor and destructor once.
    - [RunProps]: a run is accepted exactly when the signals are a
      trace of the grammar, refused at the first deviation without another
      answer; no undefined behaviour on ready data with full graphs;
      termination; the simulation and the equivalence of automaton and
      grammar; independence of tracing options.  Also what happens outside
      these hypotheses: a repeated signal, a graph row that was never
      allocated, a first read that fails.
    - [StackProps]: the stacks are stacks while the allocator grows
      allocations in place; the effect of a moving and of a failing realloc.
    - [WireProps]: round trips of signals, and of loading packets up to the
      length that the pipe does not split; short reads.
    - [LoadProps]: the loaded data satisfy what [RunProps] assumes;
      relocations point to the definition in the last module that has one;
      round trips of the sections; the guards on malformed sections;
      termination; release, each allocation once; where a call lands whose
      definition is not loaded yet.
    - [SystemProps]: the client continues only on CFI_OK; at each point of each
      schedule of the two processes it is at most one signal ahead of
      what the monitor has accepted; a session that the monitor accepts goes on
      to its end, whatever the schedule; from the first signal to
      the last, a process that exits with 0 has checked one trace per
      initialisation function of each module, then the sessions of the grammar
      and only those; it kills the client otherwise; what it accepts was
      written in packets that fit the pipe.

    ** Assumptions and bounds

    - [favourable w] (hypothesis of the theorems that say that something is
      accepted): the allocator grows allocations in place, writes complete, no
      time-out expires.  The code does not cope with a realloc that moves
      ([StackProps]); but what is accepted is the same without failures
      ([Failures], [LoadFailures]: a stack whose extension failed may lose its
      error, the run then ends undefined or refused), so that soundness assumes
      nothing of the environment.
    - [full_packet]: the client writes whole signals (it does, see [Client]).
    - [few_modules]: at most 2^16 modules, as many as a module number tells apart.
    - [has_function data 0 0]: the first module has a function, which is where
      a null relocation points.
    - [full_rows]: graphs without unallocated rows; without it a refusal may
      be a null dereference ([RunProps.null_row_read]).
    - The fuel of the two loops is computed from the world: [run_fuel] and
      [load_fuel] are the number of packets in the pipe plus two.  An
      iteration takes a packet or ends (the iteration after the last packet
      meets end of file, or a stale signal that is refused), so the fuel is
      never exhausted: [RunProps.run_terminates], [LoadProps.load_terminates].
    - Pipes are opened with O_DIRECT (packet mode): one read, one packet, and a
      write longer than [PIPE_BUF] is several ([pipe_packets]).  A write on the
      loading pipe puts all its packets or fails: a long write that stops in the
      middle is not represented.  The programs that
      are accepted have sections that fit ([small_packet]); the others are in
      [LongSections].  End of file and read errors are reads of no bytes.
    - [pass_env], [env_ok]: the pass is given the order in which a StringMap is
      iterated (any permutation), the analysis of post-dominators (any), the
      name LLVM gives to a new function (the one asked for, if it is free),
      whether assertions are compiled in, which files can be opened.
    - [py_env], [py_env_ok]: the order in which Python iterates a dictionary.
    - [supported]: what the pass wants of a module (no indirect call, no invoke,
      its names are words and not those of the support, global variables of the
      expected shape).
      [disciplined]: functions return from their last block only, and an ignored
      function is not compiled; [PassProps.early_return_refused] is about
      the others.  [proper_roles]: the constructors and destructors of a module
      are defined in it, and [main] is none of them.  [one_definition]: each
      name is defined in one module; [PassProps.duplicate_stops_prelink] is
      about the others.  [packable]: names are C strings, the rows and their lengths
      fit in 32 bits.
    - [runs k]: executions with at most [k] nested calls; a terminating
      execution has one such [k], so the theorems hold for all [k].  [resolve]
      is the choice of the dynamic linker; [process] says that the monitor
      chooses the same, which is proved in [Linking] from [linked_program]: the
      binaries are loaded after those they depend on, a function is called in
      the binary that defines it (no interposition), one binary at most defines
      a function that others call, all are compiled at one level with one list
      of ignored functions, and there are at most 2^16.
    - [whole_program]: [main] is in the last binary only, and the destructors can
      be counted on 32 bits.
    - [program_code]: the code of the functions that start is what [runs] says,
      and calls binaries that have started.  The dynamic linker runs the
      constructors in the order of loading and the destructors in the opposite
      one.
    - [roomy]: a pipe holds three packets at least, and one more than the answers
      that are preloaded (a pipe of Linux holds 16).
    - The fuel of [read_entries] is the length of the file, more than its
      entries; that of the literals likewise.

    ** Not modelled

    - In the pass: the texts of its fatal errors; types and attributes of the IR;
      exceptions (invoke is refused).
    - In the script: the text of the generated C besides the tables and the
      wrappers (the constructor is modelled by what it does).
    - Code that was not compiled with the pass: it sends no signal, and calls
      no function that does.
    - The texts of the messages of the monitor, the closing of descriptors, process
      identifiers, SIGPIPE masking beyond its success or failure, forks of the
      client. *)

From stdpp Require Export base list gmap numbers.
From Stdlib Require Export ZArith Lia.

#[export] Set Default Goal Selector "!".
#[export] Set Warnings "-clear-no-such-hyp".

Declare Scope picon_scope.
Delimit Scope picon_scope with picon.
Open Scope picon_scope.
Open Scope Z_scope.

(** ** Machine-width unsigned integers *)

Definition u8 (z : Z) : Z := z mod 2 ^ 8.
Definition u16 (z : Z) : Z := z mod 2 ^ 16.
Definition u32 (z : Z) : Z := z mod 2 ^ 32.
Definition u64 (z : Z) : Z := z mod 2 ^ 64.

(** Conversion of an unsigned value to [int]. *)
Definition s32 (z : Z) : Z := if decide (u32 z < 2 ^ 31) then u32 z else u32 z - 2 ^ 32.

(** [in_u n z]: [z] is a value of an unsigned [n]-bit type. *)
Definition in_u (n : Z) (z : Z) : Prop := 0 <= z < 2 ^ n.

#[export] Instance in_u_dec n z : Decision (in_u n z).
Proof. unfold in_u. apply _. Defined.

(** ** Outcomes of a C computation *)

(** The undefined behaviours of C that the modelled code can reach. *)
Inductive ub :=
| NullDeref      (* dereference of a null pointer *)
| OutOfBounds    (* access outside an allocation *)
| UseAfterFree   (* access through a pointer to freed memory *)
| DoubleFree     (* free of a freed pointer *)
| UninitRead     (* read of an object that was never written *)
| BadPointerOp.  (* comparison or subtraction of unrelated pointers *)

(** A computation returns a value, has undefined behaviour, or (loops only)
    has exhausted the fuel it was given. *)
Inductive res (A : Type) :=
| Val (a : A)
| Undef (u : ub)
| NoFuel.
Arguments Val {A} a.
Arguments Undef {A} u.
Arguments NoFuel {A}.

#[export] Instance ub_eq_dec : EqDecision ub.
Proof. solve_decision. Defined.

#[export] Instance Val_inj {A} : Inj (=) (=) (@Val A).
Proof. by intros ?? [= ->]. Qed.

#[export] Instance res_ret : MRet res := @Val.
#[export] Instance res_bind : MBind res := λ A B f m,
  match m with
  | Val a => f a
  | Undef u => Undef u
  | NoFuel => NoFuel
  end.

(** Lazy disjunction and conjunction: the second operand is evaluated only
    when C evaluates it. *)
Definition res_or (a b : res bool) : res bool :=
  x ← a; if (x : bool) then Val true else b.
Definition res_and (a b : res bool) : res bool :=
  x ← a; if (x : bool) then b else Val false.

Notation "a |||| b" := (res_or a b) (at level 50, left associativity) : picon_scope.
Notation "a &&&& b" := (res_and a b) (at level 40, left associativity) : picon_scope.

(** A condition with no memory access. *)
Definition tst (b : bool) : res bool := Val b.
Arguments tst b /.

(** ** Pointers that own what they point to *)

(** A pointer field that is the only owner of its allocation: null, live with
    the contents of the allocation, or left pointing to freed memory. *)
Inductive cptr (A : Type) :=
| Null
| Live (a : A)
| Dangling.
Arguments Null {A}.
Arguments Live {A} a.
Arguments Dangling {A}.

(** Dereference. *)
Definition deref {A} (p : cptr A) : res A :=
  match p with
  | Live a => Val a
  | Null => Undef NullDeref
  | Dangling => Undef UseAfterFree
  end.

(** The condition [if(p)]. *)
Definition non_null {A} (p : cptr A) : bool :=
  match p with Null => false | _ => true end.

(** [free(p)]: nothing for a null pointer; afterwards the pointer dangles. *)
Definition free {A} (p : cptr A) : res (cptr A) :=
  match p with
  | Null => Val Null
  | Live _ => Val Dangling
  | Dangling => Undef DoubleFree
  end.

(** Array access [a[i]] and assignment [a[i] = x]. *)
Definition arr_get {A} (l : list A) (i : Z) : res A :=
  if decide (0 <= i) then
    match l !! Z.to_nat i with
    | Some x => Val x
    | None => Undef OutOfBounds
    end
  else Undef OutOfBounds.

Definition arr_set {A} (l : list A) (i : Z) (x : A) : res (list A) :=
  if decide (0 <= i < Z.of_nat (length l)) then Val (<[Z.to_nat i := x]> l)
  else Undef OutOfBounds.

(** [calloc(n, sizeof x)] of [n] zeroed elements. *)
Definition zeroed {A} (n : Z) (x : A) : list A := replicate (Z.to_nat n) x.

(** ** Tactics *)

(** Case on the scrutinee of a [match] or of a [decide]. *)
Ltac case_split :=
  match goal with
  | |- context [decide ?P] => destruct (decide P)
  | |- context [match ?x with _ => _ end] => destruct x eqn:?
  | H : context [decide ?P] |- _ => destruct (decide P)
  | H : context [match ?x with _ => _ end] |- _ => destruct x eqn:?
  end.

(** Decompose [(x ← m; k) = Val b] into its two steps, repeatedly. *)
Ltac inv_res :=
  repeat match goal with
  | H : Val _ = Val _ |- _ => injection H as H; try subst
  | H : Undef _ = Val _ |- _ => discriminate H
  | H : NoFuel = Val _ |- _ => discriminate H
  | H : (?m ≫= ?f) = Val _ |- _ =>
      let a := fresh "a" in let E := fresh "E" in
      destruct m as [a| |] eqn:E; cbn [mbind res_bind] in H; [|discriminate H|discriminate H]
  end.

(** Equations between lengths of concatenations. *)
Ltac solve_length :=
  repeat (cbn [length app]; rewrite ?length_app, ?length_fmap, ?length_reverse); lia.

(** ** Lemmas on outcomes and arrays *)

Lemma res_bind_Val {A B} (a : A) (f : A → res B) : (Val a ≫= f) = f a.
Proof. done. Qed.

Lemma res_bind_inv {A B} (m : res A) (f : A → res B) b :
  m ≫= f = Val b → ∃ a, m = Val a ∧ f a = Val b.
Proof. destruct m; naive_solver. Qed.

Lemma res_or_true a b : (a |||| b) = Val true ↔ a = Val true ∨ (a = Val false ∧ b = Val true).
Proof. destruct a as [[]| |]; cbn; naive_solver. Qed.

Lemma res_or_false a b : (a |||| b) = Val false ↔ a = Val false ∧ b = Val false.
Proof. destruct a as [[]| |]; cbn; naive_solver. Qed.

Lemma res_and_true a b : (a &&&& b) = Val true ↔ a = Val true ∧ b = Val true.
Proof. destruct a as [[]| |]; cbn; naive_solver. Qed.

Lemma res_and_false a b : (a &&&& b) = Val false ↔ a = Val false ∨ (a = Val true ∧ b = Val false).
Proof. destruct a as [[]| |]; cbn; naive_solver. Qed.

Lemma deref_Val {A} (p : cptr A) a : deref p = Val a ↔ p = Live a.
Proof. destruct p; naive_solver. Qed.

Lemma arr_get_Val {A} (l : list A) i x :
  arr_get l i = Val x ↔ 0 <= i ∧ l !! Z.to_nat i = Some x.
Proof. unfold arr_get. repeat case_split; naive_solver lia. Qed.

Lemma arr_get_nat {A} (l : list A) (n : nat) x :
  l !! n = Some x → arr_get l (Z.of_nat n) = Val x.
Proof. intros H. apply arr_get_Val. rewrite Nat2Z.id. split; [lia|done]. Qed.

Lemma arr_get_in_range {A} (l : list A) i :
  0 <= i < Z.of_nat (length l) → ∃ x, arr_get l i = Val x.
Proof.
  intros [? ?]. destruct (lookup_lt_is_Some_2 l (Z.to_nat i)) as [x Hx]; [lia|].
  exists x. by apply arr_get_Val.
Qed.

Lemma arr_get_lt {A} (l : list A) i x : arr_get l i = Val x → 0 <= i < Z.of_nat (length l).
Proof. rewrite arr_get_Val. intros [? H%lookup_lt_Some]. lia. Qed.

Lemma arr_get_NoFuel {A} (l : list A) i : arr_get l i ≠ NoFuel.
Proof. unfold arr_get. by repeat case_split. Qed.

Lemma arr_set_Val {A} (l l' : list A) i x :
  arr_set l i x = Val l' ↔ 0 <= i < Z.of_nat (length l) ∧ l' = <[Z.to_nat i := x]> l.
Proof. unfold arr_set. repeat case_split; naive_solver. Qed.

Lemma arr_set_length {A} (l l' : list A) i x :
  arr_set l i x = Val l' → length l' = length l.
Proof. intros [_ ->]%arr_set_Val. apply length_insert. Qed.

Lemma arr_get_set {A} (l l' : list A) i j x :
  arr_set l i x = Val l' → 0 <= j →
  arr_get l' j = if decide (i = j) then Val x else arr_get l j.
Proof.
  intros [Hi ->]%arr_set_Val Hj. unfold arr_get.
  rewrite !(decide_True _ _ Hj). destruct (decide (i = j)) as [<-|Hne].
  - rewrite list_lookup_insert_eq; [done|lia].
  - rewrite list_lookup_insert_ne; [done|lia].
Qed.

Lemma arr_set_in_range {A} (l : list A) i x :
  0 <= i < Z.of_nat (length l) → arr_set l i x = Val (<[Z.to_nat i := x]> l).
Proof. intros H. by apply arr_set_Val. Qed.

Lemma arr_get_insert {A} (l : list A) i j x : 0 <= i < Z.of_nat (length l) →
  arr_get (<[Z.to_nat i := x]> l) j = if decide (j = i) then Val x else arr_get l j.
Proof.
  intros Hi. unfold arr_get. case_decide; case_decide; subst; try done; try lia.
  - by rewrite list_lookup_insert_eq by lia.
  - by rewrite list_lookup_insert_ne by lia.
Qed.

Lemma zeroed_length {A} n (x : A) : 0 <= n → Z.of_nat (length (zeroed n x)) = n.
Proof. intros. unfold zeroed. rewrite length_replicate. lia. Qed.

Lemma zeroed_get {A} n (x : A) i : 0 <= i < n → arr_get (zeroed n x) i = Val x.
Proof.
  intros. apply arr_get_Val. unfold zeroed. rewrite lookup_replicate.
  repeat split; lia.
Qed.

Lemma arr_get_zeroed_inv {A} n (x y : A) i : arr_get (zeroed n x) i = Val y → y = x.
Proof. intros [_ H]%arr_get_Val. by apply lookup_replicate in H as [-> _]. Qed.

(** The last elements of a list that was pushed on. *)
Lemma lookup_pushed {A} (l : list A) x : (l ++ [x]) !! (length (l ++ [x]) - 1)%nat = Some x.
Proof.
  rewrite length_app. cbn [length]. replace (length l + 1 - 1)%nat with (length l + 0)%nat by lia.
  by rewrite lookup_app_r, Nat.add_comm, Nat.add_sub by lia.
Qed.

Lemma lookup_pushed_below {A} (l : list A) x y :
  (l ++ [x; y]) !! (length (l ++ [x; y]) - 2)%nat = Some x.
Proof.
  rewrite length_app. cbn [length]. replace (length l + 2 - 2)%nat with (length l + 0)%nat by lia.
  by rewrite lookup_app_r, Nat.add_comm, Nat.add_sub by lia.
Qed.

(** Two elements of a list without duplicates of [f] that agree on [f]. *)
Lemma NoDup_fmap_elem {A B} (f : A → B) (l : list A) x y :
  NoDup (f <$> l) → x ∈ l → y ∈ l → f x = f y → x = y.
Proof.
  intros Hnd [i Hi]%list_elem_of_lookup [j Hj]%list_elem_of_lookup E.
  assert (i = j) as ->; [|congruence].
  eapply NoDup_lookup; [exact Hnd| |]; rewrite list_lookup_fmap, ?Hi, ?Hj; cbn; [done|by rewrite E].
Qed.

(** Hints on in-range accesses, used by [eauto with arr]. *)
Create HintDb arr discriminated.
Create Rewrite HintDb arrlen.
#[export] Hint Resolve arr_get_nat arr_get_in_range zeroed_get arr_set_in_range : arr.
#[export] Hint Rewrite @zeroed_length using lia : arrlen.
