(* ===== verification/CSem.v ===== *)
(** * C environment of the modelled programs

    Bytes and little-endian fields, the world a process of Picon interacts
    with (answers of the allocator and of the system calls, results of the
    pipe reads, output), and the monad of world-transforming computations in
    which the stateful functions of the monitor are written. *)

From S2P Require Import Prelude.
From Stdlib Require Import Strings.Byte NArith.

(** ** Bytes *)

Definition byte_to_Z (b : byte) : Z := Z.of_N (Byte.to_N b).
Definition byte_of_Z (z : Z) : byte :=
  match Byte.of_N (Z.to_N (u8 z)) with Some b => b | None => x00 end.

#[export] Instance byte_eq_decision : EqDecision byte := Byte.byte_eq_dec.

(** Little-endian representation on [n] bytes, and its value. *)
Fixpoint le_bytes (n : nat) (z : Z) : list byte :=
  match n with
  | O => []
  | S n => byte_of_Z z :: le_bytes n (z / 256)
  end.

Fixpoint le_value (bs : list byte) : Z :=
  match bs with
  | [] => 0
  | b :: bs => byte_to_Z b + 256 * le_value bs
  end.

(** The [len] bytes at offset [off] of a buffer, as an unsigned integer. *)
Definition field (bs : list byte) (off len : nat) : res Z :=
  let s := take len (drop off bs) in
  if decide (length s = len) then Val (le_value s) else Undef OutOfBounds.

(** ** The world *)

(** Answer of the allocator: failure, success, or (for [realloc]) success
    with the allocation moved to another address. *)
Inductive alloc_outcome := AFail | AInPlace | AMoved.

#[export] Instance alloc_outcome_eq_dec : EqDecision alloc_outcome.
Proof. solve_decision. Defined.

(** Visible effects. *)
Inductive out_event :=
| OSig (bs : list byte)                   (* packet on the outgoing signal pipe *)
| OLoad (bs : list byte)                  (* packet on the outgoing loading pipe *)
| OTraceCall (module function : Z)        (* line of [call_stack_trace] *)
| OTraceBlock (block : Z)                 (* line of [block_stack_trace] *)
| ODot (line : list byte)                 (* line printed by monitor_dot.c *)
| OKill                                   (* SIGKILL sent to the client *)
| OExec.                                  (* execve of the monitored program *)

(** The two pairs of pipes, and what a process does on them, in order: a packet
    written, a packet read, a read that found the end of the file. *)
Inductive pipe := PSig | PLoad.
Inductive action :=
| Sent (p : pipe) (bs : list byte)
| Got (p : pipe) (bs : list byte)
| Eof (p : pipe).

Definition on_pipe (p : pipe) (e : out_event) : option (list byte) :=
  match p, e with PSig, OSig bs | PLoad, OLoad bs => Some bs | _, _ => None end.

(** What was written on an outgoing pipe. *)
Definition output (p : pipe) (out : list out_event) : list (list byte) := omap (on_pipe p) out.

(** What a visible effect is on the pipes. *)
Definition sent_of (e : out_event) : list action :=
  match e with OSig bs => [Sent PSig bs] | OLoad bs => [Sent PLoad bs] | _ => [] end.

(** What the environment will answer.  A list that is exhausted stands for an
    environment that answers favourably from then on (allocation in place,
    signal ready, write complete), except for the pipes, whose reads return
    nothing once exhausted (end of file).  [w_out] and [w_log] are what the
    process did: its visible effects, and its actions on the pipes. *)
Record world := MkWorld {
  w_alloc : list alloc_outcome;
  w_select : list bool;
  w_write : list bool;
  w_sig : list (list byte);
  w_load : list (list byte);
  w_out : list out_event;
  w_log : list action;
}.

(** A world in which nothing was done on the pipes yet. *)
Abbreviation World al se wr sg ld out := (MkWorld al se wr sg ld out []) (only parsing).

(** ** Computations *)

Definition C (A : Type) : Type := world → res (A * world).

#[export] Instance C_ret : MRet C := λ A a w, Val (a, w).
#[export] Instance C_bind : MBind C := λ A B f m w,
  match m w with
  | Val (a, w') => f a w'
  | Undef u => Undef u
  | NoFuel => NoFuel
  end.

(** A computation that does not touch the world. *)
Definition lift {A} (r : res A) : C A := λ w,
  match r with
  | Val a => Val (a, w)
  | Undef u => Undef u
  | NoFuel => NoFuel
  end.

Definition undef {A} (u : ub) : C A := λ _, Undef u.

(** The next answer of the allocator. *)
Definition next_alloc : C alloc_outcome := λ w,
  match w_alloc w with
  | [] => Val (AInPlace, w)
  | o :: os => Val (o, MkWorld os (w_select w) (w_write w) (w_sig w) (w_load w) (w_out w) (w_log w))
  end.

(** Does the next [calloc] or [strdup] succeed? *)
Definition alloc_ok : C bool :=
  o ← next_alloc; mret (bool_decide (o ≠ AFail)).

(** Does the next [pselect] report a signal in time? *)
Definition next_select : C bool := λ w,
  match w_select w with
  | [] => Val (true, w)
  | b :: bs => Val (b, MkWorld (w_alloc w) bs (w_write w) (w_sig w) (w_load w) (w_out w) (w_log w))
  end.

(** Record a visible effect. *)
Definition emit (e : out_event) : C unit := λ w,
  Val ((), MkWorld (w_alloc w) (w_select w) (w_write w) (w_sig w) (w_load w) (w_out w ++ [e]) (w_log w ++ sent_of e)).

(** Several effects at once. *)
Definition emits (w : world) (es : list out_event) : world :=
  MkWorld (w_alloc w) (w_select w) (w_write w) (w_sig w) (w_load w) (w_out w ++ es) (w_log w ++ (es ≫= sent_of)).

(** A [write] that completes or not; a complete one is visible. *)
Definition write_bytes (e : out_event) : C bool := λ w,
  let ok := match w_write w with [] => true | b :: _ => b end in
  Val (ok, MkWorld (w_alloc w) (w_select w) (tail (w_write w)) (w_sig w) (w_load w)
                 (if ok then w_out w ++ [e] else w_out w) (if ok then w_log w ++ sent_of e else w_log w)).

(** A world where one more action was done. *)
Definition log (w : world) (a : action) : world :=
  MkWorld (w_alloc w) (w_select w) (w_write w) (w_sig w) (w_load w) (w_out w) (w_log w ++ [a]).

(** A pipe opened with [O_DIRECT] (main.c opens all of them so) keeps the writes
    apart as packets of at most [PIPE_BUF] bytes: a longer write is split. *)
Definition PIPE_BUF : Z := 4096.

Fixpoint split_packets (fuel : nat) (bs : list byte) : list (list byte) :=
  match fuel, bs with
  | S fuel, _ :: _ => take (Z.to_nat PIPE_BUF) bs :: split_packets fuel (drop (Z.to_nat PIPE_BUF) bs)
  | _, _ => []
  end.

(** The packets that a [write] of [bs] makes. *)
Definition pipe_packets (bs : list byte) : list (list byte) := split_packets (length bs) bs.

(** A [write] of [bs] on the loading pipe, that completes or not; a complete one
    is visible as the packets it makes. *)
Definition write_load (bs : list byte) : C bool := λ w,
  let ok := match w_write w with [] => true | b :: _ => b end in
  let w' := MkWorld (w_alloc w) (w_select w) (tail (w_write w)) (w_sig w) (w_load w) (w_out w) (w_log w) in
  Val (ok, if ok then emits w' (OLoad <$> pipe_packets bs) else w').

(** [read(fd, buf, n)] on the incoming signal pipe (for the monitor the pipe
    client to monitor, for the client the pipe monitor to client): at most [n]
    bytes of the next packet: a read returns bytes of one packet, the bytes of
    it beyond [n] are lost.  End of file and errors are reads of no bytes. *)
Definition read_sig (n : nat) : C (list byte) := λ w,
  match w_sig w with
  | [] => Val ([], log w (Eof PSig))
  | p :: ps => Val (take n p, MkWorld (w_alloc w) (w_select w) (w_write w) ps (w_load w) (w_out w)
                                      (w_log w ++ [Got PSig p]))
  end.

(** [read(fd, buf, n)] on the incoming loading pipe (for the monitor the pipe
    loading to monitor, for the loading code the pipe monitor to loading). *)
Definition read_load (n : nat) : C (list byte) := λ w,
  match w_load w with
  | [] => Val ([], log w (Eof PLoad))
  | p :: ps => Val (take n p, MkWorld (w_alloc w) (w_select w) (w_write w) (w_sig w) ps (w_out w)
                                      (w_log w ++ [Got PLoad p]))
  end.

(** The contents of an object after a read of [new] at its start. *)
Definition overlay {A} (new old : list A) : list A := new ++ drop (length new) old.

(** [calloc]: [NULL] on failure. *)
Definition calloc {A} (n : Z) (x : A) : C (cptr (list A)) :=
  ok ← alloc_ok; mret (if (ok : bool) then Live (zeroed n x) else Null).

(** ** Lemmas *)

Lemma byte_to_Z_range b : 0 <= byte_to_Z b < 256.
Proof. unfold byte_to_Z. pose proof (Byte.to_N_bounded b). lia. Qed.

Lemma byte_to_of_Z z : byte_to_Z (byte_of_Z z) = u8 z.
Proof.
  unfold byte_of_Z, byte_to_Z.
  assert (0 <= u8 z < 256) by (unfold u8; apply Z.mod_pos_bound; lia).
  destruct (Byte.of_N (Z.to_N (u8 z))) as [b|] eqn:E.
  - apply Byte.to_of_N in E. lia.
  - apply Byte.of_N_None_iff in E. lia.
Qed.

Lemma byte_of_to_Z b : byte_of_Z (byte_to_Z b) = b.
Proof.
  pose proof (byte_to_Z_range b). unfold byte_of_Z, u8.
  rewrite Z.mod_small by lia. unfold byte_to_Z. rewrite N2Z.id.
  by rewrite Byte.of_to_N.
Qed.

Lemma le_bytes_length n z : length (le_bytes n z) = n.
Proof. revert z. induction n as [|n IH]; intros z; cbn; [done|by rewrite IH]. Qed.

Lemma le_value_range bs : 0 <= le_value bs < 256 ^ Z.of_nat (length bs).
Proof.
  induction bs as [|b bs IH]; cbn [le_value length]; [done|].
  rewrite Nat2Z.inj_succ, Z.pow_succ_r by lia.
  pose proof (byte_to_Z_range b). lia.
Qed.

Lemma le_value_bytes n z : le_value (le_bytes n z) = z mod 256 ^ Z.of_nat n.
Proof.
  revert z. induction n as [|n IH]; intros z.
  - cbn. by rewrite Z.mod_1_r.
  - cbn [le_bytes le_value]. rewrite IH, byte_to_of_Z. unfold u8.
    rewrite Nat2Z.inj_succ, Z.pow_succ_r by lia.
    change (2 ^ 8) with 256.
    rewrite Z.rem_mul_r by (try apply Z.pow_nonzero; lia). lia.
Qed.

Lemma le_bytes_value bs : le_bytes (length bs) (le_value bs) = bs.
Proof.
  induction bs as [|b bs IH]; cbn [le_bytes le_value length]; [done|].
  pose proof (byte_to_Z_range b).
  f_equal.
  - transitivity (byte_of_Z (byte_to_Z b)); [|apply byte_of_to_Z].
    unfold byte_of_Z, u8. change (2 ^ 8) with 256.
    rewrite (Z.mul_comm 256), Z.mod_add by lia. done.
  - rewrite (Z.mul_comm 256), Z.div_add by lia.
    rewrite Z.div_small by lia. cbn. apply IH.
Qed.

Lemma le_value_small n z :
  in_u (8 * Z.of_nat n) z → le_value (le_bytes n z) = z.
Proof.
  intros Hz. rewrite le_value_bytes.
  unfold in_u in Hz. rewrite Z.pow_mul_r in Hz by lia. change (2 ^ 8) with 256 in Hz.
  by rewrite Z.mod_small.
Qed.

Lemma field_app_l (a b : list byte) off len :
  (off + len <= length a)%nat → field (a ++ b) off len = field a off len.
Proof.
  intros. unfold field. rewrite drop_app_le by lia.
  rewrite take_app_le; [done|]. rewrite length_drop. lia.
Qed.

Lemma field_skip (a b : list byte) off len :
  (length a <= off)%nat → field (a ++ b) off len = field b (off - length a) len.
Proof. intros. unfold field. by rewrite drop_app_ge by lia. Qed.

Lemma field_le_bytes n z rest :
  in_u (8 * Z.of_nat n) z → field (le_bytes n z ++ rest) 0 n = Val z.
Proof.
  intros. unfold field. cbn [drop]. rewrite drop_0.
  rewrite take_app_length' by (by rewrite le_bytes_length).
  rewrite le_bytes_length, decide_True by done. by rewrite le_value_small.
Qed.

(** *** Packets *)

Lemma pipe_packets_short bs : bs ≠ [] → Z.of_nat (length bs) <= PIPE_BUF → pipe_packets bs = [bs].
Proof.
  intros Hne Hl. unfold pipe_packets. destruct bs as [|b bs]; [done|]. cbn [length split_packets].
  rewrite take_ge, drop_ge by lia. by destruct (length bs).
Qed.

Lemma pipe_packets_head bs : bs ≠ [] → ∃ ps, pipe_packets bs = take (Z.to_nat PIPE_BUF) bs :: ps.
Proof. intros Hne. unfold pipe_packets. destruct bs as [|b bs]; [done|]. by eexists. Qed.

Lemma pipe_packets_field z : pipe_packets (le_bytes 4 z) = [le_bytes 4 z].
Proof. by apply pipe_packets_short; [|rewrite le_bytes_length]. Qed.

(** *** The monad *)

Lemma C_bind_eq {A B} (m : C A) (f : A → C B) w :
  (m ≫= f) w = match m w with
               | Val (a, w') => f a w'
               | Undef u => Undef u
               | NoFuel => NoFuel
               end.
Proof. done. Qed.

Lemma C_bind_inv {A B} (m : C A) (f : A → C B) w r :
  (m ≫= f) w = Val r → ∃ a w', m w = Val (a, w') ∧ f a w' = Val r.
Proof. rewrite C_bind_eq. repeat case_split; naive_solver. Qed.

Lemma C_bind_step {A B} (m : C A) (f : A → C B) w a w' :
  m w = Val (a, w') → (m ≫= f) w = f a w'.
Proof. rewrite C_bind_eq. by intros ->. Qed.

Lemma C_ret_eq {A} (a : A) w : (mret a : C A) w = Val (a, w).
Proof. done. Qed.

Lemma lift_Val {A} (a : A) w : lift (Val a) w = Val (a, w).
Proof. done. Qed.

Lemma lift_inv {A} (r : res A) w a w' : lift r w = Val (a, w') ↔ r = Val a ∧ w' = w.
Proof. destruct r; cbn; naive_solver. Qed.

Lemma emits_nil w : emits w [] = w.
Proof. unfold emits. destruct w; cbn. by rewrite !app_nil_r. Qed.

Lemma emits_app w es1 es2 : emits w (es1 ++ es2) = emits (emits w es1) es2.
Proof. unfold emits. cbn. by rewrite bind_app, !app_assoc. Qed.

Lemma emit_emits w e : emits w [e] =
  MkWorld (w_alloc w) (w_select w) (w_write w) (w_sig w) (w_load w) (w_out w ++ [e]) (w_log w ++ sent_of e).
Proof. unfold emits. cbn. by rewrite app_nil_r. Qed.

(** Symbolic execution: inversion of a terminated computation. *)
Ltac inv_C :=
  repeat match goal with
  | H : Val _ = Val _ |- _ => injection H as H; try subst
  | H : (_, _) = (_, _) |- _ => injection H as H; try subst
  | H : Undef _ = Val _ |- _ => discriminate H
  | H : NoFuel = Val _ |- _ => discriminate H
  | H : undef _ _ = Val _ |- _ => discriminate H
  | H : (mret _ : C _) _ = Val _ |- _ => rewrite C_ret_eq in H
  | H : lift _ _ = Val (_, _) |- _ => apply lift_inv in H as [H ?]; try subst
  | H : (_ ≫= _) _ = Val _ |- _ =>
      let a := fresh "a" in let w' := fresh "w" in let E := fresh "E" in
      apply C_bind_inv in H as (a & w' & E & H)
  end.

(** Symbolic execution of a goal. *)
Ltac C_run :=
  repeat first
    [ rewrite C_bind_eq | rewrite lift_Val | rewrite C_ret_eq | progress cbn
    | rewrite (decide_True (P := ?[x] = ?x)) by reflexivity ].
