(* ===== verification/Wire.v ===== *)
(** * Messages exchanged by the client and the monitor (include/picon/shared.h)

    Signals and answers of the run-time protocol, packets of the loading
    protocol with their section layouts, identifiers packed on 64 bits, and
    the macros that read and write the messages on the pipes. *)

From S2P Require Import Prelude CSem.
From Stdlib Require Import Strings.Byte.

(** ** Signals of the client *)

Inductive client_event :=
| CFI_BEFORE_JUMP
| CFI_AFTER_JUMP
| CFI_CALL
| CFI_ENTER
| CFI_EXIT
| CFI_RETURNED.

#[export] Instance client_event_eq_dec : EqDecision client_event.
Proof. solve_decision. Defined.

(** Values the compiler gives to the enumerators. *)
Definition client_event_code (e : client_event) : Z :=
  match e with
  | CFI_BEFORE_JUMP => 0
  | CFI_AFTER_JUMP => 1
  | CFI_CALL => 2
  | CFI_ENTER => 3
  | CFI_EXIT => 4
  | CFI_RETURNED => 5
  end.

(** The case of a [switch] on the enumeration; [None] is [default]. *)
Definition client_event_case (z : Z) : option client_event :=
  if decide (z = 0) then Some CFI_BEFORE_JUMP
  else if decide (z = 1) then Some CFI_AFTER_JUMP
  else if decide (z = 2) then Some CFI_CALL
  else if decide (z = 3) then Some CFI_ENTER
  else if decide (z = 4) then Some CFI_EXIT
  else if decide (z = 5) then Some CFI_RETURNED
  else None.

(** [module_id] is 16 bits wide, [function_id] and [block_id] 32 bits. *)
Record client_signal := ClientSignal {
  sig_event : Z;     (* 8 bits *)
  sig_module : Z;    (* module_id *)
  sig_function : Z;  (* function_id *)
  sig_block : Z;     (* block_id *)
}.

#[export] Instance client_signal_eq_dec : EqDecision client_signal.
Proof. solve_decision. Defined.

(** [sizeof(client_signal)]: the structure is packed. *)
Definition sizeof_client_signal : nat := 1 + 2 + 4 + 4.

Definition client_signal_bytes (s : client_signal) : list byte :=
  le_bytes 1 (sig_event s) ++ le_bytes 2 (sig_module s) ++
  le_bytes 4 (sig_function s) ++ le_bytes 4 (sig_block s).

(** A signal every field of which fits its type. *)
Definition wf_signal (s : client_signal) : Prop :=
  in_u 8 (sig_event s) ∧ in_u 16 (sig_module s) ∧
  in_u 32 (sig_function s) ∧ in_u 32 (sig_block s).

#[export] Instance wf_signal_dec s : Decision (wf_signal s).
Proof. unfold wf_signal. apply _. Defined.

(** An object in memory, byte by byte; [None] is a byte never written. *)
Abbreviation object := (list (option byte)) (only parsing).

Definition uninit (n : nat) : object := replicate n None.

(** Read of the [len]-byte field at offset [off]. *)
Definition obj_field (o : object) (off len : nat) : res Z :=
  match mapM id (take len (drop off o)) with
  | Some bs => if decide (length bs = len) then Val (le_value bs) else Undef OutOfBounds
  | None => Undef UninitRead
  end.

Definition get_event (o : object) : res Z := obj_field o 0 1.
Definition get_module (o : object) : res Z := obj_field o 1 2.
Definition get_function (o : object) : res Z := obj_field o 3 4.
Definition get_block (o : object) : res Z := obj_field o 7 4.

(** [READ_CLIENT_SIGNAL(fd, dst, err)]: a short read leaves in [dst] the bytes
    it did not overwrite. *)
Definition READ_CLIENT_SIGNAL (dst : object) (err : Z) : C (object * Z) :=
  bs ← read_sig sizeof_client_signal;
  mret (overlay (Some <$> bs) dst,
        if decide (length bs ≠ sizeof_client_signal) then 1 else err).

(** [WRITE_CLIENT_SIGNAL(fd, dst, err)] *)
Definition WRITE_CLIENT_SIGNAL (s : client_signal) (err : Z) : C Z :=
  ok ← write_bytes (OSig (client_signal_bytes s));
  mret (if (ok : bool) then err else 1).

(** ** Answers of the monitor *)

Definition CFI_OK : Z := 0x42.

Definition sizeof_monitor_answer : nat := 1.

(** [READ_MONITOR_ANSWER(fd, dst, err)] *)
Definition READ_MONITOR_ANSWER (dst : object) (err : Z) : C (object * Z) :=
  bs ← read_sig sizeof_monitor_answer;
  mret (overlay (Some <$> bs) dst,
        if decide (length bs ≠ sizeof_monitor_answer) then 1 else err).

(** [WRITE_MONITOR_ANSWER(fd, dst, err)] *)
Definition WRITE_MONITOR_ANSWER (answer : Z) (err : Z) : C Z :=
  ok ← write_bytes (OSig (le_bytes 1 answer));
  mret (if (ok : bool) then err else 1).

(** ** Module and function identifiers on 64 bits *)

Definition MODULE_FUNCTION_GET_MODULE (r : Z) : Z := u16 (Z.shiftr r 32).
Definition MODULE_FUNCTION_GET_FUNCTION (r : Z) : Z := u32 (Z.land r 0xffffffff).
Definition MODULE_FUNCTION (m f : Z) : Z :=
  Z.lor (u64 (Z.shiftl (u64 m) 32)) (Z.land (u64 f) 0xffffffff).

(** ** Function flags *)

Definition FCT_INTERNAL : Z := 0.
Definition FCT_EXTERNAL : Z := 1.
Definition FCT_INIT : Z := 2.
Definition FCT_FINI : Z := 3.
Definition FCT_MAIN : Z := 4.

(** ** Layout of the sections *)

(** [msg_fct_t]: [f_id], [f_flags], then the name, terminated by a null byte. *)
Definition msg_fct_f_id (p : list byte) : res Z := field p 0 4.
Definition msg_fct_f_flags (p : list byte) : res Z := field p 4 4.
Definition msg_fct_f_name (p : list byte) : list byte := drop 8 p.

(** [msg_fct_l], [msg_fct_trans_l], [msg_block_ipd_l]: a count, then the list. *)
Definition msg_num (p : list byte) : res Z := field p 0 4.
Definition msg_list (p : list byte) : list byte := drop 4 p.

(** [msg_fct_trans_t] and [msg_block_trans_t]: an identifier, a count and an
    array of identifiers. *)
Definition sizeof_msg_trans : nat := 8.
Definition msg_trans_id (p : list byte) : res Z := field p 0 4.
Definition msg_trans_count (p : list byte) : res Z := field p 4 4.
Definition msg_trans_array (p : list byte) : list byte := drop 8 p.

(** [msg_block_trans_l]: [f_id], [num_block], [num_block_trans], the list. *)
Definition msg_block_trans_f_id (p : list byte) : res Z := field p 0 4.
Definition msg_block_trans_num_block (p : list byte) : res Z := field p 4 4.
Definition msg_block_trans_num_block_trans (p : list byte) : res Z := field p 8 4.
Definition msg_block_trans_list (p : list byte) : list byte := drop 12 p.

(** [msg_block_ipd_t]: [f_id], [b_id], [b_ipd_id], [b_last_id]. *)
Definition sizeof_msg_block_ipd : nat := 16.
Definition msg_block_ipd_f_id (p : list byte) : res Z := field p 0 4.
Definition msg_block_ipd_b_id (p : list byte) : res Z := field p 4 4.
Definition msg_block_ipd_b_ipd_id (p : list byte) : res Z := field p 8 4.

(** ** Loading packets *)

Inductive loading_event :=
| CFI_LOADING_MODULE_BEGIN
| CFI_LOADING_SECTION_FUNCTION_ID
| CFI_LOADING_SECTION_FUNCTION_TRANSITION
| CFI_LOADING_SECTION_BLOCK_TRANSITION
| CFI_LOADING_SECTION_BLOCK_IPD
| CFI_LOADING_MODULE_END
| CFI_LOADING_TERMINATED.

#[export] Instance loading_event_eq_dec : EqDecision loading_event.
Proof. solve_decision. Defined.

Definition loading_event_code (e : loading_event) : Z :=
  match e with
  | CFI_LOADING_MODULE_BEGIN => 0
  | CFI_LOADING_SECTION_FUNCTION_ID => 1
  | CFI_LOADING_SECTION_FUNCTION_TRANSITION => 2
  | CFI_LOADING_SECTION_BLOCK_TRANSITION => 3
  | CFI_LOADING_SECTION_BLOCK_IPD => 4
  | CFI_LOADING_MODULE_END => 5
  | CFI_LOADING_TERMINATED => 6
  end.

Definition loading_event_case (z : Z) : option loading_event :=
  if decide (z = 0) then Some CFI_LOADING_MODULE_BEGIN
  else if decide (z = 1) then Some CFI_LOADING_SECTION_FUNCTION_ID
  else if decide (z = 2) then Some CFI_LOADING_SECTION_FUNCTION_TRANSITION
  else if decide (z = 3) then Some CFI_LOADING_SECTION_BLOCK_TRANSITION
  else if decide (z = 4) then Some CFI_LOADING_SECTION_BLOCK_IPD
  else if decide (z = 5) then Some CFI_LOADING_MODULE_END
  else if decide (z = 6) then Some CFI_LOADING_TERMINATED
  else None.

(** The value owns the allocation it points to. *)
Record loading_packet := LoadingPacket {
  pkt_event : object;             (* loading_event, 4 bytes *)
  pkt_size : Z;                   (* uint32_t *)
  pkt_value : cptr (list byte);
}.

(** [READ_LOADING_PACKET(fd, dst, err)]: three reads.  When the last one is
    short the value is freed but the pointer keeps its address. *)
Definition READ_LOADING_PACKET (dst : loading_packet) (err : Z) : C (loading_packet * Z) :=
  ebs ← read_load 4;
  let ev := overlay (Some <$> ebs) (pkt_event dst) in
  if decide (length ebs ≠ 4%nat) then mret (LoadingPacket ev 0 Null, 1)
  else
    sbs ← read_load 4;
    let size := le_value (overlay sbs (le_bytes 4 0)) in
    if decide (length sbs ≠ 4%nat) then mret (LoadingPacket ev size Null, 2)
    else if decide (size = 0) then mret (LoadingPacket ev size Null, err)
    else
      buf ← calloc size x00;
      match buf with
      | Live zeros =>
          vbs ← read_load (Z.to_nat size);
          let value := Live (overlay vbs zeros) in
          if decide (Z.of_nat (length vbs) ≠ size) then
            value ← lift (free value);
            mret (LoadingPacket ev 0 value, 4)
          else mret (LoadingPacket ev size value, err)
      | _ => mret (LoadingPacket ev size Null, 3)
      end.

(** [FREE_LOADING_PACKET(pkt)] *)
Definition FREE_LOADING_PACKET (pkt : loading_packet) : res loading_packet :=
  if non_null (pkt_value pkt) then
    _ ← free (pkt_value pkt);
    Val (LoadingPacket (pkt_event pkt) (pkt_size pkt) Null)
  else Val pkt.

(** [WRITE_LOADING_PACKET(fd, src, err)]: event, size, and the value of [size]
    bytes when there is one. *)
Definition WRITE_LOADING_PACKET (e : loading_event) (value : list byte) (err : Z) : C Z :=
  ok ← write_load (le_bytes 4 (loading_event_code e));
  if (ok : bool) then
    ok ← write_load (le_bytes 4 (Z.of_nat (length value)));
    if (ok : bool) then
      if decide (Z.of_nat (length value) ≠ 0) then
        ok ← write_load value;
        mret (if (ok : bool) then err else 3)
      else mret err
    else mret 2
  else mret 1.

(** [READ_MONITOR_TO_LOADING_PACKET(fd, dst, err)]: the module identifier. *)
Definition READ_MONITOR_TO_LOADING_PACKET (dst : object) (err : Z) : C (object * Z) :=
  bs ← read_load 2;
  mret (overlay (Some <$> bs) dst, if decide (length bs ≠ 2%nat) then 1 else err).

(** [WRITE_MONITOR_TO_LOADING_PACKET(fd, src, err)] *)
Definition WRITE_MONITOR_TO_LOADING_PACKET (id : Z) (err : Z) : C Z :=
  ok ← write_bytes (OLoad (le_bytes 2 id));
  mret (if (ok : bool) then err else 1).

(** ** Lemmas: enumerations *)

Lemma client_event_case_code e : client_event_case (client_event_code e) = Some e.
Proof. by destruct e. Qed.

Lemma client_event_case_inv z e : client_event_case z = Some e → z = client_event_code e.
Proof. unfold client_event_case. repeat case_decide; intros [= <-]; done. Qed.

Lemma loading_event_case_code e : loading_event_case (loading_event_code e) = Some e.
Proof. by destruct e. Qed.

Lemma loading_event_case_inv z e : loading_event_case z = Some e → z = loading_event_code e.
Proof. unfold loading_event_case. repeat case_decide; intros [= <-]; done. Qed.

(** ** Lemmas: signals *)

Lemma client_signal_bytes_length s : length (client_signal_bytes s) = sizeof_client_signal.
Proof. unfold client_signal_bytes. rewrite !length_app, !le_bytes_length. done. Qed.

Lemma mapM_id_Some {A} (l : list A) : mapM id (Some <$> l) = Some l.
Proof. induction l as [|x l IH]; [done|]. cbn. by rewrite IH. Qed.

(** A field of an object every byte of which was written. *)
Lemma obj_field_full (a b c : list byte) (o l : nat) :
  length a = o → length b = l →
  obj_field (Some <$> (a ++ b ++ c)) o l = Val (le_value b).
Proof.
  intros <- <-. unfold obj_field.
  rewrite <- fmap_drop, drop_app_length, <- fmap_take, take_app_length, mapM_id_Some.
  by rewrite decide_True.
Qed.

Section SignalFields.
Context (s : client_signal) (Hs : wf_signal s).

Lemma get_event_bytes : get_event (Some <$> client_signal_bytes s) = Val (sig_event s).
Proof.
  unfold get_event, client_signal_bytes.
  etrans; [by apply (obj_field_full [] (le_bytes 1 (sig_event s)))|].
  rewrite le_value_small; [done|apply Hs].
Qed.

Lemma get_module_bytes : get_module (Some <$> client_signal_bytes s) = Val (sig_module s).
Proof.
  unfold get_module, client_signal_bytes.
  rewrite obj_field_full by (by rewrite ?le_bytes_length).
  rewrite le_value_small; [done|apply Hs].
Qed.

Lemma get_function_bytes : get_function (Some <$> client_signal_bytes s) = Val (sig_function s).
Proof.
  unfold get_function, client_signal_bytes. rewrite app_assoc.
  rewrite obj_field_full by (by rewrite ?length_app, ?le_bytes_length).
  rewrite le_value_small; [done|apply Hs].
Qed.

Lemma get_block_bytes : get_block (Some <$> client_signal_bytes s) = Val (sig_block s).
Proof.
  unfold get_block, client_signal_bytes.
  rewrite !app_assoc, <- (app_nil_r (_ ++ le_bytes 4 (sig_block s))), <- app_assoc.
  rewrite obj_field_full by (by rewrite ?length_app, ?le_bytes_length).
  rewrite le_value_small; [done|apply Hs].
Qed.

End SignalFields.

Create HintDb wire discriminated.
Create Rewrite HintDb wire.
#[export] Hint Rewrite client_signal_bytes_length le_bytes_length : wire.
#[export] Hint Rewrite get_event_bytes get_module_bytes get_function_bytes get_block_bytes
  using assumption : wire.

(** ** Lemmas: identifiers on 64 bits *)

Lemma in_u_testbit n z i : 0 <= n → in_u n z → n <= i → Z.testbit z i = false.
Proof.
  intros Hn [Hz0 Hz] Hi. destruct (decide (z = 0)) as [->|]; [apply Z.bits_0|].
  apply Z.bits_above_log2; [done|].
  apply Z.log2_lt_pow2; [lia|]. eapply Z.lt_le_trans; [exact Hz|]. apply Z.pow_le_mono_r; lia.
Qed.

Lemma u_testbit n z i : 0 <= n → Z.testbit (z mod 2 ^ n) i = bool_decide (i < n) && Z.testbit z i.
Proof.
  intros Hn. destruct (decide (i < 0)).
  - by rewrite !Z.testbit_neg_r, andb_false_r by lia.
  - case_bool_decide.
    + by rewrite Z.mod_pow2_bits_low by lia.
    + by rewrite Z.mod_pow2_bits_high by lia.
Qed.

Lemma mask32_testbit i : 0 <= i → Z.testbit 0xffffffff i = bool_decide (i < 32).
Proof.
  intros. change 0xffffffff with (Z.ones 32). case_bool_decide.
  - by apply Z.ones_spec_low.
  - by apply Z.ones_spec_high; lia.
Qed.

Lemma MODULE_FUNCTION_GET_MODULE_eq m f :
  MODULE_FUNCTION_GET_MODULE (MODULE_FUNCTION m f) = u16 m.
Proof.
  apply Z.bits_inj'. intros i Hi.
  unfold MODULE_FUNCTION_GET_MODULE, MODULE_FUNCTION, u16, u64.
  rewrite u_testbit, Z.shiftr_spec, Z.lor_spec, u_testbit, Z.shiftl_spec, Z.land_spec, !u_testbit,
    mask32_testbit by lia.
  replace (i + 32 - 32) with i by lia.
  repeat case_bool_decide; cbn; try lia; rewrite ?andb_false_r, ?orb_false_r; done.
Qed.

Lemma MODULE_FUNCTION_GET_FUNCTION_eq m f :
  MODULE_FUNCTION_GET_FUNCTION (MODULE_FUNCTION m f) = u32 f.
Proof.
  apply Z.bits_inj'. intros i Hi.
  unfold MODULE_FUNCTION_GET_FUNCTION, MODULE_FUNCTION, u32, u64.
  rewrite u_testbit, Z.land_spec, Z.lor_spec, u_testbit, Z.shiftl_spec, Z.land_spec, !u_testbit,
    mask32_testbit by lia.
  repeat case_bool_decide; cbn; try lia; rewrite ?andb_false_r, ?andb_true_r; try done.
  by rewrite (Z.testbit_neg_r m) by lia.
Qed.

Lemma u_small n z : in_u n z → z mod 2 ^ n = z.
Proof. apply Z.mod_small. Qed.

#[global] Arguments client_signal_bytes : simpl never.
#[global] Arguments le_bytes : simpl never.
