(* ===== verification/CStack.v ===== *)
(** * Growable stacks (common part of block_stack.[ch] and call_stack.[ch])

    The two stacks of the monitor are the same code on two element types: a
    structure of three pointers [first], [last], [top] into one allocation,
    pushes that grow the allocation with [realloc] when [top] has reached
    [last], unchecked pops.  The allocations are kept explicitly, so that
    pointers saved by a client ([blocks_sp]) or left behind by a [realloc]
    that moves the allocation mean what they mean in C.

    [StackContract] is what a stack promises to its client: with respect to
    the list of its elements the operations are those of a stack, as long as
    the allocator grows allocations in place. *)

From S2P Require Import Prelude CSem.

(** ** Pointers into the allocations of a stack *)

(** Allocation number and index (in elements). *)
Inductive ptr := PNull | Ptr (b : nat) (o : Z).

#[export] Instance ptr_eq_dec : EqDecision ptr.
Proof. solve_decision. Defined.

Definition ptr_add (p : ptr) (k : Z) : res ptr :=
  match p with
  | PNull => Undef NullDeref
  | Ptr b o => Val (Ptr b (o + k))
  end.

(** Comparison and subtraction are defined within one allocation. *)
Definition ptr_sub (p q : ptr) : res Z :=
  match p, q with
  | Ptr b o, Ptr b' o' => if decide (b = b') then Val (o - o') else Undef BadPointerOp
  | _, _ => Undef BadPointerOp
  end.

Definition ptr_lt (p q : ptr) : res bool :=
  d ← ptr_sub p q; Val (bool_decide (d < 0)).

Definition ptr_ge (p q : ptr) : res bool :=
  d ← ptr_sub p q; Val (bool_decide (0 <= d)).

Definition ptr_non_null (p : ptr) : bool :=
  match p with PNull => false | Ptr _ _ => true end.

(** ** The structure and its allocations *)

Record cstack (E : Type) := CStack {
  st_first : ptr;
  st_last : ptr;
  st_top : ptr;
  st_bufs : gmap nat (list (option E));  (* live allocations; [None]: never written *)
  st_next : nat;                         (* number of the next allocation *)
}.
Arguments CStack {E} _ _ _ _ _.
Arguments st_first {E} _.
Arguments st_last {E} _.
Arguments st_top {E} _.
Arguments st_bufs {E} _.
Arguments st_next {E} _.

Section Operations.
Context {E : Type} (EXTEND_SIZE : Z) (zero : E).

Definition ptr_load (bufs : gmap nat (list (option E))) (p : ptr) : res E :=
  match p with
  | PNull => Undef NullDeref
  | Ptr b o =>
      match bufs !! b with
      | None => Undef UseAfterFree
      | Some buf =>
          x ← arr_get buf o;
          match x with Some v => Val v | None => Undef UninitRead end
      end
  end.

Definition ptr_store (bufs : gmap nat (list (option E))) (p : ptr) (v : E) :
    res (gmap nat (list (option E))) :=
  match p with
  | PNull => Undef NullDeref
  | Ptr b o =>
      match bufs !! b with
      | None => Undef UseAfterFree
      | Some buf => buf' ← arr_set buf o (Some v); Val (<[b := buf']> bufs)
      end
  end.

(** The structure before it is initialised. *)
Definition stack_new : cstack E := CStack PNull PNull PNull ∅ 0.

(** [*_stack_init]: [top] starts below [first]. *)
Definition stack_init (s : cstack E) : C (Z * cstack E) :=
  o ← next_alloc;
  if decide (o = AFail) then
    mret (-1, CStack PNull (st_last s) (st_top s) (st_bufs s) (st_next s))
  else
    let b := st_next s in
    mret (0, CStack (Ptr b 0) (Ptr b (EXTEND_SIZE - 1)) (Ptr b (-1))
                    (<[b := zeroed EXTEND_SIZE (Some zero)]> (st_bufs s)) (S b)).

(** [*_stack_free] *)
Definition stack_free (s : cstack E) : res (cstack E) :=
  match st_first s with
  | PNull => Val s
  | Ptr b o =>
      if decide (is_Some (st_bufs s !! b)) then
        Val (CStack PNull PNull PNull (delete b (st_bufs s)) (st_next s))
      else Undef DoubleFree
  end.

(** [*_stack_extend]: [first] and [last] follow the allocation, [top] is left
    as it is.  When [realloc] moves the allocation the old one is freed; when
    it fails the old one stays allocated and [first] becomes null. *)
Definition stack_extend (s : cstack E) : C (Z * cstack E) :=
  d ← lift (ptr_sub (st_last s) (st_first s));
  let msize := d + 1 + EXTEND_SIZE in
  o ← next_alloc;
  match o, st_first s with
  | AFail, _ => mret (-1, CStack PNull (st_last s) (st_top s) (st_bufs s) (st_next s))
  | _, PNull => undef BadPointerOp
  | AInPlace, Ptr b _ =>
      match st_bufs s !! b with
      | None => undef UseAfterFree
      | Some buf =>
          mret (0, CStack (Ptr b 0) (Ptr b (msize - 1)) (st_top s)
                          (<[b := buf ++ zeroed EXTEND_SIZE None]> (st_bufs s)) (st_next s))
      end
  | AMoved, Ptr b _ =>
      match st_bufs s !! b with
      | None => undef UseAfterFree
      | Some buf =>
          let b' := st_next s in
          mret (0, CStack (Ptr b' 0) (Ptr b' (msize - 1)) (st_top s)
                          (<[b' := buf ++ zeroed EXTEND_SIZE None]> (delete b (st_bufs s))) (S b'))
      end
  end.

(** [*_STACK_PUSH(s,v,err)] *)
Definition stack_push (s : cstack E) (v : E) (err : Z) : C (Z * cstack E) :=
  full ← lift (ptr_ge (st_top s) (st_last s));
  '(err, s) ← (if (full : bool) then stack_extend s else mret (err, s));
  if decide (err = 0) then
    top ← lift (ptr_add (st_top s) 1);
    bufs ← lift (ptr_store (st_bufs s) top v);
    mret (err, CStack (st_first s) (st_last s) top bufs (st_next s))
  else mret (err, s).

(** [*_STACK_POP(s,v)] *)
Definition stack_pop (s : cstack E) : res (E * cstack E) :=
  v ← ptr_load (st_bufs s) (st_top s);
  top ← ptr_add (st_top s) (-1);
  Val (v, CStack (st_first s) (st_last s) top (st_bufs s) (st_next s)).

(** [*_STACK_IS_EMPTY(s)] *)
Definition stack_is_empty (s : cstack E) : res bool := ptr_lt (st_top s) (st_first s).

(** [BLOCK_STACK_RESTORE_TOP(s,t)] *)
Definition stack_restore_top (s : cstack E) (t : ptr) : cstack E :=
  CStack (st_first s) (st_last s) t (st_bufs s) (st_next s).

(** The loop of [*_stack_trace], from [p] down to [first]; [fuel] bounds the
    number of elements. *)
Fixpoint stack_trace_loop (line : E → out_event) (fuel : nat) (s : cstack E) (p : ptr) : C unit :=
  match fuel with
  | O => λ _, NoFuel
  | S fuel =>
      more ← lift (ptr_ge p (st_first s));
      if (more : bool) then
        v ← lift (ptr_load (st_bufs s) p);
        _ ← emit (line v);
        p ← lift (ptr_add p (-1));
        stack_trace_loop line fuel s p
      else mret ()
  end.

Definition stack_trace (line : E → out_event) (s : cstack E) : C unit :=
  empty ← lift (stack_is_empty s);
  if (empty : bool) then mret ()
  else
    n ← lift (ptr_sub (st_top s) (st_first s));
    stack_trace_loop line (Z.to_nat (n + 2)) s (st_top s).

(** ** Representation *)

(** [s] holds the elements [l], from bottom to top, in allocation [b]. *)
Definition stack_repr (b : nat) (l : list E) (s : cstack E) : Prop :=
  ∃ buf, st_first s = Ptr b 0 ∧
         st_last s = Ptr b (Z.of_nat (length buf) - 1) ∧
         st_top s = Ptr b (Z.of_nat (length l) - 1) ∧
         st_bufs s !! b = Some buf ∧
         (length l <= length buf)%nat ∧
         take (length l) buf = Some <$> l.

(** Number of elements the allocation has room for. *)
Definition stack_capacity (s : cstack E) : Z :=
  match ptr_sub (st_last s) (st_first s) with Val d => d + 1 | _ => 0 end.

End Operations.

(** The allocator grows every allocation in place from now on. *)
Definition in_place (w : world) : Prop := Forall (λ o, o = AInPlace) (w_alloc w).

#[export] Instance in_place_dec w : Decision (in_place w).
Proof. unfold in_place. apply _. Defined.

(** Everything in the world but the allocator's answers. *)
Definition io (w : world) := (w_select w, w_write w, w_sig w, w_load w, w_out w, w_log w).

(** A transition that uses nothing but the allocator. *)
Definition quiet (w w' : world) : Prop := (in_place w → in_place w') ∧ io w' = io w.

(** What a stack promises to its client. *)
Class StackContract (E : Type) (init : cstack E → C (Z * cstack E))
    (push : cstack E → E → Z → C (Z * cstack E)) : Prop := {
  contract_init w :
    in_place w →
    ∃ b s w', init stack_new w = Val ((0, s), w') ∧ stack_repr b [] s ∧ quiet w w';
  contract_push b l s v w :
    in_place w → stack_repr b l s →
    ∃ s' w', push s v 0 w = Val ((0, s'), w') ∧ stack_repr b (l ++ [v]) s' ∧ quiet w w';
}.

(** ** Lemmas on the world *)

#[export] Instance quiet_preorder : PreOrder quiet.
Proof.
  split; [by split|]. intros w1 w2 w3 [H1 E1] [H2 E2]. split; [by auto|congruence].
Qed.

Lemma quiet_in_place w w' : quiet w w' → in_place w → in_place w'.
Proof. by intros [? _]. Qed.

Lemma next_alloc_in_place w :
  in_place w → ∃ w', next_alloc w = Val (AInPlace, w') ∧ quiet w w'.
Proof.
  unfold in_place, next_alloc. destruct w as [[|o os] ? ? ? ? ?]; cbn; intros H.
  - eexists. split; [done|reflexivity].
  - inversion H; subst. eexists. split; [done|]. by split.
Qed.

Lemma alloc_ok_in_place w :
  in_place w → ∃ w', alloc_ok w = Val (true, w') ∧ quiet w w'.
Proof.
  intros (w' & Hw & Hq)%next_alloc_in_place. exists w'. split; [|done].
  unfold alloc_ok. by erewrite C_bind_step by done.
Qed.

(** ** Lemmas on stacks *)

Section Laws.
Context {E : Type} (EXTEND_SIZE : Z) (zero : E).
Context (Hsize : 0 < EXTEND_SIZE).

Abbreviation init := (stack_init EXTEND_SIZE zero).
Abbreviation push := (stack_push (E := E) EXTEND_SIZE).

Lemma stack_repr_intro b buf (l : list E) bufs n :
  bufs !! b = Some buf → (length l <= length buf)%nat → take (length l) buf = Some <$> l →
  stack_repr b l (CStack (Ptr b 0) (Ptr b (Z.of_nat (length buf) - 1))
                         (Ptr b (Z.of_nat (length l) - 1)) bufs n).
Proof. intros. by exists buf. Qed.

Lemma stack_init_ok w :
  in_place w → ∃ b s w', init stack_new w = Val ((0, s), w') ∧ stack_repr b [] s ∧ quiet w w'.
Proof.
  intros (w' & Hw & Hq)%next_alloc_in_place.
  eexists 0%nat, _, w'. split; [|split; [|exact Hq]].
  - unfold stack_init. erewrite C_bind_step by exact Hw. cbn. done.
  - pose proof (zeroed_length EXTEND_SIZE (Some zero) ltac:(lia)) as Hl.
    eexists (zeroed EXTEND_SIZE (Some zero)). cbn. rewrite lookup_insert_eq, Hl.
    repeat split; lia.
Qed.

(** A store just above the top of the elements. *)
Lemma stack_store_top (l : list E) (buf : list (option E)) v :
  (length l < length buf)%nat → take (length l) buf = Some <$> l →
  ∃ buf', arr_set buf (Z.of_nat (length l) - 1 + 1) (Some v) = Val buf' ∧
          length buf' = length buf ∧ take (length (l ++ [v])) buf' = Some <$> (l ++ [v]).
Proof.
  intros Hlt Htake. eexists. split; [|split].
  - apply arr_set_in_range. lia.
  - apply length_insert.
  - replace (Z.to_nat (Z.of_nat (length l) - 1 + 1)) with (length l) by lia.
    rewrite length_app. cbn. rewrite Nat.add_comm. cbn.
    erewrite take_S_r by (by apply list_lookup_insert_eq).
    rewrite take_insert_ge by lia. rewrite fmap_app. by rewrite Htake.
Qed.

Lemma stack_push_fits b (l : list E) s v w :
  stack_repr b l s → Z.of_nat (length l) < stack_capacity s →
  ∃ s', push s v 0 w = Val ((0, s'), w) ∧ stack_repr b (l ++ [v]) s' ∧
        stack_capacity s' = stack_capacity s.
Proof.
  intros (buf & Hf & Hl & Ht & Hb & Hle & Htake). unfold stack_capacity.
  rewrite Hf, Hl. cbn. rewrite decide_True by done. intros Hlt.
  destruct (stack_store_top l buf v) as (buf' & Hset & Hlen' & Htake'); [lia|done|].
  eexists. split; [|split].
  - unfold stack_push, ptr_ge. rewrite Hl, Ht. cbn. rewrite decide_True by done. cbn.
    rewrite bool_decide_false by lia. cbn. C_run. rewrite ?Ht, ?Hf, ?Hl. C_run. rewrite Hb. C_run.
    rewrite Hset. done.
  - exists buf'. cbn. rewrite lookup_insert_eq, Hlen', length_app. cbn.
    repeat split; try done; try (f_equal; lia); try lia.
    rewrite length_app in Htake'. done.
  - cbn. by rewrite decide_True.
Qed.

Lemma stack_extend_in_place b (l : list E) s w :
  stack_repr b l s → in_place w →
  ∃ s' w', stack_extend (E := E) EXTEND_SIZE s w = Val ((0, s'), w') ∧ stack_repr b l s' ∧
           stack_capacity s' = stack_capacity s + EXTEND_SIZE ∧ quiet w w'.
Proof.
  intros (buf & Hf & Hl & Ht & Hb & Hle & Htake) (w' & Hw & Hq)%next_alloc_in_place.
  pose proof (zeroed_length EXTEND_SIZE (None : option E) ltac:(lia)) as Hz.
  eexists _, w'. split; [|split; [|split; [|exact Hq]]].
  - unfold stack_extend. rewrite Hf, Hl. C_run. rewrite Hw, Hb. done.
  - eexists (buf ++ zeroed EXTEND_SIZE None). cbn. rewrite lookup_insert_eq, length_app.
    repeat split; try done; try (f_equal; lia); try lia.
    rewrite take_app_le by lia. done.
  - unfold stack_capacity. rewrite Hf, Hl. cbn. rewrite !decide_True by done. lia.
Qed.

Lemma stack_push_unfold_full b (l : list E) s v err w :
  stack_repr b l s → Z.of_nat (length l) = stack_capacity s →
  push s v err w =
    (stack_extend (E := E) EXTEND_SIZE s ≫= λ '(err, s),
      if decide (err = 0) then
        top ← lift (ptr_add (st_top s) 1);
        bufs ← lift (ptr_store (st_bufs s) top v);
        mret (err, CStack (st_first s) (st_last s) top bufs (st_next s))
      else mret (err, s)) w.
Proof.
  intros (buf & Hf & Hl & Ht & Hb & Hle & Htake). unfold stack_capacity, stack_push, ptr_ge.
  rewrite Hf, Hl, Ht. C_run. intros Heq.
  rewrite bool_decide_true by lia. C_run. done.
Qed.

Lemma stack_repr_capacity b (l : list E) s :
  stack_repr b l s → Z.of_nat (length l) <= stack_capacity s.
Proof.
  intros (buf & Hf & Hl & Ht & Hb & Hle & Htake). unfold stack_capacity.
  rewrite Hf, Hl. cbn. rewrite decide_True by done. lia.
Qed.

Lemma stack_push_ok b (l : list E) s v w :
  in_place w → stack_repr b l s →
  ∃ s' w', push s v 0 w = Val ((0, s'), w') ∧ stack_repr b (l ++ [v]) s' ∧ quiet w w'.
Proof.
  intros Hw Hs. pose proof (stack_repr_capacity _ _ _ Hs) as Hcap.
  destruct (decide (Z.of_nat (length l) = stack_capacity s)) as [Heq|Hne].
  - destruct (stack_extend_in_place _ _ _ _ Hs Hw) as (s1 & w1 & Hext & Hs1 & Hc1 & Hq).
    destruct (stack_push_fits b l s1 v w1) as (s2 & Hp & Hs2 & _); [done|lia|].
    exists s2, w1. split; [|done].
    rewrite (stack_push_unfold_full _ _ _ _ _ _ Hs Heq).
    erewrite C_bind_step by exact Hext. rewrite <- Hp.
    destruct Hs1 as (buf & Hf & Hl & Ht & _).
    unfold stack_push, ptr_ge. rewrite Hl, Ht. C_run.
    unfold stack_capacity at 1 in Hc1. rewrite Hf, Hl in Hc1. cbn in Hc1.
    rewrite decide_True in Hc1 by done.
    rewrite bool_decide_false by lia. C_run. rewrite ?Ht, ?Hl. C_run. done.
  - destruct (stack_push_fits b l s v w) as (s' & Hp & Hs' & _); [done|lia|].
    exists s', w. split; [done|]. split; [done|reflexivity].
Qed.

#[export] Instance stack_contract : StackContract E init push.
Proof. split; [exact stack_init_ok|]. intros. by apply stack_push_ok. Qed.

(** The remaining operations need no allocator. *)

Lemma stack_pop_ok b (l : list E) s v :
  stack_repr b (l ++ [v]) s → ∃ s', stack_pop s = Val (v, s') ∧ stack_repr b l s'.
Proof.
  intros (buf & Hf & Hl & Ht & Hb & Hle & Htake). rewrite length_app in *. cbn in *.
  assert (Hlook : buf !! length l = Some (Some v)).
  { rewrite <- (lookup_take_lt buf (length l + 1)) by lia. rewrite Htake, fmap_app.
    rewrite lookup_app_r by (rewrite length_fmap; lia). by rewrite length_fmap, Nat.sub_diag. }
  eexists. split.
  - unfold stack_pop, ptr_load. rewrite Ht, Hb.
    replace (Z.of_nat (length l + 1) - 1) with (Z.of_nat (length l)) by lia.
    rewrite (arr_get_nat _ _ _ Hlook). cbn. done.
  - exists buf. cbn. repeat split; try done; try (f_equal; lia); try lia.
    apply (f_equal (take (length l))) in Htake.
    rewrite take_take, Nat.min_l in Htake by lia. rewrite Htake, <- fmap_take.
    by rewrite take_app_length.
Qed.

Lemma stack_is_empty_ok b (l : list E) s :
  stack_repr b l s → stack_is_empty s = Val (bool_decide (l = [])).
Proof.
  intros (buf & Hf & Hl & Ht & _). unfold stack_is_empty, ptr_lt. rewrite Hf, Ht. cbn.
  rewrite decide_True by done. cbn. f_equal. apply bool_decide_ext.
  destruct l; cbn [length]; split; try done; lia.
Qed.

Lemma stack_top_ok b (l : list E) s :
  stack_repr b l s → st_top s = Ptr b (Z.of_nat (length l) - 1).
Proof. intros (buf & _ & _ & Ht & _). done. Qed.

(** Restoring a top saved when the stack had [n] elements cuts the stack. *)
Lemma stack_restore_top_ok b (l : list E) s (n : nat) :
  stack_repr b l s → (n <= length l)%nat →
  stack_repr b (take n l) (stack_restore_top s (Ptr b (Z.of_nat n - 1))).
Proof.
  intros (buf & Hf & Hl & Ht & Hb & Hle & Htake) Hn. exists buf. cbn.
  rewrite length_take, Nat.min_l by done. repeat split; try done; [lia|].
  apply (f_equal (take n)) in Htake. rewrite take_take, Nat.min_l in Htake by done.
  by rewrite Htake, fmap_take.
Qed.

Lemma stack_free_ok b (l : list E) s :
  stack_repr b l s → stack_free s = Val (CStack PNull PNull PNull (delete b (st_bufs s)) (st_next s)).
Proof.
  intros (buf & Hf & _ & _ & Hb & _). unfold stack_free. rewrite Hf, decide_True; [done|].
  rewrite Hb. by eexists.
Qed.

(** A push that does not need to grow keeps the allocator out of it; one that
    finds the stack full with an error pending overwrites the error. *)
Lemma stack_push_error b (l : list E) s v err w :
  stack_repr b l s → Z.of_nat (length l) < stack_capacity s → err ≠ 0 →
  push s v err w = Val ((err, s), w).
Proof.
  intros (buf & Hf & Hl & Ht & Hb & Hle & Htake). unfold stack_capacity, stack_push, ptr_ge.
  rewrite Hf, Hl, Ht. C_run. intros Hlt Herr. rewrite bool_decide_false by lia. C_run.
  by rewrite decide_False.
Qed.

(** When [realloc] moves the allocation the push stores through the old
    pointer, which is freed. *)
Lemma stack_push_moved b (l : list E) s v err w w' :
  stack_repr b l s → Z.of_nat (length l) = stack_capacity s → (b < st_next s)%nat →
  next_alloc w = Val (AMoved, w') →
  push s v err w = Undef UseAfterFree.
Proof.
  intros Hs Hcap Hfresh Hw. rewrite (stack_push_unfold_full _ _ _ _ _ _ Hs Hcap).
  destruct Hs as (buf & Hf & Hl & Ht & Hb & Hle & Htake).
  unfold stack_extend. rewrite Hf, Hl. C_run. rewrite Hw, Hb. C_run. rewrite Ht. C_run.
  rewrite lookup_insert_ne by lia. by rewrite lookup_delete_eq.
Qed.

(** When the allocation cannot grow the push reports the failure, and the
    stack has lost its [first] pointer. *)
Lemma stack_push_fail b (l : list E) s v err w w' :
  stack_repr b l s → Z.of_nat (length l) = stack_capacity s →
  next_alloc w = Val (AFail, w') →
  push s v err w = Val ((-1, CStack PNull (st_last s) (st_top s) (st_bufs s) (st_next s)), w').
Proof.
  intros Hs Hcap Hw. rewrite (stack_push_unfold_full _ _ _ _ _ _ Hs Hcap).
  destruct Hs as (buf & Hf & Hl & Ht & Hb & Hle & Htake).
  unfold stack_extend. rewrite Hf, Hl. C_run. by rewrite Hw.
Qed.

(** The trace prints the elements from top to bottom. *)
Lemma stack_trace_loop_ok line b (l : list E) s fuel w :
  stack_repr b l s → (length l < fuel)%nat →
  stack_trace_loop line fuel s (st_top s) w = Val ((), emits w (line <$> reverse l)).
Proof.
  intros Hs Hfuel. rewrite (stack_top_ok _ _ _ Hs).
  assert (Hpre : ∀ n, (n <= length l)%nat → (n < fuel)%nat →
    stack_trace_loop line fuel s (Ptr b (Z.of_nat n - 1)) w =
      Val ((), emits w (line <$> reverse (take n l)))).
  { clear Hfuel. revert w. induction fuel as [|fuel IH]; intros w n Hn Hf; [lia|].
    destruct Hs as (buf & Hsf & Hsl & Hst & Hsb & Hle & Htake).
    cbn [stack_trace_loop]. unfold ptr_ge. rewrite Hsf. C_run.
    destruct n as [|n].
    - rewrite bool_decide_false by lia. C_run. by rewrite emits_nil.
    - rewrite bool_decide_true by lia. C_run. rewrite Hsb.
      destruct (lookup_lt_is_Some_2 l n) as [x Hx]; [lia|].
      assert (Hbuf : buf !! n = Some (Some x)).
      { rewrite <- (lookup_take_lt buf (length l)) by lia.
        by rewrite Htake, list_lookup_fmap, Hx. }
      replace (Z.of_nat (S n) - 1) with (Z.of_nat n) by lia.
      rewrite (arr_get_nat _ _ _ Hbuf). C_run.
      replace (Z.of_nat n + -1) with (Z.of_nat n - 1) by lia.
      rewrite IH by lia. rewrite (take_S_r _ _ _ Hx), reverse_app. cbn.
      by rewrite <- emit_emits, <- emits_app. }
  rewrite Hpre by lia. by rewrite take_ge by lia.
Qed.

Lemma stack_trace_ok line b (l : list E) s w :
  stack_repr b l s → stack_trace line s w = Val ((), emits w (line <$> reverse l)).
Proof.
  intros Hs. unfold stack_trace. rewrite (stack_is_empty_ok _ _ _ Hs). C_run.
  case_bool_decide as Hl.
  - subst. by rewrite emits_nil.
  - pose proof (stack_trace_loop_ok line b l s (Z.to_nat (Z.of_nat (length l) - 1 - 0 + 2)) w Hs
      ltac:(lia)) as Hloop.
    rewrite (stack_top_ok _ _ _ Hs) in *. destruct Hs as (buf & -> & _). C_run. exact Hloop.
Qed.

End Laws.

Create HintDb cstack discriminated.
#[export] Hint Resolve stack_push_ok stack_is_empty_ok stack_restore_top_ok : cstack.
