(* ===== verification/BlockStack.v ===== *)
(** * Stack of basic blocks (monitor/include/block_stack.h, monitor/src/block_stack.c)

    The instance of [CStack] whose elements are block identifiers. *)

From S2P Require Import Prelude CSem CStack.

(** [block_stack_element] is [block_id]. *)
Abbreviation block_stack_element := Z (only parsing).

Definition BLOCK_STACK_EXTEND_SIZE : Z := 4096.

Definition block_stack : Type := cstack block_stack_element.

Definition block_stack_init (s : block_stack) : C (Z * block_stack) :=
  stack_init BLOCK_STACK_EXTEND_SIZE 0 s.

Definition block_stack_free (s : block_stack) : res block_stack := stack_free s.

Definition block_stack_extend (s : block_stack) : C (Z * block_stack) :=
  stack_extend BLOCK_STACK_EXTEND_SIZE s.

Definition block_stack_trace (s : block_stack) : C unit := stack_trace OTraceBlock s.

Definition BLOCK_STACK_IS_EMPTY (s : block_stack) : res bool := stack_is_empty s.

Definition BLOCK_STACK_TOP_PTR (s : block_stack) : ptr := st_top s.

Definition BLOCK_STACK_RESTORE_TOP (s : block_stack) (t : ptr) : block_stack :=
  stack_restore_top s t.

Definition BLOCK_STACK_PUSH (s : block_stack) (v : block_stack_element) (err : Z) :
    C (Z * block_stack) :=
  stack_push BLOCK_STACK_EXTEND_SIZE s v err.

Definition BLOCK_STACK_POP (s : block_stack) : res (block_stack_element * block_stack) :=
  stack_pop s.

Definition BLOCK_STACK_IS_NOT_COHERENT_OR_IS_EMPTY (s : block_stack) : res bool :=
  ptr_lt (st_top s) (st_first s) |||| ptr_lt (st_last s) (st_top s).

#[export] Instance block_stack_contract :
  StackContract block_stack_element block_stack_init BLOCK_STACK_PUSH.
Proof. by apply stack_contract. Qed.

#[global] Arguments block_stack_init : simpl never.
#[global] Arguments block_stack_free : simpl never.
#[global] Arguments BLOCK_STACK_PUSH : simpl never.
#[global] Arguments BLOCK_STACK_POP : simpl never.
#[global] Arguments BLOCK_STACK_IS_EMPTY : simpl never.
#[global] Arguments block_stack_trace : simpl never.
#[global] Arguments BLOCK_STACK_TOP_PTR : simpl never.
#[global] Arguments BLOCK_STACK_RESTORE_TOP : simpl never.
