(* ===== verification/CallStack.v ===== *)
(** * Call stack (monitor/include/call_stack.h, monitor/src/call_stack.c)

    The instance of [CStack] whose elements are the suspended calls: module,
    function, and the top that the block stack had after the call. *)

From S2P Require Import Prelude CSem CStack.

Record call_stack_element := CallStackElement {
  ce_module : Z;
  ce_function : Z;
  ce_blocks_sp : ptr;
}.

Definition CALL_STACK_EXTEND_SIZE : Z := 512.

Definition call_stack : Type := cstack call_stack_element.

(** The elements of the allocation made by [calloc]. *)
Definition zero_call_stack_element : call_stack_element := CallStackElement 0 0 PNull.

Definition call_stack_init (s : call_stack) : C (Z * call_stack) :=
  stack_init CALL_STACK_EXTEND_SIZE zero_call_stack_element s.

Definition call_stack_free (s : call_stack) : res call_stack := stack_free s.

Definition call_stack_extend (s : call_stack) : C (Z * call_stack) :=
  stack_extend CALL_STACK_EXTEND_SIZE s.

Definition call_stack_trace (s : call_stack) : C unit :=
  stack_trace (λ e, OTraceCall (ce_module e) (ce_function e)) s.

Definition CALL_STACK_IS_EMPTY (s : call_stack) : res bool := stack_is_empty s.

Definition CALL_STACK_PUSH (s : call_stack) (v : call_stack_element) (err : Z) :
    C (Z * call_stack) :=
  stack_push CALL_STACK_EXTEND_SIZE s v err.

Definition CALL_STACK_POP (s : call_stack) : res (call_stack_element * call_stack) :=
  stack_pop s.

#[export] Instance call_stack_contract :
  StackContract call_stack_element call_stack_init CALL_STACK_PUSH.
Proof. by apply stack_contract. Qed.

#[global] Arguments call_stack_init : simpl never.
#[global] Arguments call_stack_free : simpl never.
#[global] Arguments CALL_STACK_PUSH : simpl never.
#[global] Arguments CALL_STACK_POP : simpl never.
#[global] Arguments CALL_STACK_IS_EMPTY : simpl never.
#[global] Arguments call_stack_trace : simpl never.
