(* ===== verification/MonitorData.v ===== *)
(** * Data of the monitor (monitor/include/monitor_load.h, monitor/include/defs.h)

    The graphs and the relocations of the loaded modules, the macros on
    function flags, the compile-time and run-time options; well-formedness of
    the data, as the loader builds it and the run-time checks need it. *)

From S2P Require Import Prelude CSem Wire.
From Stdlib Require Import Strings.Byte.

(** ** Data *)

Record function_data := FunctionData {
  name : cptr (list byte);                            (* without its null byte *)
  flags : Z;
  nb_blocks : Z;
  control_flow_graph : cptr (list (cptr (list Z)));   (* block_id -> block_id -> bool *)
  immediate_post_dominator : cptr (list Z);           (* block_id -> block_id *)
}.

Record module_data := ModuleData {
  nb_functions : Z;
  nb_entrypoint_inits : Z;
  nb_entrypoint_finis : Z;
  call_graph : cptr (list (cptr (list Z)));   (* local_fun_id -> local_fun_id -> bool *)
  relocations : cptr (list Z);                (* local_fun_id -> (module_id,local_fun_id) *)
  functions : cptr (list function_data);      (* local_fun_id -> function_data *)
}.

(** The process identifier and the descriptors of [monitor_data] only name
    the peers of the world and are left out. *)
Record monitor_data := MonitorData {
  nb_modules : Z;
  modules : cptr (list module_data);
}.

(** Options: environment variables [CFI_TRACE] and [CFI_DUMP], compile-time
    [NB_PRELOADED_MONITOR_OK_ANSWERS] and [TIMEOUT]. *)
Record options := Options {
  OPTION_sm_trace : bool;
  OPTION_sm_dump : bool;
  OPTION_nb_preload_monitor_ok_answers : Z;
  TIMEOUT : bool;
}.

Definition FUNCTION_ENTRY_BLOCK_ID : Z := 0.

(** ** Macros on function flags *)

Definition FUNCTION_IS_ENTRYPOINT_MAIN (fd : function_data) : bool :=
  bool_decide (flags fd = FCT_MAIN).
Definition FUNCTION_IS_ENTRYPOINT_INIT (fd : function_data) : bool :=
  bool_decide (flags fd = FCT_INIT).
Definition FUNCTION_IS_ENTRYPOINT_FINI (fd : function_data) : bool :=
  bool_decide (flags fd = FCT_FINI).
Definition FUNCTION_IS_ENTRYPOINT (fd : function_data) : bool :=
  FUNCTION_IS_ENTRYPOINT_MAIN fd || FUNCTION_IS_ENTRYPOINT_INIT fd ||
  FUNCTION_IS_ENTRYPOINT_FINI fd.
Definition FUNCTION_IS_EXTERNAL (fd : function_data) : bool :=
  bool_decide (flags fd = FCT_EXTERNAL).

(** [MONITOR_SIGNAL_TIMEOUT(fd,fdrs,err)]: expands to nothing unless compiled
    with [TIMEOUT]. *)
Definition MONITOR_SIGNAL_TIMEOUT (opts : options) (err : Z) : C Z :=
  if TIMEOUT opts then
    ready ← next_select;
    mret (if (ready : bool) then err else 1)
  else mret err.

(** ** Access paths of the C expressions *)

(** [*(data.modules + m)] *)
Definition module_at (data : monitor_data) (m : Z) : res module_data :=
  ms ← deref (modules data); arr_get ms m.

(** [mdata->functions[f]] *)
Definition function_at (md : module_data) (f : Z) : res function_data :=
  fs ← deref (functions md); arr_get fs f.

(** [graph[i][j]], for the call graph and the control-flow graphs. *)
Definition graph_at (graph : cptr (list (cptr (list Z)))) (i j : Z) : res Z :=
  rows ← deref graph;
  row ← arr_get rows i;
  row ← deref row;
  arr_get row j.

(** ** Well-formedness *)

(** A square boolean matrix of side [n] whose rows are allocated on demand. *)
Definition wf_graph (n : Z) (graph : cptr (list (cptr (list Z)))) : Prop :=
  ∃ rows, graph = Live rows ∧ Z.of_nat (length rows) = n ∧
    Forall (λ row, row = Null ∨ ∃ r, row = Live r ∧ Z.of_nat (length r) = n) rows.

(** Every row is allocated. *)
Definition full_graph (graph : cptr (list (cptr (list Z)))) : Prop :=
  ∃ rows, graph = Live rows ∧ Forall (λ row, row ≠ Null) rows.

Definition wf_array {A} (n : Z) (a : cptr (list A)) : Prop :=
  ∃ l, a = Live l ∧ Z.of_nat (length l) = n.

Definition wf_function (fd : function_data) : Prop :=
  name fd ≠ Dangling ∧ in_u 32 (nb_blocks fd) ∧
  if decide (nb_blocks fd = 0) then
    control_flow_graph fd = Null ∧ immediate_post_dominator fd = Null
  else
    wf_graph (nb_blocks fd) (control_flow_graph fd) ∧
    wf_array (nb_blocks fd) (immediate_post_dominator fd).

(** A module with no function has no array, or empty ones. *)
Definition nil_array {A} (a : cptr (list A)) : Prop := a = Null ∨ a = Live [].

Definition wf_module (md : module_data) : Prop :=
  in_u 32 (nb_functions md) ∧
  if decide (nb_functions md = 0) then
    nil_array (call_graph md) ∧ nil_array (relocations md) ∧ nil_array (functions md)
  else
    wf_graph (nb_functions md) (call_graph md) ∧
    wf_array (nb_functions md) (relocations md) ∧
    ∃ fs, functions md = Live fs ∧ Z.of_nat (length fs) = nb_functions md ∧
          Forall wf_function fs.

Definition wf_data (data : monitor_data) : Prop :=
  (nb_modules data = 0 ∧ modules data = Null) ∨
  ∃ ms, modules data = Live ms ∧ Z.of_nat (length ms) = nb_modules data ∧ Forall wf_module ms.

(** Function [f] of module [m] exists. *)
Definition has_function (data : monitor_data) (m f : Z) : Prop :=
  ∃ md, module_at data m = Val md ∧ 0 <= f < nb_functions md.

(** Every function marked external is relocated to an existing function. *)
Definition relocs_ok (data : monitor_data) : Prop :=
  ∀ m md f fd rs r,
    module_at data m = Val md → function_at md f = Val fd → FUNCTION_IS_EXTERNAL fd = true →
    relocations md = Live rs → arr_get rs f = Val r →
    has_function data (MODULE_FUNCTION_GET_MODULE r) (MODULE_FUNCTION_GET_FUNCTION r).

(** No row of a graph was left unallocated. *)
Definition full_rows (data : monitor_data) : Prop :=
  ∀ m md, module_at data m = Val md → nb_functions md ≠ 0 →
    full_graph (call_graph md) ∧
    ∀ f fd, function_at md f = Val fd → nb_blocks fd ≠ 0 → full_graph (control_flow_graph fd).
