(* ===== verification/MonitorRun.v ===== *)
(** * Run-time checks of the monitor (monitor/src/monitor_run.c, monitor/include/monitor_run.h)

    The state machine that follows the signals of the client.  [run_state]
    holds the local variables of [monitor_run]; each case of the [switch] is a
    definition; [run_loop] is the [while(1)], [run_exit] the code after the
    label [monitor_run_exit]. *)

From S2P Require Import Prelude CSem Wire CStack BlockStack CallStack MonitorData.

Inductive monitor_state_t :=
| SM_STATE_Ready
| SM_STATE_InFunction
| SM_STATE_ExpectCall
| SM_STATE_ExpectReturn
| SM_STATE_ExpectJump.

#[export] Instance monitor_state_eq_dec : EqDecision monitor_state_t.
Proof. solve_decision. Defined.

(** The pointers [current_module_data] and [current_function_data] are null or
    the addresses [&data.modules[m]] and [&data.modules[m].functions[f]].
    [error] is kept as the [int] it is returned as. *)
Record run_state := RunState {
  state : monitor_state_t;
  current_module : Z;
  current_function : Z;
  curblock : Z;
  topblock : Z;
  current_module_data : option Z;
  current_function_data : option (Z * Z);
  error : Z;
  calls : call_stack;
  blocks : block_stack;
  rs_sig : object;
}.

(** ** Assignments to the local variables *)

Definition set_state x st := RunState x (current_module st) (current_function st) (curblock st)
  (topblock st) (current_module_data st) (current_function_data st) (error st) (calls st)
  (blocks st) (rs_sig st).
Definition set_current_module x st := RunState (state st) x (current_function st) (curblock st)
  (topblock st) (current_module_data st) (current_function_data st) (error st) (calls st)
  (blocks st) (rs_sig st).
Definition set_current_function x st := RunState (state st) (current_module st) x (curblock st)
  (topblock st) (current_module_data st) (current_function_data st) (error st) (calls st)
  (blocks st) (rs_sig st).
Definition set_curblock x st := RunState (state st) (current_module st) (current_function st) x
  (topblock st) (current_module_data st) (current_function_data st) (error st) (calls st)
  (blocks st) (rs_sig st).
Definition set_topblock x st := RunState (state st) (current_module st) (current_function st)
  (curblock st) x (current_module_data st) (current_function_data st) (error st) (calls st)
  (blocks st) (rs_sig st).
Definition set_module_data x st := RunState (state st) (current_module st) (current_function st)
  (curblock st) (topblock st) x (current_function_data st) (error st) (calls st)
  (blocks st) (rs_sig st).
Definition set_function_data x st := RunState (state st) (current_module st) (current_function st)
  (curblock st) (topblock st) (current_module_data st) x (error st) (calls st)
  (blocks st) (rs_sig st).
Definition set_error x st := RunState (state st) (current_module st) (current_function st)
  (curblock st) (topblock st) (current_module_data st) (current_function_data st) x (calls st)
  (blocks st) (rs_sig st).
Definition set_calls x st := RunState (state st) (current_module st) (current_function st)
  (curblock st) (topblock st) (current_module_data st) (current_function_data st) (error st) x
  (blocks st) (rs_sig st).
Definition set_blocks x st := RunState (state st) (current_module st) (current_function st)
  (curblock st) (topblock st) (current_module_data st) (current_function_data st) (error st)
  (calls st) x (rs_sig st).
Definition set_sig x st := RunState (state st) (current_module st) (current_function st)
  (curblock st) (topblock st) (current_module_data st) (current_function_data st) (error st)
  (calls st) (blocks st) x.

(** ** Expressions of the conditions *)

(** [*current_module_data] and [*current_function_data] *)
Definition module_of (data : monitor_data) (p : option Z) : res module_data :=
  match p with None => Undef NullDeref | Some m => module_at data m end.
Definition function_of (data : monitor_data) (p : option (Z * Z)) : res function_data :=
  match p with
  | None => Undef NullDeref
  | Some (m, f) => md ← module_at data m; function_at md f
  end.

(** [&(current_module_data->functions[f])]: reads the field [functions]. *)
Definition function_addr (data : monitor_data) (p : option Z) (f : Z) : res (option (Z * Z)) :=
  match p with
  | None => Undef NullDeref
  | Some m => md ← module_at data m; _ ← deref (functions md); Val (Some (m, f))
  end.

Definition state_is_not (x : monitor_state_t) (st : run_state) : res bool :=
  Val (bool_decide (state st ≠ x)).
Definition module_differs (st : run_state) : res bool :=
  m ← get_module (rs_sig st); Val (bool_decide (current_module st ≠ m)).
Definition function_differs (st : run_state) : res bool :=
  f ← get_function (rs_sig st); Val (bool_decide (current_function st ≠ f)).
Definition block_differs (st : run_state) : res bool :=
  b ← get_block (rs_sig st); Val (bool_decide (curblock st ≠ b)).

(** [sig.block >= current_function_data->nb_blocks] *)
Definition block_too_big (data : monitor_data) (st : run_state) : res bool :=
  b ← get_block (rs_sig st);
  fd ← function_of data (current_function_data st);
  Val (bool_decide (nb_blocks fd <= b)).

(** [!(current_function_data->control_flow_graph[curblock][sig.block])] *)
Definition no_jump (data : monitor_data) (st : run_state) : res bool :=
  b ← get_block (rs_sig st);
  fd ← function_of data (current_function_data st);
  x ← graph_at (control_flow_graph fd) (curblock st) b;
  Val (bool_decide (x = 0)).

(** [sig.function >= current_module_data->nb_functions] *)
Definition function_too_big (data : monitor_data) (st : run_state) : res bool :=
  f ← get_function (rs_sig st);
  md ← module_of data (current_module_data st);
  Val (bool_decide (nb_functions md <= f)).

(** [!(current_module_data->call_graph[current_function][sig.function])] *)
Definition no_call (data : monitor_data) (st : run_state) : res bool :=
  f ← get_function (rs_sig st);
  md ← module_of data (current_module_data st);
  x ← graph_at (call_graph md) (current_function st) f;
  Val (bool_decide (x = 0)).

(** [!FUNCTION_IS_ENTRYPOINT(current_module_data->functions[f])] *)
Definition not_entrypoint (data : monitor_data) (st : run_state) (f : Z) : res bool :=
  md ← module_of data (current_module_data st);
  fd ← function_at md f;
  Val (negb (FUNCTION_IS_ENTRYPOINT fd)).

(** ** The cases of the switch *)

(** A case ends with [break], or with [goto monitor_run_exit]. *)
Inductive ctl := Next (st : run_state) | Exit (st : run_state).

Definition on_before_jump (st : run_state) : res ctl :=
  bad ← state_is_not SM_STATE_InFunction st |||| module_differs st ||||
        function_differs st |||| block_differs st;
  if (bad : bool) then Val (Exit (set_error 4 st))
  else Val (Next (set_state SM_STATE_ExpectJump st)).

(** [OPTION_sm_trace && (ipd[topblock] == sig.block)] *)
Definition at_post_dominator (opts : options) (data : monitor_data) (st : run_state) : res bool :=
  tst (OPTION_sm_trace opts) &&&&
  (fd ← function_of data (current_function_data st);
   ipd ← deref (immediate_post_dominator fd);
   p ← arr_get ipd (topblock st);
   b ← get_block (rs_sig st);
   Val (bool_decide (p = b))).

Definition on_after_jump (opts : options) (data : monitor_data) (st : run_state) : C ctl :=
  bad ← lift (state_is_not SM_STATE_ExpectJump st |||| module_differs st ||||
              function_differs st |||| block_too_big data st |||| no_jump data st);
  if (bad : bool) then mret (Exit (set_error 4 st))
  else
    b ← lift (get_block (rs_sig st));
    pd ← lift (at_post_dominator opts data st);
    st ← (if (pd : bool) then
            '(err, bs) ← BLOCK_STACK_PUSH (blocks st) (topblock st) (error st);
            mret (set_topblock b (set_blocks bs (set_error err st)))
          else mret st : C run_state);
    mret (Next (set_state SM_STATE_InFunction (set_curblock b st))).

(** The callee's position: through the relocation when it is external. *)
Definition enter_callee (data : monitor_data) (f : Z) (st : run_state) : res run_state :=
  md ← module_of data (current_module_data st);
  fd ← function_at md f;
  if FUNCTION_IS_EXTERNAL fd then
    rs ← deref (relocations md);
    some_reloc ← arr_get rs f;
    let m := MODULE_FUNCTION_GET_MODULE some_reloc in
    Val (set_module_data (Some m)
          (set_current_function (MODULE_FUNCTION_GET_FUNCTION some_reloc)
            (set_current_module m st)))
  else Val (set_current_function f st).

Definition on_call (opts : options) (data : monitor_data) (st : run_state) : C ctl :=
  bad ← lift (state_is_not SM_STATE_InFunction st |||| function_too_big data st ||||
              no_call data st);
  if (bad : bool) then mret (Exit (set_error 4 st))
  else
    '(err, bs) ← (if OPTION_sm_trace opts
                  then BLOCK_STACK_PUSH (blocks st) (topblock st) (error st)
                  else mret (error st, blocks st));
    '(err, bs) ← BLOCK_STACK_PUSH bs (curblock st) err;
    let ncall := CallStackElement (current_module st) (current_function st)
                                  (BLOCK_STACK_TOP_PTR bs) in
    '(err, cs) ← CALL_STACK_PUSH (calls st) ncall err;
    let st := set_calls cs (set_blocks bs (set_error err
                (set_topblock FUNCTION_ENTRY_BLOCK_ID
                  (set_curblock FUNCTION_ENTRY_BLOCK_ID st)))) in
    f ← lift (get_function (rs_sig st));
    st ← lift (enter_callee data f st);
    p ← lift (function_addr data (current_module_data st) (current_function st));
    mret (Next (set_state SM_STATE_ExpectCall (set_function_data p st))).

Definition on_enter (data : monitor_data) (st : run_state) : res ctl :=
  if decide (state st = SM_STATE_Ready) then
    m ← get_module (rs_sig st);
    if decide (nb_modules data <= m) then Val (Exit (set_error 6 st))
    else
      let st := set_module_data (Some m) st in
      f ← get_function (rs_sig st);
      bad ← function_too_big data st |||| not_entrypoint data st f;
      if (bad : bool) then Val (Exit (set_error 7 st))
      else
        p ← function_addr data (Some m) f;
        Val (Next (set_state SM_STATE_InFunction
              (set_function_data p (set_current_function f (set_current_module m
                (set_topblock FUNCTION_ENTRY_BLOCK_ID
                  (set_curblock FUNCTION_ENTRY_BLOCK_ID st)))))))
  else
    bad ← state_is_not SM_STATE_ExpectCall st |||| module_differs st |||| function_differs st ||||
          tst (bool_decide (curblock st ≠ FUNCTION_ENTRY_BLOCK_ID));
    if (bad : bool) then Val (Exit (set_error 4 st))
    else Val (Next (set_state SM_STATE_InFunction st)).

(** The caller's position and the stacks as they were before the call. *)
Definition leave_callee (opts : options) (data : monitor_data) (st : run_state) : res ctl :=
  '(ncall, cs) ← CALL_STACK_POP (calls st);
  let st := set_module_data (Some (ce_module ncall))
              (set_current_function (ce_function ncall)
                (set_current_module (ce_module ncall) (set_calls cs st))) in
  p ← function_addr data (current_module_data st) (current_function st);
  let st := set_blocks (BLOCK_STACK_RESTORE_TOP (blocks st) (ce_blocks_sp ncall))
              (set_function_data p st) in
  empty ← BLOCK_STACK_IS_EMPTY (blocks st);
  if (empty : bool) then Val (Exit (set_error 7 st))
  else
    '(b, bs) ← BLOCK_STACK_POP (blocks st);
    let st := set_curblock b (set_blocks bs st) in
    st ← (if OPTION_sm_trace opts then
            '(t, bs) ← BLOCK_STACK_POP (blocks st);
            Val (set_topblock t (set_blocks bs st))
          else Val st);
    Val (Next (set_state SM_STATE_ExpectReturn st)).

Definition on_exit (opts : options) (data : monitor_data) (st : run_state) : C ctl :=
  bad ← lift (state_is_not SM_STATE_InFunction st |||| module_differs st |||| function_differs st);
  if (bad : bool) then mret (Exit (set_error 4 st))
  else
    empty ← lift (CALL_STACK_IS_EMPTY (calls st));
    if (empty : bool) then
      bad ← lift (not_entrypoint data st (current_function st));
      if (bad : bool) then mret (Exit (set_error 7 st))
      else
        err ← WRITE_MONITOR_ANSWER CFI_OK (error st);
        mret (Exit (set_error err (set_state SM_STATE_Ready st)))
    else lift (leave_callee opts data st).

Definition on_returned (data : monitor_data) (st : run_state) : res ctl :=
  bad ← state_is_not SM_STATE_ExpectReturn st |||| function_too_big data st |||| no_call data st;
  if (bad : bool) then Val (Exit (set_error 4 st))
  else Val (Next (set_state SM_STATE_InFunction st)).

(** [switch(sig.event)] *)
Definition dispatch (opts : options) (data : monitor_data) (st : run_state) : C ctl :=
  e ← lift (get_event (rs_sig st));
  match client_event_case e with
  | Some CFI_BEFORE_JUMP => lift (on_before_jump st)
  | Some CFI_AFTER_JUMP => on_after_jump opts data st
  | Some CFI_CALL => on_call opts data st
  | Some CFI_ENTER => lift (on_enter data st)
  | Some CFI_EXIT => on_exit opts data st
  | Some CFI_RETURNED => lift (on_returned data st)
  | None => mret (Exit (set_error 5 st))
  end.

(** ** The function *)

(** The [while(1)]; [fuel] bounds the number of iterations. *)
Fixpoint run_loop (fuel : nat) (opts : options) (data : monitor_data) (st : run_state) :
    C run_state :=
  match fuel with
  | O => λ _, NoFuel
  | S fuel =>
      c ← dispatch opts data st;
      match c with
      | Exit st => mret st
      | Next st =>
          err ← WRITE_MONITOR_ANSWER CFI_OK (error st);
          err ← MONITOR_SIGNAL_TIMEOUT opts err;
          if decide (err ≠ 0) then mret (set_error err st)
          else
            '(sg, err) ← READ_CLIENT_SIGNAL (rs_sig st) err;
            run_loop fuel opts data (set_sig sg (set_error err st))
      end
  end.

(** The trace of a failed run: the current position is pushed, both stacks are
    printed, the position is popped again. *)
Definition exit_trace (st : run_state) : C run_state :=
  '(err, bs) ← BLOCK_STACK_PUSH (blocks st) (curblock st) 0;
  let ncall := CallStackElement (current_module st) (current_function st)
                                (BLOCK_STACK_TOP_PTR bs) in
  '(err, cs) ← CALL_STACK_PUSH (calls st) ncall err;
  _ ← call_stack_trace cs;
  _ ← block_stack_trace bs;
  '(b, bs) ← lift (BLOCK_STACK_POP bs);
  '(c, cs) ← lift (CALL_STACK_POP cs);
  mret (set_calls cs (set_blocks bs (set_curblock b st))).

(** From the label [monitor_run_exit]. *)
Definition run_exit (opts : options) (st : run_state) : C Z :=
  st ← (if decide (error st ≠ 0) then
          if OPTION_sm_trace opts then exit_trace st else mret st
        else mret st);
  _ ← lift (call_stack_free (calls st));
  _ ← lift (block_stack_free (blocks st));
  mret (error st).

(** The local variables after their initialisation. *)
Definition initial_state (cs : call_stack) (bs : block_stack) : run_state :=
  RunState SM_STATE_Ready 0 0 0 0 None None 0 cs bs (uninit sizeof_client_signal).

(** Each iteration consumes a read of the client pipe; the loop cannot make
    more iterations than there are reads left, plus one. *)
Definition run_fuel (w : world) : nat := S (S (length (w_sig w))).

Definition monitor_run (opts : options) (data : monitor_data) : C Z :=
  '(e, cs) ← call_stack_init stack_new;
  if decide (e ≠ 0) then mret 1
  else
    '(e, bs) ← block_stack_init stack_new;
    if decide (e ≠ 0) then
      _ ← lift (call_stack_free cs); mret 1
    else
      let st := initial_state cs bs in
      err ← MONITOR_SIGNAL_TIMEOUT opts (error st);
      if decide (err ≠ 0) then run_exit opts (set_error err st)
      else
        '(sg, err) ← READ_CLIENT_SIGNAL (rs_sig st) err;
        st ← (λ w, run_loop (run_fuel w) opts data (set_sig sg (set_error err st)) w);
        run_exit opts st.

#[global] Arguments at_post_dominator : simpl never.
#[global] Arguments enter_callee : simpl never.
#[global] Arguments function_addr : simpl never.
#[global] Arguments leave_callee : simpl never.
#[global] Arguments not_entrypoint : simpl never.
#[global] Arguments WRITE_MONITOR_ANSWER : simpl never.
#[global] Arguments MONITOR_SIGNAL_TIMEOUT : simpl never.
#[global] Arguments READ_CLIENT_SIGNAL : simpl never.
