(* ===== verification/RunSpec.v ===== *)
(** * What the run-time checks promise

    The abstract machine the checks of [monitor_run] implement: a pushdown
    automaton over the signals, whose stack holds the suspended positions, and
    the language it recognises, given as a grammar: an instrumented function
    announces its entry, its body and its exit; a body is a sequence of jumps
    along the control-flow graph and of calls along the call graph, each call
    enclosing the signals of the function it lands in. *)

From S2P Require Import Prelude CSem Wire MonitorData.

(** ** What the graphs allow *)

Definition truth (r : res Z) : bool :=
  match r with Val x => bool_decide (x ≠ 0) | _ => false end.

(** Block [b'] may follow block [b] in function [f] of module [m]. *)
Definition may_jump (data : monitor_data) (m f b b' : Z) : bool :=
  truth (md ← module_at data m;
         fd ← function_at md f;
         if decide (nb_blocks fd <= b') then Val 0 else graph_at (control_flow_graph fd) b b').

(** Function [f] of module [m] may call what its module names [g]. *)
Definition may_call (data : monitor_data) (m f g : Z) : bool :=
  truth (md ← module_at data m;
         if decide (nb_functions md <= g) then Val 0 else graph_at (call_graph md) f g).

(** Where a call of [g] from module [m] lands. *)
Definition target (data : monitor_data) (m g : Z) : res (Z * Z) :=
  md ← module_at data m;
  fd ← function_at md g;
  '(m', g') ← (if FUNCTION_IS_EXTERNAL fd then
                 rs ← deref (relocations md);
                 r ← arr_get rs g;
                 Val (MODULE_FUNCTION_GET_MODULE r, MODULE_FUNCTION_GET_FUNCTION r)
               else Val (m, g));
  md' ← module_at data m';
  _ ← deref (functions md');
  Val (m', g').

(** Function [f] of module [m] is one the process may be started in. *)
Definition entrypoint (data : monitor_data) (m f : Z) : bool :=
  match (md ← module_at data m;
         if decide (nb_functions md <= f) then Val false
         else fd ← function_at md f; Val (FUNCTION_IS_ENTRYPOINT fd)) with
  | Val b => b
  | _ => false
  end.

(** ** The automaton *)

Inductive phase := InFunction | ExpectCall | ExpectReturn | ExpectJump.

#[export] Instance phase_eq_dec : EqDecision phase.
Proof. solve_decision. Defined.

(** A suspended position. *)
Record frame := Frame { fr_module : Z; fr_function : Z; fr_block : Z }.

#[export] Instance frame_eq_dec : EqDecision frame.
Proof. solve_decision. Defined.

Inductive config :=
| Idle
| Active (ph : phase) (m f b : Z) (stk : list frame)
| Finished.

#[export] Instance config_eq_dec : EqDecision config.
Proof. solve_decision. Defined.

(** The signal names module [m] and function [f]. *)
Definition names (s : client_signal) (m f : Z) : bool :=
  bool_decide (sig_module s = m) && bool_decide (sig_function s = f).

Definition astep (data : monitor_data) (c : config) (s : client_signal) : option config :=
  match client_event_case (sig_event s), c with
  | Some CFI_BEFORE_JUMP, Active InFunction m f b stk =>
      if names s m f && bool_decide (sig_block s = b)
      then Some (Active ExpectJump m f b stk) else None
  | Some CFI_AFTER_JUMP, Active ExpectJump m f b stk =>
      if names s m f && may_jump data m f b (sig_block s)
      then Some (Active InFunction m f (sig_block s) stk) else None
  | Some CFI_CALL, Active InFunction m f b stk =>
      if may_call data m f (sig_function s) then
        match target data m (sig_function s) with
        | Val (m', g') => Some (Active ExpectCall m' g' FUNCTION_ENTRY_BLOCK_ID (Frame m f b :: stk))
        | _ => None
        end
      else None
  | Some CFI_ENTER, Idle =>
      if entrypoint data (sig_module s) (sig_function s)
      then Some (Active InFunction (sig_module s) (sig_function s) FUNCTION_ENTRY_BLOCK_ID [])
      else None
  | Some CFI_ENTER, Active ExpectCall m f b stk =>
      if names s m f then Some (Active InFunction m f b stk) else None
  | Some CFI_EXIT, Active InFunction m f b stk =>
      if names s m f then
        match stk with
        | [] => if entrypoint data m f then Some Finished else None
        | Frame m' f' b' :: stk' => Some (Active ExpectReturn m' f' b' stk')
        end
      else None
  | Some CFI_RETURNED, Active ExpectReturn m f b stk =>
      if may_call data m f (sig_function s) then Some (Active InFunction m f b stk) else None
  | _, _ => None
  end.

(** Verdict on a sequence of signals: accepted after [n] signals, with the
    signals that remain, or rejected after [n] signals were accepted. *)
Inductive verdict := Accept (n : nat) (rest : list client_signal) | Reject (n : nat).

Fixpoint arun (data : monitor_data) (n : nat) (c : config) (sigs : list client_signal) : verdict :=
  match sigs with
  | [] => Reject n
  | s :: rest =>
      match astep data c s with
      | None => Reject n
      | Some Finished => Accept (S n) rest
      | Some c' => arun data (S n) c' rest
      end
  end.

(** ** The grammar *)

(** [s] carries event [e]. *)
Definition carries (s : client_signal) (e : client_event) : Prop :=
  client_event_case (sig_event s) = Some e.

Section Grammar.
Context (data : monitor_data).

(** Signals of one activation of function [f] of module [m]. *)
Inductive activation : Z → Z → list client_signal → Prop :=
| activation_intro m f b s1 tr s2 :
    carries s1 CFI_ENTER → names s1 m f = true →
    body m f FUNCTION_ENTRY_BLOCK_ID b tr →
    carries s2 CFI_EXIT → names s2 m f = true →
    activation m f (s1 :: tr ++ [s2])

(** Signals of a body that goes from block [b] to block [b']. *)
with body : Z → Z → Z → Z → list client_signal → Prop :=
| body_nil m f b : body m f b b []
| body_jump m f b b' s1 s2 tr :
    carries s1 CFI_BEFORE_JUMP → names s1 m f = true → sig_block s1 = b →
    carries s2 CFI_AFTER_JUMP → names s2 m f = true →
    may_jump data m f b (sig_block s2) = true →
    body m f (sig_block s2) b' tr →
    body m f b b' (s1 :: s2 :: tr)
| body_call m f b b' s1 tr1 s2 tr2 m' g' :
    carries s1 CFI_CALL → may_call data m f (sig_function s1) = true →
    target data m (sig_function s1) = Val (m', g') →
    activation m' g' tr1 →
    carries s2 CFI_RETURNED → may_call data m f (sig_function s2) = true →
    body m f b b' tr2 →
    body m f b b' (s1 :: tr1 ++ s2 :: tr2).

(** Signals of one run of the monitor: an activation of an entry point. *)
Definition run_trace (tr : list client_signal) : Prop :=
  ∃ m f, entrypoint data m f = true ∧ activation m f tr.

End Grammar.

Scheme activation_mut := Minimality for activation Sort Prop
  with body_mut := Minimality for body Sort Prop.
Combined Scheme activation_body_ind from activation_mut, body_mut.

(** ** The automaton recognises the grammar *)

Section Equivalence.
Context (data : monitor_data).

Lemma names_inv s m f : names s m f = true ↔ sig_module s = m ∧ sig_function s = f.
Proof. unfold names. rewrite andb_true_iff, !bool_decide_eq_true. done. Qed.

(** Steps over a list of signals none of which finishes the run. *)
Fixpoint asteps (c : config) (tr : list client_signal) : option config :=
  match tr with
  | [] => Some c
  | s :: tr => c' ← astep data c s; asteps c' tr
  end.

Lemma asteps_app c tr1 tr2 : asteps c (tr1 ++ tr2) = c' ← asteps c tr1; asteps c' tr2.
Proof.
  revert c. induction tr1 as [|s tr1 IH]; intros c; [done|]. cbn.
  destruct (astep data c s); cbn; [apply IH|done].
Qed.

Lemma asteps_cons c s tr c' : astep data c s = Some c' → asteps c (s :: tr) = asteps c' tr.
Proof. cbn. by intros ->. Qed.

(** The transitions, one by one. *)
Lemma astep_before m f b stk s :
  carries s CFI_BEFORE_JUMP → names s m f = true → sig_block s = b →
  astep data (Active InFunction m f b stk) s = Some (Active ExpectJump m f b stk).
Proof. unfold carries, astep. intros -> -> ->. by rewrite bool_decide_true. Qed.

Lemma astep_after m f b stk s :
  carries s CFI_AFTER_JUMP → names s m f = true → may_jump data m f b (sig_block s) = true →
  astep data (Active ExpectJump m f b stk) s = Some (Active InFunction m f (sig_block s) stk).
Proof. unfold carries, astep. by intros -> -> ->. Qed.

Lemma astep_call m f b stk s m' g' :
  carries s CFI_CALL → may_call data m f (sig_function s) = true →
  target data m (sig_function s) = Val (m', g') →
  astep data (Active InFunction m f b stk) s =
    Some (Active ExpectCall m' g' FUNCTION_ENTRY_BLOCK_ID (Frame m f b :: stk)).
Proof. unfold carries, astep. by intros -> -> ->. Qed.

Lemma astep_enter m f b stk s :
  carries s CFI_ENTER → names s m f = true →
  astep data (Active ExpectCall m f b stk) s = Some (Active InFunction m f b stk).
Proof. unfold carries, astep. by intros -> ->. Qed.

Lemma astep_exit m f b fr stk s :
  carries s CFI_EXIT → names s m f = true →
  astep data (Active InFunction m f b (fr :: stk)) s =
    Some (Active ExpectReturn (fr_module fr) (fr_function fr) (fr_block fr) stk).
Proof. unfold carries, astep. intros -> ->. by destruct fr. Qed.

Lemma astep_returned m f b stk s :
  carries s CFI_RETURNED → may_call data m f (sig_function s) = true →
  astep data (Active ExpectReturn m f b stk) s = Some (Active InFunction m f b stk).
Proof. unfold carries, astep. by intros -> ->. Qed.

(** Completeness: the automaton follows the grammar. *)
Lemma follow_grammar :
  (∀ m f tr, activation data m f tr → ∀ stk fr,
     asteps (Active ExpectCall m f FUNCTION_ENTRY_BLOCK_ID (fr :: stk)) tr =
       Some (Active ExpectReturn (fr_module fr) (fr_function fr) (fr_block fr) stk)) ∧
  (∀ m f b b' tr, body data m f b b' tr → ∀ stk,
     asteps (Active InFunction m f b stk) tr = Some (Active InFunction m f b' stk)).
Proof.
  apply activation_body_ind.
  - intros m f b s1 tr s2 H1 N1 _ IH H2 N2 stk fr.
    rewrite (asteps_cons _ _ _ _ (astep_enter _ _ _ _ _ H1 N1)), asteps_app, IH. cbn.
    by rewrite (astep_exit _ _ _ _ _ _ H2 N2).
  - done.
  - intros m f b b' s1 s2 tr H1 N1 B1 H2 N2 J _ IH stk.
    rewrite (asteps_cons _ _ _ _ (astep_before _ _ _ _ _ H1 N1 B1)).
    rewrite (asteps_cons _ _ _ _ (astep_after _ _ _ _ _ H2 N2 J)). apply IH.
  - intros m f b b' s1 tr1 s2 tr2 m' g' H1 C1 T1 _ IH1 H2 C2 _ IH2 stk.
    rewrite (asteps_cons _ _ _ _ (astep_call _ _ _ _ _ _ _ H1 C1 T1)), asteps_app, IH1. cbn.
    rewrite (astep_returned _ _ _ _ _ H2 C2). apply IH2.
Qed.

Lemma astep_Finished s : astep data Finished s = None.
Proof. unfold astep. by destruct (client_event_case (sig_event s)) as [[]|]. Qed.

Lemma arun_asteps c tr c' n rest :
  asteps c tr = Some c' → c' ≠ Finished →
  arun data n c (tr ++ rest) = arun data (n + length tr) c' rest.
Proof.
  revert c n. induction tr as [|s tr IH]; intros c n H Hc'.
  - cbn in *. injection H as ->. by rewrite Nat.add_0_r.
  - cbn in *. destruct (astep data c s) as [c1|] eqn:E; [|done]. cbn in H.
    rewrite Nat.add_succ_r, <- Nat.add_succ_l. destruct c1; [by apply IH|by apply IH|].
    destruct tr as [|s' tr]; cbn in H; [by injection H as <-|].
    by rewrite astep_Finished in H.
Qed.

(** Inversion of the transitions, by phase. *)
Ltac inv_astep H :=
  unfold astep in H;
  repeat (case_split; try discriminate H); try injection H as <-;
  rewrite ?andb_true_iff, ?bool_decide_eq_true in *.

Lemma astep_ExpectJump_inv m f b stk s c :
  astep data (Active ExpectJump m f b stk) s = Some c →
  carries s CFI_AFTER_JUMP ∧ names s m f = true ∧ may_jump data m f b (sig_block s) = true ∧
  c = Active InFunction m f (sig_block s) stk.
Proof. intros H. inv_astep H. naive_solver. Qed.

Lemma astep_ExpectCall_inv m f b stk s c :
  astep data (Active ExpectCall m f b stk) s = Some c →
  carries s CFI_ENTER ∧ names s m f = true ∧ c = Active InFunction m f b stk.
Proof. intros H. inv_astep H. naive_solver. Qed.

Lemma astep_ExpectReturn_inv m f b stk s c :
  astep data (Active ExpectReturn m f b stk) s = Some c →
  carries s CFI_RETURNED ∧ may_call data m f (sig_function s) = true ∧
  c = Active InFunction m f b stk.
Proof. intros H. inv_astep H. naive_solver. Qed.

Lemma astep_Idle_inv s c :
  astep data Idle s = Some c →
  carries s CFI_ENTER ∧ entrypoint data (sig_module s) (sig_function s) = true ∧
  c = Active InFunction (sig_module s) (sig_function s) FUNCTION_ENTRY_BLOCK_ID [].
Proof. intros H. inv_astep H. naive_solver. Qed.

Lemma astep_InFunction_inv m f b stk s c :
  astep data (Active InFunction m f b stk) s = Some c →
  (carries s CFI_BEFORE_JUMP ∧ names s m f = true ∧ sig_block s = b ∧
     c = Active ExpectJump m f b stk) ∨
  (∃ m' g', carries s CFI_CALL ∧ may_call data m f (sig_function s) = true ∧
     target data m (sig_function s) = Val (m', g') ∧
     c = Active ExpectCall m' g' FUNCTION_ENTRY_BLOCK_ID (Frame m f b :: stk)) ∨
  (carries s CFI_EXIT ∧ names s m f = true ∧
     match stk with
     | [] => entrypoint data m f = true ∧ c = Finished
     | fr :: stk' => c = Active ExpectReturn (fr_module fr) (fr_function fr) (fr_block fr) stk'
     end).
Proof. intros H. inv_astep H; unfold carries; naive_solver. Qed.

(** One step of a run that is accepted. *)
Lemma arun_Accept_inv n c sigs k rest :
  arun data n c sigs = Accept k rest →
  ∃ s sigs' c', sigs = s :: sigs' ∧ astep data c s = Some c' ∧
    ((c' = Finished ∧ k = S n ∧ rest = sigs') ∨
     (c' ≠ Finished ∧ arun data (S n) c' sigs' = Accept k rest)).
Proof.
  destruct sigs as [|s sigs']; cbn; [done|].
  destruct (astep data c s) as [[]|] eqn:E; naive_solver.
Qed.

(** Soundness: a run accepted from the inside of a function is a body of it,
    its exit, and an accepted continuation in the caller. *)
Lemma accepted_body : ∀ len sigs, length sigs = len → ∀ n m f b stk k rest,
  arun data n (Active InFunction m f b stk) sigs = Accept k rest →
  ∃ b' tr s sigs', sigs = tr ++ s :: sigs' ∧ body data m f b b' tr ∧
    carries s CFI_EXIT ∧ names s m f = true ∧
    match stk with
    | [] => entrypoint data m f = true ∧ sigs' = rest ∧ k = (n + S (length tr))%nat
    | fr :: stk' =>
        arun data (n + S (length tr))
          (Active ExpectReturn (fr_module fr) (fr_function fr) (fr_block fr) stk') sigs' = Accept k rest
    end.
Proof.
  induction len as [len IH] using lt_wf_ind. intros sigs <- n m f b stk k rest Hrun.
  apply arun_Accept_inv in Hrun as (s & sigs1 & c & -> & Hs & Hrun). cbn [length] in IH.
  apply astep_InFunction_inv in Hs as
    [(H1 & N1 & B1 & ->)|[(m' & g' & H1 & C1 & T1 & ->)|(H1 & N1 & Hstk)]].
  - destruct Hrun as [(? & _)|(_ & Hrun)]; [done|].
    apply arun_Accept_inv in Hrun as (s2 & sigs2 & c2 & -> & Hs2 & Hrun).
    apply astep_ExpectJump_inv in Hs2 as (H2 & N2 & J2 & ->).
    destruct Hrun as [(? & _)|(_ & Hrun)]; [done|].
    destruct (IH (length sigs2) ltac:(cbn; lia) sigs2 eq_refl _ _ _ _ _ _ _ Hrun)
      as (b' & tr & se & sigs' & -> & Hb & He & Ne & Hend).
    exists b', (s :: s2 :: tr), se, sigs'. split; [done|].
    split; [by apply body_jump|]. split; [done|]. split; [done|].
    cbn [length]. rewrite !Nat.add_succ_r in *. done.
  - destruct Hrun as [(? & _)|(_ & Hrun)]; [done|].
    apply arun_Accept_inv in Hrun as (s2 & sigs2 & c2 & -> & Hs2 & Hrun).
    apply astep_ExpectCall_inv in Hs2 as (H2 & N2 & ->).
    destruct Hrun as [(? & _)|(_ & Hrun)]; [done|].
    destruct (IH (length sigs2) ltac:(cbn; lia) sigs2 eq_refl _ _ _ _ _ _ _ Hrun)
      as (bc & trc & sc & sigs3 & -> & Hbc & Hec & Nec & Hrun3). cbn in Hrun3.
    apply arun_Accept_inv in Hrun3 as (s4 & sigs4 & c4 & -> & Hs4 & Hrun4).
    apply astep_ExpectReturn_inv in Hs4 as (H4 & C4 & ->).
    destruct Hrun4 as [(? & _)|(_ & Hrun4)]; [done|].
    destruct (IH (length sigs4) ltac:(cbn; rewrite length_app; cbn; lia) sigs4 eq_refl
      _ _ _ _ _ _ _ Hrun4) as (b' & tr & se & sigs' & -> & Hb & He & Ne & Hend).
    exists b', (s :: (s2 :: trc ++ [sc]) ++ s4 :: tr), se, sigs'.
    split; [by simplify_list_eq|].
    split; [eapply body_call; try done; by eapply activation_intro|]. split; [done|]. split; [done|].
    assert (n + S (length (s :: (s2 :: trc ++ [sc]) ++ s4 :: tr)) =
            S (S (S n) + S (length trc)) + S (length tr))%nat as -> by solve_length.
    exact Hend.
  - exists b, [], s, sigs1. split; [done|]. split; [constructor|]. split; [done|]. split; [done|].
    destruct stk as [|fr stk'].
    + destruct Hstk as [He ->]. destruct Hrun as [(_ & -> & ->)|(? & _)]; [|done].
      split; [done|]. split; [done|]. cbn. lia.
    + subst c. destruct Hrun as [(? & _)|(_ & Hrun)]; [done|]. cbn. by rewrite Nat.add_1_r.
Qed.

(** The automaton accepts exactly the grammar. *)
Lemma arun_accepts_iff sigs k rest :
  arun data 0 Idle sigs = Accept k rest ↔
  ∃ tr, run_trace data tr ∧ sigs = tr ++ rest ∧ k = length tr.
Proof.
  split.
  - intros (s & sigs1 & c & -> & Hs & Hrun)%arun_Accept_inv.
    apply astep_Idle_inv in Hs as (H1 & He & ->).
    destruct Hrun as [(? & _)|(_ & Hrun)]; [done|].
    destruct (accepted_body _ sigs1 eq_refl _ _ _ _ _ _ _ Hrun)
      as (b' & tr & s2 & sigs' & -> & Hb & H2 & N2 & He2 & -> & ->).
    exists (s :: tr ++ [s2]). split; [|split; [by simplify_list_eq|solve_length]].
    eexists _, _. split; [exact He|]. eapply activation_intro; try done. by apply names_inv.
  - intros (tr & (m & f & He & Hact) & -> & ->).
    inversion Hact as [m0 f0 b s1 body_tr s2 H1 N1 Hb H2 N2]; subst.
    apply names_inv in N1 as [<- <-].
    assert (Hstart : astep data Idle s1 = Some
      (Active InFunction (sig_module s1) (sig_function s1) FUNCTION_ENTRY_BLOCK_ID [])).
    { unfold carries in H1. unfold astep. by rewrite H1, He. }
    cbn [app arun]. rewrite Hstart, <- app_assoc.
    rewrite (arun_asteps _ _ _ _ _ (proj2 follow_grammar _ _ _ _ _ Hb [])) by done.
    cbn [app arun]. unfold carries in H2. unfold astep. rewrite H2, N2, He. f_equal. solve_length.
Qed.

(** After a transition the same signal is refused: a signal that a failed
    read leaves in place is not taken twice. *)
Lemma astep_no_repeat c s c' : astep data c s = Some c' → astep data c' s = None.
Proof.
  intros H. destruct c as [|ph m f b stk|].
  - apply astep_Idle_inv in H as (Hc & _ & ->). unfold astep. unfold carries in Hc. by rewrite Hc.
  - destruct ph.
    + apply astep_InFunction_inv in H as [(Hc & _ & _ & ->)|[(m' & g' & Hc & _ & _ & ->)|(Hc & _ & H)]];
        unfold carries in Hc; unfold astep; rewrite Hc; [done|done|].
      destruct stk; [by destruct H as [_ ->]|by subst].
    + apply astep_ExpectCall_inv in H as (Hc & _ & ->). unfold astep. unfold carries in Hc. by rewrite Hc.
    + apply astep_ExpectReturn_inv in H as (Hc & _ & ->). unfold astep. unfold carries in Hc. by rewrite Hc.
    + apply astep_ExpectJump_inv in H as (Hc & _ & _ & ->). unfold astep. unfold carries in Hc. by rewrite Hc.
  - by rewrite astep_Finished in H.
Qed.

(** The number of signals accepted is between the start and the end. *)
Lemma arun_Accept_le n c sigs k rest :
  arun data n c sigs = Accept k rest → (n <= k)%nat ∧ length sigs = (k - n + length rest)%nat.
Proof.
  revert n c. induction sigs as [|s sigs IH]; intros n c H; [done|]. cbn in H.
  destruct (astep data c s) as [[]|]; [apply IH in H; cbn; lia| |by injection H as <- <-; cbn; lia|done].
  apply IH in H. cbn. lia.
Qed.

End Equivalence.

Create HintDb runspec discriminated.
#[export] Hint Resolve astep_before astep_after astep_call astep_enter astep_exit astep_returned
  astep_no_repeat : runspec.
