(* ===== verification/RunRefine.v ===== *)
(** * The run-time checks implement the automaton

    Simulation of the automaton of [RunSpec] by [monitor_run], for data as
    the loader leaves it and an allocator that grows the stacks in place:
    each signal is accepted, with one answer, exactly when the automaton has a
    transition, and the relation [rel] between the local variables of
    [monitor_run] and the automaton's configuration is preserved. *)

From S2P Require Import Prelude CSem Wire CStack BlockStack CallStack MonitorData.
From S2P Require Import MonitorRun RunSpec.
From Stdlib Require Import Strings.Byte.

(** ** Relation between the concrete state and the configuration *)

(** Data the checks may run on. *)
Definition run_ready (data : monitor_data) : Prop := wf_data data ∧ relocs_ok data.

(** Function [f] of module [m] exists and [b] is one of its blocks (a function
    with no recorded block has only the entry block, and no jump). *)
Definition pos_ok (data : monitor_data) (m f b : Z) : Prop :=
  ∃ md fd, module_at data m = Val md ∧ function_at md f = Val fd ∧
    0 <= f < nb_functions md ∧ (nb_blocks fd ≠ 0 → 0 <= b < nb_blocks fd).

Definition phase_state (ph : phase) : monitor_state_t :=
  match ph with
  | InFunction => SM_STATE_InFunction
  | ExpectCall => SM_STATE_ExpectCall
  | ExpectReturn => SM_STATE_ExpectReturn
  | ExpectJump => SM_STATE_ExpectJump
  end.

Section Relation.
Context (opts : options) (data : monitor_data).

(** Elements a call pushes on the block stack. *)
Definition saved : nat := if OPTION_sm_trace opts then 2 else 1.

(** The call stack [ces] (top first) suspends the frames [stk]: each element
    holds the frame's module and function, and the top of the block stack just
    after the frame's block was pushed.  [n] bounds these tops. *)
Inductive frames_ok (bb : nat) (bs : list Z) :
    nat → list call_stack_element → list frame → Prop :=
| frames_nil n : frames_ok bb bs n [] []
| frames_cons n j ces stk m f b :
    (saved <= j <= n)%nat →
    bs !! (j - 1)%nat = Some b →
    pos_ok data m f b →
    (OPTION_sm_trace opts = true → ∃ t, bs !! (j - 2)%nat = Some t ∧ pos_ok data m f t) →
    frames_ok bb bs (j - saved) ces stk →
    frames_ok bb bs n (CallStackElement m f (Ptr bb (Z.of_nat j - 1)) :: ces) (Frame m f b :: stk).

(** The stacks hold [ces] and [bs]. *)
Definition stacks_hold (bc : nat) (ces : list call_stack_element) (bb : nat) (bs : list Z)
    (st : run_state) : Prop :=
  stack_repr bc (reverse ces) (calls st) ∧ stack_repr bb bs (blocks st).

(** The local variables are at a position. *)
Definition at_position (ph : phase) (m f b : Z) (st : run_state) : Prop :=
  state st = phase_state ph ∧ current_module st = m ∧ current_function st = f ∧
  curblock st = b ∧ current_module_data st = Some m ∧ current_function_data st = Some (m, f) ∧
  pos_ok data m f b ∧ (OPTION_sm_trace opts = true → pos_ok data m f (topblock st)) ∧
  (ph = ExpectCall → b = FUNCTION_ENTRY_BLOCK_ID).

Definition rel (st : run_state) (c : config) : Prop :=
  ∃ bc ces bb bs, stacks_hold bc ces bb bs st ∧
    match c with
    | Idle => state st = SM_STATE_Ready ∧ ces = []
    | Active ph m f b stk => at_position ph m f b st ∧ frames_ok bb bs (length bs) ces stk
    | Finished => False
    end.

(** ** Outcomes of a case of the switch *)

(** The error codes of a refused signal. *)
Definition refusal (e : Z) : Prop := 4 <= e <= 7.

(** The signal is refused: an error is set and the run ends. *)
Definition refused (st : run_state) (w : world) (r : res (ctl * world)) : Prop :=
  (∃ st', r = Val (Exit st', w) ∧ refusal (error st') ∧ calls st' = calls st ∧ blocks st' = blocks st)
  ∨ (r = Undef NullDeref ∧ ¬ full_rows data).

(** The signal is accepted, and the run goes on in configuration [c]. *)
Definition accepted (st : run_state) (w : world) (c : config) (r : res (ctl * world)) : Prop :=
  ∃ st' w', r = Val (Next st', w') ∧ rel st' c ∧ rs_sig st' = rs_sig st ∧ error st' = 0 ∧
            quiet w w'.

End Relation.

(** ** Lemmas on the relation *)

Lemma frames_ok_mono opts data bb bs bs' n n' ces stk :
  frames_ok opts data bb bs n ces stk → (n <= n')%nat →
  (∀ i, (i < n)%nat → bs !! i = bs' !! i) →
  frames_ok opts data bb bs' n' ces stk.
Proof.
  intros Hfr. revert n'. induction Hfr as [n|n j ces stk m f b Hj Hb Hp Ht _ IH]; intros n' Hn Heq.
  - constructor.
  - assert (1 <= saved opts)%nat by (unfold saved; by case_split; lia).
    constructor; [lia| |done| |].
    + rewrite <- Heq; [done|lia].
    + intros Htr. unfold saved in *. rewrite Htr in *. rewrite <- Heq by lia. by apply Ht.
    + apply IH; [done|]. intros i Hi. apply Heq. lia.
Qed.

Lemma frames_ok_push opts data bb bs ces stk t :
  frames_ok opts data bb bs (length bs) ces stk →
  frames_ok opts data bb (bs ++ [t]) (length (bs ++ [t])) ces stk.
Proof.
  intros Hfr. eapply frames_ok_mono; [exact Hfr|solve_length|].
  intros i Hi. by rewrite lookup_app_l.
Qed.

(** ** Lemmas on data *)

Lemma module_at_wf data m md : wf_data data → module_at data m = Val md →
  wf_module md ∧ 0 <= m < nb_modules data.
Proof.
  unfold module_at. intros [[? ->]|(ms & -> & Hlen & Hwf)] Hm; cbn in Hm; [done|].
  split; [|apply arr_get_lt in Hm; lia].
  apply arr_get_Val in Hm as [_ Hm]. by eapply Forall_lookup_1 in Hwf.
Qed.

Lemma module_at_in_range data m : wf_data data → 0 <= m < nb_modules data →
  ∃ md, module_at data m = Val md.
Proof.
  unfold module_at. intros [[? _]|(ms & -> & Hlen & _)] Hm; [lia|]. cbn.
  apply arr_get_in_range. lia.
Qed.

Lemma function_at_in_range md f : wf_module md → 0 <= f < nb_functions md →
  ∃ fd, function_at md f = Val fd ∧ wf_function fd.
Proof.
  unfold wf_module, function_at. intros [_ Hwf] H. rewrite decide_False in Hwf by lia.
  destruct Hwf as (_ & _ & fs & -> & Hlen & Hfs). cbn.
  destruct (arr_get_in_range fs f) as [fd Hfd]; [lia|].
  exists fd. split; [done|]. apply arr_get_Val in Hfd as [_ Hfd]. by eapply Forall_lookup_1 in Hfs.
Qed.

Lemma wf_module_nonempty md f : wf_module md → 0 <= f < nb_functions md →
  wf_graph (nb_functions md) (call_graph md) ∧ wf_array (nb_functions md) (relocations md) ∧
  ∃ fs, functions md = Live fs.
Proof.
  unfold wf_module. intros [_ Hwf] H. rewrite decide_False in Hwf by lia. naive_solver.
Qed.

(** An access to a graph reads a cell, or meets a row never allocated. *)
Lemma graph_at_wf n g i j : wf_graph n g → 0 <= i < n → 0 <= j < n →
  (∃ x, graph_at g i j = Val x) ∨ (graph_at g i j = Undef NullDeref ∧ ¬ full_graph g).
Proof.
  intros (rows & -> & Hlen & Hrows) Hi Hj. unfold graph_at. cbn.
  destruct (arr_get_in_range rows i) as [row Hrow]; [lia|]. rewrite Hrow. cbn.
  assert (Hl := Hrow). apply arr_get_Val in Hl as [_ Hl].
  rewrite Forall_lookup in Hrows. destruct (Hrows _ _ Hl) as [->|(r & -> & Hr)].
  - right. split; [done|]. intros (rows' & [= <-] & Hfull).
    rewrite Forall_lookup in Hfull. by eapply Hfull.
  - left. cbn. apply arr_get_in_range. lia.
Qed.

Lemma full_rows_calls data m md : full_rows data → module_at data m = Val md →
  nb_functions md ≠ 0 → full_graph (call_graph md).
Proof. intros H Hm Hn. by apply (H m md Hm Hn). Qed.

Lemma full_rows_jumps data m md f fd : full_rows data → module_at data m = Val md →
  nb_functions md ≠ 0 → function_at md f = Val fd → nb_blocks fd ≠ 0 →
  full_graph (control_flow_graph fd).
Proof. intros H Hm Hn Hf Hb. destruct (H m md Hm Hn) as [_ H2]. by apply (H2 f fd). Qed.

Lemma res_or_assoc a b c : (a |||| b) |||| c = a |||| (b |||| c).
Proof. by destruct a as [[]| |]. Qed.

Lemma res_or_Val_true b : (Val true |||| b) = Val true.
Proof. done. Qed.

Lemma res_or_Val_false b : (Val false |||| b) = b.
Proof. done. Qed.

(** ** Simulation *)

Section Simulation.
Context (opts : options) (data : monitor_data) (Hready : run_ready data).

Let Hwf : wf_data data := proj1 Hready.

(** *** The guards *)

(** The check of a call or of a return: decided by the call graph, or a null
    row is dereferenced. *)
Lemma call_guard st m f b g :
  pos_ok data m f b → current_module_data st = Some m → current_function st = f →
  get_function (rs_sig st) = Val g → 0 <= g →
  (function_too_big data st |||| no_call data st) = Val (negb (may_call data m f g)) ∨
  ((function_too_big data st |||| no_call data st) = Undef NullDeref ∧
   may_call data m f g = false ∧ ¬ full_rows data).
Proof.
  intros (md & fd & Hm & Hf & Hr & _) Hmd Hcf Hg Hg0.
  unfold function_too_big, no_call, may_call. rewrite Hg, Hmd, Hcf. cbn. rewrite Hm. cbn.
  case_bool_decide; case_decide; try lia; cbn; [by left|].
  destruct (module_at_wf _ _ _ Hwf Hm) as [Hmwf _].
  destruct (wf_module_nonempty md f Hmwf Hr) as (Hcg & _).
  destruct (graph_at_wf _ _ f g Hcg Hr ltac:(lia)) as [[x ->]|[-> Hnf]].
  - left. cbn. by repeat case_bool_decide.
  - right. split; [done|]. split; [done|]. intros Hfull. apply Hnf.
    eapply full_rows_calls; [done|exact Hm|lia].
Qed.

(** The check of a jump. *)
Lemma jump_guard st m f b b' :
  pos_ok data m f b → current_function_data st = Some (m, f) → curblock st = b →
  get_block (rs_sig st) = Val b' → 0 <= b' →
  (block_too_big data st |||| no_jump data st) = Val (negb (may_jump data m f b b')) ∨
  ((block_too_big data st |||| no_jump data st) = Undef NullDeref ∧
   may_jump data m f b b' = false ∧ ¬ full_rows data).
Proof.
  intros (md & fd & Hm & Hf & Hr & Hb) Hfd Hcb Hb' Hb'0.
  unfold block_too_big, no_jump, may_jump. rewrite Hb', Hfd, Hcb. cbn. rewrite Hm. cbn. rewrite Hf. cbn.
  case_bool_decide; case_decide; try lia; cbn; [by left|].
  destruct (module_at_wf _ _ _ Hwf Hm) as [Hmwf _].
  destruct (function_at_in_range md f Hmwf Hr) as (fd' & Hf' & Hfwf).
  assert (fd' = fd) as -> by congruence.
  destruct Hfwf as (_ & _ & Hfwf). rewrite decide_False in Hfwf by lia. destruct Hfwf as [Hcfg _].
  destruct (graph_at_wf _ _ b b' Hcfg (Hb ltac:(lia)) ltac:(lia)) as [[x ->]|[-> Hnf]].
  - left. cbn. by repeat case_bool_decide.
  - right. split; [done|]. split; [done|]. intros Hfull. apply Hnf.
    eapply full_rows_jumps; [done|exact Hm|lia|exact Hf|lia].
Qed.

(** A jump that is allowed leads to a block of the function. *)
Lemma may_jump_pos m f b b' :
  pos_ok data m f b → 0 <= b' → may_jump data m f b b' = true → pos_ok data m f b'.
Proof.
  intros (md & fd & Hm & Hf & Hr & Hb) Hb'0. unfold may_jump. rewrite Hm. cbn. rewrite Hf. cbn.
  case_decide; [done|]. intros _. exists md, fd. repeat split; try done; lia.
Qed.

(** A position whose block is the entry block. *)
Lemma has_function_pos m f : has_function data m f → pos_ok data m f FUNCTION_ENTRY_BLOCK_ID.
Proof.
  intros (md & Hm & Hr). destruct (module_at_wf _ _ _ Hwf Hm) as [Hmwf _].
  destruct (function_at_in_range md f Hmwf Hr) as (fd & Hf & _ & [Hn0 Hn1] & _).
  exists md, fd. repeat split; try done; unfold FUNCTION_ENTRY_BLOCK_ID; lia.
Qed.

(** A call that is allowed lands in an existing function. *)
Lemma may_call_in_range m f g :
  may_call data m f g = true → ∃ md, module_at data m = Val md ∧ g < nb_functions md.
Proof.
  unfold may_call. destruct (module_at data m) as [md| |]; cbn; try done.
  case_decide; [done|]. intros _. exists md. split; [done|lia].
Qed.

Lemma target_exists m f g :
  0 <= g → may_call data m f g = true →
  ∃ m' g', target data m g = Val (m', g') ∧ has_function data m' g'.
Proof.
  intros Hg0 (md & Hm & Hg)%may_call_in_range.
  destruct (module_at_wf _ _ _ Hwf Hm) as [Hmwf _].
  destruct (function_at_in_range md g Hmwf ltac:(lia)) as (fd & Hf & _).
  destruct (wf_module_nonempty md g Hmwf ltac:(lia)) as (_ & (rs & Hrs & Hlen) & _).
  unfold target. rewrite Hm. cbn. rewrite Hf. cbn.
  assert (Hend : ∀ m' g', has_function data m' g' →
    ∃ m'' g'', (md' ← module_at data m'; _ ← deref (functions md'); Val (m', g')) = Val (m'', g'') ∧
               has_function data m'' g'').
  { intros m' g' (md' & Hm' & Hr'). exists m', g'. rewrite Hm'. cbn.
    destruct (module_at_wf _ _ _ Hwf Hm') as [Hmwf' _].
    destruct (wf_module_nonempty md' g' Hmwf' Hr') as (_ & _ & fs & ->).
    split; [done|]. by exists md'. }
  destruct (FUNCTION_IS_EXTERNAL fd) eqn:Hext; cbn.
  - rewrite Hrs. cbn. destruct (arr_get_in_range rs g) as [r Hr]; [lia|]. rewrite Hr. cbn.
    apply Hend. eapply (proj2 Hready); eauto.
  - apply Hend. exists md. split; [done|lia].
Qed.

(** The entry check. *)
Lemma entry_guard st m f :
  0 <= f → current_module_data st = Some m → get_function (rs_sig st) = Val f →
  0 <= m < nb_modules data →
  (function_too_big data st |||| not_entrypoint data st f) = Val (negb (entrypoint data m f)).
Proof.
  intros Hf0 Hmd Hf Hm. destruct (module_at_in_range _ _ Hwf Hm) as [md Hmod].
  destruct (module_at_wf _ _ _ Hwf Hmod) as [Hmwf _].
  unfold function_too_big, not_entrypoint, entrypoint. rewrite Hf, Hmd. cbn. rewrite Hmod. cbn.
  case_bool_decide; case_decide; try lia; cbn; [done|].
  destruct (function_at_in_range md f Hmwf ltac:(lia)) as (fd & -> & _). done.
Qed.

Lemma entrypoint_has_function m f :
  0 <= f → entrypoint data m f = true → has_function data m f.
Proof.
  intros Hf. unfold entrypoint. destruct (module_at data m) as [md| |] eqn:Hm; cbn; try done.
  case_decide; [done|]. intros _. exists md. split; [done|lia].
Qed.

Lemma function_addr_ok m f : has_function data m f →
  function_addr data (Some m) f = Val (Some (m, f)).
Proof.
  intros (md & Hm & Hr). unfold function_addr. rewrite Hm. cbn.
  destruct (module_at_wf _ _ _ Hwf Hm) as [Hmwf _].
  by destruct (wf_module_nonempty md f Hmwf Hr) as (_ & _ & fs & ->).
Qed.

Lemma pos_has_function m f b : pos_ok data m f b → has_function data m f.
Proof. intros (md & fd & Hm & _ & Hr & _). by exists md. Qed.

(** The callee's position is the target of the call. *)
Lemma enter_callee_eq st' m g m' g' :
  current_module st' = m → current_module_data st' = Some m → target data m g = Val (m', g') →
  enter_callee data g st' =
    Val (set_module_data (Some m') (set_current_function g' (set_current_module m' st'))).
Proof.
  unfold target, enter_callee. intros Hm Hmd Ht. rewrite Hmd. cbn [module_of].
  destruct (module_at data m) as [md| |]; cbn in *; try done.
  destruct (function_at md g) as [fd| |]; cbn in *; try done.
  destruct (FUNCTION_IS_EXTERNAL fd).
  - destruct (deref (relocations md)) as [rs| |]; cbn in *; try done.
    destruct (arr_get rs g) as [r| |]; cbn in *; try done. inv_res. done.
  - cbn in Ht. inv_res. destruct st'. cbn in *. by subst.
Qed.

(** *** The cases of the switch, for a signal read in full *)

Section Signal.
Context (s : client_signal) (Hs : wf_signal s).
Context (st : run_state) (Hsig : rs_sig st = Some <$> client_signal_bytes s).

Lemma get_module_st : get_module (rs_sig st) = Val (sig_module s).
Proof using Hs Hsig. rewrite Hsig. by apply get_module_bytes. Qed.
Lemma get_function_st : get_function (rs_sig st) = Val (sig_function s).
Proof using Hs Hsig. rewrite Hsig. by apply get_function_bytes. Qed.
Lemma get_block_st : get_block (rs_sig st) = Val (sig_block s).
Proof using Hs Hsig. rewrite Hsig. by apply get_block_bytes. Qed.

Lemma sig_function_nonneg : 0 <= sig_function s.
Proof using Hs. apply Hs. Qed.
Lemma sig_module_nonneg : 0 <= sig_module s.
Proof using Hs. apply Hs. Qed.
Lemma sig_block_nonneg : 0 <= sig_block s.
Proof using Hs. apply Hs. Qed.

(** The checks common to the cases: expected state, module and function. *)
Lemma position_guard x :
  (state_is_not x st |||| module_differs st |||| function_differs st) =
  Val (negb (bool_decide (state st = x) && names s (current_module st) (current_function st))).
Proof using Hs Hsig.
  unfold state_is_not, module_differs, function_differs, names.
  rewrite get_module_st, get_function_st. cbn.
  repeat case_bool_decide; cbn; congruence.
Qed.

Lemma before_jump_eq :
  on_before_jump st =
    if bool_decide (state st = SM_STATE_InFunction) &&
       names s (current_module st) (current_function st) && bool_decide (sig_block s = curblock st)
    then Val (Next (set_state SM_STATE_ExpectJump st))
    else Val (Exit (set_error 4 st)).
Proof using Hs Hsig.
  unfold on_before_jump. rewrite position_guard. unfold block_differs. rewrite get_block_st. cbn.
  destruct (_ && names _ _ _); cbn; [|done]. repeat case_bool_decide; cbn; congruence.
Qed.

(** A case entered in another state than the one it expects. *)
Lemma refuse_error e w : refusal e → refused data st w (Val (Exit (set_error e st), w)).
Proof. intros. left. eexists. done. Qed.

Lemma after_jump_wrong_state w :
  state st ≠ SM_STATE_ExpectJump →
  on_after_jump opts data st w = Val (Exit (set_error 4 st), w).
Proof. intros. unfold on_after_jump, state_is_not. by rewrite bool_decide_true. Qed.

Lemma call_wrong_state w :
  state st ≠ SM_STATE_InFunction → on_call opts data st w = Val (Exit (set_error 4 st), w).
Proof. intros. unfold on_call, state_is_not. by rewrite bool_decide_true. Qed.

Lemma exit_wrong_state w :
  state st ≠ SM_STATE_InFunction → on_exit opts data st w = Val (Exit (set_error 4 st), w).
Proof. intros. unfold on_exit, state_is_not. by rewrite bool_decide_true. Qed.

Lemma returned_wrong_state :
  state st ≠ SM_STATE_ExpectReturn → on_returned data st = Val (Exit (set_error 4 st)).
Proof. intros. unfold on_returned, state_is_not. by rewrite bool_decide_true. Qed.

Lemma enter_wrong_state :
  state st ≠ SM_STATE_Ready → state st ≠ SM_STATE_ExpectCall →
  on_enter data st = Val (Exit (set_error 4 st)).
Proof.
  intros. unfold on_enter, state_is_not. rewrite decide_False by done. by rewrite bool_decide_true.
Qed.

(** The post-dominator test reads a cell of the array. *)
Lemma at_post_dominator_ok m f :
  current_function_data st = Some (m, f) →
  (OPTION_sm_trace opts = true → pos_ok data m f (topblock st)) →
  may_jump data m f (curblock st) (sig_block s) = true →
  ∃ b, at_post_dominator opts data st = Val b ∧ (b = true → OPTION_sm_trace opts = true).
Proof using Hs Hsig Hready Hwf.
  intros Hfd Htop Hj. unfold at_post_dominator.
  destruct (OPTION_sm_trace opts); [|by exists false].
  destruct (Htop eq_refl) as (md & fd & Hm & Hf & Hr & Ht). cbn. rewrite Hfd. cbn. rewrite Hm. cbn.
  rewrite Hf. cbn.
  revert Hj. unfold may_jump. rewrite Hm. cbn. rewrite Hf. cbn. case_decide; [done|]. intros Hj.
  pose proof sig_block_nonneg.
  destruct (module_at_wf _ _ _ Hwf Hm) as [Hmwf _].
  destruct (function_at_in_range md f Hmwf Hr) as (fd' & Hf' & _ & _ & Hfwf).
  assert (fd' = fd) as -> by congruence.
  rewrite decide_False in Hfwf by lia. destruct Hfwf as [_ (ipd & -> & Hlen)]. cbn.
  destruct (arr_get_in_range ipd (topblock st)) as [p ->]; [specialize (Ht ltac:(lia)); lia|]. cbn.
  rewrite get_block_st. cbn. eexists. done.
Qed.

Lemma sim_after_jump w m f b stk bc ces bb bs :
  stacks_hold bc ces bb bs st → at_position opts data ExpectJump m f b st →
  frames_ok opts data bb bs (length bs) ces stk →
  if names s m f && may_jump data m f b (sig_block s) then
    in_place w → error st = 0 →
    accepted opts data st w (Active InFunction m f (sig_block s) stk) (on_after_jump opts data st w)
  else refused data st w (on_after_jump opts data st w).
Proof using Hs Hsig Hready Hwf.
  intros [Hcalls Hblocks] (Hst & Hm & Hf & Hb & Hmd & Hfd & Hpos & Htop & _) Hfr.
  unfold on_after_jump. rewrite res_or_assoc, position_guard, Hst, Hm, Hf, bool_decide_true by done.
  cbn [andb]. destruct (names s m f); cbn [negb]; [|by apply refuse_error].
  rewrite res_or_Val_false. cbn [andb].
  destruct (jump_guard st m f b (sig_block s) Hpos Hfd Hb get_block_st sig_block_nonneg)
    as [->|(-> & -> & Hnf)]; [|by right].
  destruct (may_jump data m f b (sig_block s)) eqn:Hj; cbn [negb]; [|by apply refuse_error].
  intros Hw Herr. rewrite get_block_st. C_run.
  assert (Hpos' := may_jump_pos _ _ _ _ Hpos sig_block_nonneg Hj).
  destruct (at_post_dominator_ok m f Hfd Htop) as (pd & -> & Hpd); [by rewrite Hb|]. C_run.
  destruct pd; C_run.
  - destruct (contract_push (push := BLOCK_STACK_PUSH) bb bs (blocks st) (topblock st) w Hw Hblocks)
      as (bst & w' & Hpush & Hbst & Hq).
    rewrite Herr, Hpush. C_run. eexists _, w'. split; [done|].
    repeat split; try done; [|apply Hq|apply Hq].
    exists bc, ces, bb, (bs ++ [topblock st]). split; [done|]. split; [by repeat split|].
    by apply frames_ok_push.
  - eexists _, w. split; [done|]. repeat split; try done.
    exists bc, ces, bb, bs. repeat split; try done.
Qed.

(** The pushes of a call. *)
Lemma push_position w bb bs :
  in_place w → stack_repr bb bs (blocks st) → error st = 0 →
  ∃ bst w' bs0,
    (∀ B (K : Z → block_stack → C B),
      ('(err, bs) ← (if OPTION_sm_trace opts
                     then BLOCK_STACK_PUSH (blocks st) (topblock st) (error st)
                     else mret (error st, blocks st));
       '(err, bs) ← BLOCK_STACK_PUSH bs (curblock st) err;
       K err bs) w = K 0 bst w') ∧
    quiet w w' ∧ stack_repr bb (bs ++ bs0 ++ [curblock st]) bst ∧
    bs0 = if OPTION_sm_trace opts then [topblock st] else [].
Proof.
  intros Hw Hb Herr. destruct (OPTION_sm_trace opts).
  - destruct (contract_push (push := BLOCK_STACK_PUSH) bb bs (blocks st) (topblock st) w Hw Hb)
      as (b1 & w1 & H1 & Hb1 & Hq1).
    destruct (contract_push (push := BLOCK_STACK_PUSH) bb _ b1 (curblock st) w1
      (quiet_in_place _ _ Hq1 Hw) Hb1) as (b2 & w2 & H2 & Hb2 & Hq2).
    exists b2, w2, [topblock st]. split; [intros B K; rewrite Herr, C_bind_eq, H1, C_bind_eq, H2; done|].
    split; [by transitivity w1|]. split; [by rewrite app_assoc|done].
  - destruct (contract_push (push := BLOCK_STACK_PUSH) bb bs (blocks st) (curblock st) w Hw Hb)
      as (b1 & w1 & H1 & Hb1 & Hq1).
    exists b1, w1, []. split; [|done]. intros B K. rewrite Herr. C_run. by rewrite H1.
Qed.

(** The suspended position is a frame of the new call stack. *)
Lemma frames_ok_call bb bs ces stk m f b t bs0 :
  frames_ok opts data bb bs (length bs) ces stk → pos_ok data m f b →
  (OPTION_sm_trace opts = true → pos_ok data m f t) →
  bs0 = (if OPTION_sm_trace opts then [t] else []) →
  let bs' := bs ++ bs0 ++ [b] in
  frames_ok opts data bb bs' (length bs')
    (CallStackElement m f (Ptr bb (Z.of_nat (length bs') - 1)) :: ces) (Frame m f b :: stk).
Proof.
  intros Hfr Hb Ht -> bs'.
  assert (length bs' = (length bs + saved opts)%nat) as Hlen.
  { subst bs'. unfold saved. case_split; solve_length. }
  assert (1 <= saved opts)%nat by (unfold saved; by case_split; lia).
  constructor; [lia| |done| |].
  - subst bs'. rewrite app_assoc. apply lookup_pushed.
  - intros Htr. exists t. split; [|by apply Ht]. subst bs'. rewrite Htr. apply lookup_pushed_below.
  - eapply frames_ok_mono; [exact Hfr|lia|]. intros i Hi. subst bs'. by rewrite lookup_app_l.
Qed.

Lemma sim_call w m f b stk bc ces bb bs :
  stacks_hold bc ces bb bs st → at_position opts data InFunction m f b st →
  frames_ok opts data bb bs (length bs) ces stk →
  if may_call data m f (sig_function s) then
    ∃ m' g', target data m (sig_function s) = Val (m', g') ∧
      (in_place w → error st = 0 →
       accepted opts data st w
         (Active ExpectCall m' g' FUNCTION_ENTRY_BLOCK_ID (Frame m f b :: stk)) (on_call opts data st w))
  else refused data st w (on_call opts data st w).
Proof using Hs Hsig Hready Hwf.
  intros [Hcalls Hblocks] (Hst & Hm & Hf & Hb & Hmd & Hfd & Hpos & Htop & _) Hfr.
  unfold on_call, state_is_not. rewrite res_or_assoc, Hst, bool_decide_false by (by intros []).
  rewrite res_or_Val_false.
  destruct (call_guard st m f b (sig_function s) Hpos Hmd Hf get_function_st sig_function_nonneg)
    as [->|(-> & -> & Hnf)]; [|by right].
  destruct (may_call data m f (sig_function s)) eqn:Hc; cbn [negb]; [|by apply refuse_error].
  destruct (target_exists m f _ sig_function_nonneg Hc) as (m' & g' & Ht & Hhas).
  exists m', g'. split; [done|]. intros Hw Herr.
  rewrite (C_bind_step _ _ _ _ _ (lift_Val false w)).
  destruct (push_position w bb bs Hw Hblocks Herr) as (bst & w1 & bs0 & Hpush & Hq1 & Hbst & Hbs0).
  rewrite Hpush. C_run. rewrite (stack_top_ok _ _ _ Hbst : BLOCK_STACK_TOP_PTR bst = _).
  set (ce := CallStackElement _ _ _).
  destruct (contract_push (push := CALL_STACK_PUSH) bc (reverse ces) (calls st) ce w1
    (quiet_in_place _ _ Hq1 Hw) Hcalls) as (cst & w2 & Hcpush & Hcst & Hq2).
  rewrite Hcpush. C_run. rewrite get_function_st. C_run.
  erewrite enter_callee_eq by (cbn; eassumption). C_run.
  rewrite (function_addr_ok _ _ Hhas). C_run.
  eexists _, w2. split; [done|]. split; [|split; [done|split; [done|by transitivity w1]]].
  exists bc, (ce :: ces), bb, (bs ++ bs0 ++ [curblock st]). split.
  { split; [rewrite reverse_cons; exact Hcst|exact Hbst]. }
  split; [repeat split; try done; intros; by apply has_function_pos|].
  subst ce. rewrite Hm, Hf, Hb. by eapply frames_ok_call.
Qed.

(** Returning to the caller restores its position and its stacks. *)
Lemma leave_callee_ok bc bb bs ce ces fr stk :
  stacks_hold bc (ce :: ces) bb bs st →
  frames_ok opts data bb bs (length bs) (ce :: ces) (fr :: stk) → error st = 0 →
  ∃ st', leave_callee opts data st = Val (Next st') ∧
    rel opts data st' (Active ExpectReturn (fr_module fr) (fr_function fr) (fr_block fr) stk) ∧
    rs_sig st' = rs_sig st ∧ error st' = 0.
Proof using Hready Hwf.
  intros [Hcalls Hblocks] Hfr Herr.
  inversion Hfr as [|n j ces' stk' m f b Hj Hbj Hpos Htop Hrest]; subst. cbn.
  unfold leave_callee. rewrite reverse_cons in Hcalls.
  destruct (stack_pop_ok _ _ _ _ Hcalls) as (cst & Hpop & Hcst).
  unfold CALL_STACK_POP. rewrite Hpop. cbn.
  rewrite (function_addr_ok _ _ (pos_has_function _ _ _ Hpos)). cbn.
  pose proof (stack_restore_top_ok _ _ _ j Hblocks ltac:(lia)) as Hres.
  assert (Htake : take j bs = take (j - 1) bs ++ [b]).
  { replace j with (S (j - 1))%nat at 1; [by apply take_S_r|].
    unfold saved in Hj. case_split; lia. }
  unfold BLOCK_STACK_RESTORE_TOP, BLOCK_STACK_IS_EMPTY.
  rewrite (stack_is_empty_ok _ _ _ Hres), bool_decide_false.
  2: { rewrite Htake. by intros []%app_nil. }
  cbn. rewrite Htake in Hres. destruct (stack_pop_ok _ _ _ _ Hres) as (bst & Hbpop & Hbst).
  unfold BLOCK_STACK_POP. rewrite Hbpop. cbn.
  destruct (OPTION_sm_trace opts) eqn:Htr.
  - destruct (Htop eq_refl) as (t & Ht & Hpost). unfold saved in *. rewrite Htr in *.
    assert (Htake2 : take (j - 1) bs = take (j - 2) bs ++ [t]).
    { replace (j - 1)%nat with (S (j - 2)) by lia. by apply take_S_r. }
    rewrite Htake2 in Hbst. destruct (stack_pop_ok _ _ _ _ Hbst) as (bst2 & Htpop & Hbst2).
    rewrite Htpop. cbn. eexists. split; [done|]. split; [|done].
    exists bc, ces, bb, (take (j - 2) bs). split; [done|]. split; [by repeat split|].
    rewrite length_take, Nat.min_l by lia. eapply frames_ok_mono; [exact Hrest|done|].
    intros i Hi. by rewrite lookup_take_lt.
  - unfold saved in *. rewrite Htr in *. eexists. split; [done|]. split; [|done].
    exists bc, ces, bb, (take (j - 1) bs). split; [done|].
    split; [repeat split; try done; congruence|].
    rewrite length_take, Nat.min_l by lia. eapply frames_ok_mono; [exact Hrest|done|].
    intros i Hi. by rewrite lookup_take_lt.
Qed.

(** What the last exit does: the answer, then the end of the run. *)
Definition finish (w : world) : res (ctl * world) :=
  (err ← WRITE_MONITOR_ANSWER CFI_OK (error st);
   mret (Exit (set_error err (set_state SM_STATE_Ready st)))) w.

Lemma exit_entry_guard m f b :
  pos_ok data m f b → current_module_data st = Some m →
  not_entrypoint data st f = Val (negb (entrypoint data m f)).
Proof.
  intros (md & fd & Hm & Hf & Hr & _) Hmd. unfold not_entrypoint, entrypoint.
  rewrite Hmd. cbn. rewrite Hm. cbn. rewrite Hf. cbn. by rewrite decide_False by lia.
Qed.

Lemma sim_exit w m f b stk bc ces bb bs :
  stacks_hold bc ces bb bs st → at_position opts data InFunction m f b st →
  frames_ok opts data bb bs (length bs) ces stk →
  if names s m f then
    match stk with
    | [] => if entrypoint data m f then on_exit opts data st w = finish w
            else refused data st w (on_exit opts data st w)
    | fr :: stk' =>
        error st = 0 →
        accepted opts data st w
          (Active ExpectReturn (fr_module fr) (fr_function fr) (fr_block fr) stk')
          (on_exit opts data st w)
    end
  else refused data st w (on_exit opts data st w).
Proof using Hs Hsig Hready Hwf.
  intros Hhold (Hst & Hm & Hf & Hb & Hmd & Hfd & Hpos & Htop & _) Hfr.
  unfold on_exit. rewrite position_guard, Hst, Hm, Hf, bool_decide_true by done. cbn [andb].
  destruct (names s m f); cbn [negb]; [|by apply refuse_error].
  rewrite (C_bind_step _ _ _ _ _ (lift_Val false w)). cbn beta iota.
  unfold CALL_STACK_IS_EMPTY. rewrite (stack_is_empty_ok _ _ _ (proj1 Hhold)).
  rewrite (C_bind_step _ _ _ _ _ (lift_Val _ w)).
  destruct stk as [|fr stk]; inversion Hfr; subst.
  - rewrite bool_decide_true by done.
    rewrite (exit_entry_guard _ _ _ Hpos Hmd), (C_bind_step _ _ _ _ _ (lift_Val _ w)).
    destruct (entrypoint data _ _); cbn [negb]; [done|by apply refuse_error].
  - rewrite bool_decide_false by (rewrite reverse_cons; by intros []%app_nil).
    intros Herr. destruct (leave_callee_ok _ _ _ _ _ _ _ Hhold Hfr Herr) as (st' & -> & Hrel & Hsg & He).
    exists st', w. rewrite lift_Val. split; [done|]. split; [done|]. split; [done|]. split; [done|].
    reflexivity.
Qed.

Lemma sim_returned w m f b stk bc ces bb bs :
  stacks_hold bc ces bb bs st → at_position opts data ExpectReturn m f b st →
  frames_ok opts data bb bs (length bs) ces stk →
  if may_call data m f (sig_function s) then
    error st = 0 →
    accepted opts data st w (Active InFunction m f b stk) (lift (on_returned data st) w)
  else refused data st w (lift (on_returned data st) w).
Proof using Hs Hsig Hready Hwf.
  intros Hhold (Hst & Hm & Hf & Hb & Hmd & Hfd & Hpos & Htop & _) Hfr.
  unfold on_returned, state_is_not. rewrite res_or_assoc, Hst, bool_decide_false by (by intros []).
  rewrite res_or_Val_false.
  destruct (call_guard st m f b (sig_function s) Hpos Hmd Hf get_function_st sig_function_nonneg)
    as [->|(-> & -> & Hnf)]; [|by right].
  destruct (may_call data m f (sig_function s)); cbn; [|by apply refuse_error].
  intros Herr. eexists _, w. split; [done|]. repeat split; try done. by exists bc, ces, bb, bs.
Qed.

Lemma sim_enter_call w m f b stk bc ces bb bs :
  stacks_hold bc ces bb bs st → at_position opts data ExpectCall m f b st →
  frames_ok opts data bb bs (length bs) ces stk →
  if names s m f then
    error st = 0 → accepted opts data st w (Active InFunction m f b stk) (lift (on_enter data st) w)
  else refused data st w (lift (on_enter data st) w).
Proof using Hs Hsig.
  intros Hhold (Hst & Hm & Hf & Hb & Hmd & Hfd & Hpos & Htop & Hentry) Hfr.
  unfold on_enter. rewrite decide_False by (by rewrite Hst).
  rewrite position_guard, Hst, Hm, Hf, Hb, bool_decide_true by done. cbn [andb].
  destruct (names s m f); cbn [negb]; [|by apply refuse_error].
  rewrite res_or_Val_false. cbn. rewrite bool_decide_false by (intros Hne; by apply Hne, Hentry).
  intros Herr. eexists _, w. split; [done|]. repeat split; try done. by exists bc, ces, bb, bs.
Qed.

Lemma sim_enter_idle w bc ces bb bs :
  stacks_hold bc ces bb bs st → ces = [] → state st = SM_STATE_Ready →
  if entrypoint data (sig_module s) (sig_function s) then
    error st = 0 →
    accepted opts data st w
      (Active InFunction (sig_module s) (sig_function s) FUNCTION_ENTRY_BLOCK_ID [])
      (lift (on_enter data st) w)
  else refused data st w (lift (on_enter data st) w).
Proof using Hs Hsig Hready Hwf.
  intros Hhold -> Hst. unfold on_enter. rewrite decide_True by done. rewrite get_module_st. cbn.
  pose proof sig_module_nonneg as Hm0. pose proof sig_function_nonneg as Hf0.
  case_decide as Hnb.
  - assert (entrypoint data (sig_module s) (sig_function s) = false) as ->; [|by apply refuse_error].
    unfold entrypoint. destruct (module_at data (sig_module s)) as [md| |] eqn:E; try done.
    apply (module_at_wf _ _ _ Hwf) in E as [_ ?]. lia.
  - rewrite get_function_st. cbn.
    rewrite (entry_guard (set_module_data (Some (sig_module s)) st) (sig_module s)).
    2-5: try done; try exact get_function_st; lia.
    destruct (entrypoint data (sig_module s) (sig_function s)) eqn:He; cbn; [|by left; eexists].
    intros Herr. pose proof (entrypoint_has_function _ _ Hf0 He) as Hhas.
    rewrite (function_addr_ok _ _ Hhas). cbn. eexists _, w. split; [done|].
    repeat split; try done. exists bc, [], bb, bs. split; [done|].
    split; [|constructor]. repeat split; try done; intros; by apply has_function_pos.
Qed.

Lemma dispatch_eq w :
  dispatch opts data st w =
  match client_event_case (sig_event s) with
  | Some CFI_BEFORE_JUMP => lift (on_before_jump st) w
  | Some CFI_AFTER_JUMP => on_after_jump opts data st w
  | Some CFI_CALL => on_call opts data st w
  | Some CFI_ENTER => lift (on_enter data st) w
  | Some CFI_EXIT => on_exit opts data st w
  | Some CFI_RETURNED => lift (on_returned data st) w
  | None => Val (Exit (set_error 5 st), w)
  end.
Proof using Hs Hsig.
  unfold dispatch. rewrite Hsig, get_event_bytes, (C_bind_step _ _ _ _ _ (lift_Val _ w)) by done.
  by destruct (client_event_case (sig_event s)) as [[]|].
Qed.

Lemma sim_before_jump w m f b stk bc ces bb bs :
  stacks_hold bc ces bb bs st → at_position opts data InFunction m f b st →
  frames_ok opts data bb bs (length bs) ces stk →
  if names s m f && bool_decide (sig_block s = b) then
    error st = 0 → accepted opts data st w (Active ExpectJump m f b stk) (lift (on_before_jump st) w)
  else refused data st w (lift (on_before_jump st) w).
Proof using Hs Hsig.
  intros Hhold (Hst & Hm & Hf & Hb & Hmd & Hfd & Hpos & Htop & _) Hfr.
  rewrite before_jump_eq, Hst, Hm, Hf, Hb, (bool_decide_true (phase_state _ = _)) by done. cbn [andb].
  destruct (names s m f && _); [|by apply refuse_error].
  intros Herr. eexists _, w. split; [done|]. repeat split; try done. by exists bc, ces, bb, bs.
Qed.

(** One iteration of the switch simulates one step of the automaton. *)
Lemma dispatch_sim w c :
  rel opts data st c →
  match astep data c s with
  | Some Finished => dispatch opts data st w = finish w
  | Some c' => in_place w → error st = 0 → accepted opts data st w c' (dispatch opts data st w)
  | None => refused data st w (dispatch opts data st w)
  end.
Proof using Hs Hsig Hready Hwf.
  intros (bc & ces & bb & bs & Hhold & Hc). rewrite dispatch_eq. unfold astep.
  destruct (client_event_case (sig_event s)) as [[]|]; [..|by apply refuse_error].
  - destruct c as [|ph m f b stk|]; [| |done].
    + rewrite before_jump_eq, (bool_decide_false (state st = _)); [by apply refuse_error|]. by destruct Hc as [-> _].
    + destruct Hc as [Hpos Hfr]. destruct ph.
      2-4: rewrite before_jump_eq, (bool_decide_false (state st = _)); [by apply refuse_error|];
        by destruct Hpos as [-> _].
      pose proof (sim_before_jump w _ _ _ _ _ _ _ _ Hhold Hpos Hfr) as Hsim.
      destruct (names s m f && _); [by intros _|done].
  - destruct c as [|ph m f b stk|]; [| |done].
    + rewrite after_jump_wrong_state; [by apply refuse_error|]. by destruct Hc as [-> _].
    + destruct Hc as [Hpos Hfr]. destruct ph.
      1-3: rewrite after_jump_wrong_state; [by apply refuse_error|]; by destruct Hpos as [-> _].
      pose proof (sim_after_jump w _ _ _ _ _ _ _ _ Hhold Hpos Hfr) as Hsim.
      by destruct (names s m f && _).
  - destruct c as [|ph m f b stk|]; [| |done].
    + rewrite call_wrong_state; [by apply refuse_error|]. by destruct Hc as [-> _].
    + destruct Hc as [Hpos Hfr]. destruct ph.
      2-4: rewrite call_wrong_state; [by apply refuse_error|]; by destruct Hpos as [-> _].
      pose proof (sim_call w _ _ _ _ _ _ _ _ Hhold Hpos Hfr) as Hsim.
      destruct (may_call data m f _); [|done]. by destruct Hsim as (m' & g' & -> & Hacc).
  - destruct c as [|ph m f b stk|]; [| |done].
    + destruct Hc as [Hst Hces]. pose proof (sim_enter_idle w _ _ _ _ Hhold Hces Hst) as Hsim.
      destruct (entrypoint data _ _); [by intros _|done].
    + destruct Hc as [Hpos Hfr]. destruct ph.
      1,3,4: rewrite enter_wrong_state; [by apply refuse_error|..]; by destruct Hpos as [-> _].
      pose proof (sim_enter_call w _ _ _ _ _ _ _ _ Hhold Hpos Hfr) as Hsim.
      destruct (names s m f); [by intros _|done].
  - destruct c as [|ph m f b stk|]; [| |done].
    + rewrite exit_wrong_state; [by apply refuse_error|]. by destruct Hc as [-> _].
    + destruct Hc as [Hpos Hfr]. destruct ph.
      2-4: rewrite exit_wrong_state; [by apply refuse_error|]; by destruct Hpos as [-> _].
      pose proof (sim_exit w _ _ _ _ _ _ _ _ Hhold Hpos Hfr) as Hsim.
      destruct (names s m f); [|done]. destruct stk as [|[] stk]; [by destruct (entrypoint data m f)|].
      by intros _.
  - destruct c as [|ph m f b stk|]; [| |done].
    + rewrite returned_wrong_state; [by apply refuse_error|]. by destruct Hc as [-> _].
    + destruct Hc as [Hpos Hfr]. destruct ph.
      1,2,4: rewrite returned_wrong_state; [by apply refuse_error|]; by destruct Hpos as [-> _].
      pose proof (sim_returned w _ _ _ _ _ _ _ _ Hhold Hpos Hfr) as Hsim.
      destruct (may_call data m f _); [by intros _|done].
Qed.

End Signal.

(** *** The loop *)

(** The environment is favourable: allocations grow in place, writes complete,
    no time-out expires. *)
Definition favourable (w : world) : Prop :=
  in_place w ∧ Forall (λ b, b = true) (w_write w) ∧ Forall (λ b, b = true) (w_select w).

Definition ok_answer : out_event := OSig (le_bytes 1 CFI_OK).

(** Between [w] and [w'] the monitor has written [k] answers, and nothing else. *)
Definition served (k : nat) (w w' : world) : Prop :=
  favourable w' ∧ w_out w' = w_out w ++ replicate k ok_answer ∧ w_load w' = w_load w.

Lemma served_trans k1 k2 w1 w2 w3 : served k1 w1 w2 → served k2 w2 w3 → served (k1 + k2) w1 w3.
Proof.
  intros (_ & O1 & L1) (F & O2 & L2). split; [done|].
  rewrite O2, O1, <- app_assoc, replicate_add. split; [done|congruence].
Qed.

Lemma quiet_served w w' : favourable w → quiet w w' → served 0 w w' ∧ w_sig w' = w_sig w.
Proof.
  intros (Hp & Hw & Hs) [Hq Hio]. unfold io in Hio. injection Hio as E1 E2 E3 E4 E5.
  unfold served, favourable. rewrite E1, E2, E3, E4, E5, app_nil_r. naive_solver.
Qed.

Lemma write_answer_favourable w err :
  favourable w → ∃ w', WRITE_MONITOR_ANSWER CFI_OK err w = Val (err, w') ∧ served 1 w w' ∧
                       w_sig w' = w_sig w.
Proof.
  intros (Hp & Hw & Hs). unfold WRITE_MONITOR_ANSWER, write_bytes. C_run.
  destruct (w_write w) as [|ok oks] eqn:E; [|inversion Hw; subst]; eexists; (split; [done|]);
    by repeat split.
Qed.

Lemma timeout_favourable w err :
  favourable w → ∃ w', MONITOR_SIGNAL_TIMEOUT opts err w = Val (err, w') ∧ served 0 w w' ∧
                       w_sig w' = w_sig w.
Proof.
  intros (Hp & Hw & Hs). unfold MONITOR_SIGNAL_TIMEOUT.
  assert (Hout : w_out w = w_out w ++ []) by (by rewrite app_nil_r).
  destruct (TIMEOUT opts); [|exists w; by repeat split]. unfold next_select. C_run.
  destruct (w_select w) as [|ok oks] eqn:E.
  - exists w. repeat split; try done. by rewrite E.
  - inversion Hs; subst. eexists. split; [done|]. by repeat split.
Qed.

(** Packets long enough for a signal, and the signal the monitor reads. *)
Definition full_packet (p : list byte) : Prop := (sizeof_client_signal <= length p)%nat.

Definition signal_of_packet (p : list byte) : client_signal :=
  ClientSignal (le_value (take 1 p)) (le_value (take 2 (drop 1 p)))
               (le_value (take 4 (drop 3 p))) (le_value (take 4 (drop 7 p))).

Lemma le_value_take_in_u p (n : nat) : in_u (8 * Z.of_nat n) (le_value (take n p)).
Proof.
  split; [apply le_value_range|]. rewrite Z.pow_mul_r by lia. change (2 ^ 8) with 256.
  eapply Z.lt_le_trans; [apply le_value_range|]. apply Z.pow_le_mono_r; [done|].
  rewrite length_take. lia.
Qed.

Lemma signal_of_packet_wf p : wf_signal (signal_of_packet p).
Proof.
  split; [exact (le_value_take_in_u _ 1)|]. split; [exact (le_value_take_in_u _ 2)|].
  split; exact (le_value_take_in_u _ 4).
Qed.

Lemma le_bytes_take p (n : nat) : (n <= length p)%nat → le_bytes n (le_value (take n p)) = take n p.
Proof.
  intros. replace n with (length (take n p)) at 1; [apply le_bytes_value|].
  rewrite length_take. lia.
Qed.

Lemma signal_of_packet_bytes p :
  full_packet p → take sizeof_client_signal p = client_signal_bytes (signal_of_packet p).
Proof.
  unfold full_packet, sizeof_client_signal. cbn [Nat.add]. intros Hp.
  unfold client_signal_bytes. cbn [sig_event sig_module sig_function sig_block signal_of_packet].
  rewrite !le_bytes_take by (rewrite ?length_drop; lia).
  transitivity (take (1 + (2 + (4 + 4))) p); [done|].
  by rewrite <- !take_take_drop, !drop_drop.
Qed.

Lemma overlay_full {A} (new old : list A) : (length old <= length new)%nat → overlay new old = new.
Proof. intros. unfold overlay. rewrite drop_ge by done. apply app_nil_r. Qed.

Lemma served_0_refl w w' :
  favourable w → w_alloc w' = w_alloc w → w_write w' = w_write w → w_select w' = w_select w →
  w_out w' = w_out w → w_load w' = w_load w → served 0 w w'.
Proof.
  unfold served, favourable, in_place. intros F -> -> -> -> ->. by rewrite app_nil_r.
Qed.

(** A read of the next packet, or of nothing. *)
Lemma read_signal_full w p ps dst err :
  favourable w → w_sig w = p :: ps → full_packet p → (length dst <= sizeof_client_signal)%nat →
  ∃ w', READ_CLIENT_SIGNAL dst err w =
          Val ((Some <$> client_signal_bytes (signal_of_packet p), err), w') ∧
        w_sig w' = ps ∧ served 0 w w'.
Proof.
  intros Hfav Hw Hp Hdst. unfold READ_CLIENT_SIGNAL, read_sig. rewrite C_bind_eq, Hw.
  rewrite signal_of_packet_bytes by done. eexists. split.
  - rewrite C_ret_eq, client_signal_bytes_length, decide_False by naive_solver.
    by rewrite overlay_full by (rewrite length_fmap, client_signal_bytes_length; done).
  - split; [done|]. by apply served_0_refl.
Qed.

Lemma read_signal_eof w dst err :
  w_sig w = [] → READ_CLIENT_SIGNAL dst err w = Val ((dst, 1), log w (Eof PSig)).
Proof. intros Hw. unfold READ_CLIENT_SIGNAL, read_sig. by rewrite C_bind_eq, Hw. Qed.

(** The stacks can be walked and freed. *)
Definition stacks_live (st : run_state) : Prop :=
  ∃ bc cs bb bs, stack_repr bc cs (calls st) ∧ stack_repr bb bs (blocks st).

Lemma rel_stacks_live st c : rel opts data st c → stacks_live st.
Proof. intros (bc & ces & bb & bs & [? ?] & _). by exists bc, (reverse ces), bb, bs. Qed.

Lemma refused_stacks_live st c w r :
  rel opts data st c → refused data st w r →
  (∃ st', r = Val (Exit st', w) ∧ refusal (error st') ∧ stacks_live st') ∨
  (r = Undef NullDeref ∧ ¬ full_rows data).
Proof.
  intros (bc & cs & bb & bs & Hc & Hb)%rel_stacks_live [(st' & -> & He & Ec & Eb)|]; [left|by right].
  exists st'. split; [done|]. split; [done|]. exists bc, cs, bb, bs. by rewrite Ec, Eb.
Qed.

Lemma rel_set_sig_error st c sg e : rel opts data st c → rel opts data (set_sig sg (set_error e st)) c.
Proof. done. Qed.

(** The verdict of the automaton is the outcome of the loop. *)
Definition loop_outcome (n : nat) (v : verdict) (ps : list (list byte)) (w : world)
    (r : res (run_state * world)) : Prop :=
  match v with
  | Accept k rest =>
      ∃ st' w', r = Val (st', w') ∧ error st' = 0 ∧ stacks_live st' ∧ served (k - n) w w' ∧
                w_sig w' = drop (k - n - 1) ps ∧ signal_of_packet <$> w_sig w' = rest
  | Reject k =>
      (∃ st' w', r = Val (st', w') ∧ refusal (error st') ∧ stacks_live st' ∧ served (k - n) w w')
      ∨ (r = Undef NullDeref ∧ ¬ full_rows data)
  end.

(** A refused signal ends the loop. *)
Lemma run_loop_refused fuel st c s w :
  wf_signal s → rel opts data st c → rs_sig st = Some <$> client_signal_bytes s →
  astep data c s = None →
  (∃ st', run_loop (S fuel) opts data st w = Val (st', w) ∧ refusal (error st') ∧ stacks_live st') ∨
  (run_loop (S fuel) opts data st w = Undef NullDeref ∧ ¬ full_rows data).
Proof using Hready Hwf.
  intros Hs Hrel Hsig Hstep. cbn [run_loop]. rewrite C_bind_eq.
  pose proof (dispatch_sim s Hs st Hsig w c Hrel) as Hsim. rewrite Hstep in Hsim.
  destruct (refused_stacks_live _ _ _ _ Hrel Hsim) as [(st' & -> & He & Hl)|[-> Hnf]];
    [left|by right].
  by exists st'.
Qed.

(** One accepted signal, up to the next read. *)
Lemma run_loop_accepted fuel st c c' s w :
  wf_signal s → rel opts data st c → rs_sig st = Some <$> client_signal_bytes s →
  error st = 0 → favourable w → astep data c s = Some c' → c' ≠ Finished →
  ∃ st' w', run_loop (S fuel) opts data st w =
      ('(sg, err) ← READ_CLIENT_SIGNAL (rs_sig st') 0;
       run_loop fuel opts data (set_sig sg (set_error err st'))) w' ∧
    rel opts data st' c' ∧ rs_sig st' = rs_sig st ∧ served 1 w w' ∧ w_sig w' = w_sig w.
Proof using Hready Hwf.
  intros Hs Hrel Hsig He Hfav Hstep Hnf. cbn [run_loop]. rewrite C_bind_eq.
  pose proof (dispatch_sim s Hs st Hsig w c Hrel) as Hsim. rewrite Hstep in Hsim.
  assert (Hacc : accepted opts data st w c' (dispatch opts data st w)).
  { destruct c'; [by apply Hsim, He; apply Hfav..|done]. }
  destruct Hacc as (st' & w1 & -> & Hrel' & Hsg' & He' & Hq).
  destruct (quiet_served _ _ Hfav Hq) as [Hs1 Hsig1].
  destruct (write_answer_favourable w1 0 (proj1 Hs1)) as (w2 & Hw2 & Hs2 & Hsig2).
  destruct (timeout_favourable w2 0 (proj1 Hs2)) as (w3 & Hw3 & Hs3 & Hsig3).
  exists st', w3. rewrite He'. split.
  - by rewrite C_bind_eq, Hw2, C_bind_eq, Hw3, decide_False by (by intros []).
  - split; [done|]. split; [done|]. split; [|congruence].
    apply (served_trans 0 1 _ w1); [done|]. by apply (served_trans 1 0 _ w2).
Qed.

Lemma run_loop_finished fuel st c s w :
  wf_signal s → rel opts data st c → rs_sig st = Some <$> client_signal_bytes s →
  error st = 0 → favourable w → astep data c s = Some Finished →
  ∃ st' w', run_loop (S fuel) opts data st w = Val (st', w') ∧ error st' = 0 ∧
    stacks_live st' ∧ served 1 w w' ∧ w_sig w' = w_sig w.
Proof using Hready Hwf.
  intros Hs Hrel Hsig He Hfav Hstep. cbn [run_loop]. rewrite C_bind_eq.
  pose proof (dispatch_sim s Hs st Hsig w c Hrel) as Hsim. rewrite Hstep in Hsim. rewrite Hsim.
  destruct (write_answer_favourable w 0 Hfav) as (w2 & Hw2 & Hs2 & Hsig2).
  unfold finish. rewrite C_bind_eq, He, Hw2. eexists _, w2. split; [done|].
  split; [done|]. split; [by apply rel_stacks_live in Hrel|]. done.
Qed.

Lemma served_eq k k' w w' : served k w w' → k = k' → served k' w w'.
Proof. by intros ? <-. Qed.

(** The outcome of a continuation, seen from the signal before. *)
Lemma loop_outcome_step n v ps p w w1 w2 r :
  loop_outcome (S n) v ps w2 r → served 1 w w1 → served 0 w1 w2 →
  match v with Accept k _ => (S n < k)%nat | Reject k => (S n <= k)%nat end →
  loop_outcome n v (p :: ps) w r.
Proof.
  intros Hr H1 H2 Hk. destruct v as [k rest|k]; cbn in *.
  - destruct Hr as (st' & w' & -> & He & Hl & Hs & Hsig & Hrest). exists st', w'.
    split; [done|]. split; [done|]. split; [done|]. split.
    + eapply served_eq; [eapply served_trans; [exact H1|eapply served_trans; [exact H2|exact Hs]]|lia].
    + split; [|done]. rewrite Hsig. by replace (k - n - 1)%nat with (S (k - S n - 1)) by lia.
  - destruct Hr as [(st' & w' & -> & He & Hl & Hs)|]; [left|by right]. exists st', w'.
    split; [done|]. split; [done|]. split; [done|].
    eapply served_eq; [eapply served_trans; [exact H1|eapply served_trans; [exact H2|exact Hs]]|lia].
Qed.

Lemma arun_verdict_ge n c s sigs :
  match arun data n c (s :: sigs) with Accept k _ => (n < k)%nat | Reject k => (n <= k)%nat end.
Proof.
  revert n c s. induction sigs as [|s' sigs IH]; intros n c s; cbn.
  - destruct (astep data c s) as [[]|]; cbn; lia.
  - destruct (astep data c s) as [c'|]; [|lia].
    pose proof (IH (S n) c' s') as H. destruct c'; [| |lia];
    destruct (arun data (S n) _ (s' :: sigs)) eqn:E; cbn in *; rewrite E; lia.
Qed.

Lemma loop_refused n ps fuel st c s w :
  wf_signal s → rel opts data st c → rs_sig st = Some <$> client_signal_bytes s →
  favourable w → astep data c s = None →
  loop_outcome n (Reject n) ps w (run_loop (S fuel) opts data st w).
Proof using Hready Hwf.
  intros Hs Hrel Hsig Hfav Hstep. cbn [loop_outcome]. rewrite Nat.sub_diag.
  destruct (run_loop_refused fuel st c s w Hs Hrel Hsig Hstep) as [(st' & -> & He' & Hl)|];
    [left|by right].
  exists st', w. split; [done|]. split; [done|]. split; [done|]. by apply served_0_refl.
Qed.

Lemma loop_finished n ps fuel st c s w :
  wf_signal s → rel opts data st c → rs_sig st = Some <$> client_signal_bytes s →
  error st = 0 → favourable w → w_sig w = ps → astep data c s = Some Finished →
  loop_outcome n (Accept (S n) (signal_of_packet <$> ps)) ps w (run_loop (S fuel) opts data st w).
Proof using Hready Hwf.
  intros Hs Hrel Hsig He Hfav Hw Hstep.
  destruct (run_loop_finished fuel st c s w Hs Hrel Hsig He Hfav Hstep)
    as (st' & w' & -> & He' & Hl & Hsv & Hsg). cbn [loop_outcome]. exists st', w'.
  replace (S n - n)%nat with 1%nat by lia. rewrite Hsg, Hw. done.
Qed.

(** The stale signal left by a read at end of file is refused. *)
Lemma loop_eof n fuel st c c' s w :
  wf_signal s → rel opts data st c → rs_sig st = Some <$> client_signal_bytes s →
  error st = 0 → favourable w → w_sig w = [] → astep data c s = Some c' → c' ≠ Finished →
  loop_outcome n (Reject (S n)) [] w (run_loop (S (S fuel)) opts data st w).
Proof using Hready Hwf.
  intros Hs Hrel Hsig He Hfav Hw Hstep Hnf.
  destruct (run_loop_accepted (S fuel) st c c' s w Hs Hrel Hsig He Hfav Hstep Hnf)
    as (st' & w1 & -> & Hrel' & Hsg' & Hsv & Hw1).
  rewrite C_bind_eq, read_signal_eof by congruence.
  pose proof (loop_refused (S n) [] fuel (set_sig (rs_sig st') (set_error 1 st')) c' s (log w1 (Eof PSig)) Hs Hrel'
    (eq_trans Hsg' Hsig) (proj1 Hsv) (astep_no_repeat _ _ _ _ Hstep)) as Hout.
  cbn [loop_outcome] in *. destruct Hout as [(st2 & w2 & -> & He2 & Hl2 & Hs2)|]; [left|by right].
  exists st2, w2. split; [done|]. split; [done|]. split; [done|].
  eapply served_eq; [by eapply served_trans|lia].
Qed.

Lemma run_loop_sim ps : ∀ fuel st c s n w,
  (length ps + 2 <= fuel)%nat → wf_signal s → rel opts data st c →
  rs_sig st = Some <$> client_signal_bytes s → error st = 0 → favourable w → w_sig w = ps →
  Forall full_packet ps →
  loop_outcome n (arun data n c (s :: (signal_of_packet <$> ps))) ps w (run_loop fuel opts data st w).
Proof using Hready Hwf.
  induction ps as [|p ps IH]; intros fuel st c s n w Hfuel Hs Hrel Hsig He Hfav Hw Hps;
    (destruct fuel as [|fuel]; [cbn in Hfuel; lia|]); cbn [arun fmap list_fmap];
    (destruct (astep data c s) as [c'|] eqn:Hstep; [|by eapply loop_refused]);
    (destruct (decide (c' = Finished)) as [->|Hnf]; [exact (loop_finished n _ fuel st c s w Hs Hrel Hsig He Hfav Hw Hstep)|]).
  - destruct fuel as [|fuel]; [cbn in Hfuel; lia|].
    pose proof (loop_eof n fuel st c c' s w Hs Hrel Hsig He Hfav Hw Hstep Hnf). by destruct c'.
  - inversion Hps as [|? ? Hp Hps']; subst.
    destruct (run_loop_accepted fuel st c c' s w Hs Hrel Hsig He Hfav Hstep Hnf)
      as (st' & w1 & -> & Hrel' & Hsg' & Hsv & Hw1).
    destruct (read_signal_full w1 p ps (rs_sig st') 0) as (w2 & Hread & Hw2 & Hsv2);
      [apply Hsv|congruence|done|by rewrite Hsg', Hsig, length_fmap, client_signal_bytes_length|].
    rewrite C_bind_eq, Hread.
    specialize (IH fuel (set_sig (Some <$> client_signal_bytes (signal_of_packet p)) (set_error 0 st'))
      c' (signal_of_packet p) (S n) w2 ltac:(cbn in Hfuel; lia) (signal_of_packet_wf p) Hrel' eq_refl
      eq_refl (proj1 Hsv2) Hw2 Hps').
    pose proof (arun_verdict_ge (S n) c' (signal_of_packet p) (signal_of_packet <$> ps)) as Hge.
    destruct c'; [| |done]; by eapply loop_outcome_step.
Qed.

(** *** The end of the run *)

Definition is_trace (e : out_event) : Prop :=
  match e with OTraceCall _ _ | OTraceBlock _ => True | _ => False end.

(** Between [w] and [w'] nothing but trace lines was written. *)
Definition traced (w w' : world) : Prop :=
  ∃ tr, w_out w' = w_out w ++ tr ∧ Forall is_trace tr ∧
        w_sig w' = w_sig w ∧ w_load w' = w_load w.

Lemma traced_emits w w' es : quiet w w' → Forall is_trace es → traced w (emits w' es).
Proof.
  intros [_ Hio] Hes. unfold io in Hio. injection Hio as E1 E2 E3 E4 E5.
  exists es. cbn. by rewrite E3, E4, E5.
Qed.

Lemma exit_trace_ok st bc cs bb bs w :
  stack_repr bc cs (calls st) → stack_repr bb bs (blocks st) → in_place w →
  ∃ st' w', exit_trace st w = Val (st', w') ∧
    stacks_live st' ∧ error st' = error st ∧ traced w w'.
Proof.
  intros Hc Hb Hw.
  destruct (contract_push (push := BLOCK_STACK_PUSH) bb bs (blocks st) (curblock st) w Hw Hb)
    as (bst & w1 & Hp1 & Hbst & Hq1).
  set (ce := CallStackElement (current_module st) (current_function st) (BLOCK_STACK_TOP_PTR bst)).
  destruct (contract_push (push := CALL_STACK_PUSH) bc cs (calls st) ce w1
    (quiet_in_place _ _ Hq1 Hw) Hc) as (cst & w2 & Hp2 & Hcst & Hq2).
  destruct (stack_pop_ok _ _ _ _ Hbst) as (bst' & Hpop1 & Hbst').
  destruct (stack_pop_ok _ _ _ _ Hcst) as (cst' & Hpop2 & Hcst').
  eexists _, _. split.
  - unfold exit_trace. rewrite C_bind_eq, Hp1. cbn zeta. fold ce. rewrite C_bind_eq, Hp2.
    unfold call_stack_trace, block_stack_trace.
    rewrite C_bind_eq, (stack_trace_ok _ _ _ _ _ Hcst), C_bind_eq, (stack_trace_ok _ _ _ _ _ Hbst).
    unfold BLOCK_STACK_POP, CALL_STACK_POP. rewrite Hpop1, Hpop2. C_run. done.
  - split; [by exists bc, cs, bb, bs|]. split; [done|].
    rewrite <- emits_app. apply traced_emits; [by transitivity w1|].
    apply Forall_app. split; apply Forall_fmap, Forall_true; done.
Qed.

Lemma run_exit_ok st w :
  stacks_live st → in_place w →
  ∃ w', run_exit opts st w = Val (error st, w') ∧ traced w w' ∧ (error st = 0 → w' = w).
Proof.
  intros (bc & cs & bb & bs & Hc & Hb) Hw. unfold run_exit.
  assert (Hfree : ∀ st' w', stacks_live st' → error st' = error st →
    (_ ← lift (call_stack_free (calls st')); _ ← lift (block_stack_free (blocks st'));
     mret (error st')) w' = Val (error st, w')).
  { intros st' w' (bc' & cs' & bb' & bs' & Hc' & Hb') <-.
    unfold call_stack_free, block_stack_free.
    by rewrite (stack_free_ok _ _ _ Hc'), (stack_free_ok _ _ _ Hb'). }
  assert (Hsame : traced w w) by (exists []; rewrite app_nil_r; by repeat split).
  rewrite C_bind_eq. case_decide as Herr.
  - destruct (OPTION_sm_trace opts).
    + destruct (exit_trace_ok st bc cs bb bs w Hc Hb Hw) as (st' & w' & -> & Hl & He & Ht).
      exists w'. by rewrite Hfree.
    + exists w. rewrite C_ret_eq, Hfree; [by split|by exists bc, cs, bb, bs|done].
  - exists w. rewrite C_ret_eq, Hfree; [by split|by exists bc, cs, bb, bs|done].
Qed.

(** The verdict of the automaton is the outcome of the run. *)
Definition run_outcome (v : verdict) (w : world) (r : res (Z * world)) : Prop :=
  match v with
  | Accept k rest =>
      ∃ w', r = Val (0, w') ∧ served k w w' ∧ w_sig w' = drop k (w_sig w)
  | Reject k =>
      (∃ e w' tr, r = Val (e, w') ∧ refusal e ∧ w_out w' = w_out w ++ replicate k ok_answer ++ tr ∧
                  Forall is_trace tr)
      ∨ (r = Undef NullDeref ∧ ¬ full_rows data)
  end.

Lemma initial_rel bc bb cst bst :
  stack_repr bc [] cst → stack_repr bb [] bst → rel opts data (initial_state cst bst) Idle.
Proof. intros Hc Hb. exists bc, [], bb, []. by repeat split. Qed.

Lemma run_exit_outcome n v ps w0 w r :
  loop_outcome 0 v ps w r → served 0 w0 w → w_sig w0 = n :: ps →
  match v with Accept k _ => (0 < k)%nat | Reject _ => True end →
  run_outcome v w0 (match r with
                    | Val (st, w') => run_exit opts st w'
                    | Undef u => Undef u
                    | NoFuel => NoFuel
                    end).
Proof.
  intros Hout Hs0 Hw0 Hk. destruct v as [k rest|k]; cbn in *.
  - destruct Hout as (st & w' & -> & He & Hl & Hs & Hsig & _).
    destruct (run_exit_ok st w' Hl (proj1 (proj1 Hs))) as (w2 & -> & _ & Hw2).
    rewrite (Hw2 He), He. exists w'. split; [done|].
    split; [eapply served_eq; [by eapply served_trans|lia]|].
    rewrite Hsig, Hw0. destruct k; [lia|]. cbn. f_equal. lia.
  - destruct Hout as [(st & w' & -> & He & Hl & Hs)|[-> Hnf]]; [left|by right].
    destruct (run_exit_ok st w' Hl (proj1 (proj1 Hs))) as (w2 & -> & (tr & Htr & Hf & _) & _).
    exists (error st), w2, tr. split; [done|]. split; [done|]. split; [|done].
    destruct (served_trans _ _ _ _ _ Hs0 Hs) as (_ & Ho & _). rewrite Htr, Ho, Nat.sub_0_r.
    by rewrite <- app_assoc.
Qed.

(** Main lemma: on signals read in full, in a favourable environment,
    [monitor_run] gives the verdict of the automaton. *)
Lemma monitor_run_verdict w :
  favourable w → Forall full_packet (w_sig w) → w_sig w ≠ [] →
  run_outcome (arun data 0 Idle (signal_of_packet <$> w_sig w)) w (monitor_run opts data w).
Proof using Hready Hwf.
  intros Hfav Hps Hne. destruct (w_sig w) as [|p ps] eqn:Hw; [done|].
  inversion Hps as [|? ? Hp Hps']; subst.
  destruct (contract_init (init := call_stack_init) w (proj1 Hfav)) as (bc & cst & w1 & Hi1 & Hc & Hq1).
  destruct (quiet_served _ _ Hfav Hq1) as [Hs1 Hw1].
  destruct (contract_init (init := block_stack_init) w1 (proj1 (proj1 Hs1)))
    as (bb & bst & w2 & Hi2 & Hb & Hq2).
  destruct (quiet_served _ _ (proj1 Hs1) Hq2) as [Hs2 Hw2].
  destruct (timeout_favourable w2 0 (proj1 Hs2)) as (w3 & Ht & Hs3 & Hw3).
  destruct (read_signal_full w3 p ps (uninit sizeof_client_signal) 0)
    as (w4 & Hread & Hw4 & Hs4); [apply Hs3|congruence|done|done|].
  assert (Hs04 : served 0 w w4).
  { apply (served_trans 0 0 _ w1); [done|]. apply (served_trans 0 0 _ w2); [done|].
    by apply (served_trans 0 0 _ w3). }
  unfold monitor_run. rewrite C_bind_eq, Hi1. cbn beta iota. rewrite decide_False by (by intros []).
  rewrite C_bind_eq, Hi2. cbn beta iota. rewrite decide_False by (by intros []).
  cbn zeta. rewrite C_bind_eq. cbn [error initial_state]. rewrite Ht, decide_False by (by intros []).
  rewrite C_bind_eq. cbn [rs_sig initial_state]. rewrite Hread. cbn beta iota. rewrite C_bind_eq.
  eapply run_exit_outcome; [|exact Hs04|exact Hw|].
  - eapply run_loop_sim; [unfold run_fuel; rewrite Hw4; lia|apply signal_of_packet_wf| |done|done|
      apply Hs4|done|done].
    apply rel_set_sig_error. by eapply initial_rel.
  - pose proof (arun_verdict_ge 0 Idle (signal_of_packet p) (signal_of_packet <$> ps)) as Hge.
    cbn [fmap list_fmap]. by destruct (arun _ _ _ _).
Qed.

End Simulation.
