(* ===== verification/RunTotal.v ===== *)
(** * The run-time checks terminate

    Whatever the data, the signals, the answers of the system calls and of
    the allocator, the loop of [monitor_run] stops: an iteration either
    consumes a read, or meets a signal it has just accepted, which it refuses. *)

From S2P Require Import Prelude CSem Wire CStack BlockStack CallStack MonitorData.
From S2P Require Import MonitorRun.

(** The answers of the system left in [w'] are the last ones of [w]. *)
Definition answers_left (w w' : world) : Prop :=
  w_alloc w' `suffix_of` w_alloc w ∧ w_select w' `suffix_of` w_select w ∧
  w_write w' `suffix_of` w_write w.

#[export] Instance answers_left_preorder : PreOrder answers_left.
Proof.
  split; [by intros w|]. intros w1 w2 w3 (? & ? & ?) (? & ? & ?). unfold answers_left.
  split_and!; by etrans.
Qed.

(** A computation that ends and reads from no pipe. *)
Definition tame {A} (m : C A) : Prop := ∀ w,
  match m w with
  | Val (_, w') => w_sig w' = w_sig w ∧ w_load w' = w_load w ∧ answers_left w w'
  | Undef _ => True
  | NoFuel => False
  end.

(** An outcome that is not an exhausted loop. *)
Definition ends {A} (r : res A) : Prop := r ≠ NoFuel.

(** An outcome that is not an exhausted loop and leaves the loading pipe as it
    was in [w]. *)
Definition ends_keeping {A} (w : world) (r : res (A * world)) : Prop :=
  match r with
  | Val (_, w') => w_load w' = w_load w
  | Undef _ => True
  | NoFuel => False
  end.

(** The state a case leaves when the run goes on. *)
Definition next_state (e : client_event) : monitor_state_t :=
  match e with
  | CFI_BEFORE_JUMP => SM_STATE_ExpectJump
  | CFI_CALL => SM_STATE_ExpectCall
  | CFI_EXIT => SM_STATE_ExpectReturn
  | CFI_AFTER_JUMP | CFI_ENTER | CFI_RETURNED => SM_STATE_InFunction
  end.

(** ** Closure properties *)

Lemma tame_ret {A} (a : A) : tame (mret a).
Proof. done. Qed.

Lemma tame_bind {A B} (m : C A) (f : A → C B) : tame m → (∀ a, tame (f a)) → tame (m ≫= f).
Proof.
  intros Hm Hf w. rewrite C_bind_eq. specialize (Hm w).
  destruct (m w) as [[a w']| |]; [|done|done]. specialize (Hf a w').
  destruct (f a w') as [[b w2]| |]; [|done|done]. destruct Hm as (? & ? & ?), Hf as (? & ? & ?).
  split; [congruence|]. split; [congruence|by etrans].
Qed.

Lemma tame_lift {A} (r : res A) : ends r → tame (lift r).
Proof. unfold ends. intros Hr w. by destruct r. Qed.

Lemma tame_if {A} (b : bool) (m1 m2 : C A) : tame m1 → tame m2 → tame (if b then m1 else m2).
Proof. by destruct b. Qed.

Lemma tame_decide {A} (P : Prop) `{Decision P} (m1 m2 : C A) :
  tame m1 → tame m2 → tame (if decide P then m1 else m2).
Proof. by case_decide. Qed.

Lemma tame_undef {A} u : tame (undef u : C A).
Proof. done. Qed.

Lemma ends_bind {A B} (m : res A) (f : A → res B) : ends m → (∀ a, ends (f a)) → ends (m ≫= f).
Proof. unfold ends. destruct m; naive_solver. Qed.

Lemma ends_Val {A} (a : A) : ends (Val a).
Proof. done. Qed.

Lemma ends_Undef {A} u : ends (Undef u : res A).
Proof. done. Qed.

Lemma ends_or a b : ends a → ends b → ends (a |||| b).
Proof. intros. apply ends_bind; [done|]. by intros []. Qed.

Lemma ends_and a b : ends a → ends b → ends (a &&&& b).
Proof. intros. apply ends_bind; [done|]. by intros []. Qed.

Lemma ends_deref {A} (p : cptr A) : ends (deref p).
Proof. unfold ends. by destruct p. Qed.

Lemma ends_arr_get {A} (l : list A) i : ends (arr_get l i).
Proof. apply arr_get_NoFuel. Qed.

Lemma ends_arr_set {A} (l : list A) i x : ends (arr_set l i x).
Proof. unfold arr_set, ends. by case_decide. Qed.

Lemma ends_if {A} (b : bool) (r1 r2 : res A) : ends r1 → ends r2 → ends (if b then r1 else r2).
Proof. by destruct b. Qed.

Lemma ends_decide {A} (P : Prop) `{Decision P} (r1 r2 : res A) :
  ends r1 → ends r2 → ends (if decide P then r1 else r2).
Proof. by case_decide. Qed.

Lemma ends_obj_field o off len : ends (obj_field o off len).
Proof. unfold obj_field, ends. by repeat case_split. Qed.

Lemma tame_next_alloc : tame next_alloc.
Proof.
  intros w. unfold next_alloc. destruct (w_alloc w) eqn:E; [done|]. unfold answers_left. cbn.
  rewrite E. by repeat split; try apply suffix_cons_r.
Qed.

Lemma tame_next_select : tame next_select.
Proof.
  intros w. unfold next_select. destruct (w_select w) eqn:E; [done|]. unfold answers_left. cbn.
  rewrite E. by repeat split; try apply suffix_cons_r.
Qed.

Lemma tame_emit e : tame (emit e).
Proof. done. Qed.

Lemma tame_write_bytes e : tame (write_bytes e).
Proof.
  intros w. unfold write_bytes, answers_left. cbn.
  destruct (w_write w); cbn; by repeat split; try apply suffix_cons_r.
Qed.

Create HintDb tame discriminated.
#[export] Hint Resolve tame_ret tame_undef tame_next_alloc tame_next_select tame_emit
  tame_write_bytes ends_Val ends_Undef ends_deref ends_arr_get ends_arr_set ends_obj_field : tame.

(** Structural proofs that a computation ends. *)
Ltac tame_step :=
  match goal with
  | |- tame (_ ≫= _) => apply tame_bind; [|intros ?]
  | |- tame (lift _) => apply tame_lift
  | |- tame (if decide _ then _ else _) => apply tame_decide
  | |- tame (match ?x with _ => _ end) => destruct x
  | |- ends (_ ≫= _) => apply ends_bind; [|intros ?]
  | |- ends (_ |||| _) => apply ends_or
  | |- ends (_ &&&& _) => apply ends_and
  | |- ends (if decide _ then _ else _) => apply ends_decide
  | |- ends (match ?x with _ => _ end) => destruct x
  | |- _ => solve [eauto with tame]
  end.
Ltac solve_tame := repeat tame_step.

(** ** Stacks *)

Section Stacks.
Context {E : Type} (EXTEND_SIZE : Z) (zero : E).

Lemma ends_ptr_sub p q : ends (ptr_sub p q).
Proof. unfold ptr_sub. solve_tame. Qed.

Lemma ends_ptr_add p k : ends (ptr_add p k).
Proof. unfold ptr_add. solve_tame. Qed.

Lemma ends_ptr_ge p q : ends (ptr_ge p q).
Proof. unfold ptr_ge, ptr_sub. solve_tame. Qed.

Lemma ends_ptr_load (bufs : gmap nat (list (option E))) p : ends (ptr_load bufs p).
Proof. unfold ptr_load. solve_tame. Qed.

Lemma ends_ptr_store (bufs : gmap nat (list (option E))) p v : ends (ptr_store bufs p v).
Proof. unfold ptr_store. solve_tame. Qed.

#[local] Hint Resolve ends_ptr_sub ends_ptr_add ends_ptr_ge ends_ptr_load ends_ptr_store : tame.

Lemma tame_stack_init s : tame (stack_init EXTEND_SIZE zero s).
Proof. unfold stack_init. solve_tame. Qed.

Lemma tame_stack_extend (s : cstack E) : tame (stack_extend EXTEND_SIZE s).
Proof. unfold stack_extend. solve_tame. Qed.

Lemma tame_stack_push (s : cstack E) v err : tame (stack_push EXTEND_SIZE s v err).
Proof. unfold stack_push. pose proof tame_stack_extend. solve_tame. Qed.

Lemma ends_stack_pop (s : cstack E) : ends (stack_pop s).
Proof. unfold stack_pop. solve_tame. Qed.

Lemma ends_stack_is_empty (s : cstack E) : ends (stack_is_empty s).
Proof. unfold stack_is_empty, ptr_lt. solve_tame. Qed.

Lemma ends_stack_free (s : cstack E) : ends (stack_free s).
Proof. unfold stack_free. solve_tame. Qed.

(** Each iteration of the trace goes one element down. *)
Lemma tame_stack_trace_loop line (s : cstack E) fuel p :
  (0 < fuel)%nat → (∀ d, ptr_sub p (st_first s) = Val d → d + 2 <= Z.of_nat fuel) →
  tame (stack_trace_loop line fuel s p).
Proof.
  revert p. induction fuel as [|fuel IH]; intros p Hpos Hfuel; [lia|].
  cbn [stack_trace_loop]. unfold ptr_ge.
  destruct (ptr_sub p (st_first s)) as [d| |] eqn:Hd; [|done|by apply ends_ptr_sub in Hd].
  specialize (Hfuel d eq_refl). cbn [mbind res_bind].
  intros w. rewrite C_bind_eq, lift_Val. case_bool_decide as Hge; [|done].
  revert w. change (tame (v ← lift (ptr_load (st_bufs s) p); _ ← emit (line v);
    p ← lift (ptr_add p (-1)); stack_trace_loop line fuel s p)).
  apply tame_bind; [solve_tame|intros v]. apply tame_bind; [solve_tame|intros _].
  destruct p as [|b o]; [done|]. cbn [ptr_add]. intros w. rewrite C_bind_eq, lift_Val.
  apply IH; [lia|]. intros d'. destruct (st_first s) as [|b' o']; [done|]. cbn in *.
  case_decide; [|done]. intros [= <-]. injection Hd as <-. lia.
Qed.

Lemma tame_stack_trace line (s : cstack E) : tame (stack_trace line s).
Proof.
  unfold stack_trace, stack_is_empty, ptr_lt.
  destruct (ptr_sub (st_top s) (st_first s)) as [n| |] eqn:Hn; [|done|by apply ends_ptr_sub in Hn].
  cbn [mbind res_bind]. intros w. rewrite C_bind_eq, lift_Val. case_bool_decide; [done|].
  rewrite C_bind_eq, lift_Val. apply tame_stack_trace_loop; [lia|].
  intros d Hd. rewrite Hn in Hd. injection Hd as <-. lia.
Qed.

End Stacks.

#[export] Hint Resolve tame_stack_init tame_stack_push ends_stack_pop ends_stack_is_empty
  ends_stack_free tame_stack_trace : tame.

(** ** The cases of the switch *)

Section Cases.
Context (opts : options) (data : monitor_data).

Lemma ends_module_at m : ends (module_at data m).
Proof. unfold module_at. solve_tame. Qed.
Lemma ends_function_at md f : ends (function_at md f).
Proof. unfold function_at. solve_tame. Qed.
Lemma ends_graph_at g i j : ends (graph_at g i j).
Proof. unfold graph_at. solve_tame. Qed.
#[local] Hint Resolve ends_module_at ends_function_at ends_graph_at : tame.

Lemma ends_module_of p : ends (module_of data p).
Proof. unfold module_of. solve_tame. Qed.
Lemma ends_function_of p : ends (function_of data p).
Proof. unfold function_of. solve_tame. Qed.
Lemma ends_function_addr p f : ends (function_addr data p f).
Proof. unfold function_addr. solve_tame. Qed.
#[local] Hint Resolve ends_module_of ends_function_of ends_function_addr : tame.

Lemma ends_get_event o : ends (get_event o).
Proof. apply ends_obj_field. Qed.
Lemma ends_get_module o : ends (get_module o).
Proof. apply ends_obj_field. Qed.
Lemma ends_get_function o : ends (get_function o).
Proof. apply ends_obj_field. Qed.
Lemma ends_get_block o : ends (get_block o).
Proof. apply ends_obj_field. Qed.
#[local] Hint Resolve ends_get_event ends_get_module ends_get_function ends_get_block : tame.

Ltac unfold_guards :=
  unfold state_is_not, module_differs, function_differs, block_differs, block_too_big, no_jump,
    function_too_big, no_call, not_entrypoint, at_post_dominator, enter_callee, tst.

Lemma ends_on_before_jump st : ends (on_before_jump st).
Proof. unfold on_before_jump. unfold_guards. solve_tame. Qed.

Lemma tame_on_after_jump st : tame (on_after_jump opts data st).
Proof. unfold on_after_jump, BLOCK_STACK_PUSH. unfold_guards. solve_tame. Qed.

Lemma tame_on_call st : tame (on_call opts data st).
Proof. unfold on_call, BLOCK_STACK_PUSH, CALL_STACK_PUSH. unfold_guards. solve_tame. Qed.

Lemma ends_on_enter st : ends (on_enter data st).
Proof. unfold on_enter. unfold_guards. solve_tame. Qed.

Lemma ends_leave_callee st : ends (leave_callee opts data st).
Proof.
  unfold leave_callee, CALL_STACK_POP, BLOCK_STACK_POP, BLOCK_STACK_IS_EMPTY. solve_tame.
Qed.

Lemma tame_write_answer a err : tame (WRITE_MONITOR_ANSWER a err).
Proof. unfold WRITE_MONITOR_ANSWER. solve_tame. Qed.

Lemma tame_timeout err : tame (MONITOR_SIGNAL_TIMEOUT opts err).
Proof. unfold MONITOR_SIGNAL_TIMEOUT. solve_tame. Qed.
#[local] Hint Resolve ends_on_before_jump tame_on_after_jump tame_on_call ends_on_enter
  ends_leave_callee tame_write_answer tame_timeout : tame.

Lemma tame_on_exit st : tame (on_exit opts data st).
Proof. unfold on_exit, CALL_STACK_IS_EMPTY. unfold_guards. solve_tame. Qed.

Lemma ends_on_returned st : ends (on_returned data st).
Proof. unfold on_returned. unfold_guards. solve_tame. Qed.
#[local] Hint Resolve tame_on_exit ends_on_returned : tame.

Lemma tame_dispatch st : tame (dispatch opts data st).
Proof. unfold dispatch. solve_tame. Qed.

Lemma tame_run_exit st : tame (run_exit opts st).
Proof.
  unfold run_exit, exit_trace, BLOCK_STACK_PUSH, CALL_STACK_PUSH, call_stack_trace,
    block_stack_trace, BLOCK_STACK_POP, CALL_STACK_POP, call_stack_free, block_stack_free.
  solve_tame.
Qed.

(** A case that goes on leaves the state of its event, and the signal. *)
Definition leaves (st : run_state) (e : client_event) (st' : run_state) : Prop :=
  state st' = next_state e ∧ rs_sig st' = rs_sig st.

(** Follow a case that went on, branch by branch. *)
Ltac follow :=
  inv_C; inv_res;
  repeat (match goal with
          | H : context [match ?x with _ => _ end] |- _ => is_var x; destruct x
          | H : context [match decide ?P with _ => _ end] |- _ => destruct (decide P)
          | H : context [if OPTION_sm_trace opts then _ else _] |- _ =>
              destruct (OPTION_sm_trace opts)
          end; inv_C; inv_res); try done.

Lemma before_jump_leaves st st' : on_before_jump st = Val (Next st') → leaves st CFI_BEFORE_JUMP st'.
Proof. unfold on_before_jump. intros H. follow. Qed.

Lemma after_jump_leaves st st' w w' :
  on_after_jump opts data st w = Val (Next st', w') → leaves st CFI_AFTER_JUMP st'.
Proof. unfold on_after_jump. intros H. follow. Qed.

Lemma enter_callee_sig f st st' : enter_callee data f st = Val st' → rs_sig st' = rs_sig st.
Proof.
  unfold enter_callee. intros H. inv_res. destruct (FUNCTION_IS_EXTERNAL _); inv_res; done.
Qed.

Lemma call_leaves st st' w w' :
  on_call opts data st w = Val (Next st', w') → leaves st CFI_CALL st'.
Proof.
  unfold on_call. intros H. follow; split; try done;
    match goal with E : enter_callee _ _ _ = Val _ |- _ => by apply enter_callee_sig in E end.
Qed.

Lemma enter_leaves st st' : on_enter data st = Val (Next st') → leaves st CFI_ENTER st'.
Proof. unfold on_enter. intros H. follow. Qed.

Lemma leave_callee_leaves st st' : leave_callee opts data st = Val (Next st') → leaves st CFI_EXIT st'.
Proof. unfold leave_callee. intros H. follow. Qed.

Lemma exit_leaves st st' w w' :
  on_exit opts data st w = Val (Next st', w') → leaves st CFI_EXIT st'.
Proof. unfold on_exit. intros H. follow. by eapply leave_callee_leaves. Qed.

Lemma returned_leaves st st' : on_returned data st = Val (Next st') → leaves st CFI_RETURNED st'.
Proof. unfold on_returned. intros H. follow. Qed.

Lemma dispatch_leaves st st' w w' :
  dispatch opts data st w = Val (Next st', w') →
  ∃ z e, get_event (rs_sig st) = Val z ∧ client_event_case z = Some e ∧ leaves st e st'.
Proof.
  unfold dispatch. intros H. inv_C. exists a.
  destruct (client_event_case a) as [[]|]; inv_C; [..|discriminate]; eexists; (split; [done|]);
    (split; [done|]);
    eauto using before_jump_leaves, after_jump_leaves, call_leaves, enter_leaves, exit_leaves,
      returned_leaves.
Qed.

(** In the state its event leaves, a signal is refused. *)
Lemma dispatch_repeat st w z e :
  get_event (rs_sig st) = Val z → client_event_case z = Some e → state st = next_state e →
  dispatch opts data st w = Val (Exit (set_error 4 st), w).
Proof.
  intros Hz He Hst. unfold dispatch. rewrite Hz, C_bind_eq, lift_Val, He.
  destruct e; cbn in Hst;
    unfold on_before_jump, on_after_jump, on_call, on_enter, on_exit, on_returned, state_is_not;
    rewrite Hst; done.
Qed.
End Cases.

(** ** The loop *)

Lemma read_sig_consumes dst err w :
  match READ_CLIENT_SIGNAL dst err w with
  | Val ((sg, e), w') => w_load w' = w_load w ∧
      ((w_sig w ≠ [] ∧ length (w_sig w) = S (length (w_sig w'))) ∨
       (w_sig w = [] ∧ w_sig w' = [] ∧ sg = dst))
  | _ => False
  end.
Proof.
  unfold READ_CLIENT_SIGNAL, read_sig. rewrite C_bind_eq. destruct (w_sig w) as [|p ps] eqn:E.
  - rewrite C_ret_eq. split; [done|]. by right.
  - rewrite C_ret_eq. split; [done|]. by left.
Qed.

Lemma ends_keeping_trans {A} w w' (r : res (A * world)) :
  w_load w' = w_load w → ends_keeping w' r → ends_keeping w r.
Proof. unfold ends_keeping. destruct r as [[]| |]; [congruence|done|done]. Qed.

Lemma tame_keeping {A} (m : C A) w : tame m → ends_keeping w (m w).
Proof. intros Hm. specialize (Hm w). unfold ends_keeping. destruct (m w) as [[]| |]; [apply Hm|done|done]. Qed.

(** A tame computation before one that ends. *)
Lemma keeping_bind {A B} (m : C A) (f : A → C B) w :
  tame m →
  (∀ a w', m w = Val (a, w') → w_sig w' = w_sig w → w_load w' = w_load w → ends_keeping w (f a w')) →
  ends_keeping w ((m ≫= f) w).
Proof.
  intros Hm Hf. rewrite C_bind_eq. specialize (Hm w).
  destruct (m w) as [[a w']| |]; [|done|done]. by apply Hf; [done|apply Hm..].
Qed.

Lemma run_loop_ends opts data fuel : ∀ st w,
  (length (w_sig w) + 2 <= fuel)%nat → ends_keeping w (run_loop fuel opts data st w).
Proof.
  induction fuel as [|fuel IH]; intros st w Hfuel; [lia|]. cbn [run_loop].
  apply keeping_bind; [apply tame_dispatch|]. intros [st1|st1] w1 Ed Hs1 Hl1; [|done].
  apply (ends_keeping_trans _ w1); [done|].
  apply keeping_bind; [apply tame_write_answer|]. intros e1 w2 _ Hs2 Hl2.
  apply (ends_keeping_trans _ w2); [done|].
  apply keeping_bind; [apply tame_timeout|]. intros e2 w3 _ Hs3 Hl3.
  case_decide; [done|]. rewrite C_bind_eq.
  pose proof (read_sig_consumes (rs_sig st1) e2 w3) as Hr.
  destruct (READ_CLIENT_SIGNAL _ _ w3) as [[[sg e3] w4]| |]; [|done|done].
  destruct Hr as [Hl4 [[Hne Hlen]|(Hnil & Hnil' & ->)]];
    apply (ends_keeping_trans _ w4); [congruence| |congruence|].
  - apply IH. rewrite Hs1, Hs2, Hs3 in *. lia.
  - destruct (dispatch_leaves _ _ _ _ _ _ Ed) as (z & e & Hz & He & Hst & Hsig).
    destruct fuel as [|fuel]; [lia|]. cbn [run_loop]. rewrite C_bind_eq.
    by rewrite (dispatch_repeat opts data _ w4 z e) by (cbn; congruence).
Qed.

Lemma monitor_run_ends opts data w : ends_keeping w (monitor_run opts data w).
Proof.
  unfold monitor_run.
  apply keeping_bind; [apply tame_stack_init|]. intros [e1 cs] w1 _ _ Hl1.
  apply (ends_keeping_trans _ w1); [done|]. case_decide; [done|].
  apply keeping_bind; [apply tame_stack_init|]. intros [e2 bs] w2 _ _ Hl2.
  apply (ends_keeping_trans _ w2); [done|]. case_decide.
  { apply tame_keeping. unfold call_stack_free. solve_tame. }
  cbn zeta. apply keeping_bind; [apply tame_timeout|]. intros e3 w3 _ _ Hl3.
  apply (ends_keeping_trans _ w3); [done|]. case_decide; [apply tame_keeping, tame_run_exit|].
  rewrite C_bind_eq. pose proof (read_sig_consumes (rs_sig (initial_state cs bs)) e3 w3) as Hrd.
  destruct (READ_CLIENT_SIGNAL _ _ w3) as [[[sg e4] w4]| |]; [|done|done].
  destruct Hrd as [Hl4 _]. apply (ends_keeping_trans _ w4); [done|].
  rewrite C_bind_eq. set (st := set_sig _ _).
  pose proof (run_loop_ends opts data (run_fuel w4) st w4 ltac:(unfold run_fuel; lia)) as Hlp.
  destruct (run_loop _ _ _ st w4) as [[st5 w5]| |]; [|done|done].
  apply (ends_keeping_trans _ w5); [done|]. apply tame_keeping, tame_run_exit.
Qed.

(** ** The status *)

(** The values [error] takes. *)
Definition small (e : Z) : Prop := -1 <= e <= 7.

Definition ctl_error (c : ctl) : Z := match c with Next st | Exit st => error st end.

Lemma stack_extend_small {E} size (s : cstack E) w e s' w' :
  stack_extend size s w = Val ((e, s'), w') → small e.
Proof.
  unfold stack_extend, small. intros H. inv_C.
  repeat (case_split; inv_C; try done); lia.
Qed.

Lemma stack_push_small {E} size (s : cstack E) v err w e s' w' :
  stack_push size s v err w = Val ((e, s'), w') → small err → small e.
Proof.
  unfold stack_push. intros H Herr. inv_C. destruct a0 as [e1 s1].
  assert (small e1).
  { destruct a; [by eapply stack_extend_small|]. by inv_C. }
  case_decide; inv_C; done.
Qed.

Lemma write_answer_small a err w e w' :
  WRITE_MONITOR_ANSWER a err w = Val (e, w') → small err → small e.
Proof. unfold WRITE_MONITOR_ANSWER. intros H Herr. inv_C. by destruct a0. Qed.

Lemma timeout_small opts err w e w' :
  MONITOR_SIGNAL_TIMEOUT opts err w = Val (e, w') → small err → small e.
Proof.
  unfold MONITOR_SIGNAL_TIMEOUT. intros H Herr. destruct (TIMEOUT opts); inv_C; [by destruct a|done].
Qed.

Section Status.
Context (opts : options) (data : monitor_data).

(** Each case keeps the error, sets it to a constant, or to that of a push. *)
Ltac follow_status :=
  inv_C; inv_res;
  repeat (match goal with
          | H : BLOCK_STACK_PUSH _ _ _ _ = Val (_, _) |- _ =>
              unfold BLOCK_STACK_PUSH in H; apply stack_push_small in H; [|done]
          | H : CALL_STACK_PUSH _ _ _ _ = Val (_, _) |- _ =>
              unfold CALL_STACK_PUSH in H; apply stack_push_small in H; [|done]
          | H : context [match ?x with _ => _ end] |- _ => is_var x; destruct x
          | H : context [match decide ?P with _ => _ end] |- _ => destruct (decide P)
          | H : context [if OPTION_sm_trace opts then _ else _] |- _ =>
              destruct (OPTION_sm_trace opts)
          end; inv_C; inv_res); try done.

Lemma enter_callee_error f st st' : enter_callee data f st = Val st' → error st' = error st.
Proof.
  unfold enter_callee. intros H. inv_res. destruct (FUNCTION_IS_EXTERNAL _); inv_res; done.
Qed.

Lemma dispatch_small st w c w' :
  dispatch opts data st w = Val (c, w') → small (error st) → small (ctl_error c).
Proof.
  unfold dispatch. intros H Hst. inv_C.
  destruct (client_event_case a) as [[]|]; inv_C.
  - unfold on_before_jump in H. follow_status.
  - unfold on_after_jump in H. follow_status.
  - unfold on_call in H. follow_status; cbn;
      match goal with E : enter_callee _ _ _ = Val _ |- _ => by apply enter_callee_error in E as -> end.
  - unfold on_enter in H. follow_status.
  - unfold on_exit in H. inv_C. destruct a0; inv_C; [done|]. destruct a0; inv_C.
    + destruct a0; inv_C; [done|]. by eapply write_answer_small.
    + unfold leave_callee in H. follow_status.
  - unfold on_returned in H. follow_status.
  - done.
Qed.

Lemma run_loop_small fuel : ∀ st w st' w',
  run_loop fuel opts data st w = Val (st', w') → small (error st) → small (error st').
Proof.
  induction fuel as [|fuel IH]; intros st w st' w' H Hst; cbn [run_loop] in H; [done|]. inv_C.
  apply dispatch_small in E; [|done]. destruct a as [st1|st1]; inv_C; [|done].
  apply write_answer_small in E0; [|done]. apply timeout_small in E1; [|done].
  case_decide; inv_C; [done|]. destruct a1 as [sg e]. eapply IH; [exact H|]. cbn.
  unfold READ_CLIENT_SIGNAL in E2. inv_C. by case_decide.
Qed.

Lemma run_exit_status st w e w' : run_exit opts st w = Val (e, w') → e = error st.
Proof.
  unfold run_exit, exit_trace. intros H. inv_C. destruct (decide (error st ≠ 0)); inv_C; [|done].
  destruct (OPTION_sm_trace opts); inv_C; [|done].
  repeat (match goal with
          | x : (_ * _)%type |- _ => destruct x
          end; inv_C). done.
Qed.

Lemma monitor_run_small w e w' : monitor_run opts data w = Val (e, w') → small e.
Proof.
  unfold monitor_run. intros H. inv_C. destruct a as [e1 cs]. case_decide; inv_C; [done|].
  destruct a as [e2 bs]. case_decide; inv_C; [done|].
  assert (Ha : small a) by (by eapply timeout_small).
  case_decide; inv_C; [by apply run_exit_status in H as ->|].
  destruct a0 as [sg err]. inv_C. apply run_exit_status in H as ->.
  eapply run_loop_small; [eassumption|]. cbn.
  match goal with E : READ_CLIENT_SIGNAL _ _ _ = _ |- _ => unfold READ_CLIENT_SIGNAL in E end. inv_C.
  case_decide; [done|done].
Qed.

End Status.
