(* ===== verification/Dot.v ===== *)
(** * Dump of the graphs (monitor/src/monitor_dot.c)

    The lines printed for the call graph of a module and the control-flow
    graph of a function. *)

From S2P Require Import Prelude CSem Wire MonitorData.
From Stdlib Require Import Strings.Byte Strings.String NArith DecimalString.

(** Bytes of a literal, and of an unsigned number printed with [%u]. *)
Definition lit (s : string) : list byte := list_byte_of_string s.
Definition percent_u (z : Z) : list byte :=
  lit (NilZero.string_of_uint (N.to_uint (Z.to_N z))).

Definition tab : byte := x09.
Definition newline : byte := x0a.
Definition quote : byte := x22.

(** [printf] of a line. *)
Definition printf (line : list byte) : C unit := emit (ODot line).

Definition open_line : list byte := lit "digraph{" ++ [newline].
Definition close_line : list byte := lit "}" ++ [newline].
Definition edge_line (i j : Z) : list byte :=
  [tab] ++ percent_u i ++ lit " -> " ++ percent_u j ++ lit ";" ++ [newline].
Definition call_graph_title : list byte :=
  [tab] ++ lit "title=" ++ [quote] ++ lit "Call graph of module" ++ [quote] ++ lit ";" ++ [newline].
Definition control_flow_graph_title (name : list byte) : list byte :=
  [tab] ++ lit "title=" ++ [quote] ++ lit "Control flow graph of function name=" ++ name ++
  [quote] ++ lit ";" ++ [newline].

(** [graph[i] && graph[i][j]] *)
Definition has_edge (g : cptr (list (cptr (list Z)))) (i j : Z) : res bool :=
  (rows ← deref g; row ← arr_get rows i; Val (non_null row)) &&&&
  (x ← graph_at g i j; Val (bool_decide (x ≠ 0))).

(** The inner loop, [n] iterations left from [j]; the outer one, from [i]. *)
Fixpoint dot_row (n : nat) (g : cptr (list (cptr (list Z)))) (i j : Z) : C unit :=
  match n with
  | O => mret ()
  | S n =>
      e ← lift (has_edge g i j);
      _ ← (if (e : bool) then printf (edge_line i j) else mret ());
      dot_row n g i (j + 1)
  end.

Fixpoint dot_rows (n : nat) (size : Z) (g : cptr (list (cptr (list Z)))) (i : Z) : C unit :=
  match n with
  | O => mret ()
  | S n =>
      _ ← dot_row (Z.to_nat size) g i 0;
      dot_rows n size g (i + 1)
  end.

Definition monitor_call_graph (module : module_data) : C unit :=
  _ ← printf open_line;
  _ ← printf call_graph_title;
  _ ← dot_rows (Z.to_nat (nb_functions module)) (nb_functions module) (call_graph module) 0;
  printf close_line.

(** The name is printed with [%s]: it must not be null. *)
Definition monitor_control_flow_graph (function : function_data) : C unit :=
  _ ← printf open_line;
  nm ← lift (deref (name function));
  _ ← printf (control_flow_graph_title nm);
  _ ← dot_rows (Z.to_nat (nb_blocks function)) (nb_blocks function)
        (control_flow_graph function) 0;
  printf close_line.
