(* ===== verification/LoadSections.v ===== *)
(** * Sections of a module (monitor/src/monitor_load.c, first part)

    The four functions that read a section of a loading packet into the data
    of a module.  A pointer into the packet is the list of the bytes from
    there to the end of the allocation. *)

From S2P Require Import Prelude CSem Wire MonitorData.
From Stdlib Require Import Strings.Byte.

(** ** Strings *)

(** The string at a pointer and the bytes after its terminator. *)
Fixpoint c_string (p : list byte) : res (list byte * list byte) :=
  match p with
  | [] => Undef OutOfBounds
  | b :: p =>
      if decide (b = x00) then Val ([], p)
      else '(s, rest) ← c_string p; Val (b :: s, rest)
  end.

Definition strdup (p : list byte) : C (cptr (list byte)) :=
  '(s, _) ← lift (c_string p);
  ok ← alloc_ok;
  mret (if (ok : bool) then Live s else Null).

(** [1 + strchr(p, 0)] *)
Definition after_string (p : list byte) : res (list byte) :=
  '(_, rest) ← c_string p; Val rest.

(** ** Assignments *)

Definition set_nb_functions n md := ModuleData n (nb_entrypoint_inits md) (nb_entrypoint_finis md)
  (call_graph md) (relocations md) (functions md).
Definition set_call_graph g md := ModuleData (nb_functions md) (nb_entrypoint_inits md)
  (nb_entrypoint_finis md) g (relocations md) (functions md).
Definition set_relocations r md := ModuleData (nb_functions md) (nb_entrypoint_inits md)
  (nb_entrypoint_finis md) (call_graph md) r (functions md).
Definition set_functions fs md := ModuleData (nb_functions md) (nb_entrypoint_inits md)
  (nb_entrypoint_finis md) (call_graph md) (relocations md) fs.

Definition set_control_flow_graph g fd :=
  FunctionData (name fd) (flags fd) (nb_blocks fd) g (immediate_post_dominator fd).
Definition set_immediate_post_dominator l fd :=
  FunctionData (name fd) (flags fd) (nb_blocks fd) (control_flow_graph fd) l.
Definition set_nb_blocks n fd :=
  FunctionData (name fd) (flags fd) n (control_flow_graph fd) (immediate_post_dominator fd).

(** [graph[i]], [graph[i] = row] and [graph[i][j] = x] *)
Definition graph_row (g : cptr (list (cptr (list Z)))) (i : Z) : res (cptr (list Z)) :=
  rows ← deref g; arr_get rows i.
Definition graph_set_row (g : cptr (list (cptr (list Z)))) (i : Z) (row : cptr (list Z)) :
    res (cptr (list (cptr (list Z)))) :=
  rows ← deref g; rows ← arr_set rows i row; Val (Live rows).
Definition graph_set (g : cptr (list (cptr (list Z)))) (i j x : Z) :
    res (cptr (list (cptr (list Z)))) :=
  row ← graph_row g i; r ← deref row; r ← arr_set r j x; graph_set_row g i (Live r).

(** [data->functions[f] = fd] *)
Definition put_function (data : module_data) (f : Z) (fd : function_data) : res module_data :=
  fs ← deref (functions data); fs ← arr_set fs f fd; Val (set_functions (Live fs) data).

(** What [calloc] leaves in an element of [functions]. *)
Definition zero_function : function_data := FunctionData Null 0 0 Null Null.

(** ** load_section_function_id *)

(** [++nb_entrypoint_inits] and [++nb_entrypoint_finis], as the flags ask. *)
Definition count_entrypoints (fd : function_data) (data : module_data) : module_data :=
  ModuleData (nb_functions data)
    (if FUNCTION_IS_ENTRYPOINT_INIT fd then u32 (nb_entrypoint_inits data + 1)
     else nb_entrypoint_inits data)
    (if FUNCTION_IS_ENTRYPOINT_FINI fd then u32 (nb_entrypoint_finis data + 1)
     else nb_entrypoint_finis data)
    (call_graph data) (relocations data) (functions data).

(** The [n] iterations left of the loop. *)
Fixpoint function_id_loop (n : nat) (ptr : list byte) (data : module_data) :
    C (Z * module_data) :=
  match n with
  | O => mret (0, data)
  | S n =>
      f_id ← lift (msg_fct_f_id ptr);
      if decide (nb_functions data <= f_id) then mret (3, data)
      else
        nm ← strdup (msg_fct_f_name ptr);
        fl ← lift (msg_fct_f_flags ptr);
        let fd := FunctionData nm fl 0 Null Null in
        data ← lift (put_function data f_id fd);
        ptr ← lift (after_string (msg_fct_f_name ptr));
        function_id_loop n ptr (count_entrypoints fd data)
  end.

Definition load_section_function_id (fct : cptr (list byte)) (data : module_data) :
    C (Z * module_data) :=
  if decide (nb_functions data ≠ 0) then mret (1, data)
  else
    p ← lift (deref fct);
    num_fcts ← lift (msg_num p);
    let data := set_nb_functions num_fcts data in
    g ← calloc num_fcts Null;
    let data := set_call_graph g data in
    if negb (non_null g) then mret (2, data)
    else
      r ← calloc num_fcts 0;
      let data := set_relocations r data in
      if negb (non_null r) then mret (2, data)
      else
        fs ← calloc num_fcts zero_function;
        let data := set_functions fs data in
        if negb (non_null fs) then mret (2, data)
        else function_id_loop (Z.to_nat num_fcts) (msg_list p) data.

(** ** load_section_function_transition *)

(** Calls of function [f_id]: the [n] that are left. *)
Fixpoint calls_loop (n : nat) (cptr : list byte) (f_id : Z) (data : module_data) :
    res (Z * module_data) :=
  match n with
  | O => Val (0, data)
  | S n =>
      c ← field cptr 0 4;
      if decide (nb_functions data <= c) then Val (3, data)
      else
        g ← graph_set (call_graph data) f_id c 1;
        calls_loop n (drop 4 cptr) f_id (set_call_graph g data)
  end.

Fixpoint function_transition_loop (n : nat) (ptr : list byte) (data : module_data) :
    C (Z * module_data) :=
  match n with
  | O => mret (0, data)
  | S n =>
      f_id ← lift (msg_trans_id ptr);
      if decide (nb_functions data <= f_id) then mret (3, data)
      else
        row ← lift (graph_row (call_graph data) f_id);
        if non_null row then mret (3, data)
        else
          row ← calloc (nb_functions data) 0;
          g ← lift (graph_set_row (call_graph data) f_id row);
          let data := set_call_graph g data in
          if negb (non_null row) then mret (2, data)
          else
            f_num_calls ← lift (msg_trans_count ptr);
            '(err, data) ← lift (calls_loop (Z.to_nat f_num_calls) (msg_trans_array ptr) f_id data);
            if decide (err ≠ 0) then mret (err, data)
            else
              function_transition_loop n
                (drop (sizeof_msg_trans + Z.to_nat f_num_calls * 4) ptr) data
  end.

Definition load_section_function_transition (trans : cptr (list byte)) (data : module_data) :
    C (Z * module_data) :=
  if negb (non_null (call_graph data)) then mret (1, data)
  else if decide (nb_functions data <= 0) then mret (1, data)
  else
    p ← lift (deref trans);
    num_fct_trans ← lift (msg_num p);
    function_transition_loop (Z.to_nat num_fct_trans) (msg_list p) data.

(** ** load_section_block_transition *)

(** Successors of block [b_id]. *)
Fixpoint succ_loop (n : nat) (cptr : list byte) (b_id : Z) (fdata : function_data) :
    res (Z * function_data) :=
  match n with
  | O => Val (0, fdata)
  | S n =>
      c ← field cptr 0 4;
      if decide (nb_blocks fdata <= c) then Val (10, fdata)
      else
        g ← graph_set (control_flow_graph fdata) b_id c 1;
        succ_loop n (drop 4 cptr) b_id (set_control_flow_graph g fdata)
  end.

(** The row of block [b_id], allocated when it was not yet. *)
Definition ensure_row (b_id : Z) (fdata : function_data) : C (bool * function_data) :=
  row ← lift (graph_row (control_flow_graph fdata) b_id);
  if non_null row then mret (true, fdata)
  else
    row ← calloc (nb_blocks fdata) 0;
    g ← lift (graph_set_row (control_flow_graph fdata) b_id row);
    mret (non_null row, set_control_flow_graph g fdata).

Fixpoint block_transition_loop (n : nat) (ptr : list byte) (fdata : function_data) :
    C (Z * function_data) :=
  match n with
  | O => mret (0, fdata)
  | S n =>
      b_id ← lift (msg_trans_id ptr);
      if decide (nb_blocks fdata <= b_id) then mret (7, fdata)
      else
        '(ok, fdata) ← ensure_row b_id fdata;
        if negb ok then mret (9, fdata)
        else
          b_num_succ ← lift (msg_trans_count ptr);
          '(err, fdata) ← lift (succ_loop (Z.to_nat b_num_succ) (msg_trans_array ptr) b_id fdata);
          if decide (err ≠ 0) then mret (err, fdata)
          else
            block_transition_loop n
              (drop (sizeof_msg_trans + Z.to_nat b_num_succ * 4) ptr) fdata
  end.

(** The part of the section that works on [fdata]. *)
Definition fill_blocks (num_block : Z) (p : list byte) (fdata : function_data) :
    C (Z * function_data) :=
  let fdata := set_nb_blocks num_block fdata in
  g ← calloc num_block Null;
  let fdata := set_control_flow_graph g fdata in
  if negb (non_null g) then mret (6, fdata)
  else
    l ← calloc num_block 0;
    let fdata := set_immediate_post_dominator l fdata in
    if negb (non_null l) then mret (6, fdata)
    else
      num_block_trans ← lift (msg_block_trans_num_block_trans p);
      block_transition_loop (Z.to_nat num_block_trans) (msg_block_trans_list p) fdata.

Definition load_section_block_transition (trans : cptr (list byte)) (data : module_data) :
    C (Z * module_data) :=
  if negb (non_null (functions data)) then mret (1, data)
  else if decide (nb_functions data <= 0) then mret (2, data)
  else
    p ← lift (deref trans);
    f_id ← lift (msg_block_trans_f_id p);
    if decide (nb_functions data <= f_id) then mret (3, data)
    else
      fdata ← lift (function_at data f_id);
      if decide (nb_blocks fdata ≠ 0) then mret (4, data)
      else
        num_block ← lift (msg_block_trans_num_block p);
        if decide (num_block <= 0) then mret (5, data)
        else
          '(err, fdata) ← fill_blocks num_block p fdata;
          data ← lift (put_function data f_id fdata);
          mret (err, data).

(** ** load_section_block_ipd *)

Fixpoint block_ipd_loop (n : nat) (ptr : list byte) (data : module_data) : res (Z * module_data) :=
  match n with
  | O => Val (0, data)
  | S n =>
      f_id ← msg_block_ipd_f_id ptr;
      if decide (nb_functions data <= f_id) then Val (2, data)
      else
        fdata ← function_at data f_id;
        if negb (non_null (immediate_post_dominator fdata)) then Val (4, data)
        else
          b_id ← msg_block_ipd_b_id ptr;
          if decide (nb_blocks fdata <= b_id) then Val (5, data)
          else
            ipd ← deref (immediate_post_dominator fdata);
            b_ipd_id ← msg_block_ipd_b_ipd_id ptr;
            ipd ← arr_set ipd b_id b_ipd_id;
            data ← put_function data f_id (set_immediate_post_dominator (Live ipd) fdata);
            block_ipd_loop n (drop sizeof_msg_block_ipd ptr) data
  end.

Definition load_section_block_ipd (ipd : cptr (list byte)) (data : module_data) :
    C (Z * module_data) :=
  if negb (non_null (functions data)) then mret (1, data)
  else
    p ← lift (deref ipd);
    num_ipd ← lift (msg_num p);
    lift (block_ipd_loop (Z.to_nat num_ipd) (msg_list p) data).
