(* ===== verification/Relocate.v ===== *)
(** * Relocations (compute_relocations_of_module of monitor/src/monitor_load.c) *)

From S2P Require Import Prelude CSem Wire MonitorData LoadSections.
From Stdlib Require Import Strings.Byte.

(** [strcmp(p, q) == 0] *)
Definition strcmp_eq (p q : cptr (list byte)) : res bool :=
  a ← deref p; b ← deref q; Val (bool_decide (a = b)).

(** [!FUNCTION_IS_EXTERNAL(g) && strcmp(f.name, g.name) == 0] *)
Definition defines (f g : function_data) : res bool :=
  tst (negb (FUNCTION_IS_EXTERNAL g)) &&&& strcmp_eq (name f) (name g).

(** The inner loop over the functions of [mkdata]: [n] iterations left, from
    [l]; the function found, if any. *)
Fixpoint search_functions (n : nat) (l : Z) (fd : function_data) (mkdata : module_data) :
    res (option Z) :=
  match n with
  | O => Val None
  | S n =>
      fl ← function_at mkdata l;
      found ← defines fd fl;
      if (found : bool) then Val (Some l) else search_functions n (l + 1) fd mkdata
  end.

(** The loop over the modules, from [k = n - 1] down to 0. *)
Fixpoint search_modules (n : nat) (mid : Z) (fd : function_data) (data : monitor_data) :
    res (option (Z * Z)) :=
  match n with
  | O => Val None
  | S n =>
      let k := Z.of_nat n in
      mkdata ← module_at data k;
      found ← (if decide (mid ≠ k)
               then search_functions (Z.to_nat (nb_functions mkdata)) 0 fd mkdata
               else Val None);
      match found with
      | Some l => Val (Some (k, l))
      | None => search_modules n mid fd data
      end
  end.

(** The loop over the functions of the module, [n] iterations left, from [j]. *)
Fixpoint relocation_loop (n : nat) (j : Z) (mid : Z) (unresolved_is_fatal : bool)
    (data : monitor_data) (midata : module_data) : res (Z * module_data) :=
  match n with
  | O => Val (0, midata)
  | S n =>
      fd ← function_at midata j;
      if FUNCTION_IS_EXTERNAL fd then
        let k := s32 (nb_modules data - 1) in
        found ← search_modules (Z.to_nat (k + 1)) mid fd data;
        match found with
        | Some (k, l) =>
            rs ← deref (relocations midata);
            rs ← arr_set rs j (MODULE_FUNCTION k l);
            relocation_loop n (j + 1) mid unresolved_is_fatal data
              (set_relocations (Live rs) midata)
        | None =>
            if unresolved_is_fatal then Val (1, midata)
            else relocation_loop n (j + 1) mid unresolved_is_fatal data midata
        end
      else relocation_loop n (j + 1) mid unresolved_is_fatal data midata
  end.

(** [data->modules[m] = md] *)
Definition put_module (data : monitor_data) (m : Z) (md : module_data) : res monitor_data :=
  ms ← deref (modules data); ms ← arr_set ms m md; Val (MonitorData (nb_modules data) (Live ms)).

(** [mid] is a [module_id], 16 bits wide. *)
Definition compute_relocations_of_module (data : monitor_data) (mid : Z)
    (unresolved_is_fatal : bool) : res (Z * monitor_data) :=
  let mid := u16 mid in
  midata ← module_at data mid;
  '(err, midata) ← relocation_loop (Z.to_nat (nb_functions midata)) 0 mid unresolved_is_fatal
                     data midata;
  data ← put_module data mid midata;
  Val (err, data).

(** The modules searched: all of them. *)
Definition search (data : monitor_data) (mid : Z) (fd : function_data) : res (option (Z * Z)) :=
  search_modules (Z.to_nat (s32 (nb_modules data - 1) + 1)) mid fd data.

(** [data->modules[m].relocations[j]] *)
Definition reloc_at (md : module_data) (j : Z) : res Z := rs ← deref (relocations md); arr_get rs j.

(** ** What the relocation of a function is *)

(** Function [l] of module [k] is a definition of the external function [fd]
    of module [mid]. *)
Definition definer (data : monitor_data) (mid : Z) (fd : function_data) (k l : Z) : Prop :=
  k ≠ mid ∧ ∃ mk g s, module_at data k = Val mk ∧ 0 <= l < nb_functions mk ∧
    function_at mk l = Val g ∧ FUNCTION_IS_EXTERNAL g = false ∧
    name fd = Live s ∧ name g = Live s.

(** It is the first one of the last module loaded that has one. *)
Definition best_definer (data : monitor_data) (mid : Z) (fd : function_data) (n k l : Z) : Prop :=
  0 <= k < n ∧ definer data mid fd k l ∧
  (∀ l', l' < l → ¬ definer data mid fd k l') ∧
  (∀ k' l', k < k' < n → ¬ definer data mid fd k' l').

(** Two modules that differ at most by their relocations. *)
Definition same_code (md md' : module_data) : Prop :=
  nb_functions md' = nb_functions md ∧ nb_entrypoint_inits md' = nb_entrypoint_inits md ∧
  nb_entrypoint_finis md' = nb_entrypoint_finis md ∧ call_graph md' = call_graph md ∧
  functions md' = functions md.

(** What the loop leaves in the relocation of the external function [fd],
    number [i]. *)
Definition relocated (fatal : bool) (data : monitor_data) (mid : Z) (fd : function_data)
    (i : Z) (md md' : module_data) : Prop :=
  ∃ found, search data mid fd = Val found ∧
    match found with
    | Some (k, l) => reloc_at md' i = Val (MODULE_FUNCTION k l)
    | None => fatal = false ∧ reloc_at md' i = reloc_at md i
    end.

(** ** Search *)

(** Two results of one computation are equal. *)
Ltac same_res :=
  repeat match goal with
  | H1 : ?m = Val ?x, H2 : ?m = Val ?y |- _ =>
      first [constr_eq x y; clear H2 | rewrite H1 in H2; injection H2 as H2; try subst]
  end.

Lemma defines_true f g :
  defines f g = Val true ↔
  FUNCTION_IS_EXTERNAL g = false ∧ ∃ s, name f = Live s ∧ name g = Live s.
Proof.
  unfold defines, strcmp_eq. rewrite res_and_true. cbn. rewrite (inj_iff Val), negb_true_iff.
  apply and_iff_compat_l. destruct (name f) as [|s|], (name g) as [|s'|]; cbn; try naive_solver.
  rewrite (inj_iff Val), bool_decide_eq_true. naive_solver.
Qed.

Lemma defines_false f g :
  defines f g = Val false → ¬ (FUNCTION_IS_EXTERNAL g = false ∧ ∃ s, name f = Live s ∧ name g = Live s).
Proof. rewrite <- defines_true. by intros ->. Qed.

Lemma search_functions_Some n : ∀ l0 fd mk l,
  search_functions n l0 fd mk = Val (Some l) → 0 <= l0 →
  l0 <= l < l0 + Z.of_nat n ∧ (∃ g, function_at mk l = Val g ∧ defines fd g = Val true) ∧
  ∀ l', l0 <= l' < l → ∃ g, function_at mk l' = Val g ∧ defines fd g = Val false.
Proof.
  induction n as [|n IH]; intros l0 fd mk l H Hl0; cbn [search_functions] in H; inv_res; [done|].
  destruct a0; inv_res.
  - split; [lia|]. split; [by exists a|]. lia.
  - apply IH in H as (Hr & Hg & Hmin); [|lia]. split; [lia|]. split; [done|].
    intros l' Hl'. destruct (decide (l' = l0)) as [->|]; [by exists a|]. apply Hmin. lia.
Qed.

Lemma search_functions_None n : ∀ l0 fd mk,
  search_functions n l0 fd mk = Val None →
  ∀ l', l0 <= l' < l0 + Z.of_nat n → ∃ g, function_at mk l' = Val g ∧ defines fd g = Val false.
Proof.
  induction n as [|n IH]; intros l0 fd mk H l' Hl'; cbn [search_functions] in H; [lia|]. inv_res.
  destruct a0; inv_res; [done|].
  destruct (decide (l' = l0)) as [->|]; [by exists a|]. eapply IH; [done|lia].
Qed.

(** A definer is a function the search stops at. *)
Lemma definer_defines data mid fd k l mk g :
  definer data mid fd k l → module_at data k = Val mk → function_at mk l = Val g →
  defines fd g = Val true.
Proof.
  intros (_ & mk' & g' & s & Hk & _ & Hl & Hx & Hf & Hg) Hk' Hl'. same_res.
  apply defines_true. split; [done|]. by exists s.
Qed.

Lemma search_modules_Some n : ∀ mid fd data k l,
  search_modules n mid fd data = Val (Some (k, l)) → best_definer data mid fd (Z.of_nat n) k l.
Proof.
  induction n as [|n IH]; intros mid fd data k l H; cbn [search_modules] in H; [done|]. inv_res.
  assert (Hnone : a0 = None → ∀ l', ¬ definer data mid fd (Z.of_nat n) l').
  { intros -> l' Hd. case_decide as Hmid; [|by destruct Hd].
    destruct Hd as (Hne & Hd'). assert (Hd := conj Hne Hd'). destruct Hd' as (mk & g & s & Hk & Hl & Hg & _).
    same_res. destruct (search_functions_None _ _ _ _ E0 l' ltac:(lia)) as (g' & Hg' & Hf).
    assert (g' = g) by congruence. subst g'.
    by rewrite (definer_defines _ _ _ _ _ _ _ Hd E Hg) in Hf. }
  destruct a0 as [l0|]; inv_res.
  - case_decide as Hmid; [|done].
    apply search_functions_Some in E0 as (Hr & (g & Hg & Hd) & Hmin); [|lia].
    apply defines_true in Hd as (Hx & s & Hs & Hs').
    assert (0 <= l < nb_functions a) by lia.
    split; [lia|]. split; [split; [done|]; by exists a, g, s|]. split; [|lia].
    intros l' Hl' Hd. assert (Hl0 : 0 <= l') by (destruct Hd as (_ & ? & ? & ? & _ & ? & _); lia).
    destruct (Hmin l' ltac:(lia)) as (g' & Hg' & Hf).
    by rewrite (definer_defines _ _ _ _ _ _ _ Hd E Hg') in Hf.
  - apply IH in H as (Hk & Hd & Hfirst & Hlast). split; [lia|]. split; [done|]. split; [done|].
    intros k' l' Hk'. destruct (decide (k' = Z.of_nat n)) as [->|]; [by apply Hnone|].
    apply Hlast. lia.
Qed.

Lemma search_modules_None n : ∀ mid fd data,
  search_modules n mid fd data = Val None →
  ∀ k l, 0 <= k < Z.of_nat n → ¬ definer data mid fd k l.
Proof.
  induction n as [|n IH]; intros mid fd data H k l Hk Hd; cbn [search_modules] in H; [lia|].
  inv_res. destruct a0 as [l0|]; inv_res; [done|].
  destruct (decide (k = Z.of_nat n)) as [->|]; [|eapply IH; [done| |done]; lia].
  assert (Hd0 := Hd). destruct Hd as (Hne & mk & g & s & Hk' & Hl & Hg & _).
  rewrite decide_True in E0 by done. same_res.
  destruct (search_functions_None _ _ _ _ E0 l ltac:(lia)) as (g' & Hg' & Hf).
  assert (g' = g) by congruence. subst g'.
  by rewrite (definer_defines _ _ _ _ _ _ _ Hd0 E Hg) in Hf.
Qed.

(** ** The loop over the functions of a module *)

#[export] Instance same_code_preorder : PreOrder same_code.
Proof. split; [done|]. intros x y z (?&?&?&?&?) (?&?&?&?&?). unfold same_code. split_and!; congruence. Qed.

Lemma relocation_loop_spec n : ∀ j mid fatal data md err md',
  relocation_loop n j mid fatal data md = Val (err, md') → 0 <= j →
  same_code md md' ∧ (err = 0 ∨ err = 1) ∧
  (∀ i, ¬ (j <= i < j + Z.of_nat n) → 0 <= i → reloc_at md' i = reloc_at md i) ∧
  (err = 0 → ∀ i fd, j <= i < j + Z.of_nat n → function_at md i = Val fd →
     FUNCTION_IS_EXTERNAL fd = true → relocated fatal data mid fd i md md').
Proof.
  induction n as [|n IH]; intros j mid fatal data md err md' H Hj; cbn [relocation_loop] in H; inv_res.
  { split; [done|]. split; [by left|]. split; [done|]. lia. }
  rename a into fd0.
  (* the rest of the loop, from a module that agrees but at [j] *)
  assert (Hrest : ∀ md1, relocation_loop n (j + 1) mid fatal data md1 = Val (err, md') →
    same_code md md1 → (∀ i, i ≠ j → 0 <= i → reloc_at md1 i = reloc_at md i) →
    (FUNCTION_IS_EXTERNAL fd0 = true → ∃ found, search data mid fd0 = Val found ∧
       match found with Some (k, l) => reloc_at md1 j = Val (MODULE_FUNCTION k l)
                      | None => fatal = false ∧ reloc_at md1 j = reloc_at md j end) →
    same_code md md' ∧ (err = 0 ∨ err = 1) ∧
    (∀ i, ¬ (j <= i < j + Z.of_nat (S n)) → 0 <= i → reloc_at md' i = reloc_at md i) ∧
    (err = 0 → ∀ i fd, j <= i < j + Z.of_nat (S n) → function_at md i = Val fd →
       FUNCTION_IS_EXTERNAL fd = true → relocated fatal data mid fd i md md')).
  { intros md1 H1 Hs Ho Hx. apply IH in H1 as (Hs1 & He & Ho1 & Hin); [|lia].
    split; [by transitivity md1|]. split; [done|]. split.
    - intros i Hi Hi0. rewrite Ho1 by lia. apply Ho; lia.
    - intros He0 i fd Hi Hfd Hex. destruct (decide (i = j)) as [->|].
      + same_res. destruct (Hx Hex) as (found & Hf & Hr). exists found. split; [done|].
        rewrite Ho1 by lia. done.
      + destruct (Hin He0 i fd) as (found & Hf & Hr); [lia| |done|].
        * unfold function_at in *. by destruct Hs as (_ & _ & _ & _ & ->).
        * exists found. split; [done|]. rewrite Ho in Hr by lia. done. }
  destruct (FUNCTION_IS_EXTERNAL fd0) eqn:Hex; [|by apply (Hrest md H)].
  inv_res. destruct a as [[k l]|]; inv_res.
  - apply deref_Val in E1. apply (Hrest _ H); [done| |].
    + intros i Hne Hi. unfold reloc_at. cbn. rewrite E1. cbn.
      rewrite (arr_get_set _ _ _ _ _ E2) by done. by rewrite decide_False by done.
    + intros _. exists (Some (k, l)). split; [done|]. unfold reloc_at. cbn.
      rewrite (arr_get_set _ _ _ _ _ E2) by done. by rewrite decide_True.
  - destruct fatal; inv_res.
    + split; [done|]. split; [by right|]. by split.
    + apply (Hrest _ H); [done|done|]. intros _. by exists None.
Qed.
