(* ===== verification/MonitorLoad.v ===== *)
(** * The loader of the monitor (monitor/src/monitor_load.c)

    The modules, the initialisation runs and the release of the data; the
    sections are read in [LoadSections], the calls resolved in [Relocate]. *)

From S2P Require Import Prelude CSem Wire CStack BlockStack CallStack MonitorData.
From S2P Require Import MonitorRun LoadSections Relocate Dot.
From Stdlib Require Import Strings.Byte.

(** ** monitor_load_module *)

Definition new_module : module_data := ModuleData 0 0 0 Null Null Null.

(** Case [CFI_LOADING_MODULE_BEGIN]: one more module, initialised, and its
    identifier sent back.  [realloc] keeps the modules it copies. *)
Definition module_begin (mon : monitor_data) (err : Z) : C (Z * monitor_data) :=
  ok ← alloc_ok;
  let nb := if decide (nb_modules mon ≠ 0) then u32 (nb_modules mon + 1) else 1 in
  let old := if decide (nb_modules mon ≠ 0) then modules mon else Live [] in
  if negb ok then mret (10, MonitorData nb Null)
  else
    ms ← lift (deref old);
    let mon := MonitorData nb (Live (ms ++ [new_module])) in
    err ← WRITE_MONITOR_TO_LOADING_PACKET (u16 (nb - 1)) err;
    mret (err, mon).

(** The graphs are printed when the module is complete. *)
Fixpoint dump_functions (n : nat) (i : Z) (modata : module_data) : C unit :=
  match n with
  | O => mret ()
  | S n =>
      fd ← lift (function_at modata i);
      _ ← monitor_control_flow_graph fd;
      dump_functions n (i + 1) modata
  end.

Definition dump_module (opts : options) (modata : module_data) : C unit :=
  if OPTION_sm_dump opts then
    _ ← monitor_call_graph modata;
    dump_functions (Z.to_nat (nb_functions modata)) 0 modata
  else mret ().

(** [switch(pkt.event)] of the loop. *)
Definition load_section (opts : options) (event : Z) (value : cptr (list byte))
    (modata : module_data) : C (Z * module_data) :=
  match loading_event_case event with
  | Some CFI_LOADING_SECTION_FUNCTION_ID => load_section_function_id value modata
  | Some CFI_LOADING_SECTION_FUNCTION_TRANSITION => load_section_function_transition value modata
  | Some CFI_LOADING_SECTION_BLOCK_TRANSITION => load_section_block_transition value modata
  | Some CFI_LOADING_SECTION_BLOCK_IPD => load_section_block_ipd value modata
  | Some CFI_LOADING_MODULE_END => _ ← dump_module opts modata; mret (0, modata)
  | _ => mret (5, modata)
  end.

Definition pkt_event_of (pkt : loading_packet) : res Z := obj_field (pkt_event pkt) 0 4.

(** The packet before the first read. *)
Definition fresh_packet : loading_packet := LoadingPacket (uninit 4) 0 Null.

(** The [while]: [modata] is the last module of [mon]. *)
Fixpoint sections_loop (fuel : nat) (opts : options) (pkt : loading_packet) (modata : module_data) :
    C (Z * loading_packet * module_data) :=
  match fuel with
  | O => λ _, NoFuel
  | S fuel =>
      event ← lift (pkt_event_of pkt);
      if decide (event = loading_event_code CFI_LOADING_MODULE_END) then mret (0, pkt, modata)
      else
        pkt ← lift (FREE_LOADING_PACKET pkt);
        '(pkt, err) ← READ_LOADING_PACKET pkt 0;
        if decide (err ≠ 0) then mret (4, pkt, modata)
        else
          event ← lift (pkt_event_of pkt);
          '(err, modata) ← load_section opts event (pkt_value pkt) modata;
          if decide (err ≠ 0) then mret (err, pkt, modata)
          else sections_loop fuel opts pkt modata
  end.

(** Each iteration takes a read of the loading pipe. *)
Definition load_fuel (w : world) : nat := S (S (length (w_load w))).

Definition monitor_load_module (opts : options) (mon : monitor_data) : C (Z * monitor_data) :=
  '(pkt, err) ← READ_LOADING_PACKET fresh_packet 0;
  if decide (err ≠ 0) then
    _ ← lift (FREE_LOADING_PACKET pkt);
    mret (-1, mon)
  else
    event ← lift (pkt_event_of pkt);
    match loading_event_case event with
    | Some CFI_LOADING_MODULE_BEGIN =>
        '(err, mon) ← module_begin mon 0;
        if decide (err ≠ 0) then
          _ ← lift (FREE_LOADING_PACKET pkt);
          mret (-1, mon)
        else
          modata ← lift (module_at mon (nb_modules mon - 1));
          '(err, pkt, modata) ← (λ w, sections_loop (load_fuel w) opts pkt modata w);
          mon ← lift (put_module mon (nb_modules mon - 1) modata);
          _ ← lift (FREE_LOADING_PACKET pkt);
          mret (if decide (err ≠ 0) then -1 else 0, mon)
    | Some CFI_LOADING_TERMINATED =>
        _ ← lift (FREE_LOADING_PACKET pkt);
        mret (1, mon)
    | _ =>
        _ ← lift (FREE_LOADING_PACKET pkt);
        mret (-1, mon)
    end.

(** ** monitor_load *)

(** The runs of the initialisation functions, [n] iterations left; the same
    loop runs the termination functions in main.c. *)
Fixpoint run_times (n : nat) (opts : options) (data : monitor_data) : C Z :=
  match n with
  | O => mret 0
  | S n =>
      err ← monitor_run opts data;
      if decide (err ≠ 0) then mret err else run_times n opts data
  end.

(** A module just loaded: its relocations, then its initialisation. *)
Definition start_module (opts : options) (data : monitor_data) : C (Z * monitor_data) :=
  '(err, data) ← lift (compute_relocations_of_module data (nb_modules data - 1) false);
  if decide (err ≠ 0) then mret (err, data)
  else
    md ← lift (module_at data (nb_modules data - 1));
    err ← run_times (Z.to_nat (nb_entrypoint_inits md)) opts data;
    mret (err, data).

(** The [do ... while(!terminated && !err)]. *)
Fixpoint modules_loop (fuel : nat) (opts : options) (data : monitor_data) : C (Z * monitor_data) :=
  match fuel with
  | O => λ _, NoFuel
  | S fuel =>
      '(err, data) ← monitor_load_module opts data;
      if decide (0 < err) then mret (0, data)
      else if decide (err ≠ 0) then mret (err, data)
      else
        '(err, data) ← start_module opts data;
        if decide (err ≠ 0) then mret (err, data) else modules_loop fuel opts data
  end.

(** The last relocations, now required: [n] iterations left, from [i]. *)
Fixpoint relocate_all (n : nat) (i : Z) (data : monitor_data) : res (Z * monitor_data) :=
  match n with
  | O => Val (0, data)
  | S n =>
      '(err, data) ← compute_relocations_of_module data i true;
      if decide (err ≠ 0) then Val (err, data) else relocate_all n (i + 1) data
  end.

Definition monitor_load (opts : options) : C (Z * monitor_data) :=
  '(err, data) ← (λ w, modules_loop (load_fuel w) opts (MonitorData 0 Null) w);
  if decide (err ≠ 0) then mret (err, data)
  else lift (relocate_all (Z.to_nat (nb_modules data)) 0 data).

(** ** monitor_data_free *)

(** The allocations of the data, by where the data hold them: a function owns
    its name, its graph and the rows of it by block, its post-dominators; a
    module the rows of the call graph by function and its three arrays. *)
Inductive function_block := BRow (k : Z) | BName | BGraph | BIpd.
Inductive module_block :=
| BCallRow (j : Z)
| BInFunction (j : Z) (b : function_block)
| BFunctions
| BCallGraph
| BRelocations.
Inductive data_block := BInModule (i : Z) (b : module_block) | BModules.

(** A computation that gives allocations back to the allocator, in order. *)
Definition W (B A : Type) : Type := res (A * list B).

#[export] Instance W_ret B : MRet (W B) := λ A a, Val (a, []).
#[export] Instance W_bind B : MBind (W B) := λ A A' f m,
  match m with
  | Val (a, l) => match f a with Val (a', l') => Val (a', l ++ l') | Undef u => Undef u | NoFuel => NoFuel end
  | Undef u => Undef u
  | NoFuel => NoFuel
  end.

(** A computation that gives nothing back. *)
Definition kept {B A} (r : res A) : W B A :=
  match r with Val a => Val (a, []) | Undef u => Undef u | NoFuel => NoFuel end.

(** The allocations of a part. *)
Definition within {B B' A} (f : B → B') (m : W B A) : W B' A :=
  match m with Val (a, l) => Val (a, f <$> l) | Undef u => Undef u | NoFuel => NoFuel end.

(** The allocation [b], if the pointer [p] to it is live. *)
Definition owned_ptr {B A} (b : B) (p : cptr A) : list B := match p with Live _ => [b] | _ => [] end.

(** [free(p)], where [p] points to [b]. *)
Definition free_block {B A} (b : B) (p : cptr A) : W B () :=
  match free p with Val _ => Val ((), owned_ptr b p) | Undef u => Undef u | NoFuel => NoFuel end.

(** [if(graph[i]) { free(graph[i]); graph[i] = NULL; }] *)
Definition free_row {B} (b : Z → B) (g : cptr (list (cptr (list Z)))) (i : Z) : W B (cptr (list (cptr (list Z)))) :=
  row ← kept (graph_row g i);
  if non_null row then
    _ ← free_block (b i) row;
    kept (graph_set_row g i Null)
  else mret g.

Fixpoint free_rows {B} (b : Z → B) (n : nat) (k : Z) (g : cptr (list (cptr (list Z)))) :
    W B (cptr (list (cptr (list Z)))) :=
  match n with
  | O => mret g
  | S n => g ← free_row b g k; free_rows b n (k + 1) g
  end.

(** The rows of the control-flow graph, then what the function owns. *)
Definition free_function (fdata : function_data) : W function_block function_data :=
  g ← free_rows BRow (Z.to_nat (nb_blocks fdata)) 0 (control_flow_graph fdata);
  _ ← free_block BName (name fdata);
  _ ← free_block BGraph g;
  _ ← free_block BIpd (immediate_post_dominator fdata);
  mret (FunctionData Null (flags fdata) 0 Null Null).

Fixpoint free_functions (n : nat) (j : Z) (mdata : module_data) : W module_block module_data :=
  match n with
  | O => mret mdata
  | S n =>
      g ← free_row BCallRow (call_graph mdata) j;
      let mdata := set_call_graph g mdata in
      fdata ← kept (function_at mdata j);
      fdata ← within (BInFunction j) (free_function fdata);
      mdata ← kept (put_function mdata j fdata);
      free_functions n (j + 1) mdata
  end.

Definition free_module (mdata : module_data) : W module_block module_data :=
  mdata ← free_functions (Z.to_nat (nb_functions mdata)) 0 mdata;
  if decide (nb_functions mdata ≠ 0) then
    _ ← free_block BFunctions (functions mdata);
    _ ← free_block BCallGraph (call_graph mdata);
    _ ← free_block BRelocations (relocations mdata);
    mret (ModuleData 0 (nb_entrypoint_inits mdata) (nb_entrypoint_finis mdata) Null Null Null)
  else mret mdata.

Fixpoint free_modules (n : nat) (i : Z) (data : monitor_data) : W data_block monitor_data :=
  match n with
  | O => mret data
  | S n =>
      mdata ← kept (module_at data i);
      mdata ← within (BInModule i) (free_module mdata);
      data ← kept (put_module data i mdata);
      free_modules n (i + 1) data
  end.

(** The data at the end, and the allocations that were freed. *)
Definition monitor_data_free (data : monitor_data) : W data_block monitor_data :=
  data ← free_modules (Z.to_nat (nb_modules data)) 0 data;
  if decide (nb_modules data ≠ 0) then
    _ ← free_block BModules (modules data);
    mret (MonitorData 0 Null)
  else mret data.
