(* ===== verification/LoadWf.v ===== *)
(** * The loader keeps the data well-formed

    Every section that is read without error, and every relocation, leaves
    the data of the modules well-formed; what the loader returns is fit for
    the run-time checks. *)

From S2P Require Import Prelude CSem Wire CStack BlockStack CallStack MonitorData.
From S2P Require Import MonitorRun LoadSections Relocate Dot MonitorLoad RunRefine.
From Stdlib Require Import Strings.Byte.

(** A module every array of which is allocated at its size. *)
Definition filled (md : module_data) : Prop :=
  in_u 32 (nb_functions md) ∧ wf_graph (nb_functions md) (call_graph md) ∧
  wf_array (nb_functions md) (relocations md) ∧
  ∃ fs, functions md = Live fs ∧ Z.of_nat (length fs) = nb_functions md ∧ Forall wf_function fs.

(** A function whose block arrays are allocated at their size. *)
Definition filled_function (fd : function_data) : Prop :=
  name fd ≠ Dangling ∧ in_u 32 (nb_blocks fd) ∧ nb_blocks fd ≠ 0 ∧
  wf_graph (nb_blocks fd) (control_flow_graph fd) ∧
  wf_array (nb_blocks fd) (immediate_post_dominator fd).

(** ** Basic facts *)

Lemma field_in_u bs off len z : field bs off len = Val z → in_u (8 * Z.of_nat len) z.
Proof.
  unfold field. case_decide as Hlen; [|done]. intros [= <-].
  unfold in_u. rewrite Z.pow_mul_r by lia. change (2 ^ 8) with 256.
  pose proof (le_value_range (take len (drop off bs))) as H. by rewrite Hlen in H.
Qed.

Lemma calloc_inv {A} n (x : A) w p w' :
  calloc n x w = Val (p, w') → p = Null ∨ p = Live (zeroed n x).
Proof.
  unfold calloc, alloc_ok. intros H. inv_C. case_bool_decide; auto.
Qed.

Lemma calloc_non_null {A} n (x : A) w p w' :
  calloc n x w = Val (p, w') → negb (non_null p) = false → p = Live (zeroed n x).
Proof. by intros [-> | ->]%calloc_inv. Qed.

Lemma nil_live {A} (l : list A) : Z.of_nat (length l) = 0 → nil_array (Live l).
Proof. destruct l; [by right|done]. Qed.

Lemma filled_wf md : filled md → wf_module md.
Proof.
  intros (Hn & (rows & Hg & Hlen & Hrows) & (rs & Hr & Hrl) & fs & Hf & Hfl & Hwf).
  split; [done|]. case_decide as Hz.
  - rewrite Hg, Hr, Hf. split; [|split]; apply nil_live; lia.
  - split; [by exists rows|]. split; [by exists rs|]. by exists fs.
Qed.

Lemma wf_filled md : wf_module md → 0 < nb_functions md → filled md.
Proof.
  unfold wf_module, filled. intros [? H] ?. split; [done|]. rewrite decide_False in H by lia. done.
Qed.

Lemma filled_function_wf fd : filled_function fd → wf_function fd.
Proof. intros (? & ? & ? & ? & ?). do 2 (split; [done|]). by rewrite decide_False. Qed.

Lemma wf_function_filled fd : wf_function fd → nb_blocks fd ≠ 0 → filled_function fd.
Proof. intros (? & ? & H) ?. rewrite decide_False in H by done. by destruct H. Qed.

Lemma zero_function_wf nm fl : nm ≠ Dangling → wf_function (FunctionData nm fl 0 Null Null).
Proof. intros. do 2 (split; [done|]). by rewrite decide_True. Qed.

Lemma wf_graph_zeroed n : 0 <= n → wf_graph n (Live (zeroed n Null)).
Proof.
  intros. exists (zeroed n Null). split; [done|]. split; [by apply zeroed_length|].
  apply Forall_replicate. by left.
Qed.

Lemma wf_array_zeroed {A} n (x : A) : 0 <= n → wf_array n (Live (zeroed n x)).
Proof. intros. exists (zeroed n x). split; [done|]. by apply zeroed_length. Qed.

(** ** Assignments *)

Lemma graph_set_row_wf n g i row g' :
  wf_graph n g → (row = Null ∨ ∃ r, row = Live r ∧ Z.of_nat (length r) = n) →
  graph_set_row g i row = Val g' → wf_graph n g'.
Proof.
  intros (rows & -> & Hlen & Hrows) Hrow H. unfold graph_set_row in H. cbn in H. inv_res.
  exists a. split; [done|]. split; [by erewrite arr_set_length|].
  apply arr_set_Val in E as [_ ->]. by apply Forall_insert.
Qed.

Lemma graph_row_wf n g i row :
  wf_graph n g → graph_row g i = Val row → row = Null ∨ ∃ r, row = Live r ∧ Z.of_nat (length r) = n.
Proof.
  intros (rows & -> & Hlen & Hrows). unfold graph_row. cbn. intros [_ H]%arr_get_Val.
  by eapply Forall_lookup_1 in Hrows.
Qed.

Lemma graph_set_wf n g i j x g' : wf_graph n g → graph_set g i j x = Val g' → wf_graph n g'.
Proof.
  intros Hg H. unfold graph_set in H. inv_res.
  destruct (graph_row_wf _ _ _ _ Hg E) as [-> |(r & -> & Hr)]; [done|]. cbn in E0. inv_res.
  eapply graph_set_row_wf; [done| |done]. right. eexists. split; [done|].
  by erewrite arr_set_length.
Qed.

Lemma put_function_inv data f fd data' :
  put_function data f fd = Val data' →
  ∃ fs, functions data = Live fs ∧ 0 <= f < Z.of_nat (length fs) ∧
    data' = set_functions (Live (<[Z.to_nat f := fd]> fs)) data.
Proof.
  unfold put_function. intros H. inv_res. apply deref_Val in E. apply arr_set_Val in E0 as [? ->].
  by eexists.
Qed.

Lemma put_function_filled data f fd data' :
  filled data → wf_function fd → put_function data f fd = Val data' → filled data'.
Proof.
  intros (Hn & Hg & Hr & fs & Hf & Hl & Hwf) Hfd (fs' & Hf' & _ & ->)%put_function_inv.
  rewrite Hf in Hf'. injection Hf' as <-. do 3 (split; [done|]).
  eexists. split; [done|]. cbn. rewrite length_insert. split; [done|]. by apply Forall_insert.
Qed.

Lemma filled_set_call_graph data g :
  filled data → wf_graph (nb_functions data) g → filled (set_call_graph g data).
Proof. intros (Hn & Hg & Hr & Hf) Hg'. by split. Qed.

Lemma filled_count fd data : filled data → filled (count_entrypoints fd data).
Proof. done. Qed.

Lemma function_at_filled data f fd : filled data → function_at data f = Val fd → wf_function fd.
Proof.
  intros (_ & _ & _ & fs & Hf & _ & Hwf). unfold function_at. rewrite Hf. cbn.
  intros [_ H]%arr_get_Val. by eapply Forall_lookup_1 in Hwf.
Qed.

(** ** The sections *)

Lemma strdup_inv p w q w' : strdup p w = Val (q, w') → q ≠ Dangling.
Proof. unfold strdup. intros H. inv_C. destruct a. inv_C. by destruct a. Qed.

Lemma function_id_loop_filled n : ∀ ptr data w err data' w',
  function_id_loop n ptr data w = Val ((err, data'), w') → filled data → filled data'.
Proof.
  induction n as [|n IH]; intros ptr data w err data' w' H Hf; cbn [function_id_loop] in H; inv_C;
    [done|].
  case_decide; inv_C; [done|]. eapply IH; [exact H|]. apply filled_count.
  eapply put_function_filled; [exact Hf| |eassumption].
  apply zero_function_wf. by eapply strdup_inv.
Qed.

Lemma load_section_function_id_wf fct data w err data' w' :
  load_section_function_id fct data w = Val ((err, data'), w') →
  wf_module data → err ≠ 2 → wf_module data'.
Proof.
  unfold load_section_function_id. intros H Hwf Herr. case_decide; inv_C; [done|].
  assert (Hn : in_u 32 a0) by (by eapply (field_in_u _ _ 4)).
  repeat (match type of H with
          | (if negb (non_null ?p) then _ else _) _ = _ =>
              destruct (negb (non_null p)) eqn:?; inv_C; [done|]
          end).
  apply filled_wf. eapply function_id_loop_filled; [exact H|].
  repeat match goal with
  | E : calloc _ _ _ = Val (?p, _), N : negb (non_null ?p) = false |- _ =>
      apply (calloc_non_null _ _ _ _ _ E) in N; subst p
  end.
  unfold in_u in Hn. split; [done|]. split; [apply wf_graph_zeroed; cbn; lia|].
  split; [apply wf_array_zeroed; cbn; lia|]. eexists. split; [done|].
  split; [apply zeroed_length; cbn; lia|]. by apply Forall_replicate, zero_function_wf.
Qed.

Lemma calls_loop_filled n : ∀ ptr f data err data',
  calls_loop n ptr f data = Val (err, data') → filled data → filled data'.
Proof.
  induction n as [|n IH]; intros ptr f data err data' H Hf; cbn [calls_loop] in H; inv_res; [done|].
  case_decide; inv_res; [done|].
  eapply IH; [exact H|]. apply filled_set_call_graph; [done|].
  eapply graph_set_wf; [apply Hf|eassumption].
Qed.

Lemma function_transition_loop_filled n : ∀ ptr data w err data' w',
  function_transition_loop n ptr data w = Val ((err, data'), w') → filled data → filled data'.
Proof.
  induction n as [|n IH]; intros ptr data w err data' w' H Hf;
    cbn [function_transition_loop] in H; inv_C; [done|].
  case_decide; inv_C; [done|]. destruct (non_null a0); inv_C; [done|].
  assert (Hg : filled (set_call_graph a2 data)).
  { apply filled_set_call_graph; [done|]. eapply graph_set_row_wf; [apply Hf| |eassumption].
    match goal with E : calloc _ _ _ = _ |- _ => apply calloc_inv in E as [-> | ->] end; [by left|].
    right. eexists. split; [done|]. apply zeroed_length. apply Hf. }
  destruct (negb (non_null a1)); inv_C; [done|]. destruct a4 as [e data1]. inv_C.
  match goal with E : calls_loop _ _ _ _ = _ |- _ => apply calls_loop_filled in E; [|done] end.
  case_decide; inv_C; [done|]. by eapply IH.
Qed.

Lemma load_section_function_transition_wf trans data w err data' w' :
  load_section_function_transition trans data w = Val ((err, data'), w') →
  wf_module data → wf_module data'.
Proof.
  unfold load_section_function_transition. intros H Hwf.
  destruct (negb _); inv_C; [done|]. case_decide; inv_C; [done|].
  eapply filled_wf, function_transition_loop_filled; [done|]. apply wf_filled; [done|lia].
Qed.

Lemma succ_loop_filled n : ∀ ptr b fd err fd',
  succ_loop n ptr b fd = Val (err, fd') → filled_function fd → filled_function fd'.
Proof.
  induction n as [|n IH]; intros ptr b fd err fd' H Hf; cbn [succ_loop] in H; inv_res;
    [done|].
  case_decide; inv_res; [done|].
  eapply IH; [exact H|]. destruct Hf as (Hnm & Hn & Hz & Hg & Hi). do 3 (split; [done|]).
  split; [|done]. by eapply graph_set_wf.
Qed.

Lemma ensure_row_filled b fd w ok fd' w' :
  ensure_row b fd w = Val ((ok, fd'), w') → filled_function fd → filled_function fd'.
Proof.
  unfold ensure_row. intros H Hf. inv_C. destruct (non_null a); inv_C; [done|].
  destruct Hf as (Hnm & Hn & Hz & Hg & Hi). do 3 (split; [done|]). split; [|done].
  eapply graph_set_row_wf; [exact Hg| |eassumption].
  match goal with E : calloc _ _ _ = _ |- _ => apply calloc_inv in E as [-> | ->] end; [by left|].
  right. eexists. split; [done|]. apply zeroed_length. apply Hn.
Qed.

Lemma block_transition_loop_filled n : ∀ ptr fd w err fd' w',
  block_transition_loop n ptr fd w = Val ((err, fd'), w') → filled_function fd → filled_function fd'.
Proof.
  induction n as [|n IH]; intros ptr fd w err fd' w' H Hf; cbn [block_transition_loop] in H; inv_C;
    [done|].
  case_decide; inv_C; [done|]. destruct a0 as [ok fd1].
  match goal with E : ensure_row _ _ _ = _ |- _ => apply ensure_row_filled in E; [|done] end.
  destruct (negb ok); inv_C; [done|]. destruct a1 as [e fd2]. inv_C.
  match goal with E : succ_loop _ _ _ _ = _ |- _ => apply succ_loop_filled in E; [|done] end.
  case_decide; inv_C; [done|]. by eapply IH.
Qed.

Lemma fill_blocks_wf num p fd w err fd' w' :
  fill_blocks num p fd w = Val ((err, fd'), w') → name fd ≠ Dangling → in_u 32 num → num ≠ 0 →
  err ≠ 6 → wf_function fd'.
Proof.
  unfold fill_blocks. intros H Hnm Hn Hz Herr. inv_C.
  repeat (match type of H with
          | (if negb (non_null ?p) then _ else _) _ = _ =>
              destruct (negb (non_null p)) eqn:?; inv_C; [done|]
          end).
  apply filled_function_wf. eapply block_transition_loop_filled; [exact H|].
  repeat match goal with
  | E : calloc _ _ _ = Val (?p, _), N : negb (non_null ?p) = false |- _ =>
      apply (calloc_non_null _ _ _ _ _ E) in N; subst p
  end.
  do 3 (split; [done|]). unfold in_u in Hn.
  split; [apply wf_graph_zeroed|apply wf_array_zeroed]; cbn; lia.
Qed.

Lemma load_section_block_transition_wf trans data w err data' w' :
  load_section_block_transition trans data w = Val ((err, data'), w') →
  wf_module data → err ≠ 6 → wf_module data'.
Proof.
  unfold load_section_block_transition. intros H Hwf Herr.
  destruct (negb _); inv_C; [done|]. case_decide; inv_C; [done|].
  case_decide; inv_C; [done|]. case_decide; inv_C; [done|]. case_decide; inv_C; [done|].
  destruct a3 as [e fd]. inv_C.
  match goal with E : fill_blocks _ _ _ _ = _ |- _ => apply fill_blocks_wf in E;
    [|by eapply function_at_filled; [apply wf_filled; [done|lia]|]|by eapply (field_in_u _ _ 4)|lia|done] end.
  eapply filled_wf, put_function_filled; [|done|done]. apply wf_filled; [done|lia].
Qed.

Lemma block_ipd_loop_filled n : ∀ ptr data err data',
  block_ipd_loop n ptr data = Val (err, data') → wf_module data → wf_module data'.
Proof.
  induction n as [|n IH]; intros ptr data err data' H Hf; cbn [block_ipd_loop] in H; inv_res;
    [done|].
  case_decide; inv_res; [done|].
  assert (Hfill : filled data).
  { apply wf_filled; [done|]. match goal with E : msg_block_ipd_f_id _ = _ |- _ =>
      apply (field_in_u _ _ 4) in E; unfold in_u in E end. lia. }
  destruct (negb _); inv_res; [done|].
  case_decide; inv_res; [done|].
  eapply IH; [exact H|]. eapply filled_wf, put_function_filled; [done| |eassumption].
  assert (Hfd : wf_function a0) by (by eapply function_at_filled).
  destruct (decide (nb_blocks a0 = 0)) as [Hz|Hz].
  - destruct Hfd as (_ & _ & Hfd). rewrite decide_True in Hfd by done. destruct Hfd as [_ Hn].
    by rewrite Hn in *.
  - apply (wf_function_filled _ Hfd) in Hz as (Hnm & Hn & Hz & Hg & l & Hl & Hll).
    rewrite Hl in *. cbn in *. inv_res. apply filled_function_wf. do 4 (split; [done|]).
    eexists. split; [done|]. by erewrite arr_set_length.
Qed.

(** ** Relocations *)

Lemma put_module_inv data m md data' :
  put_module data m md = Val data' →
  ∃ ms, modules data = Live ms ∧ 0 <= m < Z.of_nat (length ms) ∧
    data' = MonitorData (nb_modules data) (Live (<[Z.to_nat m := md]> ms)).
Proof.
  unfold put_module. intros H. inv_res. apply deref_Val in E. apply arr_set_Val in E0 as [? ->].
  by eexists.
Qed.

Lemma module_at_put data m md data' k :
  put_module data m md = Val data' →
  module_at data' k = if decide (k = m) then Val md else module_at data k.
Proof.
  intros (ms & Hms & Hm & ->)%put_module_inv. unfold module_at. cbn. rewrite Hms. cbn.
  unfold arr_get. case_decide; case_decide; subst; try done; try lia.
  - rewrite list_lookup_insert_eq by lia. done.
  - rewrite list_lookup_insert_ne by lia. done.
Qed.

Lemma put_module_wf data m md data' :
  wf_data data → wf_module md → put_module data m md = Val data' →
  wf_data data' ∧ nb_modules data' = nb_modules data.
Proof.
  intros Hwf Hmd (ms & Hms & Hm & ->)%put_module_inv. split; [|done]. right.
  destruct Hwf as [[_ Hn]|(ms' & Hms' & Hlen & Hall)]; [congruence|].
  assert (ms' = ms) as -> by congruence. eexists. split; [done|]. cbn. rewrite length_insert.
  split; [done|]. by apply Forall_insert.
Qed.

Lemma relocation_loop_relocs n : ∀ j mid fatal data md err md' k,
  relocation_loop n j mid fatal data md = Val (err, md') →
  wf_array k (relocations md) → wf_array k (relocations md').
Proof.
  induction n as [|n IH]; intros j mid fatal data md err md' k H Hk; cbn [relocation_loop] in H;
    inv_res; [done|].
  destruct (FUNCTION_IS_EXTERNAL a); inv_res; [|by eapply IH].
  destruct a0 as [[k0 l]|]; inv_res.
  - eapply IH; [done|]. destruct Hk as (rs & Hrs & Hlen). rewrite Hrs in E1.
    cbn [deref] in E1. inv_res. eexists. split; [done|]. by erewrite arr_set_length.
  - destruct fatal; inv_res; [done|]. by eapply IH.
Qed.

Lemma relocation_loop_wf n j mid fatal data md err md' :
  relocation_loop n j mid fatal data md = Val (err, md') → 0 <= j → wf_module md →
  0 < nb_functions md → wf_module md'.
Proof.
  intros H Hj Hwf Hpos. pose proof (wf_filled _ Hwf Hpos) as (Hn & Hg & Hr & Hf).
  pose proof (relocation_loop_relocs _ _ _ _ _ _ _ _ _ H Hr) as Hr'.
  apply relocation_loop_spec in H as ((E1 & E2 & E3 & E4 & E5) & _); [|done].
  apply filled_wf. unfold filled. by rewrite E1, E4, E5.
Qed.

(** Two states of the loader whose modules differ at most by their relocations. *)
Definition data_same_code (data data' : monitor_data) : Prop :=
  nb_modules data' = nb_modules data ∧
  ∀ k, match module_at data k, module_at data' k with
       | Val md, Val md' => same_code md md'
       | Val _, _ | _, Val _ => False
       | _, _ => True
       end.

#[export] Instance data_same_code_refl : Reflexive data_same_code.
Proof. intros data. split; [done|]. intros k. by destruct (module_at data k). Qed.

Lemma data_same_code_at data data' k md :
  data_same_code data data' → module_at data k = Val md →
  ∃ md', module_at data' k = Val md' ∧ same_code md md'.
Proof.
  intros [_ H] Hk. specialize (H k). rewrite Hk in H. destruct (module_at data' k); naive_solver.
Qed.

#[export] Instance same_code_sym : Symmetric same_code.
Proof. intros x y (?&?&?&?&?). unfold same_code. split_and!; congruence. Qed.

#[export] Instance data_same_code_sym : Symmetric data_same_code.
Proof.
  intros x y [Hn H]. split; [done|]. intros k. specialize (H k).
  destruct (module_at x k), (module_at y k); try done; by symmetry.
Qed.

#[export] Instance data_same_code_trans : Transitive data_same_code.
Proof.
  intros x y z [Hn H] [Hn' H']. split; [congruence|]. intros k. specialize (H k). specialize (H' k).
  destruct (module_at x k), (module_at y k), (module_at z k); try done. by etrans.
Qed.

Lemma same_code_function_at md md' f : same_code md md' → function_at md' f = function_at md f.
Proof. intros (_ & _ & _ & _ & E). unfold function_at. by rewrite E. Qed.

Lemma data_same_code_definer data data' mid fd k l :
  data_same_code data data' → definer data mid fd k l → definer data' mid fd k l.
Proof.
  intros Hd (Hne & mk & g & s & Hk & Hl & Hg & Hx & Hs & Hs').
  destruct (data_same_code_at _ _ _ _ Hd Hk) as (mk' & Hk' & Hsc). split; [done|].
  exists mk', g, s. rewrite (same_code_function_at _ _ _ Hsc).
  destruct Hsc as (-> & _). done.
Qed.

Lemma data_same_code_best data data' mid fd n k l :
  data_same_code data data' → best_definer data mid fd n k l → best_definer data' mid fd n k l.
Proof.
  intros Hd (Hk & H1 & H2 & H3). split; [done|]. split; [by eapply data_same_code_definer|].
  assert (Hback : ∀ k l, definer data' mid fd k l → definer data mid fd k l).
  { intros ??. by apply data_same_code_definer. }
  split; [intros l' Hl' ?%Hback|intros k' l' Hk' ?%Hback]; naive_solver.
Qed.

Lemma data_same_code_has_function data data' m f :
  data_same_code data data' → has_function data m f → has_function data' m f.
Proof.
  intros Hd (md & Hm & Hf). destruct (data_same_code_at _ _ _ _ Hd Hm) as (md' & Hm' & Hsc).
  exists md'. split; [done|]. by destruct Hsc as (-> & _).
Qed.

(** One module is relocated. *)
Lemma compute_relocations_inv data mid fatal err data' :
  compute_relocations_of_module data mid fatal = Val (err, data') →
  wf_data data →
  wf_data data' ∧ data_same_code data data' ∧ (err = 0 ∨ err = 1) ∧
  (∀ k, k ≠ u16 mid → module_at data' k = module_at data k) ∧
  ∃ md md', module_at data (u16 mid) = Val md ∧ module_at data' (u16 mid) = Val md' ∧
    (err = 0 → ∀ i fd, 0 <= i < nb_functions md → function_at md i = Val fd →
       FUNCTION_IS_EXTERNAL fd = true → relocated fatal data (u16 mid) fd i md md').
Proof.
  unfold compute_relocations_of_module. intros H Hwf. inv_res. destruct a0 as [e md']. inv_res.
  rename a into md.
  pose proof (relocation_loop_spec _ _ _ _ _ _ _ _ E0 ltac:(lia)) as (Hsc & He & _ & Hrel).
  destruct (module_at_wf _ _ _ Hwf E) as [Hmd _].
  assert (Hmd' : wf_module md').
  { destruct (decide (nb_functions md = 0)) as [Hz|Hz].
    - rewrite Hz in E0. change (Z.to_nat 0) with 0%nat in E0. cbn [relocation_loop] in E0. by inv_res.
    - eapply relocation_loop_wf; [exact E0|lia|done|]. destruct Hmd as [[? _] _]. lia. }
  destruct (put_module_wf _ _ _ _ Hwf Hmd' E1) as [Hwf' Hnb].
  pose proof (λ k, module_at_put _ _ _ _ k E1) as Hat.
  split; [done|]. split.
  { split; [done|]. intros k. rewrite Hat. case_decide; subst; [by rewrite E|].
    by destruct (module_at data k). }
  split; [done|]. split; [intros k Hk; by rewrite Hat, decide_False|].
  exists md, md'. split; [done|]. split; [by rewrite Hat, decide_True|].
  intros He0 i fd Hi. apply Hrel; [done|lia].
Qed.

(** Every external function of module [m] is relocated to its best definer. *)
Definition linked (data : monitor_data) (m : Z) : Prop :=
  ∀ md i fd, module_at data m = Val md → 0 <= i < nb_functions md → function_at md i = Val fd →
    FUNCTION_IS_EXTERNAL fd = true →
    ∃ k l, best_definer data m fd (nb_modules data) k l ∧ reloc_at md i = Val (MODULE_FUNCTION k l).

(** Modules are numbered on 16 bits. *)
Definition few_modules (data : monitor_data) : Prop := 0 <= nb_modules data <= 2 ^ 16.

Lemma search_all data mid fd : few_modules data →
  search data mid fd = search_modules (Z.to_nat (nb_modules data)) mid fd data.
Proof.
  intros [? Hn]. unfold search. f_equal.
  destruct (decide (nb_modules data = 0)) as [->|]; [done|].
  change (2 ^ 16) with 65536 in Hn. unfold s32, u32.
  rewrite Z.mod_small by (change (2 ^ 32) with 4294967296; lia). rewrite decide_True; [lia|].
  change (2 ^ 31) with 2147483648. lia.
Qed.

Lemma compute_relocations_linked data mid data' :
  compute_relocations_of_module data mid true = Val (0, data') →
  wf_data data → few_modules data → 0 <= mid < 2 ^ 16 →
  linked data' mid ∧ ∀ m, m ≠ mid → linked data m → linked data' m.
Proof.
  intros H Hwf Hfew Hmid.
  apply compute_relocations_inv in H as (Hwf' & Hsc & _ & Hoth & md & md' & Hmd & Hmd' & Hrel); [|done].
  unfold u16 in *. rewrite Z.mod_small in * by done. specialize (Hrel eq_refl).
  destruct (data_same_code_at _ _ _ _ Hsc Hmd) as (md2 & Hmd2 & Hs).
  assert (md2 = md') as -> by congruence. split.
  - intros md0 i fd H0 Hi Hfd Hx. assert (md0 = md') as -> by congruence.
    rewrite (same_code_function_at _ _ _ Hs) in Hfd. destruct Hs as (Hn & _). rewrite Hn in Hi.
    destruct (Hrel i fd Hi Hfd Hx) as (found & Hf & Hr). rewrite search_all in Hf by done.
    destruct found as [[k l]|]; [|by destruct Hr]. exists k, l. split; [|done].
    apply search_modules_Some in Hf. destruct Hfew as [Hpos _]. rewrite Z2Nat.id in Hf by done.
    rewrite (proj1 Hsc). by eapply data_same_code_best.
  - intros m Hne Hl md0 i fd H0 Hi Hfd Hx. rewrite Hoth in H0 by done.
    destruct (Hl md0 i fd H0 Hi Hfd Hx) as (k & l & Hb & Hr). exists k, l. split; [|done].
    rewrite (proj1 Hsc). by eapply data_same_code_best.
Qed.

Lemma relocate_all_linked n : ∀ i data data',
  relocate_all n i data = Val (0, data') → wf_data data → few_modules data →
  0 <= i → i + Z.of_nat n = nb_modules data → (∀ m, 0 <= m < i → linked data m) →
  wf_data data' ∧ data_same_code data data' ∧ ∀ m, 0 <= m < nb_modules data → linked data' m.
Proof.
  induction n as [|n IH]; intros i data data' H Hwf Hfew Hi Hn Hdone; cbn [relocate_all] in H; inv_res.
  { split; [done|]. split; [reflexivity|]. intros m Hm. apply Hdone. lia. }
  destruct a as [e data1]. case_decide; inv_res; [done|]. assert (e = 0) as -> by lia.
  destruct (compute_relocations_linked _ _ _ E Hwf Hfew) as [Hl Ho]; [unfold few_modules in Hfew; lia|].
  apply compute_relocations_inv in E as (Hwf1 & Hsc & _); [|done].
  destruct (IH (i + 1) data1 data' H Hwf1) as (Hwf' & Hsc' & Hall); [|lia| | |].
  - unfold few_modules. by rewrite (proj1 Hsc).
  - rewrite (proj1 Hsc). lia.
  - intros m Hm. destruct (decide (m = i)) as [->|]; [done|]. apply Ho, Hdone; [done|lia].
  - split; [done|]. split; [by etrans|]. by rewrite (proj1 Hsc) in Hall.
Qed.

(** Linked data may be used by the run-time checks. *)
Lemma linked_ready data :
  wf_data data → few_modules data → (∀ m, 0 <= m < nb_modules data → linked data m) →
  run_ready data.
Proof.
  intros Hwf [_ Hfew] Hall. split; [done|]. intros m md f fd rs r Hm Hf Hx Hrs Hr.
  destruct (module_at_wf _ _ _ Hwf Hm) as [Hmd Hmr].
  assert (Hfr : 0 <= f < nb_functions md).
  { destruct Hmd as [Hn Hmd]. case_decide as Hz.
    - destruct Hmd as (_ & _ & [Hnil|Hnil]); unfold function_at in Hf; rewrite Hnil in Hf; [done|].
      cbn in Hf. by apply arr_get_lt in Hf; cbn in Hf; lia.
    - destruct Hmd as (_ & _ & fs & Hfs & Hlen & _). unfold function_at in Hf. rewrite Hfs in Hf.
      cbn in Hf. apply arr_get_lt in Hf. lia. }
  destruct (Hall m Hmr md f fd Hm Hfr Hf Hx) as (k & l & (Hk & (_ & Hd) & _) & Hrl).
  unfold reloc_at in Hrl. rewrite Hrs in Hrl. cbn in Hrl.
  assert (r = MODULE_FUNCTION k l) as -> by congruence.
  rewrite MODULE_FUNCTION_GET_MODULE_eq, MODULE_FUNCTION_GET_FUNCTION_eq.
  destruct Hd as (mk & g & s & Hmk & Hl & _).
  destruct (module_at_wf _ _ _ Hwf Hmk) as [[Hu _] _]. unfold in_u in Hu.
  unfold u16, u32. rewrite !Z.mod_small by lia. by exists mk.
Qed.

(** ** Modules *)

Lemma load_section_wf opts event value md w md' w' :
  load_section opts event value md w = Val ((0, md'), w') → wf_module md → wf_module md'.
Proof.
  unfold load_section. intros H Hwf.
  destruct (loading_event_case event) as [[]|]; inv_C; try done.
  - by eapply load_section_function_id_wf.
  - by eapply load_section_function_transition_wf.
  - by eapply load_section_block_transition_wf.
  - unfold load_section_block_ipd in H. destruct (negb _); inv_C; [done|]. by eapply block_ipd_loop_filled.
Qed.

Lemma sections_loop_wf opts fuel : ∀ pkt md w pkt' md' w',
  sections_loop fuel opts pkt md w = Val ((0, pkt', md'), w') → wf_module md → wf_module md'.
Proof.
  induction fuel as [|fuel IH]; intros pkt md w pkt' md' w' H Hwf; cbn [sections_loop] in H; [done|].
  inv_C. case_decide; inv_C; [done|]. destruct a1 as [pkt1 err1]. case_decide; inv_C; [done|].
  destruct a2 as [err2 md1]. case_decide; inv_C; [done|].
  assert (err2 = 0) as -> by lia. eapply IH; [done|]. by eapply load_section_wf.
Qed.

(** What the loader maintains. *)
Definition load_inv (data : monitor_data) : Prop := wf_data data ∧ in_u 32 (nb_modules data).

Lemma new_module_wf : wf_module new_module.
Proof. split; [done|]. rewrite decide_True by done. by repeat split; left. Qed.

Lemma module_begin_inv mon w mon' w' md :
  module_begin mon 0 w = Val ((0, mon'), w') → load_inv mon →
  module_at mon' (nb_modules mon' - 1) = Val md →
  load_inv mon' ∧ md = new_module ∧ nb_modules mon' = nb_modules mon + 1.
Proof.
  unfold module_begin. intros H [Hwf Hn] Hmd. inv_C. destruct (negb a); inv_C; [done|].
  apply deref_Val in E0. assert (Hlen : Z.of_nat (length a0) = nb_modules mon).
  { destruct Hwf as [[Hz _]|(ms & Hms & Hlen & _)].
    - rewrite decide_False in E0 by lia. injection E0 as <-. by rewrite Hz.
    - case_decide; [by assert (ms = a0) as -> by congruence|]. injection E0 as <-. cbn. lia. }
  set (nb := if decide (nb_modules mon ≠ 0) then u32 (nb_modules mon + 1) else 1) in *.
  assert (Hrange : 0 <= nb - 1 < Z.of_nat (length (a0 ++ [new_module]))).
  { unfold module_at in Hmd. cbn in Hmd. by apply arr_get_lt in Hmd. }
  assert (Hnb : nb = nb_modules mon + 1).
  { rewrite length_app in Hrange. cbn in Hrange. unfold nb, u32 in *. unfold in_u in Hn.
    case_decide; [|lia]. destruct (decide (nb_modules mon + 1 = 2 ^ 32)) as [Heq|].
    - rewrite Heq, Z.mod_same in Hrange by done. lia.
    - apply Z.mod_small. lia. }
  unfold in_u in Hn. split; [split|split].
  - right. eexists. split; [done|]. cbn. rewrite length_app. cbn. split; [lia|].
    apply Forall_app. split; [|apply Forall_singleton, new_module_wf].
    destruct Hwf as [[Hz _]|(ms & Hms & _ & Hall)].
    + rewrite decide_False in E0 by lia. by injection E0 as <-.
    + case_decide; [by assert (ms = a0) as -> by congruence|]. by injection E0 as <-.
  - cbn. unfold in_u. rewrite Hnb. assert (nb < 2 ^ 32); [|lia].
    unfold nb. case_decide; [|done]. apply Z.mod_pos_bound. done.
  - unfold module_at in Hmd. cbn in Hmd. apply arr_get_Val in Hmd as [_ Hmd].
    rewrite Hnb in Hmd. replace (Z.to_nat (nb_modules mon + 1 - 1)) with (length a0) in Hmd by lia.
    rewrite lookup_app_r, Nat.sub_diag in Hmd by lia. by injection Hmd.
  - done.
Qed.

Lemma monitor_load_module_inv opts mon w r mon' w' :
  monitor_load_module opts mon w = Val ((r, mon'), w') → load_inv mon → 0 <= r →
  load_inv mon' ∧ (r = 0 → nb_modules mon' = nb_modules mon + 1).
Proof.
  unfold monitor_load_module. intros H Hinv Hr. inv_C. destruct a as [pkt err].
  case_decide; inv_C; [lia|].
  destruct (loading_event_case a) as [[]|]; inv_C; try lia; [|by split].
  destruct a0 as [e mon1]. case_decide; inv_C; [lia|]. destruct a1 as [[e1 pkt1] md1]. inv_C.
  case_decide; [lia|].
  destruct (module_begin_inv _ _ _ _ _ E1 Hinv E2) as ([Hwf1 Hu] & -> & Hnb).
  assert (e1 = 0) as -> by lia. apply sections_loop_wf in E3; [|apply new_module_wf].
  destruct (put_module_wf _ _ _ _ Hwf1 E3 E4) as [Hwf' Hnb'].
  split; [|congruence]. split; [done|]. by rewrite Hnb'.
Qed.

Lemma modules_loop_inv opts fuel : ∀ data w data' w',
  modules_loop fuel opts data w = Val ((0, data'), w') → load_inv data → load_inv data'.
Proof.
  induction fuel as [|fuel IH]; intros data w data' w' H Hinv; cbn [modules_loop] in H; [done|].
  inv_C. destruct a as [r data1]. case_decide; inv_C.
  { by eapply monitor_load_module_inv in E as [? _]; [|done|lia]. }
  case_decide; inv_C; [done|]. destruct a as [e data2]. case_decide; inv_C; [done|].
  eapply monitor_load_module_inv in E as [[Hwf1 Hu1] Hnb]; [|done|lia].
  eapply IH; [done|]. unfold start_module in E0. inv_C. destruct a as [e1 data3].
  apply compute_relocations_inv in E as (Hwf2 & Hsc & _); [|done].
  case_decide; inv_C; split; try done; by rewrite (proj1 Hsc).
Qed.

Lemma relocate_all_nb n : ∀ i data err data',
  relocate_all n i data = Val (err, data') → wf_data data → nb_modules data' = nb_modules data.
Proof.
  induction n as [|n IH]; intros i data err data' H Hwf; cbn [relocate_all] in H; inv_res; [done|].
  destruct a as [e1 data2]. apply compute_relocations_inv in E as (Hwf2 & [Hsc _] & _); [|done].
  case_decide; inv_res; [done|]. by rewrite (IH _ _ _ _ H Hwf2).
Qed.

(** What a successful load leaves. *)
Lemma monitor_load_linked opts w data w' :
  monitor_load opts w = Val ((0, data), w') → few_modules data →
  wf_data data ∧ ∀ m, 0 <= m < nb_modules data → linked data m.
Proof.
  unfold monitor_load. intros H Hfew. inv_C. destruct a as [e data1]. case_decide; inv_C; [done|].
  apply modules_loop_inv in E as [Hwf Hu]; [|split; [by left|done]].
  pose proof (relocate_all_nb _ _ _ _ _ H Hwf) as Hnb.
  assert (Hfew1 : few_modules data1) by (unfold few_modules; by rewrite <- Hnb).
  destruct Hu as [Hu0 _].
  destruct (relocate_all_linked _ _ _ _ H Hwf Hfew1) as (Hwf' & Hsc & Hall); [done|lia|lia|].
  split; [done|]. by rewrite Hnb.
Qed.
