(* ===== verification/LoadTotal.v ===== *)
(** * The loader terminates

    Every iteration of the loops of [monitor_load_module] and [monitor_load]
    takes a read of the loading pipe or ends with an error. *)

From S2P Require Import Prelude CSem Wire CStack BlockStack CallStack MonitorData.
From S2P Require Import MonitorRun RunTotal LoadSections Relocate Dot MonitorLoad.
From Stdlib Require Import Strings.Byte.

(** The outcome is not an exhausted loop, and took nothing back to the pipe. *)
Definition shrinks {A} (w : world) (r : res (A * world)) : Prop :=
  match r with
  | Val (_, w') => (length (w_load w') <= length (w_load w))%nat
  | Undef _ => True
  | NoFuel => False
  end.

(** ** The functions that read no packet *)

Lemma ends_field bs off len : ends (field bs off len).
Proof. unfold field. solve_tame. Qed.
#[export] Hint Resolve ends_field : tame.

Lemma ends_c_string p : ends (c_string p).
Proof. induction p; cbn [c_string]; solve_tame. Qed.
#[export] Hint Resolve ends_c_string : tame.

Lemma tame_alloc_ok : tame alloc_ok.
Proof. unfold alloc_ok. solve_tame. Qed.
#[export] Hint Resolve tame_alloc_ok : tame.

Lemma tame_calloc {A} n (x : A) : tame (calloc n x).
Proof. unfold calloc. solve_tame. Qed.
#[export] Hint Resolve tame_calloc : tame.

Lemma tame_strdup p : tame (strdup p).
Proof. unfold strdup. solve_tame. Qed.
#[export] Hint Resolve tame_strdup : tame.

Lemma ends_graph_row g i : ends (graph_row g i).
Proof. unfold graph_row. solve_tame. Qed.
Lemma ends_graph_set_row g i row : ends (graph_set_row g i row).
Proof. unfold graph_set_row. solve_tame. Qed.
#[export] Hint Resolve ends_graph_row ends_graph_set_row : tame.
Lemma ends_graph_set g i j x : ends (graph_set g i j x).
Proof. unfold graph_set. solve_tame. Qed.
Lemma ends_put_function data f fd : ends (put_function data f fd).
Proof. unfold put_function. solve_tame. Qed.
Lemma ends_put_module data m md : ends (put_module data m md).
Proof. unfold put_module. solve_tame. Qed.
#[export] Hint Resolve ends_graph_set ends_put_function ends_put_module ends_module_at
  ends_function_at ends_graph_at : tame.

Lemma tame_function_id_loop n : ∀ ptr data, tame (function_id_loop n ptr data).
Proof.
  induction n as [|n IH]; intros ptr data; cbn [function_id_loop];
    unfold msg_fct_f_id, msg_fct_f_flags, after_string; solve_tame.
Qed.

Lemma ends_calls_loop n : ∀ ptr f data, ends (calls_loop n ptr f data).
Proof. induction n as [|n IH]; intros ptr f data; cbn [calls_loop]; solve_tame. Qed.

Lemma tame_function_transition_loop n : ∀ ptr data, tame (function_transition_loop n ptr data).
Proof.
  pose proof ends_calls_loop.
  induction n as [|n IH]; intros ptr data; cbn [function_transition_loop];
    unfold msg_trans_id, msg_trans_count; solve_tame.
Qed.

Lemma ends_succ_loop n : ∀ ptr b fd, ends (succ_loop n ptr b fd).
Proof. induction n as [|n IH]; intros ptr b fd; cbn [succ_loop]; solve_tame. Qed.

Lemma tame_block_transition_loop n : ∀ ptr fd, tame (block_transition_loop n ptr fd).
Proof.
  pose proof ends_succ_loop.
  induction n as [|n IH]; intros ptr fd; cbn [block_transition_loop];
    unfold msg_trans_id, msg_trans_count, ensure_row; solve_tame.
Qed.

Lemma ends_block_ipd_loop n : ∀ ptr data, ends (block_ipd_loop n ptr data).
Proof.
  induction n as [|n IH]; intros ptr data; cbn [block_ipd_loop];
    unfold msg_block_ipd_f_id, msg_block_ipd_b_id, msg_block_ipd_b_ipd_id; solve_tame.
Qed.
#[export] Hint Resolve tame_function_id_loop tame_function_transition_loop
  tame_block_transition_loop ends_block_ipd_loop : tame.

Lemma tame_dot_row n : ∀ g i j, tame (dot_row n g i j).
Proof.
  induction n as [|n IH]; intros g i j; cbn [dot_row]; unfold has_edge, printf; solve_tame.
Qed.
Lemma tame_dot_rows n : ∀ size g i, tame (dot_rows n size g i).
Proof. pose proof tame_dot_row. induction n as [|n IH]; intros size g i; cbn [dot_rows]; solve_tame. Qed.
#[export] Hint Resolve tame_dot_rows : tame.

Lemma tame_monitor_control_flow_graph fd : tame (monitor_control_flow_graph fd).
Proof. unfold monitor_control_flow_graph, printf. solve_tame. Qed.
#[export] Hint Resolve tame_monitor_control_flow_graph : tame.

Lemma tame_dump_functions n : ∀ i md, tame (dump_functions n i md).
Proof. induction n as [|n IH]; intros i md; cbn [dump_functions]; solve_tame. Qed.

Lemma tame_dump_module opts md : tame (dump_module opts md).
Proof.
  pose proof tame_dump_functions. unfold dump_module, monitor_call_graph, printf. solve_tame.
Qed.

Lemma tame_load_section opts event value md : tame (load_section opts event value md).
Proof.
  pose proof tame_dump_module.
  unfold load_section, load_section_function_id, load_section_function_transition,
    load_section_block_transition, fill_blocks, load_section_block_ipd, msg_num,
    msg_block_trans_f_id, msg_block_trans_num_block, msg_block_trans_num_block_trans.
  solve_tame.
Qed.

Lemma ends_free {A} (p : cptr A) : ends (free p).
Proof. by destruct p. Qed.
#[export] Hint Resolve ends_free : tame.

Lemma ends_FREE_LOADING_PACKET pkt : ends (FREE_LOADING_PACKET pkt).
Proof. unfold FREE_LOADING_PACKET. solve_tame. Qed.
#[export] Hint Resolve ends_FREE_LOADING_PACKET : tame.

Lemma tame_module_begin mon err : tame (module_begin mon err).
Proof. unfold module_begin, WRITE_MONITOR_TO_LOADING_PACKET. solve_tame. Qed.

Lemma ends_search_functions n : ∀ l fd mk, ends (search_functions n l fd mk).
Proof.
  induction n as [|n IH]; intros l fd mk; cbn [search_functions]; unfold defines, strcmp_eq, tst;
    solve_tame.
Qed.
Lemma ends_search_modules n : ∀ mid fd data, ends (search_modules n mid fd data).
Proof.
  pose proof ends_search_functions.
  induction n as [|n IH]; intros mid fd data; cbn [search_modules]; solve_tame.
Qed.
Lemma ends_relocation_loop n : ∀ j mid fatal data md, ends (relocation_loop n j mid fatal data md).
Proof.
  pose proof ends_search_modules.
  induction n as [|n IH]; intros j mid fatal data md; cbn [relocation_loop]; solve_tame.
Qed.
Lemma ends_compute_relocations data mid fatal : ends (compute_relocations_of_module data mid fatal).
Proof. pose proof ends_relocation_loop. unfold compute_relocations_of_module. solve_tame. Qed.

Lemma ends_relocate_all n : ∀ i data, ends (relocate_all n i data).
Proof.
  pose proof ends_compute_relocations. induction n as [|n IH]; intros i data; cbn [relocate_all];
    solve_tame.
Qed.

(** ** Packets *)

Lemma read_load_shrinks n w :
  ∃ bs w', read_load n w = Val (bs, w') ∧ (length (w_load w') <= length (w_load w))%nat ∧
    (bs = [] ∨ (length (w_load w') < length (w_load w))%nat).
Proof.
  unfold read_load. destruct (w_load w) as [|p ps] eqn:E.
  - eexists _, _. split; [done|]. cbn. rewrite E. split; [done|]. by left.
  - eexists _, _. split; [done|]. cbn. split; [lia|]. right. lia.
Qed.

Lemma calloc_total {A} n (x : A) w :
  ∃ p w', calloc n x w = Val (p, w') ∧ w_load w' = w_load w ∧ (p = Null ∨ p = Live (zeroed n x)).
Proof.
  unfold calloc, alloc_ok, next_alloc. rewrite !C_bind_eq.
  destruct (w_alloc w); rewrite !C_ret_eq; eexists _, _; (split; [done|]); (split; [done|]);
    case_bool_decide; auto.
Qed.

(** A packet read without error took a read at least. *)
Lemma read_packet_shrinks dst w :
  match READ_LOADING_PACKET dst 0 w with
  | Val ((_, err), w') =>
      (length (w_load w') <= length (w_load w))%nat ∧
      (err = 0 → (length (w_load w') < length (w_load w))%nat)
  | _ => False
  end.
Proof.
  unfold READ_LOADING_PACKET. rewrite C_bind_eq.
  destruct (read_load_shrinks 4 w) as (ebs & w1 & -> & Hle1 & Hlt1). case_decide as H1; [by split|].
  destruct Hlt1 as [->|Hlt1]; [done|]. rewrite C_bind_eq.
  destruct (read_load_shrinks 4 w1) as (sbs & w2 & -> & Hle2 & _).
  case_decide; [split; [lia|done]|]. case_decide; [split; lia|].
  rewrite C_bind_eq. set (size := le_value _).
  destruct (calloc_total size x00 w2) as (buf & w3 & -> & Hl3 & [->| ->]); [split; [rewrite Hl3; lia|done]|].
  rewrite C_bind_eq.
  destruct (read_load_shrinks (Z.to_nat size) w3) as (vbs & w4 & -> & Hle4 & _).
  rewrite Hl3 in Hle4. case_decide; split; try done; lia.
Qed.

(** A computation that keeps the pipe before one that shrinks it. *)
Lemma shrinks_le {A} w w' (r : res (A * world)) :
  (length (w_load w') <= length (w_load w))%nat → shrinks w' r → shrinks w r.
Proof. unfold shrinks. destruct r as [[]| |]; [lia|done|done]. Qed.

Lemma tame_shrinks {A} (m : C A) w : tame m → shrinks w (m w).
Proof.
  intros Hm. specialize (Hm w). unfold shrinks. destruct (m w) as [[]| |]; [|done|done].
  by destruct Hm as (_ & -> & _).
Qed.

Lemma shrinks_bind {A B} (m : C A) (f : A → C B) w :
  tame m →
  (∀ a w', m w = Val (a, w') → w_load w' = w_load w → shrinks w (f a w')) → shrinks w ((m ≫= f) w).
Proof.
  intros Hm Hf. rewrite C_bind_eq. specialize (Hm w).
  destruct (m w) as [[a w']| |]; [|done|done]. apply Hf; [done|apply Hm].
Qed.

(** ** The loops *)

Lemma sections_loop_ends opts fuel : ∀ pkt md w,
  (length (w_load w) + 1 <= fuel)%nat → shrinks w (sections_loop fuel opts pkt md w).
Proof.
  induction fuel as [|fuel IH]; intros pkt md w Hfuel; [lia|]. cbn [sections_loop].
  apply shrinks_bind; [unfold pkt_event_of; solve_tame|]. intros event w1 E1 _.
  apply lift_inv in E1 as [_ ->]. case_decide; [cbn; lia|].
  apply shrinks_bind; [solve_tame|]. intros pkt2 w2 E2 H2.
  apply lift_inv in E2 as [_ ->]. rewrite C_bind_eq.
  pose proof (read_packet_shrinks pkt2 w) as Hr.
  destruct (READ_LOADING_PACKET pkt2 0 w) as [[[pkt3 err] w3]| |]; [|done|done].
  destruct Hr as [Hle Hlt]. case_decide as He; [cbn; lia|]. specialize (Hlt ltac:(lia)).
  apply (shrinks_le _ w3); [lia|]. apply shrinks_bind; [unfold pkt_event_of; solve_tame|].
  intros ev w4 E4 _. apply lift_inv in E4 as [_ ->].
  apply shrinks_bind; [apply tame_load_section|]. intros [e md1] w5 _ H5.
  case_decide; [cbn; rewrite H5; lia|]. apply (shrinks_le _ w5); [rewrite H5; lia|].
  apply IH. rewrite H5. lia.
Qed.

(** A module that is loaded took a read at least. *)
Lemma monitor_load_module_ends opts mon w :
  match monitor_load_module opts mon w with
  | Val ((r, _), w') =>
      (length (w_load w') <= length (w_load w))%nat ∧
      (r = 0 → (length (w_load w') < length (w_load w))%nat)
  | Undef _ => True
  | NoFuel => False
  end.
Proof.
  unfold monitor_load_module. rewrite C_bind_eq.
  pose proof (read_packet_shrinks fresh_packet w) as Hr.
  destruct (READ_LOADING_PACKET fresh_packet 0 w) as [[[pkt err] w1]| |]; [|done|done].
  destruct Hr as [Hle Hlt].
  match goal with |- match ?m w1 with _ => _ end => assert (Hsh : shrinks w1 (m w1)) end.
  { case_decide; [apply tame_shrinks; solve_tame|].
    apply shrinks_bind; [unfold pkt_event_of; solve_tame|]. intros ev w2 E2 _.
    apply lift_inv in E2 as [_ ->].
    destruct (loading_event_case ev) as [[]|]; try (apply tame_shrinks; solve_tame; done).
    apply shrinks_bind; [apply tame_module_begin|]. intros [e mon1] w3 _ H3.
    apply (shrinks_le _ w3); [rewrite H3; lia|]. case_decide; [apply tame_shrinks; solve_tame|].
    apply shrinks_bind; [solve_tame|]. intros md w4 E4 _. apply lift_inv in E4 as [_ ->].
    rewrite C_bind_eq. pose proof (sections_loop_ends opts (load_fuel w3) pkt md w3) as Hs.
    destruct (sections_loop _ _ _ _ w3) as [[[[e5 pkt5] md5] w5]| |]; [|done|].
    - apply (shrinks_le _ w5); [apply Hs; unfold load_fuel; lia|]. apply tame_shrinks. solve_tame.
    - apply Hs. unfold load_fuel. lia. }
  destruct (decide (err = 0)) as [->|Hne].
  - specialize (Hlt eq_refl). unfold shrinks in Hsh.
    match goal with |- match ?r with _ => _ end => destruct r as [[[r0 mon0] w0]| |] end; [lia|done|done].
  - rewrite (decide_True _ _ Hne) in *. unfold shrinks in Hsh. rewrite C_bind_eq in *.
    destruct (lift _ w1) as [[a w2]| |]; [|done|done]. cbn in *. split; [lia|done].
Qed.

Lemma run_times_ends opts data n : ∀ w, ends_keeping w (run_times n opts data w).
Proof.
  induction n as [|n IH]; intros w; cbn [run_times]; [done|]. rewrite C_bind_eq.
  pose proof (monitor_run_ends opts data w) as Hr.
  destruct (monitor_run opts data w) as [[e w1]| |]; [|done|done].
  apply (ends_keeping_trans _ w1); [done|]. case_decide; [done|apply IH].
Qed.

Lemma start_module_ends opts data w : ends_keeping w (start_module opts data w).
Proof.
  unfold start_module. apply keeping_bind; [apply tame_lift, ends_compute_relocations|].
  intros [e data1] w1 E1 _ _. apply lift_inv in E1 as [_ ->]. case_decide; [done|].
  apply keeping_bind; [solve_tame|]. intros md w2 E2 _ _. apply lift_inv in E2 as [_ ->].
  rewrite C_bind_eq. pose proof (run_times_ends opts data1 (Z.to_nat (nb_entrypoint_inits md)) w) as Hi.
  by destruct (run_times _ _ _ w) as [[]| |].
Qed.

Lemma modules_loop_ends opts fuel : ∀ data w,
  (length (w_load w) + 1 <= fuel)%nat → modules_loop fuel opts data w ≠ NoFuel.
Proof.
  induction fuel as [|fuel IH]; intros data w Hfuel; [lia|]. cbn [modules_loop]. rewrite C_bind_eq.
  pose proof (monitor_load_module_ends opts data w) as Hm.
  destruct (monitor_load_module opts data w) as [[[r data1] w1]| |]; [|done|done].
  destruct Hm as [_ Hlt]. case_decide; [done|]. case_decide; [done|]. rewrite C_bind_eq.
  pose proof (start_module_ends opts data1 w1) as Hs.
  destruct (start_module opts data1 w1) as [[[e data2] w2]| |]; [|done|done].
  case_decide; [done|]. apply IH. cbn in Hs. rewrite Hs. specialize (Hlt ltac:(lia)). lia.
Qed.

Lemma monitor_load_ends opts w : ends (monitor_load opts w).
Proof.
  unfold monitor_load, ends. rewrite C_bind_eq.
  pose proof (modules_loop_ends opts (load_fuel w) (MonitorData 0 Null) w) as Hm.
  destruct (modules_loop _ _ _ w) as [[[e data] w1]| |]; [|done|].
  - case_decide; [done|]. pose proof (ends_relocate_all (Z.to_nat (nb_modules data)) 0 data) as Hr.
    by destruct (relocate_all _ _ _).
  - intros _. apply Hm; [|done]. unfold load_fuel. lia.
Qed.
