(* ===== verification/LoadFree.v ===== *)
(** * Release of the data (monitor_data_free of monitor/src/monitor_load.c)

    On well-formed data the allocations that are freed are those that the data
    own, each of them once: nothing is freed twice, and nothing is forgotten but
    the arrays of a module without functions, which hold nothing. *)

From stdpp Require Import list.
From S2P Require Import Prelude CSem Wire MonitorData LoadSections Relocate Dot.
From S2P Require Import MonitorLoad LoadWf RunRefine.
From Stdlib Require Import Strings.Byte.

(** ** What the data own *)

(** The rows of a graph, from number [k]. *)
Fixpoint owned_rows {B} (b : Z → B) (k : Z) (rows : list (cptr (list Z))) : list B :=
  match rows with [] => [] | row :: rows => owned_ptr (b k) row ++ owned_rows b (k + 1) rows end.

Definition owned_graph_rows {B} (b : Z → B) (g : cptr (list (cptr (list Z)))) : list B :=
  match g with Live rows => owned_rows b 0 rows | _ => [] end.

Definition owned_function (fd : function_data) : list function_block :=
  owned_graph_rows BRow (control_flow_graph fd) ++ owned_ptr BName (name fd) ++
  owned_ptr BGraph (control_flow_graph fd) ++ owned_ptr BIpd (immediate_post_dominator fd).

Fixpoint owned_functions (j : Z) (fs : list function_data) : list module_block :=
  match fs with [] => [] | fd :: fs => (BInFunction j <$> owned_function fd) ++ owned_functions (j + 1) fs end.

Definition owned_module (md : module_data) : list module_block :=
  owned_graph_rows BCallRow (call_graph md) ++
  match functions md with Live fs => owned_functions 0 fs | _ => [] end ++
  owned_ptr BFunctions (functions md) ++ owned_ptr BCallGraph (call_graph md) ++ owned_ptr BRelocations (relocations md).

Fixpoint owned_modules (i : Z) (ms : list module_data) : list data_block :=
  match ms with [] => [] | md :: ms => (BInModule i <$> owned_module md) ++ owned_modules (i + 1) ms end.

(** Every live pointer of the data. *)
Definition owned (data : monitor_data) : list data_block :=
  match modules data with Live ms => owned_modules 0 ms | _ => [] end ++ owned_ptr BModules (modules data).

(** The arrays of the modules without functions: [calloc(0, ...)] may give an
    allocation, of no byte. *)
Definition empty_arrays (md : module_data) : list module_block := if decide (nb_functions md = 0) then owned_module md else [].

Fixpoint left_behind_from (i : Z) (ms : list module_data) : list data_block :=
  match ms with [] => [] | md :: ms => (BInModule i <$> empty_arrays md) ++ left_behind_from (i + 1) ms end.

Definition left_behind (data : monitor_data) : list data_block :=
  match modules data with Live ms => left_behind_from 0 ms | _ => [] end.

(** ** Each allocation is held once *)

Lemma elem_owned_ptr {B A} (b x : B) (p : cptr A) : x ∈ owned_ptr b p → x = b.
Proof. destruct p; cbn; set_solver. Qed.

Lemma NoDup_owned_ptr {B A} (b : B) (p : cptr A) : NoDup (owned_ptr b p).
Proof. destruct p; cbn; auto using NoDup_singleton, NoDup_nil_2. Qed.

Lemma elem_owned_rows {B} (b : Z → B) x rows : ∀ k, x ∈ owned_rows b k rows → ∃ i, k <= i ∧ x = b i.
Proof.
  induction rows as [|row rows IH]; intros k; cbn [owned_rows]; [set_solver|].
  intros [->%elem_owned_ptr|(i & ? & ->)%IH]%elem_of_app; [by exists k|]. exists i. split; [lia|done].
Qed.

Lemma NoDup_owned_rows {B} (b : Z → B) `{!Inj (=) (=) b} rows : ∀ k, NoDup (owned_rows b k rows).
Proof.
  induction rows as [|row rows IH]; intros k; cbn [owned_rows]; [by constructor|].
  apply list.NoDup_app. split; [apply NoDup_owned_ptr|]. split; [|apply IH].
  intros x ->%elem_owned_ptr (i & Hi & Heq)%elem_owned_rows. apply (inj b) in Heq. lia.
Qed.

Lemma elem_owned_graph {B} (b : Z → B) x g : x ∈ owned_graph_rows b g → ∃ i, x = b i.
Proof. destruct g as [|rows|]; cbn; [set_solver| |set_solver]. intros (i & _ & ->)%elem_owned_rows. by exists i. Qed.

Lemma NoDup_owned_graph {B} (b : Z → B) `{!Inj (=) (=) b} g : NoDup (owned_graph_rows b g).
Proof. destruct g as [|rows|]; cbn; [by constructor|by apply NoDup_owned_rows|by constructor]. Qed.

(** Parts by number: [f i] of what the [i]th holds. *)
Lemma NoDup_parts {B B' P} (f : Z → B → B') (part : P → list B) (parts : Z → list P → list B') :
  (∀ i i' x x', f i x = f i' x' → i = i' ∧ x = x') → (∀ p, NoDup (part p)) →
  (∀ i, parts i [] = []) → (∀ i p ps, parts i (p :: ps) = (f i <$> part p) ++ parts (i + 1) ps) →
  ∀ ps i, NoDup (parts i ps) ∧ ∀ x, x ∈ parts i ps → ∃ j y, i <= j ∧ x = f j y.
Proof.
  intros Hinj Hpart Hnil Hcons. induction ps as [|p ps IH]; intros i.
  - rewrite Hnil. split; [constructor|]. set_solver.
  - rewrite Hcons. destruct (IH (i + 1)) as [Hnd Hin]. split.
    + apply list.NoDup_app. split; [|split; [|done]].
      * apply NoDup_fmap_2_strong; [|done]. by intros x y _ _ [_ ?]%Hinj.
      * intros x (y & -> & _)%list_elem_of_fmap (j & y' & Hj & [? _]%Hinj)%Hin. lia.
    + intros x [(y & -> & _)%list_elem_of_fmap|(j & y & Hj & ->)%Hin]%elem_of_app; [by exists i, y|].
      exists j, y. split; [lia|done].
Qed.

#[export] Instance BRow_inj : Inj (=) (=) BRow.
Proof. by intros ?? [= ->]. Qed.
#[export] Instance BCallRow_inj : Inj (=) (=) BCallRow.
Proof. by intros ?? [= ->]. Qed.

Ltac owned_inv := repeat match goal with
  | H : _ ∈ _ ++ _ |- _ => apply elem_of_app in H as [H|H]
  | H : _ ∈ owned_ptr _ _ |- _ => apply elem_owned_ptr in H
  | H : _ ∈ owned_graph_rows _ _ |- _ => apply elem_owned_graph in H as [? H]
  end.

Lemma NoDup_owned_function fd : NoDup (owned_function fd).
Proof.
  unfold owned_function. repeat (apply list.NoDup_app; split; [|split; [intros x ??; owned_inv; by subst|]]);
    auto using NoDup_owned_ptr. apply NoDup_owned_graph, _.
Qed.

Lemma NoDup_owned_functions j fs :
  NoDup (owned_functions j fs) ∧ ∀ x, x ∈ owned_functions j fs → ∃ i y, j <= i ∧ x = BInFunction i y.
Proof. apply (NoDup_parts BInFunction owned_function); [by intros ???? [= -> ->]|apply NoDup_owned_function|done|done]. Qed.

Lemma NoDup_owned_module md : NoDup (owned_module md).
Proof.
  unfold owned_module. destruct (functions md) as [|fs|] eqn:E.
  2: destruct (NoDup_owned_functions 0%Z fs) as [Hnd Hin].
  all: repeat (apply list.NoDup_app; split; [|split; [intros x ??; owned_inv; try set_solver; try (by subst)|]]);
    auto using NoDup_owned_ptr, NoDup_nil_2; try (apply NoDup_owned_graph, _).
  all: match goal with H : _ ∈ owned_functions _ _ |- _ => apply Hin in H as (? & ? & _ & ?) end; by subst.
Qed.

Lemma NoDup_owned_modules i ms :
  NoDup (owned_modules i ms) ∧ ∀ x, x ∈ owned_modules i ms → ∃ i' y, i <= i' ∧ x = BInModule i' y.
Proof. apply (NoDup_parts BInModule owned_module); [by intros ???? [= -> ->]|apply NoDup_owned_module|done|done]. Qed.

Lemma NoDup_owned data : NoDup (owned data).
Proof.
  unfold owned. destruct (modules data) as [|ms|]; [by constructor| |by constructor].
  destruct (NoDup_owned_modules 0 ms) as [Hnd Hin]. apply list.NoDup_app. split; [done|].
  split; [|apply NoDup_owned_ptr]. intros x (i & y & _ & ->)%Hin. set_solver.
Qed.

(** ** The monad *)

Lemma W_bind_Val {B A A'} (m : W B A) (f : A → W B A') a l a' l' :
  m = Val (a, l) → f a = Val (a', l') → (m ≫= f) = Val (a', l ++ l').
Proof. intros -> H. unfold mbind, W_bind. by rewrite H. Qed.

Lemma free_block_ok {B A} (b : B) (p : cptr A) : p ≠ Dangling → free_block b p = Val ((), owned_ptr b p).
Proof. by destruct p. Qed.

(** ** Rows *)

Lemma free_row_ok {B} (b : Z → B) rows i row : arr_get rows i = Val row → row ≠ Dangling →
  ∃ rows', free_row b (Live rows) i = Val (Live rows', owned_ptr (b i) row) ∧ length rows' = length rows ∧
    ∀ k, (Z.to_nat i < k)%nat → drop k rows' = drop k rows.
Proof.
  intros Hr Hd. unfold free_row, graph_row, graph_set_row. cbn [deref mbind res_bind]. rewrite Hr. cbn [kept].
  destruct row as [|r|]; cbn [non_null owned_ptr]; [by exists rows| |done].
  assert (Hi : 0 <= i < Z.of_nat (length rows)) by (by apply arr_get_lt in Hr).
  exists (<[Z.to_nat i := Null]> rows). rewrite arr_set_in_range by lia. split; [done|]. split; [apply length_insert|].
  intros k Hk. by apply drop_insert_lt.
Qed.

Lemma free_rows_ok {B} (b : Z → B) n : ∀ k rows, 0 <= k → k + Z.of_nat n = Z.of_nat (length rows) →
  Forall (λ row, row ≠ Dangling) (drop (Z.to_nat k) rows) →
  ∃ rows', free_rows b n k (Live rows) = Val (Live rows', owned_rows b k (drop (Z.to_nat k) rows)).
Proof.
  induction n as [|n IH]; intros k rows Hk Hn Hall; cbn [free_rows].
  { exists rows. by rewrite drop_ge by lia. }
  destruct (arr_get_in_range rows k) as [row Hr]; [lia|]. assert (Hr' := Hr). apply arr_get_Val in Hr' as [_ Hr'].
  rewrite (drop_S _ _ _ Hr') in *. apply Forall_cons_1 in Hall as [Hrow Hall].
  destruct (free_row_ok b rows k row Hr Hrow) as (rows1 & H1 & Hlen & Hdrop).
  destruct (IH (k + 1) rows1) as (rows2 & H2); [lia|lia| |].
  { rewrite Hdrop by lia. by replace (Z.to_nat (k + 1)) with (S (Z.to_nat k)) by lia. }
  rewrite Hdrop in H2 by lia. replace (Z.to_nat (k + 1)) with (S (Z.to_nat k)) in H2 by lia.
  exists rows2. exact (W_bind_Val _ _ _ _ _ _ H1 H2).
Qed.

Lemma wf_graph_rows n g : wf_graph n g →
  ∃ rows, g = Live rows ∧ Z.of_nat (length rows) = n ∧ Forall (λ row, row ≠ Dangling) rows.
Proof.
  intros (rows & -> & Hlen & Hrows). exists rows. split; [done|]. split; [done|].
  eapply Forall_impl; [|exact Hrows]. by intros row [-> |(r & -> & _)].
Qed.

(** ** Functions *)

Lemma free_function_ok fd : wf_function fd → ∃ fd', free_function fd = Val (fd', owned_function fd).
Proof.
  intros (Hnm & Hu & Hb). unfold free_function, owned_function.
  assert (Hrows : ∃ g, free_rows BRow (Z.to_nat (nb_blocks fd)) 0 (control_flow_graph fd) =
      Val (g, owned_graph_rows BRow (control_flow_graph fd)) ∧
    free_block BGraph g = Val ((), owned_ptr BGraph (control_flow_graph fd)) ∧ immediate_post_dominator fd ≠ Dangling).
  { case_decide as Hz.
    - destruct Hb as [-> ->]. rewrite Hz. by exists Null.
    - destruct Hb as [Hg (ipd & -> & _)]. destruct (wf_graph_rows _ _ Hg) as (rows & -> & Hlen & Hnd).
      destruct (free_rows_ok BRow (Z.to_nat (nb_blocks fd)) 0 rows) as (rows' & H1); [done| |done|].
      { destruct Hu. lia. }
      exists (Live rows'). by rewrite H1. }
  destruct Hrows as (g & H1 & H2 & H3). eexists.
  apply (W_bind_Val _ _ _ _ _ _ H1), (W_bind_Val _ _ _ _ _ _ (free_block_ok _ _ Hnm)), (W_bind_Val _ _ _ _ _ _ H2).
  rewrite <- (app_nil_r (owned_ptr BIpd _)). by apply (W_bind_Val _ _ _ _ _ _ (free_block_ok _ _ H3)).
Qed.

(** The loop over the functions of a module, from [j]. *)
Lemma free_functions_ok n : ∀ j mdata rows fs, call_graph mdata = Live rows → functions mdata = Live fs →
  0 <= j → j + Z.of_nat n = Z.of_nat (length fs) → length rows = length fs →
  Forall (λ row, row ≠ Dangling) (drop (Z.to_nat j) rows) → Forall wf_function (drop (Z.to_nat j) fs) →
  ∃ mdata' l rows' fs', free_functions n j mdata = Val (mdata', l) ∧
    l ≡ₚ owned_rows BCallRow j (drop (Z.to_nat j) rows) ++ owned_functions j (drop (Z.to_nat j) fs) ∧
    call_graph mdata' = Live rows' ∧ functions mdata' = Live fs' ∧ relocations mdata' = relocations mdata ∧
    nb_functions mdata' = nb_functions mdata.
Proof.
  induction n as [|n IH]; intros j mdata rows fs Hg Hf Hj Hn Hlen Hrows Hfs; cbn [free_functions].
  { exists mdata, [], rows, fs. rewrite !drop_ge by lia. by split_and!. }
  assert (Hs : Z.to_nat (j + 1) = S (Z.to_nat j)) by lia.
  destruct (arr_get_in_range rows j) as [row Hr]; [lia|]. assert (Hr' := Hr). apply arr_get_Val in Hr' as [_ Hr'].
  destruct (arr_get_in_range fs j) as [fd Hfd]; [lia|]. assert (Hfd' := Hfd). apply arr_get_Val in Hfd' as [_ Hfd'].
  rewrite (drop_S _ _ _ Hr') in *. rewrite (drop_S _ _ _ Hfd') in *.
  apply Forall_cons_1 in Hrows as [Hrow Hrows]. apply Forall_cons_1 in Hfs as [Hwf Hfs].
  destruct (free_row_ok BCallRow rows j row Hr Hrow) as (rows1 & H1 & Hlen1 & Hdrop).
  destruct (free_function_ok fd Hwf) as (fd' & H2).
  destruct (IH (j + 1) (set_functions (Live (<[Z.to_nat j := fd']> fs)) (set_call_graph (Live rows1) mdata))
    rows1 (<[Z.to_nat j := fd']> fs)) as (mdata' & l & rows' & fs' & Hrun & Hl & Hrest); [done|done|lia| | | | |].
  { rewrite length_insert. lia. }
  { rewrite length_insert. lia. }
  { rewrite Hdrop by lia. by rewrite Hs. }
  { rewrite drop_insert_lt by lia. by rewrite Hs. }
  rewrite Hdrop, drop_insert_lt, Hs in Hl by lia.
  exists mdata', (owned_ptr (BCallRow j) row ++ [] ++ (BInFunction j <$> owned_function fd) ++ [] ++ l), rows', fs'.
  split; [|split; [|done]].
  - rewrite Hg. apply (W_bind_Val _ _ _ _ _ _ H1). cbn zeta.
    apply (W_bind_Val _ _ fd); [unfold function_at; cbn [functions set_call_graph]; rewrite Hf; cbn; by rewrite Hfd|].
    apply (W_bind_Val _ _ fd'); [by rewrite H2|]. eapply W_bind_Val; [|exact Hrun].
    unfold put_function. cbn [functions set_call_graph]. rewrite Hf. cbn [deref mbind res_bind].
    by rewrite arr_set_in_range by lia.
  - rewrite Hl. cbn [owned_rows owned_functions app]. solve_Permutation.
Qed.

(** ** Modules *)

(** A module gives back what it owns, unless it has no function. *)
Lemma free_module_ok mdata : wf_module mdata → ∃ mdata' l, free_module mdata = Val (mdata', l) ∧
  owned_module mdata ≡ₚ l ++ empty_arrays mdata.
Proof.
  intros Hwf. unfold free_module, empty_arrays. case_decide as Hz.
  - rewrite Hz. exists mdata, []. split; [|done]. change (Z.to_nat 0) with 0%nat. cbn [free_functions].
    unfold mbind, W_bind, mret, W_ret. by rewrite decide_False by lia.
  - assert (Hpos : 0 < nb_functions mdata) by (destruct Hwf as [[? _] _]; lia).
    destruct (wf_filled _ Hwf Hpos) as (Hu & Hg & (rs & Hrs & _) & fs & Hf & Hfl & Hall).
    destruct (wf_graph_rows _ _ Hg) as (rows & Hrows & Hlen & Hnd).
    destruct (free_functions_ok (Z.to_nat (nb_functions mdata)) 0 mdata rows fs Hrows Hf)
      as (m1 & l & rows1 & fs1 & Hrun & Hl & Hg1 & Hf1 & Hr1 & Hn1); [done|lia|lia|done|done|].
    eexists _, _. split.
    + eapply W_bind_Val; [exact Hrun|]. cbv beta. rewrite Hn1, decide_True by done. rewrite Hf1, Hg1, Hr1, Hrs. cbn. reflexivity.
    + rewrite app_nil_r, Hl. unfold owned_module. rewrite Hrows, Hf, Hrs. cbn [owned_graph_rows owned_ptr].
      rewrite <- !app_assoc. done.
Qed.

(** The loop over the modules frees each of them. *)
Lemma free_modules_ok n : ∀ i nb ms, 0 <= i → i + Z.of_nat n = Z.of_nat (length ms) →
  Forall wf_module (drop (Z.to_nat i) ms) →
  ∃ ms' l, free_modules n i (MonitorData nb (Live ms)) = Val (MonitorData nb (Live ms'), l) ∧
    owned_modules i (drop (Z.to_nat i) ms) ≡ₚ l ++ left_behind_from i (drop (Z.to_nat i) ms).
Proof.
  induction n as [|n IH]; intros i nb ms Hi Hn Hwf; cbn [free_modules].
  { exists ms, []. by rewrite drop_ge by lia. }
  assert (Hs : Z.to_nat (i + 1) = S (Z.to_nat i)) by lia.
  destruct (arr_get_in_range ms i) as [md Hmd]; [lia|]. assert (Hmd' := Hmd). apply arr_get_Val in Hmd' as [_ Hmd'].
  rewrite (drop_S _ _ _ Hmd') in *. apply Forall_cons_1 in Hwf as [Hw Hwf].
  destruct (free_module_ok md Hw) as (md' & l1 & H1 & Hl1).
  destruct (IH (i + 1) nb (<[Z.to_nat i := md']> ms)) as (ms' & l2 & H2 & Hl2); [lia| | |].
  { rewrite length_insert. lia. }
  { rewrite drop_insert_lt by lia. by rewrite Hs. }
  rewrite drop_insert_lt, Hs in Hl2 by lia. exists ms', ([] ++ (BInModule i <$> l1) ++ [] ++ l2). split.
  - apply (W_bind_Val _ _ md); [unfold module_at; cbn; by rewrite Hmd|].
    apply (W_bind_Val _ _ md'); [by rewrite H1|]. eapply W_bind_Val; [|exact H2].
    unfold put_module. cbn [modules deref mbind res_bind nb_modules]. by rewrite arr_set_in_range by lia.
  - cbn [owned_modules left_behind_from app]. rewrite Hl1, Hl2, fmap_app. solve_Permutation.
Qed.

Lemma monitor_data_free_wf data : wf_data data → (nb_modules data = 0 → modules data = Null) → ∃ l,
  monitor_data_free data = Val (MonitorData 0 Null, l) ∧ owned data ≡ₚ l ++ left_behind data.
Proof.
  intros Hwf Hnil. unfold monitor_data_free, owned, left_behind. destruct data as [nb p]. cbn [nb_modules modules] in *.
  destruct (decide (nb = 0)) as [->|Hz].
  - rewrite (Hnil eq_refl). by exists [].
  - destruct Hwf as [[? _]|(ms & Hp & Hlen & Hall)]; cbn [nb_modules modules] in *; [done|]. subst p.
    destruct (free_modules_ok (Z.to_nat nb) 0 nb ms) as (ms' & l & H1 & Hl); [done|lia|done|].
    exists (l ++ [BModules]). split.
    + apply (W_bind_Val _ _ _ _ _ _ H1). cbn [nb_modules]. by rewrite decide_True.
    + cbn [owned_ptr]. rewrite drop_0 in Hl. rewrite Hl. solve_Permutation.
Qed.
