(* ===== verification/LoadSpec.v ===== *)
(** * What the sections mean

    Encoders for the sections, as the comments of include/picon/shared.h lay
    them out, and the result of loading what they produce: the function table
    and the graphs that were encoded. *)

From S2P Require Import Prelude CSem Wire CStack MonitorData RunSpec LoadSections LoadWf.
From Stdlib Require Import Strings.Byte.

(** ** Encoders *)

Record fct_entry := FctEntry { fe_id : Z; fe_flags : Z; fe_name : list byte }.

Definition fct_bytes (e : fct_entry) : list byte :=
  le_bytes 4 (fe_id e) ++ le_bytes 4 (fe_flags e) ++ fe_name e ++ [x00].

Definition fct_l_bytes (es : list fct_entry) : list byte :=
  le_bytes 4 (Z.of_nat (length es)) ++ concat (fct_bytes <$> es).

(** An identifier and its successors: callees of a function, or blocks that
    may follow a block. *)
Record trans_entry := TransEntry { te_id : Z; te_succ : list Z }.

Definition trans_bytes (t : trans_entry) : list byte :=
  le_bytes 4 (te_id t) ++ le_bytes 4 (Z.of_nat (length (te_succ t))) ++
  concat (le_bytes 4 <$> te_succ t).

Definition fct_trans_l_bytes (ts : list trans_entry) : list byte :=
  le_bytes 4 (Z.of_nat (length ts)) ++ concat (trans_bytes <$> ts).

Definition block_trans_l_bytes (f_id num_block : Z) (ts : list trans_entry) : list byte :=
  le_bytes 4 f_id ++ le_bytes 4 num_block ++ le_bytes 4 (Z.of_nat (length ts)) ++
  concat (trans_bytes <$> ts).

(** Entries that fit their fields, for a module of [n] functions (a function
    of [n] blocks). *)
Definition wf_fct (n : Z) (e : fct_entry) : Prop :=
  0 <= fe_id e < n ∧ in_u 32 (fe_flags e) ∧ x00 ∉ fe_name e.

Definition wf_trans (n : Z) (t : trans_entry) : Prop :=
  0 <= te_id t < n ∧ in_u 32 (Z.of_nat (length (te_succ t))) ∧ Forall (λ c, 0 <= c < n) (te_succ t).

(** ** What they denote *)

Definition fct_of (e : fct_entry) : function_data :=
  FunctionData (Live (fe_name e)) (fe_flags e) 0 Null Null.

(** The function table, entry after entry. *)
Definition place (fs : list function_data) (e : fct_entry) : list function_data :=
  <[Z.to_nat (fe_id e) := fct_of e]> fs.

(** Number of entries with a flag. *)
Definition flagged (flag : Z) (es : list fct_entry) : Z :=
  Z.of_nat (length (filter (λ e, fe_flags e = flag) es)).

(** [j] follows [i] in the graph. *)
Definition edge (g : cptr (list (cptr (list Z)))) (i j : Z) : Prop := truth (graph_at g i j) = true.

(** [j] is listed after [i]. *)
Definition listed (ts : list trans_entry) (i j : Z) : Prop :=
  ∃ t, t ∈ ts ∧ te_id t = i ∧ j ∈ te_succ t.

Definition row_null (g : cptr (list (cptr (list Z)))) (i : Z) : Prop := graph_row g i = Val Null.

(** ** Fields *)

Lemma field_le4 z rest : in_u 32 z → field (le_bytes 4 z ++ rest) 0 4 = Val z.
Proof. intros. by apply (field_le_bytes 4). Qed.

Lemma field_le4_at a z rest (o : nat) :
  length a = o → in_u 32 z → field (a ++ le_bytes 4 z ++ rest) o 4 = Val z.
Proof. intros <- Hz. rewrite field_skip, Nat.sub_diag by lia. by apply field_le4. Qed.

Lemma drop_le4 z rest : drop 4 (le_bytes 4 z ++ rest) = rest.
Proof. by rewrite drop_app_length' by (by rewrite le_bytes_length). Qed.

Lemma concat_le4_length (cs : list Z) : length (concat (le_bytes 4 <$> cs)) = (length cs * 4)%nat.
Proof.
  induction cs as [|c cs IH]; [done|]. cbn [fmap list_fmap concat length].
  rewrite length_app, le_bytes_length, IH. lia.
Qed.

Lemma c_string_app s rest : x00 ∉ s → c_string (s ++ x00 :: rest) = Val (s, rest).
Proof.
  induction s as [|b s IH]; intros Hs; cbn [app c_string].
  - by rewrite decide_True.
  - rewrite not_elem_of_cons in Hs. destruct Hs as [Hb Hs].
    rewrite decide_False by done. by rewrite (IH Hs).
Qed.

Lemma calloc_in_place {A} n (x : A) w : in_place w →
  ∃ w', calloc n x w = Val (Live (zeroed n x), w') ∧ in_place w'.
Proof.
  intros Hw. destruct (alloc_ok_in_place w Hw) as (w' & Ha & Hq). exists w'.
  unfold calloc. rewrite C_bind_eq, Ha. split; [done|]. by eapply quiet_in_place.
Qed.

Lemma in_u_lt n z : 0 <= z < n → in_u 32 n → in_u 32 z.
Proof. unfold in_u. lia. Qed.

(** ** The function table *)

Section Functions.
Context (n : Z) (Hn : in_u 32 n).

Lemma strdup_in_place s rest w : x00 ∉ s → in_place w →
  ∃ w', strdup (s ++ x00 :: rest) w = Val (Live s, w') ∧ in_place w'.
Proof.
  intros Hs Hw. destruct (alloc_ok_in_place w Hw) as (w' & Ha & Hq). exists w'.
  unfold strdup. rewrite c_string_app by done. rewrite C_bind_eq, lift_Val, C_bind_eq, Ha.
  split; [done|]. by eapply quiet_in_place.
Qed.

Lemma fct_bytes_split e rest :
  fct_bytes e ++ rest = le_bytes 4 (fe_id e) ++ le_bytes 4 (fe_flags e) ++ fe_name e ++ x00 :: rest.
Proof. unfold fct_bytes. by simplify_list_eq. Qed.

Lemma flagged_cons flag e es :
  flagged flag (e :: es) = (if decide (fe_flags e = flag) then 1 else 0) + flagged flag es.
Proof. unfold flagged. rewrite filter_cons. case_decide; cbn [length]; lia. Qed.

Lemma flagged_nonneg flag es : 0 <= flagged flag es.
Proof. unfold flagged. lia. Qed.

(** One entry is read. *)
Lemma function_id_step m e rest md fs w :
  wf_fct n e → in_place w → nb_functions md = n → functions md = Live fs →
  Z.of_nat (length fs) = n →
  ∃ w', function_id_loop (S m) (fct_bytes e ++ rest) md w =
      function_id_loop m rest (count_entrypoints (fct_of e) (set_functions (Live (place fs e)) md)) w'
    ∧ in_place w'.
Proof using Hn.
  intros (Hid & Hfl & Hnm) Hw Hnb Hfs Hlen. cbn [function_id_loop].
  unfold msg_fct_f_id, msg_fct_f_flags, msg_fct_f_name, after_string.
  rewrite fct_bytes_split.
  assert (Hname : drop 8 (le_bytes 4 (fe_id e) ++ le_bytes 4 (fe_flags e) ++ fe_name e ++ x00 :: rest)
                  = fe_name e ++ x00 :: rest).
  { by rewrite app_assoc, drop_app_length' by (by rewrite length_app, !le_bytes_length). }
  rewrite field_le4 by (by eapply in_u_lt). rewrite C_bind_eq, lift_Val.
  rewrite decide_False by lia. rewrite Hname.
  destruct (strdup_in_place (fe_name e) rest w Hnm Hw) as (w' & Hd & Hw').
  rewrite C_bind_eq, Hd, C_bind_eq, (field_le4_at _ _ _ 4) by (done || by rewrite le_bytes_length).
  rewrite lift_Val, C_bind_eq. unfold put_function. rewrite Hfs. cbn [deref mbind res_bind].
  rewrite arr_set_in_range by lia. cbn [mbind res_bind]. rewrite lift_Val, C_bind_eq.
  rewrite c_string_app by done. by exists w'.
Qed.

Lemma function_id_loop_spec tl es : ∀ md fs w,
  Forall (wf_fct n) es → in_place w → nb_functions md = n → functions md = Live fs →
  Z.of_nat (length fs) = n →
  0 <= nb_entrypoint_inits md → nb_entrypoint_inits md + flagged FCT_INIT es < 2 ^ 32 →
  0 <= nb_entrypoint_finis md → nb_entrypoint_finis md + flagged FCT_FINI es < 2 ^ 32 →
  ∃ w', function_id_loop (length es) (concat (fct_bytes <$> es) ++ tl) md w = Val ((0,
      ModuleData n (nb_entrypoint_inits md + flagged FCT_INIT es)
        (nb_entrypoint_finis md + flagged FCT_FINI es) (call_graph md) (relocations md)
        (Live (foldl place fs es))), w') ∧ in_place w'.
Proof using Hn.
  induction es as [|e es IH]; intros md fs w Hes Hw Hnb Hfs Hlen Hi0 Hi Hf0 Hf.
  { exists w. destruct md; cbn in *. unfold flagged. cbn. rewrite !Z.add_0_r. by subst. }
  apply Forall_cons_1 in Hes as [He Hes'].
  destruct (function_id_step (length es) e (concat (fct_bytes <$> es) ++ tl) md fs w He Hw Hnb Hfs Hlen)
    as (w1 & Hstep & Hw1).
  cbn [length fmap list_fmap concat]. rewrite <- app_assoc, Hstep. rewrite !flagged_cons in *.
  pose proof (flagged_nonneg FCT_INIT es). pose proof (flagged_nonneg FCT_FINI es).
  assert (Hinit : nb_entrypoint_inits (count_entrypoints (fct_of e) (set_functions (Live (place fs e)) md))
     = nb_entrypoint_inits md + (if decide (fe_flags e = FCT_INIT) then 1 else 0)).
  { cbn. unfold FUNCTION_IS_ENTRYPOINT_INIT. cbn. case_bool_decide; rewrite ?decide_True, ?decide_False by done;
      [|lia]. unfold u32. apply Z.mod_small. rewrite decide_True in Hi by done. lia. }
  assert (Hfini : nb_entrypoint_finis (count_entrypoints (fct_of e) (set_functions (Live (place fs e)) md))
     = nb_entrypoint_finis md + (if decide (fe_flags e = FCT_FINI) then 1 else 0)).
  { cbn. unfold FUNCTION_IS_ENTRYPOINT_FINI. cbn. case_bool_decide; rewrite ?decide_True, ?decide_False by done;
      [|lia]. unfold u32. apply Z.mod_small. rewrite decide_True in Hf by done. lia. }
  destruct (IH (count_entrypoints (fct_of e) (set_functions (Live (place fs e)) md)) (place fs e) w1)
    as (w2 & Hrun & Hw2); try done.
  - unfold place. by rewrite length_insert.
  - rewrite Hinit. destruct (decide (fe_flags e = FCT_INIT)); lia.
  - rewrite Hinit. lia.
  - rewrite Hfini. destruct (decide (fe_flags e = FCT_FINI)); lia.
  - rewrite Hfini. lia.
  - exists w2. split; [|done]. rewrite Hrun, Hinit, Hfini. cbn [foldl].
    by rewrite <- !Z.add_assoc.
Qed.

End Functions.

(** The table holds the entry of each identifier. *)
Lemma foldl_place_length es : ∀ fs, length (foldl place fs es) = length fs.
Proof.
  induction es as [|e es IH]; intros fs; cbn; [done|]. rewrite IH. apply length_insert.
Qed.

Lemma foldl_place_other es : ∀ fs (i : nat),
  (∀ e, e ∈ es → Z.to_nat (fe_id e) ≠ i) → foldl place fs es !! i = fs !! i.
Proof.
  induction es as [|e es IH]; intros fs i Hi; cbn; [done|]. rewrite IH.
  - apply list_lookup_insert_ne. apply Hi. by left.
  - intros e' He'. apply Hi. by right.
Qed.

Lemma foldl_place_lookup n es : ∀ fs e,
  Forall (wf_fct n) es → NoDup (fe_id <$> es) → e ∈ es → Z.of_nat (length fs) = n →
  foldl place fs es !! Z.to_nat (fe_id e) = Some (fct_of e).
Proof.
  induction es as [|e0 es IH]; intros fs e Hwf Hnd He Hlen; [by inversion He|].
  inversion Hwf as [|? ? H0 Hwf']; subst. inversion Hnd as [|? ? Hnot Hnd']; subst. cbn.
  apply elem_of_cons in He as [->|He].
  - rewrite foldl_place_other.
    + apply list_lookup_insert_eq. destruct H0 as [? _]. lia.
    + intros e' He' Heq. apply Hnot. apply list_elem_of_fmap. exists e'. split; [|done].
      rewrite Forall_forall in Hwf'. apply list_elem_of_In in He'. destruct H0 as [? _], (Hwf' _ He') as [? _]. lia.
  - apply IH; try done. unfold place. by rewrite length_insert.
Qed.

(** The whole section, whatever follows it, into a new module. *)
Lemma load_function_id_spec tl es md w :
  let n := Z.of_nat (length es) in
  in_u 32 n → Forall (wf_fct n) es → in_place w →
  nb_functions md = 0 → nb_entrypoint_inits md = 0 → nb_entrypoint_finis md = 0 →
  ∃ w', load_section_function_id (Live (fct_l_bytes es ++ tl)) md w = Val ((0,
      ModuleData n (flagged FCT_INIT es) (flagged FCT_FINI es) (Live (zeroed n Null))
        (Live (zeroed n 0)) (Live (foldl place (zeroed n zero_function) es))), w') ∧ in_place w'.
Proof.
  intros n Hn Hes Hw Hz Hi Hf. unfold load_section_function_id. rewrite decide_False by lia.
  cbn [deref]. rewrite C_bind_eq, lift_Val. unfold msg_num, msg_list, fct_l_bytes.
  rewrite <- app_assoc, field_le4 by done. rewrite drop_le4, C_bind_eq, lift_Val. fold n. cbn zeta.
  destruct (calloc_in_place n (Null : cptr (list Z)) w Hw) as (w1 & H1 & Hw1).
  rewrite C_bind_eq, H1. cbn [non_null negb].
  destruct (calloc_in_place n 0 w1 Hw1) as (w2 & H2 & Hw2).
  rewrite C_bind_eq, H2. cbn [non_null negb].
  destruct (calloc_in_place n zero_function w2 Hw2) as (w3 & H3 & Hw3).
  rewrite C_bind_eq, H3. cbn [non_null negb].
  assert (Hcnt : ∀ flag, flagged flag es <= n).
  { intros flag. unfold flagged, n. apply inj_le, length_filter. }
  unfold in_u in Hn.
  destruct (function_id_loop_spec n Hn tl es
    (set_functions (Live (zeroed n zero_function)) (set_relocations (Live (zeroed n 0))
      (set_call_graph (Live (zeroed n Null)) (set_nb_functions n md)))) (zeroed n zero_function) w3)
    as (w4 & H4 & Hw4); try done; cbn; rewrite ?Hi, ?Hf; try lia.
  - apply zeroed_length. lia.
  - pose proof (Hcnt FCT_INIT). lia.
  - pose proof (Hcnt FCT_FINI). lia.
  - exists w4. split; [|done]. replace (Z.to_nat n) with (length es) by (unfold n; lia).
    rewrite H4. cbn. by rewrite Hi, Hf.
Qed.

(** ** Graphs *)

Lemma graph_row_live n g i : wf_graph n g → 0 <= i < n → ¬ row_null g i →
  ∃ r, graph_row g i = Val (Live r) ∧ Z.of_nat (length r) = n.
Proof.
  intros Hg Hi Hnn. assert (Hg' := Hg). destruct Hg' as (rows & -> & Hlen & _).
  destruct (arr_get_in_range rows i) as [row Hrow]; [lia|].
  destruct (graph_row_wf n (Live rows) i row Hg Hrow) as [->|(r & -> & Hr)]; [by destruct Hnn|].
  by exists r.
Qed.

(** [graph[i][j]] through the row. *)
Lemma graph_at_row g i j : graph_at g i j = (row ← graph_row g i; r ← deref row; arr_get r j).
Proof. unfold graph_at, graph_row. by destruct (deref g). Qed.

Lemma graph_set_row_at n g i row : wf_graph n g → 0 <= i < n →
  ∃ g', graph_set_row g i row = Val g' ∧
    ∀ a, graph_row g' a = if decide (a = i) then Val row else graph_row g a.
Proof.
  intros (rows & -> & Hlen & _) Hi. unfold graph_set_row, graph_row. cbn [deref mbind res_bind].
  rewrite arr_set_in_range by lia. eexists. split; [done|]. intros a. cbn [deref mbind res_bind].
  unfold arr_get. case_decide; case_decide; subst; try done; try lia.
  - by rewrite list_lookup_insert_eq by lia.
  - by rewrite list_lookup_insert_ne by lia.
Qed.

(** An edge is added to an allocated row. *)
Lemma graph_set_ok n g i j : wf_graph n g → 0 <= i < n → 0 <= j < n → ¬ row_null g i →
  ∃ g', graph_set g i j 1 = Val g' ∧ wf_graph n g' ∧
    (∀ a b, edge g' a b ↔ edge g a b ∨ (a = i ∧ b = j)) ∧
    (∀ a, row_null g' a ↔ row_null g a).
Proof.
  intros Hg Hi Hj Hnn. destruct (graph_row_live n g i Hg Hi Hnn) as (r & Hr & Hlen).
  destruct (graph_set_row_at n g i (Live (<[Z.to_nat j := 1]> r)) Hg Hi) as (g' & Hset & Hat).
  assert (Hs : graph_set g i j 1 = Val g').
  { unfold graph_set. rewrite Hr. cbn [mbind res_bind deref]. by rewrite arr_set_in_range by lia. }
  exists g'. split; [done|]. split; [by eapply graph_set_wf|]. split.
  - intros a b. unfold edge. rewrite !graph_at_row, Hat. case_decide as Ha; [subst|naive_solver].
    rewrite Hr. cbn [mbind res_bind deref]. unfold arr_get. case_decide; [|naive_solver lia].
    destruct (decide (b = j)) as [->|].
    + rewrite list_lookup_insert_eq by lia. cbn. naive_solver.
    + rewrite list_lookup_insert_ne by lia. naive_solver.
  - intros a. unfold row_null. rewrite Hat. case_decide as Ha; [|done]. subst. rewrite Hr. naive_solver.
Qed.

(** A row is allocated. *)
Lemma graph_new_row_ok n g i : wf_graph n g → 0 <= i < n → row_null g i →
  ∃ g', graph_set_row g i (Live (zeroed n 0)) = Val g' ∧ wf_graph n g' ∧
    (∀ a b, edge g' a b ↔ edge g a b) ∧
    (∀ a, row_null g' a ↔ row_null g a ∧ a ≠ i).
Proof.
  intros Hg Hi Hnull. destruct (graph_set_row_at n g i (Live (zeroed n 0)) Hg Hi) as (g' & Hset & Hat).
  exists g'. split; [done|]. split.
  { eapply graph_set_row_wf; [exact Hg| |exact Hset]. right. eexists. split; [done|].
    apply zeroed_length. lia. }
  split.
  - intros a b. unfold edge. rewrite !graph_at_row, Hat. case_decide as Ha; [subst|done].
    unfold row_null in Hnull. rewrite Hnull. cbn [mbind res_bind deref truth].
    destruct (arr_get (zeroed n 0) b) eqn:E; cbn; [|done|done].
    apply arr_get_zeroed_inv in E as ->. done.
  - intros a. unfold row_null. rewrite Hat. case_decide; naive_solver.
Qed.

(** ** Calls *)

Lemma trans_fields t rest n : wf_trans n t → in_u 32 n →
  msg_trans_id (trans_bytes t ++ rest) = Val (te_id t) ∧
  msg_trans_count (trans_bytes t ++ rest) = Val (Z.of_nat (length (te_succ t))) ∧
  msg_trans_array (trans_bytes t ++ rest) = concat (le_bytes 4 <$> te_succ t) ++ rest ∧
  drop (sizeof_msg_trans + Z.to_nat (Z.of_nat (length (te_succ t))) * 4) (trans_bytes t ++ rest) = rest.
Proof.
  intros (Hid & Hlen & _) Hn. unfold msg_trans_id, msg_trans_count, msg_trans_array, trans_bytes.
  rewrite <- !app_assoc. split; [apply field_le4; by eapply in_u_lt|].
  split; [by apply field_le4_at; [rewrite le_bytes_length|]|]. split.
  - rewrite app_assoc. by rewrite drop_app_length' by (by rewrite length_app, !le_bytes_length).
  - rewrite !app_assoc. rewrite drop_app_length'; [done|].
    rewrite !length_app, !le_bytes_length, concat_le4_length, Nat2Z.id. done.
Qed.

Lemma calls_loop_spec n cs : ∀ i md rest,
  in_u 32 n → wf_graph n (call_graph md) → nb_functions md = n → 0 <= i < n →
  Forall (λ c, 0 <= c < n) cs → ¬ row_null (call_graph md) i →
  ∃ g', calls_loop (length cs) (concat (le_bytes 4 <$> cs) ++ rest) i md =
      Val (0, set_call_graph g' md) ∧ wf_graph n g' ∧
    (∀ a b, edge g' a b ↔ edge (call_graph md) a b ∨ (a = i ∧ b ∈ cs)) ∧
    (∀ a, row_null g' a ↔ row_null (call_graph md) a).
Proof.
  induction cs as [|c cs IH]; intros i md rest Hu Hg Hn Hi Hcs Hnn.
  { exists (call_graph md). split; [by destruct md|]. split; [done|]. split; [|done].
    intros a b. rewrite elem_of_nil. tauto. }
  apply Forall_cons_1 in Hcs as [Hc Hcs].
  destruct (graph_set_ok n (call_graph md) i c Hg Hi Hc Hnn) as (g1 & Hset & Hg1 & He1 & Hr1).
  destruct (IH i (set_call_graph g1 md) rest Hu Hg1 Hn Hi Hcs) as (g2 & Hrun & Hg2 & He2 & Hr2).
  { cbn. by rewrite Hr1. }
  exists g2. cbn [length calls_loop fmap list_fmap concat]. rewrite <- app_assoc.
  rewrite field_le4 by (by eapply in_u_lt). cbn [mbind res_bind]. rewrite decide_False by lia.
  rewrite Hset, drop_le4. cbn [mbind res_bind]. split; [by rewrite Hrun|]. split; [done|]. split.
  - intros a b. rewrite He2. cbn. rewrite He1, elem_of_cons. tauto.
  - intros a. rewrite Hr2. cbn. apply Hr1.
Qed.

Lemma listed_cons t ts i j : listed (t :: ts) i j ↔ (te_id t = i ∧ j ∈ te_succ t) ∨ listed ts i j.
Proof.
  unfold listed. split.
  - intros (t' & [->|H]%elem_of_cons & Hi & Hj); [by left|]. right. by exists t'.
  - intros [[Hi Hj]|(t' & H & Hi & Hj)]; eexists; split; eauto; set_solver.
Qed.

Lemma function_transition_spec tl n ts : ∀ md w,
  in_u 32 n → Forall (wf_trans n) ts → in_place w → nb_functions md = n →
  wf_graph n (call_graph md) → NoDup (te_id <$> ts) →
  (∀ t, t ∈ ts → row_null (call_graph md) (te_id t)) →
  ∃ g' w', function_transition_loop (length ts) (concat (trans_bytes <$> ts) ++ tl) md w =
      Val ((0, set_call_graph g' md), w') ∧ in_place w' ∧ wf_graph n g' ∧
    (∀ a b, edge g' a b ↔ edge (call_graph md) a b ∨ listed ts a b) ∧
    (∀ a, row_null g' a ↔ row_null (call_graph md) a ∧ a ∉ te_id <$> ts).
Proof.
  induction ts as [|t ts IH]; intros md w Hu Hts Hw Hn Hg Hnd Hnull.
  { exists (call_graph md), w. split; [by destruct md|]. split; [done|]. split; [done|].
    split; [|set_solver]. intros a b. unfold listed. set_solver. }
  apply Forall_cons_1 in Hts as [Ht Hts]. cbn [fmap list_fmap] in Hnd.
  assert (Hnot := NoDup_cons_1_1 _ _ Hnd). apply NoDup_cons_1_2 in Hnd.
  destruct (trans_fields t (concat (trans_bytes <$> ts) ++ tl) n Ht Hu) as (Fid & Fcnt & Farr & Fnext).
  destruct Ht as (Hid & Hlen & Hcs).
  assert (Hnt : row_null (call_graph md) (te_id t)) by (apply Hnull; set_solver).
  destruct (calloc_in_place n 0 w Hw) as (w1 & Hc & Hw1).
  destruct (graph_new_row_ok n (call_graph md) (te_id t) Hg Hid Hnt) as (g1 & Hset & Hg1 & He1 & Hr1).
  destruct (calls_loop_spec n (te_succ t) (te_id t) (set_call_graph g1 md)
    (concat (trans_bytes <$> ts) ++ tl) Hu Hg1 Hn Hid Hcs) as (g2 & Hcalls & Hg2 & He2 & Hr2).
  { cbn. rewrite Hr1. tauto. }
  destruct (IH (set_call_graph g2 md) w1 Hu Hts Hw1 Hn Hg2 Hnd) as (g3 & w3 & Hrun & Hw3 & Hg3 & He3 & Hr3).
  { intros t' Ht'. cbn. rewrite Hr2. cbn. rewrite Hr1. split; [apply Hnull; set_solver|].
    intros Heq. apply Hnot. rewrite <- Heq. by apply list_elem_of_fmap_2. }
  exists g3, w3. split; [|split; [done|split; [done|split]]].
  - cbn [length fmap list_fmap concat]. rewrite <- app_assoc. cbn [function_transition_loop].
    rewrite Fid, C_bind_eq, lift_Val, decide_False by lia. rewrite Hnt, C_bind_eq, lift_Val.
    cbn [non_null]. rewrite Hn, C_bind_eq, Hc, Hset, C_bind_eq, lift_Val. cbn [non_null negb].
    rewrite Fcnt, C_bind_eq, lift_Val, Farr, Nat2Z.id, Hcalls, C_bind_eq, lift_Val.
    cbn beta iota. rewrite decide_False by (by intros []). rewrite Nat2Z.id in Fnext. rewrite Fnext.
    exact Hrun.
  - intros a b. rewrite He3. cbn. rewrite He2. cbn. rewrite He1, listed_cons. naive_solver.
  - intros a. rewrite Hr3. cbn. rewrite Hr2. cbn. rewrite Hr1, elem_of_cons. tauto.
Qed.

(** ** Blocks *)

Lemma succ_loop_spec n cs : ∀ i fd rest,
  in_u 32 n → wf_graph n (control_flow_graph fd) → nb_blocks fd = n → 0 <= i < n →
  Forall (λ c, 0 <= c < n) cs → ¬ row_null (control_flow_graph fd) i →
  ∃ g', succ_loop (length cs) (concat (le_bytes 4 <$> cs) ++ rest) i fd =
      Val (0, set_control_flow_graph g' fd) ∧ wf_graph n g' ∧
    (∀ a b, edge g' a b ↔ edge (control_flow_graph fd) a b ∨ (a = i ∧ b ∈ cs)) ∧
    (∀ a, row_null g' a ↔ row_null (control_flow_graph fd) a).
Proof.
  induction cs as [|c cs IH]; intros i fd rest Hu Hg Hn Hi Hcs Hnn.
  { exists (control_flow_graph fd). split; [by destruct fd|]. split; [done|]. split; [|done].
    intros a b. rewrite elem_of_nil. tauto. }
  apply Forall_cons_1 in Hcs as [Hc Hcs].
  destruct (graph_set_ok n (control_flow_graph fd) i c Hg Hi Hc Hnn) as (g1 & Hset & Hg1 & He1 & Hr1).
  destruct (IH i (set_control_flow_graph g1 fd) rest Hu Hg1 Hn Hi Hcs) as (g2 & Hrun & Hg2 & He2 & Hr2).
  { cbn. by rewrite Hr1. }
  exists g2. cbn [length succ_loop fmap list_fmap concat]. rewrite <- app_assoc.
  rewrite field_le4 by (by eapply in_u_lt). cbn [mbind res_bind]. rewrite decide_False by lia.
  rewrite Hset, drop_le4. cbn [mbind res_bind]. split; [by rewrite Hrun|]. split; [done|]. split.
  - intros a b. rewrite He2. cbn. rewrite He1, elem_of_cons. tauto.
  - intros a. rewrite Hr2. cbn. apply Hr1.
Qed.

Lemma ensure_row_ok n i fd w : in_u 32 n → wf_graph n (control_flow_graph fd) → nb_blocks fd = n →
  0 <= i < n → in_place w →
  ∃ g' w', ensure_row i fd w = Val ((true, set_control_flow_graph g' fd), w') ∧ in_place w' ∧
    wf_graph n g' ∧ (∀ a b, edge g' a b ↔ edge (control_flow_graph fd) a b) ∧
    (∀ a, row_null g' a ↔ row_null (control_flow_graph fd) a ∧ a ≠ i).
Proof.
  intros Hu Hg Hn Hi Hw. unfold ensure_row.
  destruct (graph_row (control_flow_graph fd) i) as [row| |] eqn:Hrow.
  - rewrite C_bind_eq, lift_Val.
    destruct (graph_row_wf _ _ _ _ Hg Hrow) as [->|(r & -> & Hr)]; cbn [non_null].
    + destruct (calloc_in_place n 0 w Hw) as (w1 & Hc & Hw1).
      destruct (graph_new_row_ok n (control_flow_graph fd) i Hg Hi Hrow) as (g1 & Hset & Hg1 & He1 & Hr1).
      exists g1, w1. rewrite Hn, C_bind_eq, Hc, Hset, C_bind_eq, lift_Val. done.
    + exists (control_flow_graph fd), w. split; [by destruct fd|]. split; [done|]. split; [done|].
      split; [done|]. intros a. unfold row_null. split; [|tauto]. intros Ha. split; [done|].
      intros ->. congruence.
  - destruct Hg as (rows & Hg & Hlen & _). unfold graph_row in Hrow. rewrite Hg in Hrow. cbn in Hrow.
    destruct (arr_get_in_range rows i) as [x Hx]; [lia|]. congruence.
  - destruct Hg as (rows & Hg & Hlen & _). unfold graph_row in Hrow. rewrite Hg in Hrow. cbn in Hrow.
    destruct (arr_get_in_range rows i) as [x Hx]; [lia|]. congruence.
Qed.

Lemma block_transition_spec n ts : ∀ fd w,
  in_u 32 n → Forall (wf_trans n) ts → in_place w → nb_blocks fd = n →
  wf_graph n (control_flow_graph fd) →
  ∃ g' w', block_transition_loop (length ts) (concat (trans_bytes <$> ts)) fd w =
      Val ((0, set_control_flow_graph g' fd), w') ∧ in_place w' ∧ wf_graph n g' ∧
    (∀ a b, edge g' a b ↔ edge (control_flow_graph fd) a b ∨ listed ts a b) ∧
    (∀ a, row_null g' a ↔ row_null (control_flow_graph fd) a ∧ a ∉ te_id <$> ts).
Proof.
  induction ts as [|t ts IH]; intros fd w Hu Hts Hw Hn Hg.
  { exists (control_flow_graph fd), w. split; [by destruct fd|]. split; [done|]. split; [done|].
    split; [|set_solver]. intros a b. unfold listed. set_solver. }
  apply Forall_cons_1 in Hts as [Ht Hts].
  destruct (trans_fields t (concat (trans_bytes <$> ts)) n Ht Hu) as (Fid & Fcnt & Farr & Fnext).
  destruct Ht as (Hid & Hlen & Hcs).
  destruct (ensure_row_ok n (te_id t) fd w Hu Hg Hn Hid Hw) as (g1 & w1 & Hens & Hw1 & Hg1 & He1 & Hr1).
  destruct (succ_loop_spec n (te_succ t) (te_id t) (set_control_flow_graph g1 fd)
    (concat (trans_bytes <$> ts)) Hu Hg1 Hn Hid Hcs) as (g2 & Hsucc & Hg2 & He2 & Hr2).
  { cbn. rewrite Hr1. tauto. }
  destruct (IH (set_control_flow_graph g2 fd) w1 Hu Hts Hw1 Hn Hg2) as (g3 & w3 & Hrun & Hw3 & Hg3 & He3 & Hr3).
  exists g3, w3. split; [|split; [done|split; [done|split]]].
  - cbn [length fmap list_fmap concat block_transition_loop].
    rewrite Fid, C_bind_eq, lift_Val, decide_False by lia. rewrite C_bind_eq, Hens.
    cbn beta iota. cbn [negb].
    rewrite Fcnt, C_bind_eq, lift_Val, Farr, Nat2Z.id, Hsucc, C_bind_eq, lift_Val.
    cbn beta iota. rewrite decide_False by (by intros []). rewrite Nat2Z.id in Fnext. rewrite Fnext.
    exact Hrun.
  - intros a b. rewrite He3. cbn. rewrite He2. cbn. rewrite He1, listed_cons. naive_solver.
  - intros a. rewrite Hr3. cbn. rewrite Hr2. cbn. rewrite Hr1, elem_of_cons. tauto.
Qed.

(** A graph with no row has no edge. *)
Lemma zeroed_graph n : (∀ a b, ¬ edge (Live (zeroed n Null)) a b) ∧
  (∀ a, 0 <= a < n → row_null (Live (zeroed n Null)) a).
Proof.
  split.
  - intros a b. unfold edge, graph_at. cbn [deref mbind res_bind].
    destruct (arr_get (zeroed n Null) a) eqn:E; cbn; [|done|done].
    apply arr_get_zeroed_inv in E as ->. done.
  - intros a Ha. unfold row_null, graph_row. cbn. by apply zeroed_get.
Qed.

(** The blocks of a function, from their section. *)
Lemma fill_blocks_spec n f_id ts fd w :
  in_u 32 f_id → in_u 32 n → n ≠ 0 → in_u 32 (Z.of_nat (length ts)) → Forall (wf_trans n) ts → in_place w →
  ∃ g' w', fill_blocks n (block_trans_l_bytes f_id n ts) fd w =
      Val ((0, FunctionData (name fd) (flags fd) n g' (Live (zeroed n 0))), w') ∧ in_place w' ∧
    wf_graph n g' ∧ (∀ a b, edge g' a b ↔ listed ts a b) ∧
    (∀ a, 0 <= a < n → row_null g' a ↔ a ∉ te_id <$> ts).
Proof.
  intros Hf Hu Hz Hlen Hts Hw. unfold fill_blocks.
  destruct (calloc_in_place n (Null : cptr (list Z)) w Hw) as (w1 & H1 & Hw1).
  destruct (calloc_in_place n 0 w1 Hw1) as (w2 & H2 & Hw2).
  destruct (zeroed_graph n) as [Hno Hnull].
  destruct (block_transition_spec n ts (set_immediate_post_dominator (Live (zeroed n 0))
    (set_control_flow_graph (Live (zeroed n Null)) (set_nb_blocks n fd))) w2 Hu Hts Hw2 eq_refl)
    as (g3 & w3 & H3 & Hw3 & Hg3 & He3 & Hr3).
  { apply wf_graph_zeroed. by destruct Hu. }
  exists g3, w3. split; [|split; [done|split; [done|split]]].
  - cbn zeta. rewrite C_bind_eq, H1. cbn [non_null negb]. rewrite C_bind_eq, H2. cbn [non_null negb].
    unfold msg_block_trans_num_block_trans, msg_block_trans_list, block_trans_l_bytes.
    rewrite (app_assoc (le_bytes 4 f_id)), (field_le4_at _ _ _ 8) by (done || by rewrite length_app, !le_bytes_length).
    rewrite C_bind_eq, lift_Val, Nat2Z.id, app_assoc.
    rewrite drop_app_length' by (by rewrite !length_app, !le_bytes_length). exact H3.
  - intros a b. rewrite He3. cbn. split; [|by right]. intros [H|H]; [by destruct (Hno a b)|done].
  - intros a Ha. rewrite Hr3. cbn. split; [tauto|]. intros H. split; [by apply Hnull|done].
Qed.

(** The whole section of a function that has no block yet. *)
Lemma load_block_transition_spec n f ts md fd w :
  in_u 32 n → n ≠ 0 → in_u 32 (Z.of_nat (length ts)) → Forall (wf_trans n) ts →
  in_u 32 (nb_functions md) → 0 <= f < nb_functions md → function_at md f = Val fd → nb_blocks fd = 0 →
  in_place w →
  ∃ fs g w', let fd' := FunctionData (name fd) (flags fd) n g (Live (zeroed n 0)) in
    load_section_block_transition (Live (block_trans_l_bytes f n ts)) md w =
      Val ((0, set_functions (Live fs) md), w') ∧
    function_at (set_functions (Live fs) md) f = Val fd' ∧
    (∀ i j, edge g i j ↔ listed ts i j) ∧
    (∀ i, 0 <= i < n → row_null g i ↔ i ∉ te_id <$> ts) ∧
    (∀ k, k ≠ f → function_at (set_functions (Live fs) md) k = function_at md k).
Proof.
  intros Hu Hz Hlen Hts Hnf Hf Hfd Hnb Hw. assert (Huf : in_u 32 f) by (by eapply in_u_lt).
  destruct (fill_blocks_spec n f ts fd w Huf Hu Hz Hlen Hts Hw) as (g & w' & Hfill & _ & Hg & He & Hr).
  unfold function_at in Hfd. destruct (functions md) as [|fs|] eqn:Hfs; [done| |done].
  cbn [deref mbind res_bind] in Hfd. assert (Hlt := arr_get_lt _ _ _ Hfd).
  eexists (<[Z.to_nat f := _]> fs), g, w'. cbn zeta. split; [|split; [|split; [|split]]].
  - unfold load_section_block_transition. rewrite Hfs. cbn [non_null negb].
    rewrite decide_False by lia. cbn [deref]. rewrite C_bind_eq, lift_Val.
    unfold msg_block_trans_f_id, msg_block_trans_num_block, block_trans_l_bytes.
    rewrite field_le4, C_bind_eq, lift_Val, decide_False by (done || lia).
    unfold function_at. rewrite Hfs. cbn [deref mbind res_bind]. rewrite Hfd, C_bind_eq, lift_Val.
    rewrite decide_False by lia. rewrite (field_le4_at _ _ _ 4), C_bind_eq, lift_Val by (done || by rewrite le_bytes_length).
    rewrite decide_False by (destruct Hu; lia). rewrite C_bind_eq.
    unfold block_trans_l_bytes in Hfill. rewrite Hfill. cbn beta iota.
    unfold put_function. rewrite Hfs. cbn [deref mbind res_bind]. rewrite arr_set_in_range by done.
    cbn [mbind res_bind]. rewrite C_bind_eq, lift_Val. reflexivity.
  - unfold function_at. cbn [functions set_functions deref mbind res_bind].
    rewrite arr_get_insert by done. by rewrite decide_True.
  - done.
  - done.
  - intros k Hk. unfold function_at. rewrite Hfs. cbn [functions set_functions deref mbind res_bind].
    rewrite arr_get_insert by done. by rewrite decide_False.
Qed.
