(* ===== verification/Client.v ===== *)
(** * Run-time support of the monitored program (the injected code)

    The functions the pass inserts calls to.  They fill the static signal
    [_cs] and wait for the answer of the monitor; anything but an answer
    [CFI_OK] aborts the program. *)

From S2P Require Import Prelude CSem Wire.
From Stdlib Require Import Strings.Byte.

(** The static variables. *)
Record client_state := ClientState {
  _fd_client_to_monitor : Z;
  _fd_monitor_to_client : Z;
  _cs : client_signal;
}.

Definition client_start : client_state := ClientState (-1) (-1) (ClientSignal 0 (u16 (-1)) 0 0).

(** A function of the support returns to the program, or aborts it. *)
Inductive outcome := Returned | Aborted.

#[export] Instance outcome_eq_dec : EqDecision outcome.
Proof. solve_decision. Defined.

(** System calls on a negative descriptor fail. *)
Definition send_monitor (st : client_state) (cs : client_signal) : C outcome :=
  err ← (if decide (_fd_client_to_monitor st < 0) then mret 1 else WRITE_CLIENT_SIGNAL cs 0);
  if decide (err ≠ 0) then mret Aborted
  else
    '(ma, err) ← (if decide (_fd_monitor_to_client st < 0)
                  then mret (uninit sizeof_monitor_answer, 1)
                  else READ_MONITOR_ANSWER (uninit sizeof_monitor_answer) 0);
    if decide (err ≠ 0) then mret Aborted
    else
      event ← lift (obj_field ma 0 1);
      mret (if decide (event ≠ CFI_OK) then Aborted else Returned).

Definition __CFI_SET_FDS (fd_client_to_monitor fd_monitor_to_client : Z) (st : client_state) :
    client_state :=
  ClientState fd_client_to_monitor fd_monitor_to_client (_cs st).

Definition __CFI_SET_MODULE_ID (m_id : Z) (st : client_state) : client_state :=
  ClientState (_fd_client_to_monitor st) (_fd_monitor_to_client st)
    (ClientSignal (sig_event (_cs st)) (u16 m_id) (sig_function (_cs st)) (sig_block (_cs st))).

(** Assignments to [_cs.event], [_cs.function] and [_cs.block]. *)
Definition fill_cs (e : client_event) (f b : Z) (st : client_state) : client_state :=
  ClientState (_fd_client_to_monitor st) (_fd_monitor_to_client st)
    (ClientSignal (client_event_code e) (sig_module (_cs st)) (u32 f) (u32 b)).

(** [send_monitor(_cs)] *)
Definition send_cs (st : client_state) : C (outcome * client_state) :=
  o ← send_monitor st (_cs st); mret (o, st).

Definition __CFI_INTERNAL_ENTER (nFct : Z) (st : client_state) : C (outcome * client_state) :=
  send_cs (fill_cs CFI_ENTER nFct 0 st).
Definition __CFI_INTERNAL_EXIT (nFct : Z) (st : client_state) : C (outcome * client_state) :=
  send_cs (fill_cs CFI_EXIT nFct 0 st).
Definition __CFI_INTERNAL_CALL (nFct : Z) (st : client_state) : C (outcome * client_state) :=
  send_cs (fill_cs CFI_CALL nFct 0 st).
Definition __CFI_INTERNAL_RETURNED (nFct : Z) (st : client_state) : C (outcome * client_state) :=
  send_cs (fill_cs CFI_RETURNED nFct 0 st).
Definition __CFI_INTERNAL_BB_BEFORE_BR (f_id idBB : Z) (st : client_state) :
    C (outcome * client_state) :=
  send_cs (fill_cs CFI_BEFORE_JUMP f_id idBB st).
Definition __CFI_INTERNAL_BB_AFTER_BR (f_id idBB : Z) (st : client_state) :
    C (outcome * client_state) :=
  send_cs (fill_cs CFI_AFTER_JUMP f_id idBB st).

(** ** An instrumented program *)

(** The calls a program makes to the support, with the module it makes them
    from: each module has its own copy of the support. *)
Inductive client_call :=
| CallEnter (f : Z) | CallExit (f : Z) | CallCall (f : Z) | CallReturned (f : Z)
| CallBefore (f b : Z) | CallAfter (f b : Z).

Definition do_call (c : client_call) : client_state → C (outcome * client_state) :=
  match c with
  | CallEnter f => __CFI_INTERNAL_ENTER f
  | CallExit f => __CFI_INTERNAL_EXIT f
  | CallCall f => __CFI_INTERNAL_CALL f
  | CallReturned f => __CFI_INTERNAL_RETURNED f
  | CallBefore f b => __CFI_INTERNAL_BB_BEFORE_BR f b
  | CallAfter f b => __CFI_INTERNAL_BB_AFTER_BR f b
  end.

(** The signal of a call made from module [m]. *)
Definition call_signal (m : Z) (c : client_call) : client_signal :=
  match c with
  | CallEnter f => ClientSignal (client_event_code CFI_ENTER) m (u32 f) 0
  | CallExit f => ClientSignal (client_event_code CFI_EXIT) m (u32 f) 0
  | CallCall f => ClientSignal (client_event_code CFI_CALL) m (u32 f) 0
  | CallReturned f => ClientSignal (client_event_code CFI_RETURNED) m (u32 f) 0
  | CallBefore f b => ClientSignal (client_event_code CFI_BEFORE_JUMP) m (u32 f) (u32 b)
  | CallAfter f b => ClientSignal (client_event_code CFI_AFTER_JUMP) m (u32 f) (u32 b)
  end.

(** The program runs until it has made all its calls, or is aborted; the
    number of calls that returned. *)
Fixpoint run_calls (cs : list client_call) (st : client_state) : C (nat * outcome) :=
  match cs with
  | [] => mret (0%nat, Returned)
  | c :: cs =>
      '(o, st) ← do_call c st;
      match o with
      | Aborted => mret (0%nat, Aborted)
      | Returned => '(n, o) ← run_calls cs st; mret (S n, o)
      end
  end.

(** Connected: the descriptors were set. *)
Definition connected (st : client_state) : Prop :=
  0 <= _fd_client_to_monitor st ∧ 0 <= _fd_monitor_to_client st.

(** Number of answers [CFI_OK] at the head of the incoming pipe. *)
Definition is_ok_packet (p : list byte) : bool :=
  match p with [] => false | b :: _ => bool_decide (byte_to_Z b = CFI_OK) end.

Fixpoint ok_answers (ps : list (list byte)) : nat :=
  match ps with
  | [] => 0
  | p :: ps => if is_ok_packet p then S (ok_answers ps) else 0
  end.

(** ** Lemmas *)

Lemma do_call_signal c st :
  ∃ st', do_call c st = send_cs st' ∧ _cs st' = call_signal (sig_module (_cs st)) c ∧
    _fd_client_to_monitor st' = _fd_client_to_monitor st ∧
    _fd_monitor_to_client st' = _fd_monitor_to_client st.
Proof. destruct c; by eexists. Qed.

(** One exchange, when writes complete. *)
Lemma send_monitor_eq st cs w :
  connected st → Forall (λ b, b = true) (w_write w) →
  ∃ w', send_monitor st cs w =
      Val (match w_sig w with p :: _ => if is_ok_packet p then Returned else Aborted | [] => Aborted end, w') ∧
    w_out w' = w_out w ++ [OSig (client_signal_bytes cs)] ∧ w_sig w' = tail (w_sig w) ∧
    Forall (λ b, b = true) (w_write w') ∧ w_load w' = w_load w ∧
    w_log w' = w_log w ++ [Sent PSig (client_signal_bytes cs); match w_sig w with p :: _ => Got PSig p | [] => Eof PSig end].
Proof.
  intros [H1 H2] Hw. unfold send_monitor. rewrite C_bind_eq.
  rewrite (decide_False (P := _fd_client_to_monitor st < 0)) by lia.
  unfold WRITE_CLIENT_SIGNAL. rewrite C_bind_eq. unfold write_bytes.
  assert (Hok : match w_write w with [] => true | b :: _ => b end = true).
  { destruct Hw; [done|by subst]. }
  rewrite Hok, C_ret_eq. rewrite decide_False by (by intros []). rewrite C_bind_eq.
  rewrite (decide_False (P := _fd_monitor_to_client st < 0)) by lia.
  unfold READ_MONITOR_ANSWER, read_sig. rewrite C_bind_eq. cbn [w_sig].
  assert (Ht : Forall (λ b, b = true) (tail (w_write w))) by (by destruct Hw).
  assert (Hlog : ∀ a, (w_log w ++ sent_of (OSig (client_signal_bytes cs))) ++ [a] =
    w_log w ++ [Sent PSig (client_signal_bytes cs); a]) by (intros; by rewrite <- app_assoc).
  destruct (w_sig w) as [|[|b p] ps]; rewrite C_ret_eq.
  - eexists. split_and!; try done. apply Hlog.
  - eexists. split_and!; try done. apply Hlog.
  - eexists. split.
    + assert (Hobj : obj_field (overlay (Some <$> take sizeof_monitor_answer (b :: p))
                       (uninit sizeof_monitor_answer)) 0 1 = Val (byte_to_Z b)).
      { transitivity (Val (byte_to_Z b + 256 * 0)); [done|]. f_equal. lia. }
      rewrite Hobj. match goal with |- (if decide (?x ≠ 0) then _ else _) _ = _ =>
        change x with 0 end.
      rewrite decide_False by (by intros []). rewrite C_bind_eq, lift_Val.
      unfold is_ok_packet. case_bool_decide as Hb; rewrite ?decide_False, ?decide_True by tauto; done.
    + split_and!; try done. apply Hlog.
Qed.

(** A program makes one call more than it gets answers [CFI_OK]. *)
Lemma run_calls_spec cs : ∀ st w,
  connected st → Forall (λ b, b = true) (w_write w) →
  ∃ w', run_calls cs st w =
      Val ((Nat.min (length cs) (ok_answers (w_sig w)),
            if decide (length cs <= ok_answers (w_sig w))%nat then Returned else Aborted), w') ∧
    w_out w' = w_out w ++
      ((λ c, OSig (client_signal_bytes (call_signal (sig_module (_cs st)) c))) <$>
         take (S (ok_answers (w_sig w))) cs).
Proof.
  induction cs as [|c cs IH]; intros st w Hc Hw.
  { exists w. cbn [run_calls length take fmap list_fmap]. 
    rewrite app_nil_r, decide_True by lia. done. }
  destruct (do_call_signal c st) as (st1 & Hcall & Hcs & Hf1 & Hf2).
  assert (Hc1 : connected st1) by (unfold connected; by rewrite Hf1, Hf2).
  destruct (send_monitor_eq st1 (_cs st1) w Hc1 Hw) as (w1 & Hsend & Hout & Hsig & Hw1 & _).
  cbn [run_calls]. rewrite C_bind_eq, Hcall. unfold send_cs. rewrite C_bind_eq, Hsend.
  cbn [length]. destruct (w_sig w) as [|p ps] eqn:Es; cbn [ok_answers].
  { exists w1. rewrite C_ret_eq, Nat.min_0_r. rewrite decide_False by lia. cbn [take fmap list_fmap].
    by rewrite Hout, Hcs. }
  destruct (is_ok_packet p) eqn:Hp.
  - destruct (IH st1 w1 Hc1 Hw1) as (w2 & Hrun & Hout2). exists w2.
    rewrite C_ret_eq, C_bind_eq, Hrun. cbn [tail] in Hsig. rewrite Hsig in *. split.
    + rewrite <- Nat.succ_min_distr. rewrite C_ret_eq. do 3 f_equal.
      repeat case_decide; done || lia.
    + rewrite Hout2, Hout, Hcs. cbn [take fmap list_fmap].
      assert (Hm : sig_module (call_signal (sig_module (_cs st)) c) = sig_module (_cs st)) by (by destruct c).
      by rewrite Hm, <- app_assoc.
  - exists w1. rewrite C_ret_eq, Nat.min_0_r. rewrite decide_False by lia. cbn [take fmap list_fmap].
    rewrite Hout, Hcs. done.
Qed.

(** What the client sends fits the fields of a signal. *)
Lemma call_signal_wf m c : in_u 16 m → wf_signal (call_signal m c).
Proof.
  intros Hm. assert (Hu : ∀ z, in_u 32 (u32 z)) by (intros z; apply Z.mod_pos_bound; done).
  destruct c; by repeat split; try apply Hu; try apply Hm.
Qed.
