(* ===== verification/Main.v ===== *)
(** * The monitor program (monitor/src/main.c) *)

From S2P Require Import Prelude CSem Wire CStack BlockStack CallStack MonitorData.
From S2P Require Import MonitorRun LoadSections Relocate Dot MonitorLoad.

(** What [main] learns from the system, besides the world of the pipes. *)
Record startup := Startup {
  getenv_LD_PRELOAD : bool;
  getenv_FD_CLIENT_TO_MONITOR : bool;
  getenv_FD_MONITOR_TO_CLIENT : bool;
  getenv_FD_LOADING_TO_MONITOR : bool;
  getenv_FD_MONITOR_TO_LOADING : bool;
  argc : Z;
  getenv_SM_TRACE : bool;
  getenv_SM_DUMP : bool;
  pipe_results : Z * Z * Z * Z;   (* the four calls of pipe2, in order *)
  fork_result : Z;
  sigaction_result : Z;           (* in mask_sigpipe *)
}.

(** [while((i < n) && !err)] around [WRITE_MONITOR_ANSWER]: [n] iterations left. *)
Fixpoint preload_loop (n : nat) (err : Z) : C Z :=
  match n with
  | O => mret err
  | S n =>
      if decide (err ≠ 0) then mret err
      else err ← WRITE_MONITOR_ANSWER CFI_OK err; preload_loop n err
  end.

(** [nb += data.modules[i].nb_entrypoint_finis]: [n] iterations left, from [i]. *)
Fixpoint count_finis (n : nat) (i : Z) (data : monitor_data) (nb : Z) : res Z :=
  match n with
  | O => Val nb
  | S n =>
      md ← module_at data i;
      count_finis n (i + 1) data (u32 (nb + nb_entrypoint_finis md))
  end.

(** After a successful load: the preloaded answers, the run of the program,
    the runs of its termination functions.  [err] is an [unsigned int]; the
    value the preloading leaves in it is overwritten. *)
Definition main_runs (opts : options) (data : monitor_data) : C Z :=
  _ ← (if decide (0 < OPTION_nb_preload_monitor_ok_answers opts)
       then preload_loop (Z.to_nat (OPTION_nb_preload_monitor_ok_answers opts)) 0
       else mret 0);
  err ← monitor_run opts data;
  if decide (u32 err ≠ 0) then mret (u32 err)
  else
    nb ← lift (count_finis (Z.to_nat (nb_modules data)) 0 data 0);
    err ← run_times (Z.to_nat nb) opts data;
    mret (u32 err).

(** The branch of the monitor process.  [data] is only initialised by
    [monitor_load]: [None] stands for its contents before. *)
Definition monitor_process (opts : options) (sigaction_result : Z) : C Z :=
  '(err, data) ←
    (if decide (u32 sigaction_result ≠ 0) then mret (u32 sigaction_result, None)
     else
       '(e, data) ← monitor_load opts;
       if decide (u32 e ≠ 0) then mret (u32 e, Some data)
       else err ← main_runs opts data; mret (err, Some data));
  _ ← (if decide (err ≠ 0) then emit OKill else mret ());
  _ ← lift (match data with
            | None => Undef UninitRead
            | Some data => monitor_data_free data
            end);
  mret (s32 err).

(** The options as the environment sets them. *)
Definition set_options (env : startup) (opts : options) : options :=
  Options (if getenv_SM_TRACE env then true else OPTION_sm_trace opts)
          (if getenv_SM_DUMP env then true else OPTION_sm_dump opts)
          (OPTION_nb_preload_monitor_ok_answers opts) (TIMEOUT opts).

(** The branch of the client process: [execve] does not return when it
    succeeds; the status is that of a failed [execve]. *)
Definition client_process : C Z := _ ← emit OExec; mret (-4).

Definition main (env : startup) (opts : options) : C Z :=
  let '(p1, p2, p3, p4) := pipe_results env in
  if getenv_LD_PRELOAD env then mret (-1)
  else if getenv_FD_CLIENT_TO_MONITOR env || getenv_FD_MONITOR_TO_CLIENT env ||
          getenv_FD_LOADING_TO_MONITOR env || getenv_FD_MONITOR_TO_LOADING env then mret (-1)
  else if decide (argc env < 2) then mret (-2)
  else
    let opts := set_options env opts in
    if decide (p1 ≠ 0) then mret (-3)
    else if decide (p2 ≠ 0) then mret (-3)
    else if decide (p3 ≠ 0) then mret (-3)
    else if decide (p4 ≠ 0) then mret (-3)
    else if decide (0 < fork_result env) then monitor_process opts (sigaction_result env)
    else if decide (fork_result env = 0) then client_process
    else mret (-5).
