(* ===== verification/Sessions.v ===== *)
(** * Monitored sessions

    The runs [main] makes one after the other: the program, then its
    termination functions.  A session is accepted exactly when the signals of
    the client are that many traces of entry points, in a row. *)

From S2P Require Import Prelude CSem Wire CStack BlockStack CallStack MonitorData.
From S2P Require Import MonitorRun RunSpec RunRefine RunTotal LoadSections Relocate Dot.
From S2P Require Import MonitorLoad LoadWf Main.
From Stdlib Require Import Strings.Byte.

(** [n] traces in a row, and the signals after them. *)
Inductive session (data : monitor_data) : nat → list client_signal → list client_signal → Prop :=
| session_nil sigs : session data 0 sigs sigs
| session_run n tr sigs rest :
    run_trace data tr → session data n sigs rest → session data (S n) (tr ++ sigs) rest.

(** ** Answers *)

Abbreviation load_answers := (output PLoad).
Abbreviation sig_answers := (output PSig).

Lemma output_app p out1 out2 : output p (out1 ++ out2) = output p out1 ++ output p out2.
Proof. apply omap_app. Qed.

(** From [w] to [w'] the monitor has answered each signal it has taken, at least,
    and said nothing but [CFI_OK]. *)
Definition answered (w w' : world) : Prop := ∃ k,
  sig_answers (w_out w') = sig_answers (w_out w) ++ replicate k (le_bytes 1 CFI_OK) ∧
  (length (w_sig w) <= k + length (w_sig w'))%nat.

#[export] Instance answered_preorder : PreOrder answered.
Proof.
  split.
  - intros w. exists 0%nat. split; [by rewrite app_nil_r|done].
  - intros w1 w2 w3 (k1 & O1 & S1) (k2 & O2 & S2). exists (k1 + k2)%nat.
    split; [by rewrite O2, O1, replicate_add, app_assoc|lia].
Qed.

Lemma served_answered k w w' : served k w w' → (length (w_sig w) <= k + length (w_sig w'))%nat → answered w w'.
Proof.
  intros (_ & Ho & _) Hk. exists k. split; [|done]. rewrite Ho, output_app. f_equal.
  clear. induction k as [|k IH]; [done|]. cbn [replicate]. rewrite <- IH. done.
Qed.

Lemma quiet_answered w w' : sig_answers (w_out w') = sig_answers (w_out w) → w_sig w' = w_sig w → answered w w'.
Proof. intros Ho Hs. exists 0%nat. rewrite Ho, Hs, app_nil_r. done. Qed.

(** The monitor reads the signals that were written. *)
Lemma signal_of_bytes s : wf_signal s → signal_of_packet (client_signal_bytes s) = s.
Proof.
  intros Hs. pose proof (get_event_bytes s Hs) as H1. pose proof (get_module_bytes s Hs) as H2.
  pose proof (get_function_bytes s Hs) as H3. pose proof (get_block_bytes s Hs) as H4.
  unfold get_event, get_module, get_function, get_block, obj_field in *.
  rewrite <- fmap_drop, <- fmap_take, mapM_id_Some in H1, H2, H3, H4.
  rewrite drop_0 in H1. repeat (case_decide; [|done]). unfold signal_of_packet.
  apply (inj Val) in H1, H2, H3, H4. rewrite H1, H2, H3, H4. by destruct s.
Qed.

Lemma signals_of_bytes sigs : Forall wf_signal sigs → signal_of_packet <$> (client_signal_bytes <$> sigs) = sigs.
Proof.
  intros Hwf. rewrite <- list_fmap_compose. rewrite <- (list_fmap_id sigs) at 2. apply list_fmap_ext. intros i s Hi.
  apply signal_of_bytes. by eapply Forall_lookup_1 in Hwf.
Qed.

(** ** Runs *)

Section Runs.
Context (opts : options) (data : monitor_data) (Hready : run_ready data).

(** The signals the monitor will read. *)
Definition signals (w : world) : list client_signal := signal_of_packet <$> w_sig w.

(** A small status keeps its meaning as an [unsigned int]. *)
Lemma small_u32 e : small e → u32 e = 0 → e = 0.
Proof using Type.
  unfold small, u32. intros He Hu. destruct (decide (e = -1)) as [->|]; [done|].
  by rewrite Z.mod_small in Hu by lia.
Qed.

Lemma monitor_run_no_signal w :
  favourable w → w_sig w = [] → monitor_run opts data w = Undef UninitRead.
Proof using Type.
  intros Hfav Hw.
  destruct (contract_init (init := call_stack_init) w (proj1 Hfav)) as (bc & cst & w1 & Hi1 & Hc & Hq1).
  destruct (quiet_served _ _ Hfav Hq1) as [Hs1 Hw1].
  destruct (contract_init (init := block_stack_init) w1 (proj1 (proj1 Hs1)))
    as (bb & bst & w2 & Hi2 & Hb & Hq2).
  destruct (quiet_served _ _ (proj1 Hs1) Hq2) as [Hs2 Hw2].
  destruct (timeout_favourable opts w2 0 (proj1 Hs2)) as (w3 & Ht & Hs3 & Hw3).
  unfold monitor_run. rewrite C_bind_eq, Hi1. cbn beta iota. rewrite decide_False by (by intros []).
  rewrite C_bind_eq, Hi2. cbn beta iota. rewrite decide_False by (by intros []).
  cbn zeta. rewrite C_bind_eq. cbn [error initial_state]. rewrite Ht, decide_False by (by intros []).
  rewrite C_bind_eq, read_signal_eof by congruence. cbn beta iota. rewrite C_bind_eq.
  done.
Qed.

(** One run. *)
Lemma monitor_run_accepts w w' :
  favourable w → Forall full_packet (w_sig w) → monitor_run opts data w = Val (0, w') →
  ∃ tr, run_trace data tr ∧ signals w = tr ++ signals w' ∧ served (length tr) w w' ∧
    Forall full_packet (w_sig w').
Proof using Hready.
  intros Hfav Hps Hrun. destruct (decide (w_sig w = [])) as [Hw|Hw].
  { by rewrite monitor_run_no_signal in Hrun. }
  pose proof (monitor_run_verdict opts data Hready w Hfav Hps Hw) as Hout.
  destruct (arun data 0 Idle _) as [k rest|k] eqn:Hv.
  - destruct Hout as (w1 & Hr & Hs & Hsig). assert (w1 = w') as -> by congruence.
    apply arun_accepts_iff in Hv as (tr & Htr & Heq & ->). exists tr. split; [done|].
    assert (Hrest : signals w' = rest).
    { unfold signals. rewrite Hsig, fmap_drop, Heq. by rewrite drop_app_length. }
    split; [by rewrite Hrest|]. split; [done|]. rewrite Hsig. by apply Forall_drop.
  - destruct Hout as [(e & w1 & tr & Hr & He & _)|[Hr _]]; [|congruence].
    rewrite Hrun in Hr. injection Hr as <- <-. unfold refusal in He. lia.
Qed.

Lemma monitor_run_accepted tr rest w :
  favourable w → Forall full_packet (w_sig w) → run_trace data tr → signals w = tr ++ rest →
  ∃ w', monitor_run opts data w = Val (0, w') ∧ signals w' = rest ∧ served (length tr) w w' ∧
    Forall full_packet (w_sig w').
Proof using Hready.
  intros Hfav Hps Htr Hsig.
  assert (Hv : arun data 0 Idle (signals w) = Accept (length tr) rest).
  { apply arun_accepts_iff. by exists tr. }
  assert (Hne : w_sig w ≠ []).
  { intros Hw. unfold signals in Hv. rewrite Hw in Hv. done. }
  pose proof (monitor_run_verdict opts data Hready w Hfav Hps Hne) as Hout.
  fold (signals w) in Hout. rewrite Hv in Hout. destruct Hout as (w' & Hr & Hs & Hw'). exists w'.
  split; [done|]. split.
  - unfold signals. rewrite Hw', fmap_drop. fold (signals w). by rewrite Hsig, drop_app_length.
  - split; [done|]. rewrite Hw'. by apply Forall_drop.
Qed.

(** A run that is not accepted, on data whose rows are all there, is refused. *)
Lemma monitor_run_refused w :
  favourable w → Forall full_packet (w_sig w) → w_sig w ≠ [] → full_rows data →
  (∀ w', monitor_run opts data w ≠ Val (0, w')) →
  ∃ e w' k tr, monitor_run opts data w = Val (e, w') ∧ refusal e ∧
    arun data 0 Idle (signals w) = Reject k ∧
    w_out w' = w_out w ++ replicate k ok_answer ++ tr ∧ Forall is_trace tr.
Proof using Hready.
  intros Hfav Hps Hne Hrows Hno. pose proof (monitor_run_verdict opts data Hready w Hfav Hps Hne) as Hout.
  fold (signals w) in Hout. destruct (arun data 0 Idle (signals w)) as [k rest|k].
  - destruct Hout as (w' & Hr & _). by destruct (Hno w').
  - destruct Hout as [(e & w' & tr & Hr & He & Ho & Htr)|[_ Hnf]]; [|done]. by exists e, w', k, tr.
Qed.

(** It has answered. *)
Lemma accepted_answered tr rest w w' : signals w = tr ++ rest → signals w' = rest → served (length tr) w w' → answered w w'.
Proof using Type.
  intros Hsig <- Hs. apply (served_answered _ _ _ Hs). apply (f_equal length) in Hsig. unfold signals in Hsig.
  rewrite length_app, !length_fmap in Hsig. lia.
Qed.

(** Several runs that are accepted. *)
Lemma run_times_session_ok n : ∀ w, favourable w → Forall full_packet (w_sig w) → ∀ rest,
  session data n (signals w) rest → ∃ w', run_times n opts data w = Val (0, w') ∧ signals w' = rest ∧
    favourable w' ∧ Forall full_packet (w_sig w') ∧ w_load w' = w_load w ∧ answered w w'.
Proof using Hready.
  induction n as [|n IH]; intros w Hfav Hps rest H; cbn [run_times].
  { inversion H; subst. exists w. by split_and!. }
  inversion H as [|? tr sigs ? Htr Hrest Heq]; subst.
  destruct (monitor_run_accepted tr sigs w Hfav Hps Htr) as (w1 & Hr & Hsig & Hs & Hps1); [done|].
  rewrite <- Hsig in Hrest. destruct (IH w1 (proj1 Hs) Hps1 rest Hrest) as (w' & Hrun & Hsig' & ? & ? & Hl & Han).
  assert (Han1 : answered w w1) by (eapply accepted_answered; done).
  destruct Hs as (_ & _ & Hl1). exists w'. rewrite C_bind_eq, Hr. rewrite decide_False by (by intros []).
  split_and!; try done; [congruence|by etrans].
Qed.

(** Several runs. *)
Lemma run_times_iff n : ∀ w, favourable w → Forall full_packet (w_sig w) → ∀ rest,
  (∃ w', run_times n opts data w = Val (0, w') ∧ signals w' = rest) ↔ session data n (signals w) rest.
Proof using Hready.
  induction n as [|n IH]; intros w Hfav Hps rest; cbn [run_times].
  { split.
    - intros (w' & [= ->] & <-). constructor.
    - intros H. inversion H; subst. by exists w. }
  split.
  - intros (w' & Hrun & <-). rewrite C_bind_eq in Hrun.
    destruct (monitor_run opts data w) as [[e w1]| |] eqn:Hr; [|done|done].
    case_decide as He; [by injection Hrun|]. assert (e = 0) as -> by lia.
    destruct (monitor_run_accepts w w1 Hfav Hps Hr) as (tr & Htr & -> & Hs & Hps1).
    constructor; [done|]. apply IH; [apply Hs|done|]. by exists w'.
  - intros H%(run_times_session_ok (S n) w Hfav Hps rest). destruct H as (w' & Hrun & Hsig & _). by exists w'.
Qed.

Lemma preload_loop_served n : ∀ w, favourable w →
  ∃ w', preload_loop n 0 w = Val (0, w') ∧ served n w w' ∧ w_sig w' = w_sig w.
Proof using Type.
  induction n as [|n IH]; intros w Hfav; cbn [preload_loop].
  { exists w. split; [done|]. split; [by apply served_0_refl|done]. }
  rewrite decide_False by (by intros []). rewrite C_bind_eq.
  destruct (write_answer_favourable w 0 Hfav) as (w1 & -> & Hs1 & Hw1).
  destruct (IH w1 (proj1 Hs1)) as (w2 & -> & Hs2 & Hw2). exists w2. split; [done|].
  split; [by apply (served_trans 1 n _ w1)|congruence].
Qed.

(** The status of several runs. *)
Lemma run_times_small n : ∀ w e w', run_times n opts data w = Val (e, w') → small e.
Proof using Type.
  induction n as [|n IH]; intros w e w' Hrun; cbn [run_times] in Hrun; inv_C; [done|].
  apply monitor_run_small in E. case_decide; inv_C; [done|]. by eapply IH.
Qed.

(** The preloaded answers leave the signals alone. *)
Lemma preload_ok w : favourable w →
  ∃ w1, (if decide (0 < OPTION_nb_preload_monitor_ok_answers opts)
         then preload_loop (Z.to_nat (OPTION_nb_preload_monitor_ok_answers opts)) 0
         else mret 0) w = Val (0, w1) ∧ favourable w1 ∧ w_sig w1 = w_sig w ∧ answered w w1.
Proof using Type.
  intros Hfav. case_decide; [|by exists w; split_and!].
  destruct (preload_loop_served (Z.to_nat (OPTION_nb_preload_monitor_ok_answers opts)) w Hfav)
    as (w1 & ? & Hs & Heq). exists w1. split; [done|]. split; [apply Hs|]. split; [done|].
  apply (served_answered _ _ _ Hs). rewrite Heq. lia.
Qed.

(** When they are accepted, the signals taken are a session, and were answered. *)
Lemma main_runs_accepted w nb w' : favourable w → Forall full_packet (w_sig w) →
  count_finis (Z.to_nat (nb_modules data)) 0 data 0 = Val nb → main_runs opts data w = Val (0, w') →
  session data (S (Z.to_nat nb)) (signals w) (signals w') ∧ answered w w'.
Proof using Hready.
  intros Hfav Hps Hnb Hrun. destruct (preload_ok w Hfav) as (w1 & Hpre & Hfav1 & Hsig1 & Han1).
  assert (Hs1 : signals w = signals w1) by (unfold signals; by rewrite Hsig1).
  rewrite Hs1. rewrite <- Hsig1 in Hps. unfold main_runs in Hrun. rewrite C_bind_eq, Hpre, C_bind_eq in Hrun.
  destruct (monitor_run opts data w1) as [[e w2]| |] eqn:Hr; [|done|done].
  destruct (decide (u32 e ≠ 0)) as [He|He]; [by injection Hrun|]. assert (Hu : u32 e = 0) by lia.
  apply small_u32 in Hu as ->; [|by eapply monitor_run_small].
  destruct (monitor_run_accepts w1 w2 Hfav1 Hps Hr) as (tr & Htr & Hsig2 & Hs & Hps2).
  assert (Han2 : answered w1 w2) by (eapply accepted_answered; done).
  rewrite Hnb, C_bind_eq, lift_Val, C_bind_eq in Hrun.
  destruct (run_times _ opts data w2) as [[e2 w3]| |] eqn:Hr2; [|done|done].
  injection Hrun as Hu2 <-. apply small_u32 in Hu2 as ->; [|by eapply run_times_small].
  assert (Hses : session data (Z.to_nat nb) (signals w2) (signals w3)).
  { apply run_times_iff; [apply Hs|done|]. by exists w3. }
  split; [rewrite Hsig2; by constructor|].
  destruct (run_times_session_ok _ w2 (proj1 Hs) Hps2 _ Hses) as (w4 & Hr4 & _ & _ & _ & _ & Han4).
  rewrite Hr2 in Hr4. injection Hr4 as <-. by do 2 (etrans; [eassumption|]).
Qed.

(** The program and its termination functions. *)
Lemma main_runs_iff w nb rest : favourable w → Forall full_packet (w_sig w) →
  count_finis (Z.to_nat (nb_modules data)) 0 data 0 = Val nb →
  (∃ w', main_runs opts data w = Val (0, w') ∧ signals w' = rest) ↔ session data (S (Z.to_nat nb)) (signals w) rest.
Proof using Hready.
  intros Hfav Hps Hnb. split.
  { intros (w' & Hrun & <-). by apply main_runs_accepted. }
  destruct (preload_ok w Hfav) as (w1 & Hpre & Hfav1 & Hsig1 & _).
  assert (Hs1 : signals w = signals w1) by (unfold signals; by rewrite Hsig1).
  rewrite Hs1. rewrite <- Hsig1 in Hps. unfold main_runs.
  intros H. inversion H as [|? tr sigs ? Htr Hrest Heq]; subst.
  destruct (monitor_run_accepted tr sigs w1 Hfav1 Hps Htr) as (w2 & Hr & Hsig & Hs & Hps2); [done|].
  rewrite <- Hsig in Hrest. apply run_times_iff in Hrest as (w3 & Hrun & Hw3); [|apply Hs|done].
  exists w3. rewrite C_bind_eq, Hpre, C_bind_eq, Hr, decide_False by (by intros []).
  by rewrite Hnb, C_bind_eq, lift_Val, C_bind_eq, Hrun.
Qed.

Lemma main_runs_session w nb : favourable w → Forall full_packet (w_sig w) →
  count_finis (Z.to_nat (nb_modules data)) 0 data 0 = Val nb →
  (∃ w', main_runs opts data w = Val (0, w')) ↔
  ∃ rest, session data (S (Z.to_nat nb)) (signals w) rest.
Proof using Hready.
  intros Hfav Hps Hnb. setoid_rewrite <- (main_runs_iff w nb _ Hfav Hps Hnb). naive_solver.
Qed.

End Runs.

(** ** The process *)

(** A failure anywhere kills the client: it is the last thing the monitor does. *)
Lemma monitor_process_kills opts r w s w' :
  monitor_process opts r w = Val (s, w') → s ≠ 0 → ∃ out, w_out w' = out ++ [OKill].
Proof.
  unfold monitor_process. intros H Hs. inv_C. destruct a as [err data]. inv_C.
  case_decide as He; [|exfalso; apply Hs; by replace err with 0 by lia].
  unfold emit in *. inv_C. cbn. by eexists.
Qed.

Lemma compute_relocations_small data mid fatal e data' :
  compute_relocations_of_module data mid fatal = Val (e, data') → small e.
Proof.
  unfold compute_relocations_of_module. intros H. inv_res. destruct a0. inv_res.
  match goal with E : relocation_loop _ _ _ _ _ _ = _ |- _ =>
    by apply relocation_loop_spec in E as (_ & [->| ->] & _) end.
Qed.

Lemma relocate_all_small n : ∀ i data e data', relocate_all n i data = Val (e, data') → small e.
Proof.
  induction n as [|n IH]; intros i data e data' H; cbn [relocate_all] in H; inv_res; [done|].
  destruct a as [e2 data2]. case_decide; inv_res; [|by eapply IH].
  by eapply compute_relocations_small.
Qed.

Lemma modules_loop_small opts fuel : ∀ data w e data' w',
  modules_loop fuel opts data w = Val ((e, data'), w') → small e.
Proof.
  induction fuel as [|fuel IH]; intros data w e data' w' H; cbn [modules_loop] in H; [done|]. inv_C.
  destruct a as [r data1]. case_decide; inv_C; [done|]. case_decide; inv_C.
  { unfold monitor_load_module in E. inv_C. destruct a as [pkt err]. case_decide; inv_C; [done|].
    destruct (loading_event_case a) as [[]|]; inv_C; try done.
    destruct a0 as [e1 mon1]. case_decide; inv_C; [done|]. destruct a1 as [[e2 pkt2] md2]. inv_C.
    by case_decide. }
  destruct a as [e1 data2]. case_decide; inv_C; [|by eapply IH].
  unfold start_module in E0. inv_C. destruct a as [e2 data3]. case_decide; inv_C; [|by eapply run_times_small].
  by eapply compute_relocations_small.
Qed.

Lemma monitor_load_small opts w e data w' : monitor_load opts w = Val ((e, data), w') → small e.
Proof.
  unfold monitor_load. intros H. inv_C. destruct a as [e1 data1]. apply modules_loop_small in E.
  case_decide; inv_C; [done|]. by eapply relocate_all_small.
Qed.

(** Conversions of the status. *)
Lemma s32_u32 z : s32 (u32 z) = 0 → u32 z = 0.
Proof.
  unfold s32, u32. rewrite Zmod_mod. pose proof (Z.mod_pos_bound z (2 ^ 32) ltac:(done)) as Hz.
  set (x := z mod 2 ^ 32) in *. clearbody x. change (2 ^ 32) with 4294967296 in *.
  case_decide; lia.
Qed.

Lemma main_runs_u32 opts data w e w' :
  main_runs opts data w = Val (e, w') → s32 e = 0 → e = 0.
Proof.
  unfold main_runs. intros H. inv_C. case_decide; inv_C; apply s32_u32.
Qed.

(** Success: the data were loaded, then the runs were accepted. *)
Lemma monitor_process_inv opts r w w' :
  monitor_process opts r w = Val (0, w') →
  ∃ data w1, monitor_load opts w = Val ((0, data), w1) ∧ main_runs opts data w1 = Val (0, w').
Proof.
  unfold monitor_process. intros H. inv_C. destruct a as [err data]. inv_C.
  assert (Herr : err = 0 ∧ ∃ d, data = Some d ∧ ∃ w1, monitor_load opts w = Val ((0, d), w1) ∧
    main_runs opts d w1 = Val (0, w0)).
  { destruct (decide (u32 r ≠ 0)) as [Hr|Hr]; inv_C.
    destruct a1 as [e d]. destruct (decide (u32 e ≠ 0)) as [He|He]; inv_C; [by apply s32_u32 in H|].
    assert (e = 0) as -> by (apply small_u32; [by eapply monitor_load_small|lia]).
    assert (Herr : err = 0) by (eapply main_runs_u32; eassumption).
    subst err. split; [done|]. exists d. split; [done|]. by exists w2. }
  destruct Herr as (-> & d & -> & w2 & Hload & Hruns).
  rewrite decide_False in E0 by (by intros []). inv_C. by exists d, w2.
Qed.
