(* ===== verification/LoadRuns.v ===== *)
(** * The initialisation runs made while loading

    The loader checks the initialisation functions of each module as soon as
    it is loaded, on the modules loaded so far.  What it reads from the client
    is, module by module, that many traces of the grammar of [RunSpec]; an
    external function that no module defines yet is called as function 0 of
    module 0. *)

From S2P Require Import Prelude CSem Wire CStack BlockStack CallStack MonitorData.
From S2P Require Import MonitorRun RunSpec RunRefine RunTotal LoadSections Relocate Dot.
From S2P Require Import MonitorLoad LoadWf LoadTotal LoadFree Main Sessions.
From Stdlib Require Import Strings.Byte.

(** ** Computations that leave the client alone *)

(** No signal is read; the answers of the system are taken in order. *)
Definition steady {A} (m : C A) : Prop := ∀ w a w',
  m w = Val (a, w') → w_sig w' = w_sig w ∧ answers_left w w'.

(** What [monitor_run] needs of the world. *)
Definition well_served (w : world) : Prop := favourable w ∧ Forall full_packet (w_sig w).

Lemma suffix_Forall {A} (P : A → Prop) l l' : l' `suffix_of` l → Forall P l → Forall P l'.
Proof. intros [k ->] H%Forall_app. apply H. Qed.

Lemma answers_left_favourable w w' : answers_left w w' → favourable w → favourable w'.
Proof.
  intros (Ha & Hs & Hw) (Fa & Fw & Fs). unfold favourable, in_place in *.
  split_and!; by eapply suffix_Forall.
Qed.

Lemma steady_served {A} (m : C A) w a w' :
  steady m → m w = Val (a, w') → well_served w → well_served w' ∧ signals w' = signals w.
Proof.
  intros Hm [Hsig Hans]%Hm [Hfav Hps]. unfold well_served, signals. rewrite Hsig.
  split; [|done]. split; [by eapply answers_left_favourable|done].
Qed.

Lemma tame_steady {A} (m : C A) : tame m → steady m.
Proof. intros Hm w a w' E. specialize (Hm w). rewrite E in Hm. by destruct Hm as (? & _ & ?). Qed.

Lemma steady_bind {A B} (m : C A) (f : A → C B) : steady m → (∀ a, steady (f a)) → steady (m ≫= f).
Proof.
  intros Hm Hf w b w' (a & w1 & [E1 A1]%Hm & [E2 A2]%Hf)%C_bind_inv.
  split; [congruence|by etrans].
Qed.

Lemma steady_world {A} (f : world → C A) : (∀ w, steady (f w)) → steady (λ w, f w w).
Proof. intros Hf w a w'. apply Hf. Qed.

Lemma steady_read_load n : steady (read_load n).
Proof.
  unfold read_load. intros w a w' H. destruct (w_load w) eqn:E; injection H as <- <-; done.
Qed.

Ltac steady_step :=
  match goal with
  | |- steady (_ ≫= _) => apply steady_bind; [|intros ?]
  | |- steady (if decide _ then _ else _) => case_decide
  | |- steady (match ?x with _ => _ end) => destruct x
  | |- steady (read_load _) => apply steady_read_load
  | |- _ => solve [eauto | apply tame_steady; solve_tame]
  end.
Ltac solve_steady := repeat steady_step.

Lemma steady_READ_LOADING_PACKET dst err : steady (READ_LOADING_PACKET dst err).
Proof. unfold READ_LOADING_PACKET. solve_steady. Qed.

Lemma steady_sections_loop opts fuel : ∀ pkt md, steady (sections_loop fuel opts pkt md).
Proof.
  pose proof steady_READ_LOADING_PACKET.
  pose proof (λ opts e v md, tame_steady _ (tame_load_section opts e v md)).
  induction fuel as [|fuel IH]; intros pkt md; cbn [sections_loop]; [by intros ???|].
  unfold pkt_event_of. solve_steady.
Qed.

Lemma steady_monitor_load_module opts mon : steady (monitor_load_module opts mon).
Proof.
  pose proof steady_READ_LOADING_PACKET. pose proof steady_sections_loop.
  pose proof (λ mon e, tame_steady _ (tame_module_begin mon e)).
  unfold monitor_load_module, pkt_event_of.
  solve_steady; apply (steady_world (λ w, sections_loop (load_fuel w) _ _ _)); solve_steady.
Qed.

(** ** Relocations before they are computed *)

Definition blank (md : module_data) : Prop := ∀ i r, reloc_at md i = Val r → r = 0.

Lemma blank_same md md' : relocations md' = relocations md → blank md → blank md'.
Proof. unfold blank, reloc_at. by intros ->. Qed.

Lemma put_function_relocations md f fd md' :
  put_function md f fd = Val md' → relocations md' = relocations md.
Proof. by intros (fs & _ & _ & ->)%put_function_inv. Qed.

Lemma function_id_loop_relocations n : ∀ ptr md w e md' w',
  function_id_loop n ptr md w = Val ((e, md'), w') → relocations md' = relocations md.
Proof.
  induction n as [|n IH]; intros ptr md w e md' w' H; cbn [function_id_loop] in H; inv_C; [done|].
  case_decide; inv_C; [done|]. apply IH in H. apply put_function_relocations in E2. by rewrite <- E2.
Qed.

Lemma calls_loop_relocations n : ∀ ptr f md e md',
  calls_loop n ptr f md = Val (e, md') → relocations md' = relocations md.
Proof.
  induction n as [|n IH]; intros ptr f md e md' H; cbn [calls_loop] in H; inv_res; [done|].
  case_decide; inv_res; [done|]. by apply IH in H.
Qed.

Lemma function_transition_loop_relocations n : ∀ ptr md w e md' w',
  function_transition_loop n ptr md w = Val ((e, md'), w') → relocations md' = relocations md.
Proof.
  induction n as [|n IH]; intros ptr md w e md' w' H; cbn [function_transition_loop] in H;
    inv_C; [done|].
  case_decide; inv_C; [done|]. destruct (non_null _); inv_C; [done|].
  destruct (negb _); inv_C; [done|]. destruct a4 as [e1 md1]. apply calls_loop_relocations in E4.
  case_decide; inv_C; [done|]. apply IH in H. by rewrite H.
Qed.

Lemma block_ipd_loop_relocations n : ∀ ptr md e md',
  block_ipd_loop n ptr md = Val (e, md') → relocations md' = relocations md.
Proof.
  induction n as [|n IH]; intros ptr md e md' H; cbn [block_ipd_loop] in H; inv_res; [done|].
  case_decide; inv_res; [done|]. destruct (negb _); inv_res; [done|]. case_decide; inv_res; [done|].
  apply IH in H. rewrite H. by eapply put_function_relocations.
Qed.

Lemma load_section_blank opts event value md w e md' w' :
  load_section opts event value md w = Val ((e, md'), w') → blank md → blank md'.
Proof.
  unfold load_section. intros H Hb. destruct (loading_event_case event) as [[]|]; inv_C; try done.
  - unfold load_section_function_id in H. case_decide; inv_C; [done|].
    destruct (negb _); inv_C; [done|].
    assert (Hz : blank (set_relocations a2 (set_call_graph a1 (set_nb_functions a0 md)))).
    { intros i r. unfold reloc_at. cbn. apply calloc_inv in E2 as [->| ->]; [done|].
      apply arr_get_zeroed_inv. }
    destruct (negb (non_null a2)); inv_C; [done|]. destruct (negb (non_null a3)); inv_C; [done|].
    apply function_id_loop_relocations in H. by eapply blank_same.
  - unfold load_section_function_transition in H. destruct (negb _); inv_C; [done|].
    case_decide; inv_C; [done|]. apply function_transition_loop_relocations in H. by eapply blank_same.
  - unfold load_section_block_transition in H. destruct (negb _); inv_C; [done|].
    case_decide; inv_C; [done|]. case_decide; inv_C; [done|]. case_decide; inv_C; [done|].
    case_decide; inv_C; [done|]. destruct a3 as [e1 fd1]. inv_C.
    eapply blank_same; [by eapply put_function_relocations|done].
  - unfold load_section_block_ipd in H. destruct (negb _); inv_C; [done|].
    apply block_ipd_loop_relocations in H. by eapply blank_same.
Qed.

Lemma sections_loop_blank opts fuel : ∀ pkt md w e pkt' md' w',
  sections_loop fuel opts pkt md w = Val ((e, pkt', md'), w') → blank md → blank md'.
Proof.
  induction fuel as [|fuel IH]; intros pkt md w e pkt' md' w' H Hb; cbn [sections_loop] in H; [done|].
  inv_C. case_decide; inv_C; [done|]. destruct a1 as [pkt1 err1]. case_decide; inv_C; [done|].
  destruct a2 as [err2 md1]. apply load_section_blank in E3; [|done]. case_decide; inv_C; [done|].
  by eapply IH.
Qed.

(** ** Modules are only added *)

(** The modules of [data] are the first ones of [data'], up to relocations. *)
Definition extends (data data' : monitor_data) : Prop :=
  nb_modules data <= nb_modules data' ∧
  ∀ m md, module_at data m = Val md → ∃ md', module_at data' m = Val md' ∧ same_code md md'.

#[export] Instance extends_preorder : PreOrder extends.
Proof.
  split.
  - intros data. split; [lia|]. intros m md Hm. by exists md.
  - intros x y z [N1 H1] [N2 H2]. split; [lia|]. intros m md (md1 & Hm1 & S1)%H1.
    destruct (H2 m md1 Hm1) as (md2 & Hm2 & S2). exists md2. split; [done|by etrans].
Qed.

Lemma same_code_extends data data' : data_same_code data data' → extends data data'.
Proof.
  intros Hd. split; [by rewrite (proj1 Hd)|]. intros m md. by apply data_same_code_at.
Qed.

Lemma extends_has_function data data' m f :
  extends data data' → has_function data m f → has_function data' m f.
Proof.
  intros [_ H] (md & (md' & Hm' & Hs)%H & Hf). exists md'. split; [done|]. by destruct Hs as (-> & _).
Qed.

(** A function of a module that was there already. *)
Lemma extends_has_function_back data data' m f :
  extends data data' → wf_data data → 0 <= m < nb_modules data →
  has_function data' m f → has_function data m f.
Proof.
  intros [_ H] Hwf Hm (md' & Hm' & Hf). destruct (module_at_in_range _ _ Hwf Hm) as (md & Hmd).
  destruct (H m md Hmd) as (md2 & Hm2 & Hs). assert (md2 = md') as -> by congruence.
  exists md. split; [done|]. by destruct Hs as (<- & _).
Qed.

(** The modules before the new one are untouched. *)
Lemma module_begin_keeps mon e w mon' w' k md :
  module_begin mon 0 w = Val ((e, mon'), w') → load_inv mon → e = 0 →
  module_at mon k = Val md → module_at mon' k = Val md.
Proof.
  unfold module_begin. intros H [Hwf Hn] -> Hk. inv_C. destruct (negb a); inv_C; [done|].
  destruct (module_at_wf _ _ _ Hwf Hk) as [_ Hr]. rewrite decide_True in E0 by lia.
  unfold module_at in *. cbn. rewrite E0 in Hk. cbn in Hk. apply arr_get_Val in Hk as [? Hk].
  apply arr_get_Val. split; [done|]. by apply lookup_app_l_Some.
Qed.

(** A module is loaded: the others are kept, its relocations are blank. *)
Lemma monitor_load_module_adds opts mon w r mon' w' :
  monitor_load_module opts mon w = Val ((r, mon'), w') → load_inv mon → 0 <= r →
  (∀ k md, module_at mon k = Val md → module_at mon' k = Val md) ∧
  if decide (r = 0) then ∃ md, module_at mon' (nb_modules mon) = Val md ∧ blank md else mon' = mon.
Proof.
  unfold monitor_load_module. intros H Hinv Hr. inv_C. destruct a as [pkt err].
  case_decide; inv_C; [lia|].
  destruct (loading_event_case a) as [[]|]; inv_C; try lia; [|done].
  destruct a0 as [e mon1]. case_decide; inv_C; [lia|]. destruct a1 as [[e1 pkt1] md1]. inv_C.
  destruct (module_begin_inv _ _ _ _ _ E1 Hinv E2) as (_ & -> & Hnb).
  apply sections_loop_blank in E3; [|by intros ??].
  pose proof (λ k, module_at_put _ _ _ _ k E4) as Hat. split.
  - intros k md Hk. destruct (module_at_wf _ _ _ (proj1 Hinv) Hk) as [_ ?].
    rewrite Hat, decide_False by lia. by eapply module_begin_keeps.
  - case_decide; [lia|]. rewrite decide_True by done. exists md1.
    split; [|done]. by rewrite Hat, decide_True by lia.
Qed.

(** ** Relocations of a partly loaded program *)

(** External functions are relocated to existing functions or not at all. *)
Definition relocs_safe (data : monitor_data) : Prop := ∀ m md f fd r,
  module_at data m = Val md → function_at md f = Val fd → FUNCTION_IS_EXTERNAL fd = true →
  reloc_at md f = Val r →
  r = 0 ∨ has_function data (MODULE_FUNCTION_GET_MODULE r) (MODULE_FUNCTION_GET_FUNCTION r).

(** The external functions of module [m] are relocated to their best definers
    among the modules of [data]; those without any have a null relocation. *)
Definition partly_linked (data : monitor_data) (m : Z) : Prop := ∀ md i fd,
  module_at data m = Val md → function_at md i = Val fd → FUNCTION_IS_EXTERNAL fd = true →
  (∃ k l, best_definer data m fd (nb_modules data) k l ∧ reloc_at md i = Val (MODULE_FUNCTION k l)) ∨
  ((∀ k l, ¬ definer data m fd k l) ∧ reloc_at md i = Val 0).

Lemma function_at_bounds md f fd : wf_module md → function_at md f = Val fd →
  0 <= f < nb_functions md ∧ ∃ r, reloc_at md f = Val r.
Proof.
  intros [Hn Hmd] Hf. unfold function_at in Hf. case_decide as Hz.
  - destruct Hmd as (_ & _ & [Hnil|Hnil]); rewrite Hnil in Hf; [done|].
    cbn in Hf. apply arr_get_lt in Hf. cbn in Hf. lia.
  - destruct Hmd as (_ & (rs & Hrs & Hlr) & fs & Hfs & Hlen & _). rewrite Hfs in Hf.
    cbn in Hf. apply arr_get_lt in Hf. split; [lia|]. unfold reloc_at. rewrite Hrs. cbn.
    apply arr_get_in_range. lia.
Qed.

Lemma relocs_safe_ready data :
  wf_data data → relocs_safe data → has_function data 0 0 → run_ready data.
Proof.
  intros Hwf Hsafe H0. split; [done|]. intros m md f fd rs r Hm Hf Hx Hrs Hr.
  destruct (Hsafe m md f fd r Hm Hf Hx) as [->|?]; [|done|done].
  unfold reloc_at. by rewrite Hrs.
Qed.

Lemma best_definer_exists data mid fd n k l :
  best_definer data mid fd n k l → wf_data data → few_modules data →
  has_function data (MODULE_FUNCTION_GET_MODULE (MODULE_FUNCTION k l))
    (MODULE_FUNCTION_GET_FUNCTION (MODULE_FUNCTION k l)).
Proof.
  intros (_ & (_ & mk & g & s & Hk & Hl & _) & _) Hwf [_ Hfew].
  destruct (module_at_wf _ _ _ Hwf Hk) as [[Hu _] Hr]. unfold in_u in Hu.
  rewrite MODULE_FUNCTION_GET_MODULE_eq, MODULE_FUNCTION_GET_FUNCTION_eq.
  unfold u16, u32. rewrite !Z.mod_small by lia. by exists mk.
Qed.

(** The new module is added with blank relocations. *)
Lemma load_module_safe opts mon w mon' w' :
  monitor_load_module opts mon w = Val ((0, mon'), w') → load_inv mon → relocs_safe mon →
  extends mon mon' ∧ relocs_safe mon'.
Proof.
  intros H Hinv Hsafe.
  destruct (monitor_load_module_inv _ _ _ _ _ _ H Hinv) as [[Hwf' _] Hnb]; [done|].
  specialize (Hnb eq_refl).
  destruct (monitor_load_module_adds _ _ _ _ _ _ H Hinv) as (Hold & md0 & Hnew & Hblank); [done|].
  assert (Hext : extends mon mon').
  { split; [lia|]. intros m md Hm. exists md. split; [by apply Hold|done]. }
  split; [done|]. intros m md f fd r Hm Hf Hx Hr.
  destruct (decide (m = nb_modules mon)) as [->|Hne].
  - left. assert (md = md0) as -> by congruence. by eapply Hblank.
  - destruct (module_at_wf _ _ _ Hwf' Hm) as [_ Hrange].
    destruct (module_at_in_range mon m (proj1 Hinv) ltac:(lia)) as (md1 & Hm1).
    assert (md1 = md) as -> by (apply Hold in Hm1; congruence).
    destruct (Hsafe m md f fd r Hm1 Hf Hx Hr) as [->|Hh]; [by left|right].
    by eapply extends_has_function.
Qed.

(** The relocations of the new module are computed. *)
Lemma start_linked data data' md0 :
  compute_relocations_of_module data (nb_modules data - 1) false = Val (0, data') →
  wf_data data → few_modules data →
  module_at data (nb_modules data - 1) = Val md0 → blank md0 →
  wf_data data' ∧ data_same_code data data' ∧
  (∀ k, k ≠ nb_modules data - 1 → module_at data' k = module_at data k) ∧
  partly_linked data' (nb_modules data - 1).
Proof.
  intros H Hwf Hfew Hlast Hblank. destruct (module_at_wf _ _ _ Hwf Hlast) as [Hmd0 Hrange].
  apply compute_relocations_inv in H as (Hwf' & Hsc & _ & Hoth & md & md' & Hmd & Hmd' & Hrel); [|done].
  assert (Hu : u16 (nb_modules data - 1) = nb_modules data - 1).
  { unfold u16. apply Z.mod_small. unfold few_modules in Hfew. lia. }
  rewrite Hu in *. same_res. specialize (Hrel eq_refl).
  destruct (data_same_code_at _ _ _ _ Hsc Hmd) as (md2 & Hmd2 & Hs). same_res.
  do 3 (split; [done|]). intros md1 i fd Hm1 Hfd Hx. same_res.
  rewrite (same_code_function_at _ _ _ Hs) in Hfd.
  destruct (function_at_bounds _ _ _ Hmd0 Hfd) as (Hi & r & Hr).
  destruct (Hrel i fd Hi Hfd Hx) as (found & Hf & Hfound). rewrite search_all in Hf by done.
  destruct found as [[k l]|].
  - left. exists k, l. split; [|done]. apply search_modules_Some in Hf.
    rewrite Z2Nat.id in Hf by lia. rewrite (proj1 Hsc). by eapply data_same_code_best.
  - right. destruct Hfound as [_ ->]. split; [|by rewrite Hr, (Hblank i r Hr)].
    intros k l Hd. apply (data_same_code_definer _ _ _ _ _ _ (symmetry Hsc)) in Hd.
    assert (Hk : 0 <= k < nb_modules data).
    { destruct Hd as (_ & mk & _ & _ & Hk & _). by apply (module_at_wf _ _ _ Hwf) in Hk as [_ ?]. }
    eapply search_modules_None; [exact Hf| |exact Hd]. lia.
Qed.

(** What the relocation of an undefined function makes of its calls. *)
Lemma unresolved_target data m i md fd :
  wf_data data → partly_linked data m → has_function data 0 0 →
  module_at data m = Val md → function_at md i = Val fd → FUNCTION_IS_EXTERNAL fd = true →
  (∀ k l, ¬ definer data m fd k l) → target data m i = Val (0, 0).
Proof.
  intros Hwf Hpl (md0 & Hm0 & Hf0) Hm Hf Hx Hno.
  destruct (Hpl md i fd Hm Hf Hx) as [(k & l & (_ & Hd & _) & _)|[_ Hr]]; [by destruct (Hno k l)|].
  unfold target. rewrite Hm. cbn. rewrite Hf. cbn. rewrite Hx.
  unfold reloc_at in Hr. destruct (relocations md) as [|rs|]; [done| |done]. cbn in Hr |- *.
  rewrite Hr, !res_bind_Val. change (MODULE_FUNCTION_GET_MODULE 0) with 0.
  change (MODULE_FUNCTION_GET_FUNCTION 0) with 0. rewrite Hm0, res_bind_Val. destruct (module_at_wf _ _ _ Hwf Hm0) as [[_ Hmd0] _].
  rewrite decide_False in Hmd0 by lia. by destruct Hmd0 as (_ & _ & fs & -> & _).
Qed.

Lemma start_safe data data' :
  wf_data data' → few_modules data' → data_same_code data data' → relocs_safe data →
  (∀ k, k ≠ nb_modules data - 1 → module_at data' k = module_at data k) →
  partly_linked data' (nb_modules data - 1) → relocs_safe data'.
Proof.
  intros Hwf' Hfew Hsc Hsafe Hoth Hpl m mdm f fd r Hm Hf Hx Hr.
  destruct (decide (m = nb_modules data - 1)) as [->|Hne].
  - destruct (Hpl mdm f fd Hm Hf Hx) as [(k & l & Hb & Hr')|[_ Hr']]; same_res; [right|by left].
    by eapply best_definer_exists.
  - rewrite Hoth in Hm by done. destruct (Hsafe m mdm f fd r Hm Hf Hx Hr) as [->|Hh]; [by left|right].
    by eapply data_same_code_has_function.
Qed.

(** ** The initialisation runs *)

Lemma run_times_session opts data n : ∀ w w',
  run_ready data → well_served w → run_times n opts data w = Val (0, w') →
  session data n (signals w) (signals w') ∧ well_served w'.
Proof.
  induction n as [|n IH]; intros w w' Hready Hw H; cbn [run_times] in H; inv_C; [split; [constructor|done]|].
  case_decide as He; inv_C; [done|]. assert (a = 0) as -> by lia. destruct Hw as [Hfav Hps].
  destruct (monitor_run_accepts opts data Hready w w0 Hfav Hps E) as (tr & Htr & -> & Hs & Hps1).
  destruct (IH w0 w' Hready (conj (proj1 Hs) Hps1) H) as [Hses Hw']. split; [by constructor|done].
Qed.

(** The signals read while the modules of [final] from number [k] on are
    loaded: for each of them, a trace for each of its initialisation
    functions, checked on the modules loaded so far. *)
Inductive startup_session (final : monitor_data) :
    Z → list client_signal → list client_signal → Prop :=
| startup_done sigs : startup_session final (nb_modules final) sigs sigs
| startup_module k data md sigs sigs' rest :
    nb_modules data = k + 1 → extends data final → partly_linked data k →
    module_at data k = Val md →
    session data (Z.to_nat (nb_entrypoint_inits md)) sigs sigs' →
    startup_session final (k + 1) sigs' rest →
    startup_session final k sigs rest.

Lemma modules_loop_extends opts fuel : ∀ data w data' w',
  modules_loop fuel opts data w = Val ((0, data'), w') → load_inv data → extends data data'.
Proof.
  induction fuel as [|fuel IH]; intros data w data' w' H Hinv; cbn [modules_loop] in H; [done|].
  inv_C. destruct a as [r data1]. case_decide as Hr; inv_C.
  { apply monitor_load_module_adds in E as [_ E]; [|done|lia]. rewrite decide_False in E by lia. by subst. }
  case_decide; inv_C; [done|]. destruct a as [e data2]. case_decide; inv_C; [done|].
  pose proof (monitor_load_module_inv _ _ _ _ _ _ E Hinv ltac:(lia)) as [[Hwf1 Hu1] Hnb].
  assert (Hext : extends data data1).
  { apply monitor_load_module_adds in E as [Hold _]; [|done|lia]. split; [specialize (Hnb ltac:(lia)); lia|].
    intros m md Hm. exists md. split; [by apply Hold|done]. }
  unfold start_module in E0. inv_C. destruct a as [e1 data3].
  apply compute_relocations_inv in E1 as (Hwf2 & Hsc & _); [|done].
  etrans; [done|]. etrans; [by apply same_code_extends|]. case_decide; inv_C; [done|].
  eapply IH; [done|]. split; [done|]. by rewrite (proj1 Hsc).
Qed.

Lemma start_module_session opts data w data' w' md0 :
  start_module opts data w = Val ((0, data'), w') →
  wf_data data → few_modules data → relocs_safe data →
  module_at data (nb_modules data - 1) = Val md0 → blank md0 → has_function data 0 0 → well_served w →
  wf_data data' ∧ data_same_code data data' ∧ relocs_safe data' ∧ well_served w' ∧
  partly_linked data' (nb_modules data - 1) ∧
  ∃ md, module_at data' (nb_modules data - 1) = Val md ∧
    session data' (Z.to_nat (nb_entrypoint_inits md)) (signals w) (signals w').
Proof.
  unfold start_module. intros H Hwf Hfew Hsafe Hlast Hblank H0 Hw. inv_C. destruct a as [e data1].
  case_decide as He; inv_C; [done|].
  destruct (start_linked _ _ _ E Hwf Hfew Hlast Hblank) as (Hwf' & Hsc & Hoth & Hpl).
  assert (Hsafe' : relocs_safe data').
  { eapply start_safe; [done| |done..]. unfold few_modules. by rewrite (proj1 Hsc). }
  assert (Hready : run_ready data').
  { apply relocs_safe_ready; [done..|]. by eapply data_same_code_has_function. }
  rewrite (proj1 Hsc) in E0.
  destruct (run_times_session opts data' _ _ _ Hready Hw E1) as [Hses Hw'].
  do 5 (split; [done|]). by exists a.
Qed.

Lemma modules_loop_sessions opts final fuel : ∀ data w data' w',
  modules_loop fuel opts data w = Val ((0, data'), w') → load_inv data → relocs_safe data →
  well_served w → data_same_code data' final → few_modules final → has_function final 0 0 →
  startup_session final (nb_modules data) (signals w) (signals w') ∧ well_served w'.
Proof.
  induction fuel as [|fuel IH]; intros data w data' w' H Hinv Hsafe Hw Hfin Hfew H0;
    cbn [modules_loop] in H; [done|].
  inv_C. destruct a as [r data1].
  destruct (steady_served _ _ _ _ (steady_monitor_load_module opts data) E Hw) as [Hw1 Hsig1].
  case_decide as Hr; inv_C.
  { apply monitor_load_module_adds in E as [_ E]; [|done|lia]. rewrite decide_False in E by lia.
    subst. rewrite Hsig1, <- (proj1 Hfin). split; [constructor|done]. }
  case_decide as Hr'; inv_C; [done|]. assert (r = 0) as -> by lia.
  destruct a as [e data2]. case_decide as He; inv_C; [done|]. assert (e = 0) as -> by lia.
  destruct (monitor_load_module_inv _ _ _ _ _ _ E Hinv) as [[Hwf1 Hu1] Hnb]; [done|].
  specialize (Hnb eq_refl).
  destruct (load_module_safe _ _ _ _ _ E Hinv Hsafe) as [Hext1 Hsafe1].
  destruct (monitor_load_module_adds _ _ _ _ _ _ E Hinv) as (_ & md0 & Hlast & Hblank); [done|].
  replace (nb_modules data) with (nb_modules data1 - 1) in Hlast by lia.
  assert (Hext2 : extends data1 data2 ∧ load_inv data2).
  { unfold start_module in E0. inv_C. destruct a as [e1 data3].
    apply compute_relocations_inv in E1 as (Hwf2 & Hsc & _); [|done].
    case_decide; inv_C; (split; [by apply same_code_extends|split; [done|by rewrite (proj1 Hsc)]]). }
  destruct Hext2 as [Hext2 Hinv2].
  assert (Hext : extends data2 final).
  { etrans; [by eapply modules_loop_extends|by apply same_code_extends]. }
  assert (Hext' : extends data1 final) by by etrans.
  assert (Hpos : 0 <= nb_modules data) by (destruct Hinv as [_ [? _]]; done).
  assert (Hfew1 : few_modules data1) by (destruct Hext', Hfew; split; lia).
  assert (H01 : has_function data1 0 0).
  { eapply extends_has_function_back; [done|done|lia|done]. }
  destruct (start_module_session _ _ _ _ _ _ E0 Hwf1 Hfew1 Hsafe1 Hlast Hblank H01 Hw1)
    as (Hwf2 & Hsc & Hsafe2 & Hw2 & Hpl & md & Hmd & Hses).
  destruct (IH _ _ _ _ H Hinv2 Hsafe2 Hw2 Hfin Hfew H0) as [Hrest Hw']. split; [|done].
  replace (nb_modules data1 - 1) with (nb_modules data) in * by lia. rewrite <- Hsig1.
  eapply startup_module; [rewrite (proj1 Hsc); lia|done..|].
  by rewrite <- Hnb, <- (proj1 Hsc).
Qed.

(** A whole load. *)
Lemma monitor_load_sessions opts w data w' :
  monitor_load opts w = Val ((0, data), w') → few_modules data → has_function data 0 0 →
  well_served w → startup_session data 0 (signals w) (signals w') ∧ well_served w'.
Proof.
  unfold monitor_load. intros H Hfew H0 Hw. inv_C. destruct a as [e data1]. case_decide; inv_C; [done|].
  assert (Hinv0 : load_inv (MonitorData 0 Null)) by (split; [by left|done]).
  pose proof (modules_loop_inv _ _ _ _ _ _ E Hinv0) as [Hwf [Hu _]].
  pose proof (relocate_all_nb _ _ _ _ _ H Hwf) as Hnb.
  destruct (relocate_all_linked _ _ _ _ H Hwf) as (_ & Hsc & _); [|done|lia|lia|].
  { unfold few_modules. by rewrite <- Hnb. }
  eapply (modules_loop_sessions _ _ _ _ _ _ _ E); [done| |done..]. by intros m md f fd r ?.
Qed.

(** The termination functions of well-formed data can be counted. *)
Lemma count_finis_wf data n : ∀ i nb, wf_data data → 0 <= i → i + Z.of_nat n = nb_modules data →
  ∃ nb', count_finis n i data nb = Val nb'.
Proof.
  induction n as [|n IH]; intros i nb Hwf Hi Hn; cbn [count_finis]; [by eexists|].
  destruct (module_at_in_range data i Hwf) as (md & ->); [lia|]. cbn. apply IH; [done|lia|lia].
Qed.

(** ** After the load *)

Lemma finis_counted data : wf_data data →
  ∃ nb, count_finis (Z.to_nat (nb_modules data)) 0 data 0 = Val nb.
Proof.
  intros Hwf. apply count_finis_wf; [done|lia|].
  destruct Hwf as [[-> _]|(ms & _ & <- & _)]; lia.
Qed.

(** After a load that succeeds, the process exits with 0 when the runs do. *)
Lemma process_runs_iff opts w data w1 w' :
  monitor_load opts w = Val ((0, data), w1) → wf_data data → nb_modules data ≠ 0 →
  monitor_process opts 0 w = Val (0, w') ↔ main_runs opts data w1 = Val (0, w').
Proof.
  intros Hload Hwf Hne. split.
  - intros (data' & w2 & Hl & Hr)%monitor_process_inv. rewrite Hload in Hl. by injection Hl as <- <-.
  - intros Hrun. unfold monitor_process. rewrite C_bind_eq. rewrite decide_False by (by intros []).
    rewrite C_bind_eq, Hload. cbn beta iota. rewrite decide_False by (by intros []).
    rewrite C_bind_eq, Hrun, C_ret_eq, C_bind_eq. rewrite decide_False by (by intros []).
    destruct (monitor_data_free_wf data Hwf) as (l & Hfree & _); [done|]. by rewrite C_ret_eq, Hfree.
Qed.
