(* ===== verification/LoadAnswers.v ===== *)
(** * The module numbers that the monitor answers

    On the loading pipe the monitor writes nothing but the number of each
    module when the first packet of it arrives: a load that succeeds has
    answered 0, 1, 2, ... in order, whatever the rest of the world did. *)

From S2P Require Import Prelude CSem Wire CStack BlockStack CallStack.
From S2P Require Import MonitorRun LoadSections Relocate Dot MonitorLoad LoadWf LoadRuns Main Sessions.
From S2P Require Import MonitorData.
From Stdlib Require Import Strings.Byte.

(** The pipes were not used. *)
Definition untouched (w w' : world) : Prop :=
  w_log w' = w_log w ∧ w_sig w' = w_sig w ∧ w_load w' = w_load w ∧ ∀ p, output p (w_out w') = output p (w_out w).

#[export] Instance untouched_preorder : PreOrder untouched.
Proof.
  split; [by intros w|]. intros w1 w2 w3 (E1 & E2 & E3 & E4) (F1 & F2 & F3 & F4). split_and!; [congruence..|].
  intros p. by rewrite F4.
Qed.

Section Mute.
Context (p : option pipe).

(** ** Computations that write nothing there *)

(** Nothing is written on one pipe; none of them is used. *)
Definition mute {A} (m : C A) : Prop := ∀ w a w', m w = Val (a, w') →
  match p with Some p => output p (w_out w') = output p (w_out w) | None => untouched w w' end.

(** An effect of another kind. *)
Definition elsewhere (e : out_event) : Prop := match p with Some p => on_pipe p e = None | None => sent_of e = [] end.

Lemma mute_ret {A} (a : A) : mute (mret a).
Proof using Type. intros w b w' [= _ <-]. by destruct p. Qed.

Lemma mute_bind {A B} (m : C A) (f : A → C B) : mute m → (∀ a, mute (f a)) → mute (m ≫= f).
Proof using Type.
  intros Hm Hf w b w' (a & w1 & H1 & H2)%C_bind_inv. apply Hm in H1. apply Hf in H2. destruct p; [congruence|by etrans].
Qed.

Lemma mute_lift {A} (r : res A) : mute (lift r).
Proof using Type. intros w a w' [_ ->]%lift_inv. by destruct p. Qed.

Lemma mute_world {A} (f : world → C A) : (∀ w, mute (f w)) → mute (λ w, f w w).
Proof using Type. intros Hf w a w'. apply Hf. Qed.

Lemma mute_nofuel {A} : mute (λ _, NoFuel : res (A * world)).
Proof using Type. by intros w a w'. Qed.

Lemma mute_undef {A} u : mute (undef u : C A).
Proof using Type. by intros w a w'. Qed.

Lemma mute_next_alloc : mute next_alloc.
Proof using Type. intros w a w'. unfold next_alloc. by destruct (w_alloc w); intros [= _ <-]; destruct p. Qed.

Lemma mute_next_select : mute next_select.
Proof using Type. intros w a w'. unfold next_select. by destruct (w_select w); intros [= _ <-]; destruct p. Qed.

Lemma elsewhere_output e q out : elsewhere e → (p = None ∨ p = Some q) → output q (out ++ [e]) = output q out.
Proof using Type.
  unfold elsewhere. intros He [->| ->]; rewrite output_app; unfold output at 2; cbn; [|by rewrite He, app_nil_r].
  destruct q, e; cbn; first [done|apply app_nil_r].
Qed.

Lemma mute_emit e : elsewhere e → mute (emit e).
Proof using Type.
  intros He w a w' [= _ <-]. pose proof (λ q out, elsewhere_output e q out He) as Ho. unfold elsewhere in He. destruct p as [q|]; cbn.
  - by apply Ho; right.
  - split_and!; [cbn; by rewrite He, app_nil_r|done..|]. intros q. by apply Ho; left.
Qed.

Lemma mute_write e : elsewhere e → mute (write_bytes e).
Proof using Type.
  intros He w a w'. pose proof (λ q out, elsewhere_output e q out He) as Ho. unfold elsewhere in He. unfold write_bytes.
  destruct (match w_write w with [] => true | b :: _ => b end); intros [= _ <-]; destruct p as [q|]; cbn; try done.
  - by apply Ho; right.
  - split_and!; [cbn; by rewrite He, app_nil_r|done..|]. intros q. by apply Ho; left.
Qed.

End Mute.

Lemma mute_read_sig p n : mute (Some p) (read_sig n).
Proof. intros w a w'. unfold read_sig. by destruct (w_sig w); intros [= _ <-]. Qed.

Lemma mute_read_load p n : mute (Some p) (read_load n).
Proof. intros w a w'. unfold read_load. by destruct (w_load w); intros [= _ <-]. Qed.

Create HintDb mute discriminated.
#[export] Hint Resolve mute_ret mute_lift mute_nofuel mute_undef mute_next_alloc mute_next_select mute_read_sig mute_read_load : mute.

Ltac solve_elsewhere := first [reflexivity | match goal with |- elsewhere ?p _ => by destruct p as [[]|] end].
Ltac mute_step :=
  match goal with
  | |- mute _ (_ ≫= _) => apply mute_bind; [|intros ?]
  | |- mute _ (emit _) => apply mute_emit; solve_elsewhere
  | |- mute _ (write_bytes _) => apply mute_write; solve_elsewhere
  | |- mute _ (if decide _ then _ else _) => case_decide
  | |- mute _ (match ?x with _ => _ end) => destruct x
  | |- _ => solve [eauto with mute]
  end.
Ltac solve_mute := repeat mute_step.

(** ** The stacks *)

Lemma mute_alloc_ok p : mute p alloc_ok.
Proof. unfold alloc_ok. solve_mute. Qed.
#[export] Hint Resolve mute_alloc_ok : mute.

Lemma mute_calloc p {A} n (x : A) : mute p (calloc n x).
Proof. unfold calloc. solve_mute. Qed.
#[export] Hint Resolve mute_calloc : mute.

Section Stack.
Context {E : Type} (EXTEND_SIZE : Z) (zero : E).

Lemma mute_stack_init p s : mute p (stack_init EXTEND_SIZE zero s).
Proof. unfold stack_init. solve_mute. Qed.

Lemma mute_stack_push p (s : cstack E) v err : mute p (stack_push EXTEND_SIZE s v err).
Proof. unfold stack_push, stack_extend. solve_mute. Qed.

Lemma mute_stack_trace p line (s : cstack E) : (∀ v, elsewhere p (line v)) → mute p (stack_trace line s).
Proof.
  intros Hl. assert (H : ∀ fuel q, mute p (stack_trace_loop line fuel s q)); [|unfold stack_trace; solve_mute].
  induction fuel as [|fuel IH]; intros q; cbn [stack_trace_loop]; [apply mute_nofuel|].
  repeat first [apply mute_emit, Hl | mute_step].
Qed.

End Stack.
#[export] Hint Resolve mute_stack_init mute_stack_push mute_stack_trace : mute.

(** ** The run *)

Lemma mute_WRITE_ANSWER a err : mute (Some PLoad) (WRITE_MONITOR_ANSWER a err).
Proof. unfold WRITE_MONITOR_ANSWER. solve_mute. Qed.
Lemma mute_TIMEOUT p opts err : mute p (MONITOR_SIGNAL_TIMEOUT opts err).
Proof. unfold MONITOR_SIGNAL_TIMEOUT. solve_mute. Qed.
Lemma mute_READ_SIGNAL p dst err : mute (Some p) (READ_CLIENT_SIGNAL dst err).
Proof. unfold READ_CLIENT_SIGNAL. solve_mute. Qed.
#[export] Hint Resolve mute_WRITE_ANSWER mute_TIMEOUT mute_READ_SIGNAL : mute.

Lemma mute_dispatch opts data st : mute (Some PLoad) (dispatch opts data st).
Proof.
  unfold dispatch, on_after_jump, on_call, on_exit, BLOCK_STACK_PUSH, CALL_STACK_PUSH. solve_mute.
Qed.
#[export] Hint Resolve mute_dispatch : mute.

Lemma mute_run_loop opts data fuel : ∀ st, mute (Some PLoad) (run_loop fuel opts data st).
Proof. induction fuel as [|fuel IH]; intros st; cbn [run_loop]; solve_mute. Qed.

Lemma mute_run_exit opts st : mute (Some PLoad) (run_exit opts st).
Proof.
  unfold run_exit, exit_trace, BLOCK_STACK_PUSH, CALL_STACK_PUSH, call_stack_trace, block_stack_trace. solve_mute;
    by apply mute_stack_trace.
Qed.

Lemma mute_monitor_run opts data : mute (Some PLoad) (monitor_run opts data).
Proof.
  pose proof mute_run_exit. pose proof mute_run_loop. unfold monitor_run, call_stack_init, block_stack_init.
  solve_mute. apply (mute_world _ (λ w, run_loop (run_fuel w) _ _ _)). solve_mute.
Qed.
#[export] Hint Resolve mute_monitor_run : mute.

Lemma mute_run_times n opts data : mute (Some PLoad) (run_times n opts data).
Proof. induction n as [|n IH]; cbn [run_times]; solve_mute. Qed.
#[export] Hint Resolve mute_run_times : mute.

(** ** The sections *)

Lemma mute_function_id_loop p n : ∀ ptr md, mute p (function_id_loop n ptr md).
Proof. induction n as [|n IH]; intros ptr md; cbn [function_id_loop]; unfold strdup; solve_mute. Qed.

Lemma mute_function_transition_loop p n : ∀ ptr md, mute p (function_transition_loop n ptr md).
Proof. induction n as [|n IH]; intros ptr md; cbn [function_transition_loop]; solve_mute. Qed.

Lemma mute_block_transition_loop p n : ∀ ptr fd, mute p (block_transition_loop n ptr fd).
Proof. induction n as [|n IH]; intros ptr fd; cbn [block_transition_loop]; unfold ensure_row; solve_mute. Qed.

Lemma mute_dot_row p n : ∀ g i j, mute p (dot_row n g i j).
Proof. induction n as [|n IH]; intros g i j; cbn [dot_row]; unfold printf; solve_mute. Qed.
#[export] Hint Resolve mute_function_id_loop mute_function_transition_loop mute_block_transition_loop mute_dot_row : mute.

Lemma mute_dot_rows p n : ∀ size g i, mute p (dot_rows n size g i).
Proof. induction n as [|n IH]; intros size g i; cbn [dot_rows]; unfold printf; solve_mute. Qed.
#[export] Hint Resolve mute_dot_rows : mute.

Lemma mute_dump_functions p n : ∀ i md, mute p (dump_functions n i md).
Proof.
  induction n as [|n IH]; intros i md; cbn [dump_functions]; unfold monitor_control_flow_graph, printf; solve_mute.
Qed.
#[export] Hint Resolve mute_dump_functions : mute.

Lemma mute_load_section p opts event value md : mute p (load_section opts event value md).
Proof.
  unfold load_section, dump_module, monitor_call_graph, printf, load_section_function_id, load_section_function_transition,
    load_section_block_transition, load_section_block_ipd, fill_blocks. solve_mute.
Qed.

Lemma mute_READ_LOADING p dst err : mute (Some p) (READ_LOADING_PACKET dst err).
Proof. unfold READ_LOADING_PACKET. solve_mute. Qed.
#[export] Hint Resolve mute_load_section mute_READ_LOADING : mute.

Lemma mute_sections_loop p opts fuel : ∀ pkt md, mute (Some p) (sections_loop fuel opts pkt md).
Proof. induction fuel as [|fuel IH]; intros pkt md; cbn [sections_loop]; solve_mute. Qed.
#[export] Hint Resolve mute_sections_loop : mute.

(** A module is loaded without an answer on the signal pipe. *)
Lemma mute_load_module opts mon : mute (Some PSig) (monitor_load_module opts mon).
Proof.
  unfold monitor_load_module, module_begin, WRITE_MONITOR_TO_LOADING_PACKET. solve_mute.
  apply (mute_world _ (λ w, sections_loop (load_fuel w) opts _ _)). solve_mute.
Qed.

(** ** The answers *)

(** The number of module [k], on 16 bits. *)
Definition module_number (k : Z) : list byte := le_bytes 2 (u16 k).

Lemma next_module_number nb : in_u 32 nb → u16 ((if decide (nb ≠ 0) then u32 (nb + 1) else 1) - 1) = u16 nb.
Proof.
  intros Hu. case_decide as Hz; [|by replace nb with 0 by lia]. unfold in_u in Hu. destruct (decide (nb + 1 = 2 ^ 32)) as [E|Hne].
  - rewrite E. by replace nb with (2 ^ 32 - 1) by lia.
  - unfold u32. rewrite Z.mod_small by lia. f_equal. lia.
Qed.

Lemma module_begin_answers mon w mon' w' : load_inv mon → module_begin mon 0 w = Val ((0, mon'), w') →
  load_answers (w_out w') = load_answers (w_out w) ++ [module_number (nb_modules mon)].
Proof.
  intros [Hwf Hu] H. unfold module_begin in H. apply C_bind_inv in H as (ok & w1 & Ha & H).
  apply (mute_alloc_ok (Some PLoad)) in Ha. destruct (negb ok); [by injection H|].
  apply C_bind_inv in H as (ms & w2 & [_ ->]%lift_inv & H). cbn zeta in H.
  unfold WRITE_MONITOR_TO_LOADING_PACKET, write_bytes in H. rewrite !C_bind_eq in H.
  rewrite next_module_number in H by done. unfold module_number.
  destruct (match w_write w1 with [] => true | b :: _ => b end); [|by rewrite !C_ret_eq in H].
  rewrite !C_ret_eq in H. injection H as _ <-. cbn [w_out]. by rewrite output_app, Ha.
Qed.

Lemma load_module_answers opts mon w r mon' w' : load_inv mon →
  monitor_load_module opts mon w = Val ((r, mon'), w') → 0 <= r →
  load_answers (w_out w') = load_answers (w_out w) ++ if decide (r = 0) then [module_number (nb_modules mon)] else [].
Proof.
  intros Hinv H Hr. unfold monitor_load_module in H. apply C_bind_inv in H as ([pkt err] & w1 & Hread & H).
  apply (mute_READ_LOADING PLoad) in Hread. case_decide; [inv_C; lia|].
  apply C_bind_inv in H as (event & w2 & [_ ->]%lift_inv & H).
  destruct (loading_event_case event) as [[]|]; inv_C; try lia.
  - destruct a as [e mon1]. case_decide; inv_C; [lia|].
    apply module_begin_answers in E; [|done]. destruct a0 as [[e1 pkt1] md1]. inv_C.
    apply (mute_sections_loop PLoad) in E1. case_decide as He; [lia|]. rewrite decide_True by done. congruence.
  - rewrite decide_False by lia. by rewrite app_nil_r.
Qed.

(** A load that succeeds has numbered the modules from 0. *)
Lemma modules_loop_answers opts fuel : ∀ data w data' w', load_inv data →
  modules_loop fuel opts data w = Val ((0, data'), w') →
  nb_modules data <= nb_modules data' ∧ load_answers (w_out w') = load_answers (w_out w) ++
    (module_number <$> seqZ (nb_modules data) (nb_modules data' - nb_modules data)).
Proof.
  induction fuel as [|fuel IH]; intros data w data' w' Hinv H; cbn [modules_loop] in H; [done|]. inv_C.
  destruct a as [r data1]. case_decide as Hr; inv_C.
  { pose proof (load_module_answers _ _ _ _ _ _ Hinv E ltac:(lia)) as Ha. rewrite decide_False in Ha by lia.
    apply monitor_load_module_adds in E as [_ E]; [|done|lia]. rewrite decide_False in E by lia. subst data'.
    split; [lia|]. rewrite Ha, Z.sub_diag. done. }
  case_decide; inv_C; [done|]. assert (r = 0) as -> by lia. destruct a as [e data2]. case_decide; inv_C; [done|].
  assert (e = 0) as -> by lia. pose proof (load_module_answers _ _ _ _ _ _ Hinv E ltac:(lia)) as Ha.
  rewrite decide_True in Ha by done.
  pose proof (monitor_load_module_inv _ _ _ _ _ _ E Hinv ltac:(lia)) as [[Hwf1 Hu1] Hnb]. specialize (Hnb eq_refl).
  assert (Hs : load_inv data2 ∧ nb_modules data2 = nb_modules data1 ∧ load_answers (w_out w1) = load_answers (w_out w0)).
  { unfold start_module in E0. inv_C. destruct a as [e1 data3].
    apply compute_relocations_inv in E1 as (Hwf2 & Hsc & _); [|done]. unfold load_inv.
    case_decide; inv_C; [done|]. apply mute_run_times in E2. by rewrite (proj1 Hsc). }
  destruct Hs as (Hinv2 & Hnb2 & Hout2). destruct (IH data2 w1 data' w' Hinv2 H) as [Hle Hout]. split; [lia|].
  rewrite Hout, Hout2, Ha, <- app_assoc, Hnb2, Hnb. f_equal.
  rewrite (seqZ_cons (nb_modules data)) by lia. cbn [fmap list_fmap app]. do 3 f_equal; lia.
Qed.

Lemma monitor_load_answers opts w data w' : monitor_load opts w = Val ((0, data), w') →
  load_answers (w_out w') = load_answers (w_out w) ++ (module_number <$> seqZ 0 (nb_modules data)).
Proof.
  unfold monitor_load. intros H. inv_C. destruct a as [e data1]. case_decide; inv_C; [done|].
  assert (Hinv : load_inv (MonitorData 0 Null)) by (split; [by left|done]).
  pose proof (modules_loop_inv _ _ _ _ _ _ E Hinv) as [Hwf _].
  destruct (modules_loop_answers _ _ _ _ _ _ Hinv E) as [_ Ha]. cbn [nb_modules] in Ha.
  rewrite Z.sub_0_r in Ha. by rewrite Ha, (relocate_all_nb _ _ _ _ _ H Hwf).
Qed.

(** So has a process that ends well. *)
Lemma mute_main_runs opts data : mute (Some PLoad) (main_runs opts data).
Proof.
  assert (H : ∀ n err, mute (Some PLoad) (preload_loop n err)); [|unfold main_runs; solve_mute].
  induction n as [|n IH]; intros err; cbn [preload_loop]; solve_mute.
Qed.

Lemma monitor_process_answers opts r w w' : monitor_process opts r w = Val (0, w') → ∃ data w1,
  monitor_load opts w = Val ((0, data), w1) ∧
  load_answers (w_out w') = load_answers (w_out w) ++ (module_number <$> seqZ 0 (nb_modules data)).
Proof.
  intros (data & w1 & Hload & Hruns)%monitor_process_inv. exists data, w1. split; [done|].
  rewrite <- (monitor_load_answers _ _ _ _ Hload). by apply mute_main_runs in Hruns.
Qed.
