(* ===== verification/Failures.v ===== *)
(** * Allocations that fail or move

    What a run accepts does not depend on the allocator: a run that ends with
    status 0 does the same in the settled world, where nothing fails.  The
    failure of an extension may be forgotten (the next push that extends its
    stack overwrites the error), but the stack is then broken: the run has
    an undefined behaviour before it comes back from the call, or is refused. *)

From S2P Require Import Prelude CSem Wire CStack BlockStack CallStack MonitorData.
From S2P Require Import MonitorRun RunSpec RunRefine RunTotal MonitorLoad Main Sessions.

(** A failure that is pending. *)
Definition failed (err : Z) : Prop := err ≠ 0.

Definition settled (w : world) : world := MkWorld [] [] [] (w_sig w) (w_load w) (w_out w) (w_log w).

(** ** The stacks *)

Section Stack.
Context {E : Type} (EXTEND_SIZE : Z) (zero : E) (Hsize : 0 < EXTEND_SIZE).

(** One live allocation. *)
Definition shaped (s : cstack E) : Prop := ∃ b n,
  st_first s = Ptr b 0 ∧ st_last s = Ptr b n ∧ 0 <= n ∧ (b < st_next s)%nat.

(** An extension has failed: full, with a null [first]. *)
Definition broken (s : cstack E) : Prop := st_first s = PNull ∧ ptr_ge (st_top s) (st_last s) = Val true.

Definition not_empty (s : cstack E) : Prop := ptr_lt (st_top s) (st_first s) = Val false.

Lemma ptr_ge_inv p q : ptr_ge p q = Val true → ∃ b o o', p = Ptr b o ∧ q = Ptr b o' ∧ o' <= o.
Proof using Type.
  unfold ptr_ge, ptr_sub. destruct p as [|b o], q as [|b' o']; try done. case_decide as Hb; [|done]. subst b'.
  cbn. intros [= H]. apply bool_decide_eq_true in H. exists b, o, o'. split_and!; [done..|lia].
Qed.

(** What an extension does to a full stack. *)
Lemma stack_extend_cases s w e s' w' : shaped s → stack_extend EXTEND_SIZE s w = Val ((e, s'), w') →
  (e = 0 ∧ stack_extend EXTEND_SIZE s (settled w) = Val ((0, s'), settled w') ∧ shaped s' ∧ st_top s' = st_top s ∧
     st_first s' = st_first s) ∨
  (e = 0 ∧ st_top s' = st_top s ∧ ∃ b, st_first s = Ptr b 0 ∧ st_bufs s' !! b = None) ∨
  (e ≠ 0 ∧ st_first s' = PNull ∧ st_top s' = st_top s ∧ st_last s' = st_last s).
Proof using Hsize.
  intros (b & n & Hf & Hl & Hn & Hb). unfold stack_extend. rewrite !C_bind_eq, Hf, Hl. cbn [ptr_sub].
  rewrite decide_True by done. rewrite !lift_Val, !C_bind_eq. unfold next_alloc.
  destruct (w_alloc w) as [|[] os] eqn:Ew; cbn [settled w_alloc].
  - destruct (st_bufs s !! b) as [buf|] eqn:Eb; [|done]. intros [= <- <- <-]. left. split_and!; try done.
    exists b, (n - 0 + 1 + EXTEND_SIZE - 1). split_and!; try done. lia.
  - intros [= <- <- <-]. right; right. done.
  - destruct (st_bufs s !! b) as [buf|] eqn:Eb; [|done]. intros [= <- <- <-]. left. split_and!; try done.
    exists b, (n - 0 + 1 + EXTEND_SIZE - 1). split_and!; try done. lia.
  - destruct (st_bufs s !! b) as [buf|] eqn:Eb; [|done]. intros [= <- <- <-]. right; left. split_and!; try done.
    exists b. split; [done|]. cbn [st_bufs]. rewrite lookup_insert_ne by lia. apply lookup_delete_eq.
Qed.

(** A push on a stack in shape: nothing has failed, or the stack is broken. *)
Lemma stack_push_settled s v err w e s' w' : shaped s → stack_push EXTEND_SIZE s v err w = Val ((e, s'), w') →
  (stack_push EXTEND_SIZE s v err (settled w) = Val ((e, s'), settled w') ∧ shaped s') ∨ (e ≠ 0 ∧ broken s').
Proof using Hsize.
  intros Hs. unfold stack_push. rewrite !C_bind_eq.
  destruct (ptr_ge (st_top s) (st_last s)) as [full| |] eqn:Hg; [|done|done]. rewrite !lift_Val, !C_bind_eq.
  destruct full.
  - destruct (stack_extend EXTEND_SIZE s w) as [[[e1 s1] w1]| |] eqn:Hx; [|done|done]. cbn beta iota.
    destruct (stack_extend_cases _ _ _ _ _ Hs Hx) as [(-> & Hset & Hs1 & Ht & Hf)|[(-> & Ht & b & Hf & Hb)|(He & Hf & Ht & Hl)]].
    + rewrite Hset. cbn beta iota. rewrite !decide_True by done. intros H. left. inv_C. C_run. rewrite E0. cbn.
      rewrite E1. cbn. split; [done|]. destruct Hs1 as (b & n & ? & ? & ? & ?). by exists b, n.
    + rewrite decide_True by done. intros H. exfalso. inv_C. destruct Hs as (b' & n & Hf' & Hl & _).
      rewrite Hf' in Hf. injection Hf as ->. rewrite Hl in Hg. apply ptr_ge_inv in Hg as (b' & o & o' & Hp & [= <- <-] & _).
      rewrite Ht, Hp in E0. cbn in E0. injection E0 as <-. cbn in E1. by rewrite Hb in E1.
    + rewrite decide_False by done. intros [= <- <- <-]. right. split; [done|]. split; [done|]. by rewrite Ht, Hl.
  - cbn beta iota. rewrite !C_ret_eq. case_decide as He.
    + intros H. left. inv_C. C_run. rewrite E0. cbn. rewrite E1. cbn.
      split; [done|]. destruct Hs as (b & n & ? & ? & ? & ?). by exists b, n.
    + intros [= <- <- <-]. by left.
Qed.

(** A push on a broken stack is undefined. *)
Lemma broken_push s v err w e s' w' : broken s → stack_push EXTEND_SIZE s v err w ≠ Val ((e, s'), w').
Proof using Type.
  intros [Hf Hg] H. unfold stack_push in H. rewrite C_bind_eq, Hg, lift_Val, C_bind_eq in H.
  unfold stack_extend in H. rewrite C_bind_eq, Hf in H.
  apply ptr_ge_inv in Hg as (b & o & o' & _ & Hl & _). by rewrite Hl in H.
Qed.

(** A push with an error pending keeps an error, or leaves an element. *)
Lemma push_pending s v err w e s' w' : shaped s → err ≠ 0 → stack_push EXTEND_SIZE s v err w = Val ((e, s'), w') →
  e ≠ 0 ∨ not_empty s'.
Proof using Hsize.
  intros Hs Herr. unfold stack_push. rewrite C_bind_eq.
  destruct (ptr_ge (st_top s) (st_last s)) as [full| |] eqn:Hg; [|done|done]. rewrite lift_Val, C_bind_eq.
  destruct full; [|rewrite C_ret_eq; cbn beta iota; rewrite decide_False by done; intros [= <- _ _]; by left].
  destruct (stack_extend EXTEND_SIZE s w) as [[[e1 s1] w1]| |] eqn:Hx; [|done|done]. cbn beta iota.
  pose proof Hs as (b & n & Hf & Hl & Hn & _). rewrite Hl in Hg.
  apply ptr_ge_inv in Hg as (b' & o & o' & Hp & [= <- <-] & Ho).
  destruct (stack_extend_cases _ _ _ _ _ Hs Hx) as [(-> & _ & _ & Ht & Hf1)|[(-> & Ht & b' & Hf' & Hb)|(He & _)]].
  - rewrite decide_True by done. intros H. inv_C. right. rewrite Ht, Hp in E0. cbn in E0. injection E0 as <-.
    unfold not_empty. cbn [st_top st_first]. rewrite Hf1, Hf. unfold ptr_lt. cbn. rewrite decide_True by done. cbn.
    f_equal. apply bool_decide_eq_false. lia.
  - rewrite decide_True by done. intros H. exfalso. inv_C. rewrite Hf in Hf'. injection Hf' as <-.
    rewrite Ht, Hp in E0. cbn in E0. injection E0 as <-. cbn in E1. by rewrite Hb in E1.
  - rewrite decide_False by done. intros [= <- _ _]. by left.
Qed.

Lemma stack_init_settled s w e s' w' : stack_init EXTEND_SIZE zero s w = Val ((e, s'), w') →
  (stack_init EXTEND_SIZE zero s (settled w) = Val ((e, s'), settled w') ∧ shaped s') ∨ e ≠ 0.
Proof using Hsize.
  unfold stack_init. rewrite !C_bind_eq. unfold next_alloc. destruct (w_alloc w) as [|[] os]; cbn [settled w_alloc];
    intros [= <- <- <-]; [left|by right|left|left];
    (split; [done|]; exists (st_next s), (EXTEND_SIZE - 1); split_and!; try done; [lia|apply Nat.lt_succ_diag_r]).
Qed.

End Stack.

(** ** The switch *)

Section Run.
Context (opts : options) (data : monitor_data).

Definition whole (st : run_state) : Prop := shaped (blocks st) ∧ shaped (calls st).

(** A failure was forgotten in a call that has not returned yet. *)
Definition poisoned (st : run_state) : Prop := broken (blocks st) ∧ not_empty (calls st).

(** Cases that leave the stacks alone. *)
Definition leaves_stacks (st : run_state) (c : ctl) : Prop :=
  match c with
  | Next st' => blocks st' = blocks st ∧ calls st' = calls st
  | Exit st' => failed (error st')
  end.

Ltac follow := repeat match goal with
  | H : context [match ?x with _ => _ end] |- _ => is_var x; destruct x
  | H : context [match decide ?P with _ => _ end] |- _ => destruct (decide P)
  end; inv_res.

Lemma on_before_jump_stacks st c : on_before_jump st = Val c → leaves_stacks st c.
Proof using Type. unfold on_before_jump. intros H. inv_res. by follow. Qed.

Lemma on_enter_stacks st c : on_enter data st = Val c → leaves_stacks st c.
Proof using Type. unfold on_enter. intros H. case_decide; inv_res; by repeat follow. Qed.

Lemma on_returned_stacks st c : on_returned data st = Val c → leaves_stacks st c.
Proof using Type. unfold on_returned. intros H. inv_res. by follow. Qed.

Lemma leaves_whole st c : leaves_stacks st c → whole st → match c with Next st' => whole st' | Exit _ => True end.
Proof using Type. destruct c as [st'|]; [|done]. intros [Hb Hc] [H1 H2]. unfold whole. by rewrite Hb, Hc. Qed.

Lemma leaves_poisoned st c : leaves_stacks st c → poisoned st →
  match c with Next st' => poisoned st' | Exit st' => failed (error st') end.
Proof using Type. destruct c as [st'|]; [|done]. intros [Hb Hc] [H1 H2]. unfold poisoned. by rewrite Hb, Hc. Qed.

Lemma shaped_top {E} (s : cstack E) t : shaped (CStack (st_first s) (st_last s) t (st_bufs s) (st_next s)) ↔ shaped s.
Proof using Type. done. Qed.

Lemma stack_pop_shaped {E} (s s' : cstack E) v : stack_pop s = Val (v, s') → shaped s → shaped s'.
Proof using Type. unfold stack_pop. intros H Hs. inv_res. exact Hs. Qed.

Lemma leave_callee_whole st c : leave_callee opts data st = Val c → whole st →
  match c with Next st' => whole st' | Exit st' => failed (error st') end.
Proof using Type.
  unfold leave_callee. intros H [Hb Hc]. inv_res. destruct a as [ncall cs]. inv_res.
  match goal with E : CALL_STACK_POP _ = Val _ |- _ => apply stack_pop_shaped in E; [|done]; rename E into Hcs end.
  destruct a0; inv_res; [done|]. destruct a0 as [b bs]. inv_res.
  match goal with E : BLOCK_STACK_POP _ = Val _ |- _ => apply stack_pop_shaped in E; [|done]; rename E into Hbs end.
  destruct (OPTION_sm_trace opts); inv_res; [|done]. destruct a1 as [t bs2]. inv_res.
  match goal with E : BLOCK_STACK_POP _ = Val _ |- _ => apply stack_pop_shaped in E; [|done] end. done.
Qed.

(** On a poisoned state an exit comes to the broken stack. *)
Lemma leave_callee_poisoned st c : broken (blocks st) → leave_callee opts data st ≠ Val c.
Proof using Type.
  intros [Hf _] H. unfold leave_callee in H. inv_res. destruct a as [ncall cs]. inv_res.
  match goal with E : BLOCK_STACK_IS_EMPTY _ = Val _ |- _ => rename E into He end.
  unfold BLOCK_STACK_IS_EMPTY, BLOCK_STACK_RESTORE_TOP, stack_restore_top, stack_is_empty, ptr_lt in He. cbn in He. rewrite Hf in He. by destruct (ce_blocks_sp ncall).
Qed.

Lemma dispatch_poisoned st w c w' : poisoned st → dispatch opts data st w = Val (c, w') →
  match c with Next st' => poisoned st' | Exit st' => failed (error st') end.
Proof using Type.
  intros Hp H. pose proof Hp as [Hb Hc]. unfold dispatch in H. inv_C.
  destruct (client_event_case a) as [[]|]; inv_C; [..|done].
  - by eapply leaves_poisoned; [eapply on_before_jump_stacks|].
  - unfold on_after_jump in H. inv_C. destruct a0; inv_C; [done|]. destruct a1; inv_C; [|done].
    destruct a1 as [e bs]. exfalso. by eapply broken_push.
  - unfold on_call in H. inv_C. destruct a0; inv_C; [done|]. exfalso. destruct (OPTION_sm_trace opts); inv_C.
    + destruct a0 as [e bs]. by eapply broken_push.
    + cbn beta iota in H. inv_C. match goal with E : BLOCK_STACK_PUSH _ _ _ _ = Val (?p, _) |- _ => destruct p end.
      by eapply broken_push.
  - by eapply leaves_poisoned; [eapply on_enter_stacks|].
  - unfold on_exit in H. inv_C. destruct a0; inv_C; [done|]. destruct a0.
    + by match goal with E : CALL_STACK_IS_EMPTY _ = Val _ |- _ => unfold CALL_STACK_IS_EMPTY, stack_is_empty in E;
        rewrite Hc in E end.
    + inv_C. exfalso. by eapply leave_callee_poisoned.
  - by eapply leaves_poisoned; [eapply on_returned_stacks|].
Qed.

(** Nothing is accepted from it. *)
Lemma run_loop_poisoned fuel : ∀ st w st' w', poisoned st → run_loop fuel opts data st w = Val (st', w') → failed (error st').
Proof using Type.
  induction fuel as [|fuel IH]; intros st w st' w' Hp H; cbn [run_loop] in H; [done|]. inv_C.
  apply dispatch_poisoned in E; [|done]. destruct a as [st1|st1]; inv_C; [|done].
  case_decide; inv_C; [done|]. destruct a1 as [sg e]. by eapply IH; [|exact H].
Qed.

(** ** The settled world *)

(** What may fail: an error stays, and nothing else depends on it. *)
Lemma WRITE_ANSWER_settled a err w e w' : WRITE_MONITOR_ANSWER a err w = Val (e, w') →
  WRITE_MONITOR_ANSWER a err (settled w) = Val (e, settled w') ∨ failed e.
Proof using Type.
  unfold WRITE_MONITOR_ANSWER, write_bytes. intros H. inv_C. destruct (w_write w) as [|[] l]; [by left..|by right].
Qed.
Lemma WRITE_ANSWER_failed a err w e w' : failed err → WRITE_MONITOR_ANSWER a err w = Val (e, w') → failed e.
Proof using Type. unfold WRITE_MONITOR_ANSWER. intros He H. inv_C. by case_match. Qed.
Lemma TIMEOUT_settled err w e w' : MONITOR_SIGNAL_TIMEOUT opts err w = Val (e, w') →
  MONITOR_SIGNAL_TIMEOUT opts err (settled w) = Val (e, settled w') ∨ failed e.
Proof using Type.
  unfold MONITOR_SIGNAL_TIMEOUT, next_select. intros H. destruct (TIMEOUT opts); inv_C; [|by left].
  destruct (w_select w) as [|[] l]; inv_C; [by left..|by right].
Qed.
Lemma TIMEOUT_failed err w e w' : failed err → MONITOR_SIGNAL_TIMEOUT opts err w = Val (e, w') → failed e.
Proof using Type.
  unfold MONITOR_SIGNAL_TIMEOUT. intros He H. destruct (TIMEOUT opts); inv_C; [|done]. by destruct a.
Qed.
Lemma READ_SIGNAL_settled dst err w r w' : READ_CLIENT_SIGNAL dst err w = Val (r, w') →
  READ_CLIENT_SIGNAL dst err (settled w) = Val (r, settled w').
Proof using Type.
  unfold READ_CLIENT_SIGNAL, read_sig. intros H. inv_C. rewrite C_bind_eq. cbn [settled w_sig].
  destruct (w_sig w) eqn:Es; inv_C; [|done]. unfold settled, log. cbn. by rewrite Es.
Qed.

(** What a case of the switch may come to. *)
Definition whole_ctl (c : ctl) : Prop := match c with Next st => whole st | Exit _ => True end.
Definition stuck_ctl (c : ctl) : Prop :=
  match c with Next st => failed (error st) ∨ poisoned st | Exit st => failed (error st) end.

Lemma blocks_push_settled s v err w e s' w' : shaped s → BLOCK_STACK_PUSH s v err w = Val ((e, s'), w') →
  (BLOCK_STACK_PUSH s v err (settled w) = Val ((e, s'), settled w') ∧ shaped s') ∨ (failed e ∧ broken s').
Proof using Type. by apply stack_push_settled. Qed.
Lemma calls_push_settled s v err w e s' w' : shaped s → CALL_STACK_PUSH s v err w = Val ((e, s'), w') →
  (CALL_STACK_PUSH s v err (settled w) = Val ((e, s'), settled w') ∧ shaped s') ∨ (failed e ∧ broken s').
Proof using Type. by apply stack_push_settled. Qed.

Lemma on_after_jump_settled st w c w' : whole st → on_after_jump opts data st w = Val (c, w') →
  (on_after_jump opts data st (settled w) = Val (c, settled w') ∧ whole_ctl c) ∨ stuck_ctl c.
Proof using Type.
  intros [Hb Hc] H. unfold on_after_jump in *. inv_C. rewrite C_bind_eq, E, lift_Val.
  destruct a; inv_C; [by left|]. rewrite C_bind_eq, E0, lift_Val, C_bind_eq, E1, lift_Val, C_bind_eq.
  destruct a0; inv_C; [|by left]. destruct a0 as [e bs]. inv_C. rewrite C_bind_eq.
  match goal with E : BLOCK_STACK_PUSH _ _ _ _ = _ |- _ => rename E into Hp end.
  apply blocks_push_settled in Hp as [[Hp Hbs]|[He _]]; [|by right; left|done]. left. by rewrite Hp.
Qed.

Lemma enter_callee_stacks f st st' : enter_callee data f st = Val st' →
  error st' = error st ∧ blocks st' = blocks st ∧ calls st' = calls st.
Proof using Type. unfold enter_callee. intros H. inv_res. case_match; inv_res; done. Qed.

Lemma on_call_settled st w c w' : whole st → on_call opts data st w = Val (c, w') →
  (on_call opts data st (settled w) = Val (c, settled w') ∧ whole_ctl c) ∨ stuck_ctl c.
Proof using Type.
  intros [Hb Hc] H. unfold on_call in *. inv_C. rewrite C_bind_eq, E, lift_Val. destruct a; inv_C; [by left|].
  rewrite C_bind_eq. destruct a as [e bs].
  assert (Hfirst : ((if OPTION_sm_trace opts then BLOCK_STACK_PUSH (blocks st) (topblock st) (error st)
      else mret (error st, blocks st) : C _) (settled w) = Val ((e, bs), settled w0) ∧ shaped bs) ∨ broken bs).
  { destruct (OPTION_sm_trace opts); [|inv_C; by left].
    match goal with E : BLOCK_STACK_PUSH _ _ _ _ = _ |- _ => rename E into Hp end.
    apply blocks_push_settled in Hp as [?|[_ ?]]; [by left|by right|done]. }
  inv_C. destruct a as [e1 bs1]. inv_C. destruct a as [e2 cs]. inv_C.
  match goal with E : enter_callee _ _ _ = _ |- _ => pose proof (enter_callee_stacks _ _ _ E) as (He & Hbl & Hcl) end.
  cbn in He, Hbl, Hcl.
  destruct Hfirst as [[-> Hbs]|Hbs]; [|exfalso; by eapply broken_push].
  rewrite C_bind_eq. 
  match goal with E : BLOCK_STACK_PUSH _ _ _ _ = _ |- _ => apply blocks_push_settled in E as [[-> Hbs1]|[Hf Hbs1]]; [| |done] end.
  - rewrite C_bind_eq.
    match goal with E : CALL_STACK_PUSH _ _ _ _ = _ |- _ => apply calls_push_settled in E as [[-> Hcs]|[Hf Hcs]]; [| |done] end.
    + left. split; [|by split; cbn; rewrite ?Hbl, ?Hcl].
      by rewrite C_bind_eq, E3, lift_Val, C_bind_eq, E4, lift_Val, C_bind_eq, E5, lift_Val.
    + right. left. cbn. by rewrite He.
  - match goal with E : CALL_STACK_PUSH _ _ _ _ = _ |- _ => apply push_pending in E as [Hf'|Hne]; [| |done..] end.
    + right. left. cbn. by rewrite He.
    + right. right. split; cbn; by rewrite ?Hbl, ?Hcl.
Qed.

Lemma dispatch_settled st w c w' : whole st → dispatch opts data st w = Val (c, w') →
  (dispatch opts data st (settled w) = Val (c, settled w') ∧ whole_ctl c) ∨ stuck_ctl c.
Proof using Type.
  intros Hw H. unfold dispatch in *. inv_C. rewrite C_bind_eq, E, lift_Val.
  destruct (client_event_case a) as [[]|]; [..|inv_C; by left].
  - inv_C. left. split; [by rewrite H, lift_Val|]. by eapply leaves_whole; [eapply on_before_jump_stacks|].
  - by apply on_after_jump_settled.
  - by apply on_call_settled.
  - inv_C. left. split; [by rewrite H, lift_Val|]. by eapply leaves_whole; [eapply on_enter_stacks|].
  - unfold on_exit in *. inv_C. rewrite C_bind_eq, E0, lift_Val. destruct a0; inv_C; [by left|].
    rewrite C_bind_eq, E1, lift_Val. destruct a0; inv_C.
    + rewrite C_bind_eq, E2, lift_Val. destruct a0; inv_C; [by left|]. rewrite C_bind_eq.
      match goal with E : WRITE_MONITOR_ANSWER _ _ _ = _ |- _ => apply WRITE_ANSWER_settled in E as [->|Hf] end;
        [by left|by right].
    + rewrite H, lift_Val. apply leave_callee_whole in H; [|done]. by left; destruct c.
  - inv_C. left. split; [by rewrite H, lift_Val|]. by eapply leaves_whole; [eapply on_returned_stacks|].
Qed.

Lemma run_loop_settled fuel : ∀ st w st' w', whole st → run_loop fuel opts data st w = Val (st', w') →
  run_loop fuel opts data st (settled w) = Val (st', settled w') ∨ failed (error st').
Proof using Type.
  induction fuel as [|fuel IH]; intros st w st' w' Hw H; cbn [run_loop] in *; [done|]. inv_C. rewrite C_bind_eq.
  apply dispatch_settled in E as [[-> Hc]|Hs]; [| |done]; destruct a as [st1|st1]; inv_C; [|by left| |by right].
  - rewrite C_bind_eq. apply WRITE_ANSWER_settled in E as [->|Hf].
    + rewrite C_bind_eq. apply TIMEOUT_settled in E0 as [->|Hf].
      * case_decide; inv_C; [by left|]. rewrite C_bind_eq.
        match goal with E : READ_CLIENT_SIGNAL _ _ _ = Val (?r, _) |- _ =>
          destruct r as [sg e]; apply READ_SIGNAL_settled in E as -> end. by eapply IH.
      * right. rewrite decide_True in H by done. by inv_C.
    + right. apply TIMEOUT_failed in E0; [|done]. rewrite decide_True in H by done. by inv_C.
  - right. destruct Hs as [Hf|Hp].
    + apply WRITE_ANSWER_failed in E; [|done]. apply TIMEOUT_failed in E0; [|done].
      rewrite decide_True in H by done. by inv_C.
    + case_decide; inv_C; [done|].
      match goal with E : READ_CLIENT_SIGNAL _ _ _ = Val (?r, _) |- _ => destruct r end.
      by eapply run_loop_poisoned; [|exact H].
Qed.

End Run.

(** ** What is accepted *)

Lemma settled_fuel w : run_fuel (settled w) = run_fuel w.
Proof. done. Qed.

Lemma run_exit_status_0 opts st w w' : failed (error st) → run_exit opts st w ≠ Val (0, w').
Proof. intros Hf H. apply run_exit_status in H. by apply Hf. Qed.

Lemma run_exit_settled opts st w w' : run_exit opts st w = Val (0, w') →
  run_exit opts st (settled w) = Val (0, settled w').
Proof.
  intros H. pose proof (run_exit_status _ _ _ _ _ H) as He. unfold run_exit in *. rewrite decide_False in * by lia.
  inv_C. by rewrite C_bind_eq, C_ret_eq, C_bind_eq, E, lift_Val, C_bind_eq, E0, lift_Val, C_ret_eq, H.
Qed.

(** A run that is accepted is accepted in the settled world: no failure of the
    environment makes the difference. *)
Lemma monitor_run_settled opts data w w' : monitor_run opts data w = Val (0, w') →
  monitor_run opts data (settled w) = Val (0, settled w').
Proof.
  intros H. unfold monitor_run, call_stack_init, block_stack_init in *. inv_C. destruct a as [e cs]. rewrite C_bind_eq.
  case_decide as Hd; inv_C; [done|].
  apply stack_init_settled in E as [[-> Hcs]|]; [|done..]. rewrite decide_False by lia.
  destruct a as [e' bs]. rewrite C_bind_eq. case_decide as Hd'; inv_C; [done|].
  apply stack_init_settled in E0 as [[-> Hbs]|]; [|done..]. rewrite decide_False by lia.
  cbn zeta in *. inv_C. rewrite C_bind_eq.
  apply TIMEOUT_settled in E as [->|Hf].
  - case_decide; [by apply run_exit_settled|]. inv_C. rewrite C_bind_eq.
    match goal with E : READ_CLIENT_SIGNAL _ _ _ = Val (?r, _) |- _ => destruct r as [sg e1]; apply READ_SIGNAL_settled in E as -> end.
    inv_C. rewrite C_bind_eq, settled_fuel.
    match goal with E : run_loop _ _ _ _ _ = _ |- _ => apply run_loop_settled in E as [->|Hf]; [| |done] end.
    + by apply run_exit_settled.
    + by apply run_exit_status_0 in H.
  - rewrite decide_True in H by done. by apply run_exit_status_0 in H.
Qed.

Lemma run_times_settled n opts data : ∀ w w', run_times n opts data w = Val (0, w') →
  run_times n opts data (settled w) = Val (0, settled w').
Proof.
  induction n as [|n IH]; intros w w' H; cbn [run_times] in *; [by inv_C|]. inv_C. case_decide as He; inv_C; [done|].
  subst a. rewrite C_bind_eq. apply monitor_run_settled in E as ->. by apply IH.
Qed.

Lemma settled_favourable w : favourable (settled w).
Proof. split; [constructor|]. by split; constructor. Qed.

(** The preloading: its failures are lost, but it takes no signal. *)
Lemma preload_keeps opts w r w' : (if decide (0 < OPTION_nb_preload_monitor_ok_answers opts)
    then preload_loop (Z.to_nat (OPTION_nb_preload_monitor_ok_answers opts)) 0 else mret 0) w = Val (r, w') →
  w_sig w' = w_sig w.
Proof.
  assert (Hloop : ∀ n err w r w', preload_loop n err w = Val (r, w') → w_sig w' = w_sig w).
  { clear. intros n. induction n as [|n IH]; intros err w r w' H; cbn [preload_loop] in H; [by inv_C|].
    case_decide; [by inv_C|]. inv_C. apply IH in H as ->. unfold WRITE_MONITOR_ANSWER, write_bytes in E. by inv_C. }
  case_decide; [by apply Hloop|by intros [= _ <-]].
Qed.

(** What follows the load, when it is accepted, was a session. *)
Lemma main_runs_sound opts data w nb w' : run_ready data → Forall full_packet (w_sig w) →
  count_finis (Z.to_nat (nb_modules data)) 0 data 0 = Val nb → main_runs opts data w = Val (0, w') →
  session data (S (Z.to_nat nb)) (signals w) (signals w').
Proof.
  intros Hready Hps Hnb H. unfold main_runs in H. inv_C. apply preload_keeps in E as Hsig.
  assert (Hs : signals w = signals w0) by (unfold signals; by rewrite Hsig).
  rewrite <- Hsig in Hps. rewrite Hs.
  case_decide as He; [by inv_C|]. assert (Ha : a0 = 0) by (apply small_u32; [by eapply monitor_run_small|lia]). subst a0.
  apply monitor_run_settled in E0.
  destruct (monitor_run_accepts opts data Hready _ _ (settled_favourable w0) Hps E0) as (tr & Htr & Hsig1 & Hsv & Hps1).
  change (signals (settled w0)) with (signals w0) in Hsig1. rewrite Hsig1. constructor; [done|]. inv_C.
  rewrite Hnb in E1. injection E1 as ->.
  assert (a1 = 0) as -> by (apply small_u32; [by eapply run_times_small|done]). apply run_times_settled in E2.
  apply (run_times_iff opts data Hready _ (settled w1)); [apply Hsv|done|]. by eexists.
Qed.
