(* ===== verification/LoadFailures.v ===== *)
(** * Failures during a load

    What a load accepts does not depend on the environment either.  Its
    allocations are checked, but for the names of the functions: a [strdup] that
    fails leaves a null name.  So the data of a load that succeeds are those of
    the settled world, less some names ([data_le]); the checks do not read the
    names, and a relocation that read a null one would be undefined. *)

From S2P Require Import Prelude CSem Wire CStack BlockStack CallStack MonitorData.
From S2P Require Import MonitorRun RunSpec RunRefine RunTotal LoadSections Relocate Dot MonitorLoad LoadWf Main Sessions Failures.
From Stdlib Require Import Strings.Byte.
Import MonitorData.

(** ** Less defined results *)

Definition res_le {A} (R : relation A) (r r' : res A) : Prop := ∀ a, r = Val a → ∃ a', r' = Val a' ∧ R a a'.

(** What a computation does, it does in the settled world, or it comes to a bad
    result. *)
Definition survives {A} (bad : A → Prop) (R : relation A) (m m' : C A) : Prop := ∀ w a w',
  m w = Val (a, w') → (∃ a', m' (settled w) = Val (a', settled w') ∧ R a a') ∨ bad a.

Definition never {A} (_ : A) : Prop := False.

Lemma res_le_refl {A} (r : res A) : res_le (=) r r.
Proof. intros a ->. by exists a. Qed.
Lemma res_le_Val {A} (R : relation A) a a' : R a a' → res_le R (Val a) (Val a').
Proof. intros HR b [= <-]. by exists a'. Qed.
Lemma res_le_Undef {A} (R : relation A) u r : res_le R (Undef u) r.
Proof. by intros a. Qed.
Lemma res_le_bind {A B} (R : relation A) (S : relation B) r r' (f f' : A → res B) :
  res_le R r r' → (∀ a a', R a a' → res_le S (f a) (f' a')) → res_le S (r ≫= f) (r' ≫= f').
Proof.
  intros Hr Hf b H. inv_res. destruct (Hr _ eq_refl) as (a' & -> & Ha). by apply (Hf _ _ Ha).
Qed.
Lemma res_le_same {A B} (S : relation B) (r : res A) (f f' : A → res B) :
  (∀ a, res_le S (f a) (f' a)) → res_le S (r ≫= f) (r ≫= f').
Proof. intros Hf. eapply res_le_bind; [apply res_le_refl|]. by intros a ? <-. Qed.

Lemma survives_bind {A B} (bad1 : A → Prop) (bad2 : B → Prop) (R : relation A) (S : relation B) m m' (f f' : A → C B) :
  survives bad1 R m m' → (∀ a a', R a a' → survives bad2 S (f a) (f' a')) →
  (∀ a w b w', bad1 a → f a w = Val (b, w') → bad2 b) → survives bad2 S (m ≫= f) (m' ≫= f').
Proof.
  intros Hm Hf Hbad w b w' (a & w1 & H1 & H2)%C_bind_inv.
  destruct (Hm w a w1 H1) as [(a' & Hc & HR)|Ha]; [|by right; eapply Hbad]. rewrite C_bind_eq, Hc. by apply (Hf _ _ HR).
Qed.
Lemma survives_seq {A B} (bad : B → Prop) (R : relation A) (S : relation B) m m' (f f' : A → C B) :
  survives never R m m' → (∀ a a', R a a' → survives bad S (f a) (f' a')) → survives bad S (m ≫= f) (m' ≫= f').
Proof. intros Hm Hf. by eapply survives_bind. Qed.
Lemma survives_same {A B} (bad : B → Prop) (S : relation B) (m : C A) (f f' : A → C B) :
  survives never (=) m m → (∀ a, survives bad S (f a) (f' a)) → survives bad S (m ≫= f) (m ≫= f').
Proof. intros Hm Hf. eapply survives_seq; [done|]. by intros a ? <-. Qed.

Lemma survives_ret {A} (bad : A → Prop) (R : relation A) a a' : R a a' → survives bad R (mret a) (mret a').
Proof. intros HR w b w' [= <- <-]. left. by exists a'. Qed.
Lemma survives_bad {A} (bad : A → Prop) (R : relation A) a m : bad a → survives bad R (mret a) m.
Proof. intros Ha w b w' [= <- <-]. by right. Qed.
Lemma survives_lift {A} (bad : A → Prop) (R : relation A) r r' : res_le R r r' → survives bad R (lift r) (lift r').
Proof. intros Hr w a w' [Ha ->]%lift_inv. destruct (Hr a Ha) as (a' & -> & HR). left. by exists a'. Qed.
Lemma survives_lift_same {A} (bad : A → Prop) (r : res A) : survives bad (=) (lift r) (lift r).
Proof. apply survives_lift, res_le_refl. Qed.
Lemma survives_world {A} (bad : A → Prop) (R : relation A) (n : world → nat) (f f' : nat → C A) :
  (∀ w, n (settled w) = n w) → (∀ k, survives bad R (f k) (f' k)) → survives bad R (λ w, f (n w) w) (λ w, f' (n w) w).
Proof. intros Hn Hf w a w' H. rewrite Hn. by apply Hf. Qed.
Lemma survives_read_load bad n : survives bad (=) (read_load n) (read_load n).
Proof.
  intros w a w'. unfold read_load. cbn. destruct (w_load w) eqn:E; intros [= <- <-]; left; eexists; (split; [|done]);
    unfold settled, log; cbn; by rewrite ?E.
Qed.
Lemma survives_write e : survives (λ ok, ok = false) (=) (write_bytes e) (write_bytes e).
Proof.
  intros w a w'. unfold write_bytes. cbn. destruct (w_write w) as [|[] l]; intros [= <- <-]; [left|left|by right]; by eexists.
Qed.
Lemma survives_alloc_ok : survives (λ ok, ok = false) (=) alloc_ok alloc_ok.
Proof.
  intros w a w' H. unfold alloc_ok, next_alloc in *. inv_C. destruct (w_alloc w) as [|[] l]; inv_C;
    first [by right|left; by eexists].
Qed.

Create HintDb survives discriminated.
#[export] Hint Resolve survives_lift_same survives_read_load res_le_refl : survives.

Lemma survives_calloc {A} n (x : A) : survives (λ p, p = Null) (λ p p', p = p' ∧ p = Live (zeroed n x)) (calloc n x) (calloc n x).
Proof.
  unfold calloc. eapply survives_bind; [apply survives_alloc_ok| |].
  - intros ok ? <-. destruct ok; [by apply survives_ret|by apply survives_bad].
  - by intros ok w b w' -> [= <- _].
Qed.

(** ** Data with fewer names *)

Definition name_le (p q : cptr (list byte)) : Prop := p = Null ∨ p = q.

Definition cptr_rel {A} (R : relation A) (p q : cptr A) : Prop :=
  match p, q with
  | Null, Null | Dangling, Dangling => True
  | Live a, Live b => R a b
  | _, _ => False
  end.

Definition set_name n fd := FunctionData n (flags fd) (nb_blocks fd) (control_flow_graph fd) (immediate_post_dominator fd).

Definition function_le (fd fd' : function_data) : Prop := ∃ n, fd' = set_name n fd ∧ name_le (name fd) n.
Definition module_le (md md' : module_data) : Prop :=
  ∃ fs, md' = set_functions fs md ∧ cptr_rel (Forall2 function_le) (functions md) fs.
Definition data_le (data data' : monitor_data) : Prop :=
  ∃ ms, data' = MonitorData (nb_modules data) ms ∧ cptr_rel (Forall2 module_le) (modules data) ms.

#[export] Instance function_le_refl : Reflexive function_le.
Proof. intros []. eexists. split; [done|]. by right. Qed.
Lemma cptr_rel_refl {A} (R : relation A) : Reflexive R → Reflexive (cptr_rel R).
Proof. intros HR [|a|]; [done|apply HR|done]. Qed.
#[export] Instance module_le_refl : Reflexive module_le.
Proof. intros []. eexists. split; [done|]. apply cptr_rel_refl, _. Qed.

Lemma set_functions_le fs fs' md md' : module_le md md' → cptr_rel (Forall2 function_le) fs fs' →
  module_le (set_functions fs md) (set_functions fs' md').
Proof. intros (fs0 & -> & _) Hfs. by exists fs'. Qed.

Lemma deref_le {A} (R : relation A) p q : cptr_rel R p q → res_le R (deref p) (deref q).
Proof. destruct p as [|a|], q as [|b|]; try done. intros HR. by apply res_le_Val. Qed.
Lemma arr_get_le {A} (R : relation A) l l' i : Forall2 R l l' → res_le R (arr_get l i) (arr_get l' i).
Proof.
  intros Hl a. unfold arr_get. case_decide; [|done]. pose proof (Forall2_lookup_l R l l' (Z.to_nat i)) as Hlk.
  destruct (l !! Z.to_nat i) as [x|] eqn:E; [|done]. intros [= <-].
  destruct (Hlk x Hl eq_refl) as (y & -> & HR). by exists y.
Qed.
Lemma arr_set_le {A} (R : relation A) l l' i x x' : Forall2 R l l' → R x x' →
  res_le (Forall2 R) (arr_set l i x) (arr_set l' i x').
Proof.
  intros Hl Hx a. unfold arr_set. rewrite (Forall2_length Hl). case_decide; [|done]. intros [= <-].
  eexists. split; [done|]. by apply Forall2_insert.
Qed.

Lemma function_at_le md md' f : module_le md md' → res_le function_le (function_at md f) (function_at md' f).
Proof.
  intros (fs & -> & Hfs). unfold function_at. eapply res_le_bind; [by apply deref_le|]. intros l l'. apply arr_get_le.
Qed.
Lemma put_function_le md md' f fd fd' : module_le md md' → function_le fd fd' →
  res_le module_le (put_function md f fd) (put_function md' f fd').
Proof.
  intros (fs & -> & Hfs) Hfd. unfold put_function. eapply res_le_bind; [by apply deref_le|]. intros l l' Hl.
  eapply res_le_bind; [by apply arr_set_le|]. intros l1 l1' Hl1. apply res_le_Val. by eexists.
Qed.
Lemma module_at_le data data' m : data_le data data' → res_le module_le (module_at data m) (module_at data' m).
Proof.
  intros (ms & -> & Hms). unfold module_at. eapply res_le_bind; [by apply deref_le|]. intros l l'. apply arr_get_le.
Qed.
Lemma put_module_le data data' m md md' : data_le data data' → module_le md md' →
  res_le data_le (put_module data m md) (put_module data' m md').
Proof.
  intros (ms & -> & Hms) Hmd. unfold put_module. eapply res_le_bind; [by apply deref_le|]. intros l l' Hl.
  eapply res_le_bind; [by apply arr_set_le|]. intros l1 l1' Hl1. apply res_le_Val. by eexists.
Qed.

(** ** The sections *)

(** A status and data. *)
Definition status_le {A} (R : relation A) (r r' : Z * A) : Prop := r.1 = r'.1 ∧ R r.2 r'.2.
Definition failed_status {A} (r : Z * A) : Prop := failed r.1.

Lemma status_le_intro {A} (R : relation A) e a a' : R a a' → status_le R (e, a) (e, a').
Proof. done. Qed.

Lemma survives_fail {A} (R : relation (Z * A)) e a m : e ≠ 0 → survives failed_status R (mret (e, a)) m.
Proof. intros He. by apply survives_bad. Qed.
Lemma survives_done {A} (R : relation A) e a a' : R a a' → survives failed_status (status_le R) (mret (e, a)) (mret (e, a')).
Proof. intros HR. by apply survives_ret. Qed.

#[export] Hint Resolve survives_done survives_fail status_le_intro res_le_Val function_at_le put_function_le
  set_functions_le : survives.

Lemma strdup_le p : survives never name_le (strdup p) (strdup p).
Proof.
  intros w a w' H. unfold strdup in *. inv_C. destruct a0 as [s rest]. inv_C. left. unfold alloc_ok, next_alloc in *. inv_C.
  rewrite C_bind_eq, E, lift_Val, C_bind_eq.
  destruct (w_alloc w) as [|o os]; inv_C; (eexists; split; [done|]); [by right|]. cbn. case_match; [by right|by left].
Qed.

Lemma function_id_loop_le n : ∀ ptr md md', module_le md md' →
  survives failed_status (status_le module_le) (function_id_loop n ptr md) (function_id_loop n ptr md').
Proof.
  induction n as [|n IH]; intros ptr md md' Hmd; cbn [function_id_loop]; [by auto with survives|].
  apply survives_same; [apply survives_lift_same|]. intros f_id.
  replace (nb_functions md') with (nb_functions md) by (by destruct Hmd as (? & -> & _)). case_decide; [by apply survives_fail|].
  eapply survives_seq; [apply strdup_le|]. intros nm nm' Hnm. apply survives_same; [apply survives_lift_same|]. intros fl. cbn zeta.
  eapply survives_seq; [apply survives_lift, put_function_le; [done|by exists nm']|].
  intros md1 md1' Hmd1. apply survives_same; [apply survives_lift_same|]. intros ptr1. apply IH.
  destruct Hmd1 as (fs & -> & Hfs). by exists fs.
Qed.

(** An allocation whose failure is checked. *)
Lemma survives_checked {A B} (bad : B → Prop) (S : relation B) n (x : A) (f f' : cptr (list A) → C B) :
  survives bad S (f (Live (zeroed n x))) (f' (Live (zeroed n x))) →
  (∀ w b w', f Null w = Val (b, w') → bad b) → survives bad S (calloc n x ≫= f) (calloc n x ≫= f').
Proof.
  intros Hf Hbad. eapply survives_bind; [apply survives_calloc| |].
  - by intros a ? [<- ->].
  - intros a w b w' ->. apply Hbad.
Qed.

(** Where only the names differ, the rest is the same. *)
Lemma nb_functions_le md md' : module_le md md' → nb_functions md' = nb_functions md.
Proof. by intros (fs & -> & _). Qed.
Lemma nb_modules_le data data' : data_le data data' → nb_modules data' = nb_modules data.
Proof. by intros (ms & -> & _). Qed.
Lemma call_graph_le md md' : module_le md md' → call_graph md' = call_graph md.
Proof. by intros (fs & -> & _). Qed.
Lemma non_null_le md md' : module_le md md' → non_null (functions md') = non_null (functions md).
Proof. intros (fs & -> & Hfs). by destruct (functions md), fs. Qed.
Lemma set_call_graph_le g md md' : module_le md md' → module_le (set_call_graph g md) (set_call_graph g md').
Proof. intros (fs & -> & Hfs). by exists fs. Qed.

Lemma load_section_function_id_le fct md md' : module_le md md' →
  survives failed_status (status_le module_le) (load_section_function_id fct md) (load_section_function_id fct md').
Proof.
  intros Hmd. unfold load_section_function_id. rewrite (nb_functions_le _ _ Hmd). case_decide; [by apply survives_fail|].
  apply survives_same; [apply survives_lift_same|]. intros p. apply survives_same; [apply survives_lift_same|]. intros n.
  destruct Hmd as (fs & -> & _). cbn zeta.
  do 3 (apply survives_checked; [cbn [non_null negb]|by intros w [] w' [= <- _ _]]).
  apply function_id_loop_le. eexists. split; [done|]. apply (cptr_rel_refl (Forall2 function_le) _ (Live _)).
Qed.

Lemma calls_loop_le n : ∀ p f md md', module_le md md' →
  res_le (status_le module_le) (calls_loop n p f md) (calls_loop n p f md').
Proof.
  induction n as [|n IH]; intros p f md md' Hmd; cbn [calls_loop]; [by apply res_le_Val|].
  apply res_le_same. intros c. rewrite (nb_functions_le _ _ Hmd), (call_graph_le _ _ Hmd). case_decide; [by apply res_le_Val|].
  apply res_le_same. intros g. by apply IH, set_call_graph_le.
Qed.

Lemma function_transition_loop_le n : ∀ p md md', module_le md md' →
  survives failed_status (status_le module_le) (function_transition_loop n p md) (function_transition_loop n p md').
Proof.
  induction n as [|n IH]; intros p md md' Hmd; cbn [function_transition_loop]; [by apply survives_done|].
  apply survives_same; [apply survives_lift_same|]. intros f_id. rewrite (nb_functions_le _ _ Hmd), (call_graph_le _ _ Hmd).
  case_decide; [by apply survives_fail|]. apply survives_same; [apply survives_lift_same|]. intros row.
  destruct (non_null row); [by apply survives_fail|].
  apply survives_checked; [|intros w b w' Hn; inv_C; cbn in Hn; by inv_C].
  apply survives_same; [apply survives_lift_same|]. intros g. cbn zeta. cbn [non_null negb].
  apply survives_same; [apply survives_lift_same|]. intros k.
  eapply survives_seq; [by apply survives_lift, calls_loop_le, set_call_graph_le|]. intros [e md1] [? md1'] [[= <-] Hmd1].
  case_decide; [by apply survives_fail|]. by apply IH.
Qed.

Lemma load_section_function_transition_le t md md' : module_le md md' →
  survives failed_status (status_le module_le) (load_section_function_transition t md) (load_section_function_transition t md').
Proof.
  intros Hmd. unfold load_section_function_transition. rewrite (nb_functions_le _ _ Hmd), (call_graph_le _ _ Hmd).
  destruct (non_null _); [|by apply survives_fail]. cbn [negb]. case_decide; [by apply survives_fail|].
  do 2 (apply survives_same; [apply survives_lift_same|intros ?]). by apply function_transition_loop_le.
Qed.

Lemma nb_blocks_le fd fd' : function_le fd fd' → nb_blocks fd' = nb_blocks fd.
Proof. by intros (n & -> & _). Qed.
Lemma control_flow_graph_le fd fd' : function_le fd fd' → control_flow_graph fd' = control_flow_graph fd.
Proof. by intros (n & -> & _). Qed.
Lemma set_control_flow_graph_le g fd fd' : function_le fd fd' →
  function_le (set_control_flow_graph g fd) (set_control_flow_graph g fd').
Proof. intros (n & -> & Hn). by exists n. Qed.

Lemma succ_loop_le n : ∀ p b fd fd', function_le fd fd' →
  res_le (status_le function_le) (succ_loop n p b fd) (succ_loop n p b fd').
Proof.
  induction n as [|n IH]; intros p f fd fd' Hfd; cbn [succ_loop]; [by apply res_le_Val|].
  apply res_le_same. intros c. rewrite (nb_blocks_le _ _ Hfd), (control_flow_graph_le _ _ Hfd).
  case_decide; [by apply res_le_Val|]. apply res_le_same. intros g. by apply IH, set_control_flow_graph_le.
Qed.

Lemma ensure_row_le b fd fd' : function_le fd fd' →
  survives (λ r : bool * function_data, r.1 = false) (λ r r', r.1 = true ∧ r'.1 = true ∧ function_le r.2 r'.2)
    (ensure_row b fd) (ensure_row b fd').
Proof.
  intros Hfd. unfold ensure_row. rewrite (nb_blocks_le _ _ Hfd), (control_flow_graph_le _ _ Hfd).
  apply survives_same; [apply survives_lift_same|]. intros row. destruct (non_null row); [by apply survives_ret|].
  apply survives_checked; [|by intros w r w' Hn; inv_C].
  apply survives_same; [apply survives_lift_same|]. intros g. apply survives_ret. by split_and!; [..|by apply set_control_flow_graph_le].
Qed.

Lemma block_transition_loop_le n : ∀ p fd fd', function_le fd fd' →
  survives failed_status (status_le function_le) (block_transition_loop n p fd) (block_transition_loop n p fd').
Proof.
  induction n as [|n IH]; intros p fd fd' Hfd; cbn [block_transition_loop]; [by apply survives_done|].
  apply survives_same; [apply survives_lift_same|]. intros b. rewrite (nb_blocks_le _ _ Hfd).
  case_decide; [by apply survives_fail|]. eapply survives_bind; [by apply ensure_row_le| |].
  - intros [ok fd1] [ok' fd1'] (Hok & Hok' & Hfd1). cbn in Hok, Hok', Hfd1. subst ok ok'. cbn [negb].
    apply survives_same; [apply survives_lift_same|]. intros k.
    eapply survives_seq; [by apply survives_lift, succ_loop_le|]. intros [e fd2] [? fd2'] [[= <-] Hfd2].
    case_decide; [by apply survives_fail|]. by apply IH.
  - intros [ok fd1] w r w' Hok Hr. cbn in Hok. subst ok. cbn in Hr. by inv_C.
Qed.

Lemma fill_blocks_le k p fd fd' : function_le fd fd' →
  survives failed_status (status_le function_le) (fill_blocks k p fd) (fill_blocks k p fd').
Proof.
  intros (n & -> & Hn). unfold fill_blocks. cbn zeta.
  do 2 (apply survives_checked; [cbn [non_null negb]|by intros w [] w' [= <- _ _]]).
  apply survives_same; [apply survives_lift_same|]. intros t. apply block_transition_loop_le. by exists n.
Qed.

Lemma load_section_block_transition_le t md md' : module_le md md' →
  survives failed_status (status_le module_le) (load_section_block_transition t md) (load_section_block_transition t md').
Proof.
  intros Hmd. unfold load_section_block_transition. rewrite (nb_functions_le _ _ Hmd), (non_null_le _ _ Hmd).
  destruct (non_null _); [|by apply survives_fail]. cbn [negb]. case_decide; [by apply survives_fail|].
  do 2 (apply survives_same; [apply survives_lift_same|intros ?]). case_decide; [by apply survives_fail|].
  eapply survives_seq; [by apply survives_lift, function_at_le|]. intros fd fd' Hfd. rewrite (nb_blocks_le _ _ Hfd).
  case_decide; [by apply survives_fail|]. apply survives_same; [apply survives_lift_same|]. intros k.
  case_decide; [by apply survives_fail|]. eapply survives_bind; [by apply fill_blocks_le| |].
  - intros [e fd1] [? fd1'] [[= <-] Hfd1]. eapply survives_seq; [by apply survives_lift, put_function_le|].
    intros md1 md1' Hmd1. by apply survives_ret.
  - intros [e fd1] w r w' He Hr. by inv_C.
Qed.

Lemma block_ipd_loop_le n : ∀ p md md', module_le md md' →
  res_le (status_le module_le) (block_ipd_loop n p md) (block_ipd_loop n p md').
Proof.
  induction n as [|n IH]; intros p md md' Hmd; cbn [block_ipd_loop]; [by apply res_le_Val|].
  apply res_le_same. intros f. rewrite (nb_functions_le _ _ Hmd). case_decide; [by apply res_le_Val|].
  eapply res_le_bind; [by apply function_at_le|]. intros fd fd' (nm & -> & Hnm). cbn [set_name immediate_post_dominator nb_blocks].
  destruct (non_null _); [|by apply res_le_Val]. cbn [negb]. apply res_le_same. intros b.
  case_decide; [by apply res_le_Val|]. do 3 (apply res_le_same; intros ?).
  eapply res_le_bind; [apply put_function_le; [done|by exists nm]|]. intros md1 md1'. apply IH.
Qed.

Lemma load_section_block_ipd_le t md md' : module_le md md' →
  survives failed_status (status_le module_le) (load_section_block_ipd t md) (load_section_block_ipd t md').
Proof.
  intros Hmd. unfold load_section_block_ipd. rewrite (non_null_le _ _ Hmd).
  destruct (non_null _); [|by apply survives_fail]. do 2 (apply survives_same; [apply survives_lift_same|intros ?]).
  by apply survives_lift, block_ipd_loop_le.
Qed.

(** ** A module *)

Section Load.
Context (opts : options) (Hdump : OPTION_sm_dump opts = false).

Lemma load_section_le event value md md' : module_le md md' →
  survives failed_status (status_le module_le) (load_section opts event value md) (load_section opts event value md').
Proof using Hdump.
  intros Hmd. unfold load_section. destruct (loading_event_case event) as [[]|]; try by apply survives_fail.
  - by apply load_section_function_id_le.
  - by apply load_section_function_transition_le.
  - by apply load_section_block_transition_le.
  - by apply load_section_block_ipd_le.
  - unfold dump_module. rewrite Hdump. apply survives_same; [by apply survives_ret|]. intros _. by apply survives_done.
Qed.

(** A packet, or an error. *)
Definition failed_read (r : loading_packet * Z) : Prop := failed r.2.

Lemma READ_LOADING_PACKET_le dst err : survives failed_read (=) (READ_LOADING_PACKET dst err) (READ_LOADING_PACKET dst err).
Proof using Type.
  unfold READ_LOADING_PACKET. apply survives_same; [apply survives_read_load|]. intros ebs. cbn zeta.
  case_decide; [by apply survives_ret|]. apply survives_same; [apply survives_read_load|]. intros sbs.
  case_decide; [by apply survives_ret|]. case_decide; [by apply survives_ret|].
  apply survives_checked; [|by intros w [] w' [= <- <- _]].
  apply survives_same; [apply survives_read_load|]. intros vbs. case_decide; [|by apply survives_ret].
  apply survives_same; [apply survives_lift_same|]. intros v. by apply survives_ret.
Qed.

Definition section_le (r r' : Z * loading_packet * module_data) : Prop := r.1 = r'.1 ∧ module_le r.2 r'.2.
Definition failed_section (r : Z * loading_packet * module_data) : Prop := failed r.1.1.

Lemma sections_loop_le fuel : ∀ pkt md md', module_le md md' →
  survives failed_section section_le (sections_loop fuel opts pkt md) (sections_loop fuel opts pkt md').
Proof using Hdump.
  induction fuel as [|fuel IH]; intros pkt md md' Hmd; cbn [sections_loop]; [by intros w a w'|].
  apply survives_same; [apply survives_lift_same|]. intros event. case_decide; [by apply survives_ret|].
  apply survives_same; [apply survives_lift_same|]. intros pkt1. eapply survives_bind; [apply READ_LOADING_PACKET_le| |].
  - intros [pkt2 err] ? <-. case_decide; [by apply survives_bad|]. apply survives_same; [apply survives_lift_same|]. intros event2.
    eapply survives_bind; [by apply load_section_le| |].
    + intros [e md1] [? md1'] [[= <-] Hmd1]. case_decide; [by apply survives_bad|]. by apply IH.
    + intros [e md1] w r w' He Hr. rewrite decide_True in Hr by exact He. by inv_C.
  - intros [pkt2 err] w r w' He Hr. rewrite decide_True in Hr by exact He. by inv_C.
Qed.

Lemma WRITE_LOADING_le id err : survives failed (=) (WRITE_MONITOR_TO_LOADING_PACKET id err) (WRITE_MONITOR_TO_LOADING_PACKET id err).
Proof using Type.
  unfold WRITE_MONITOR_TO_LOADING_PACKET. eapply survives_bind; [apply survives_write| |].
  - intros ok ? <-. by apply survives_ret.
  - by intros ok w b w' -> [= <- _].
Qed.

Lemma module_begin_le mon mon' err : data_le mon mon' →
  survives failed_status (status_le data_le) (module_begin mon err) (module_begin mon' err).
Proof using Type.
  intros (ms & -> & Hms). unfold module_begin. cbn [nb_modules modules]. eapply survives_bind; [apply survives_alloc_ok| |].
  - intros ok ? <-. destruct ok; cbn [negb]; [|by apply survives_fail].
    eapply survives_seq; [eapply survives_lift, deref_le; case_decide; [exact Hms|apply cptr_rel_refl, _]|].
    intros l l' Hl. cbn zeta. eapply survives_bind; [apply WRITE_LOADING_le| |].
    + intros e ? <-. apply survives_done. eexists. split; [done|]. apply Forall2_app; [done|]. by constructor.
    + intros e w b w' He Hr. by inv_C.
  - intros ok w b w' -> Hr. cbn [negb] in Hr. by inv_C.
Qed.

Lemma load_module_le mon mon' : data_le mon mon' →
  survives (λ r : Z * monitor_data, r.1 < 0) (status_le data_le) (monitor_load_module opts mon) (monitor_load_module opts mon').
Proof using Hdump.
  intros Hmon. unfold monitor_load_module.
  assert (Hbad : ∀ pkt (d : monitor_data) m, survives (λ r : Z * monitor_data, r.1 < 0) (status_le data_le)
    (_ ← lift (FREE_LOADING_PACKET pkt); mret (-1, d)) (_ ← lift (FREE_LOADING_PACKET pkt); m)).
  { intros pkt d m. apply survives_same; [apply survives_lift_same|]. intros _. by apply survives_bad. }
  eapply survives_bind; [apply READ_LOADING_PACKET_le| |].
  - intros [pkt err] ? <-. case_decide; [apply Hbad|]. apply survives_same; [apply survives_lift_same|]. intros event.
    destruct (loading_event_case event) as [[]|]; try apply Hbad.
    + eapply survives_bind; [by apply module_begin_le| |].
      * intros [e mon1] [? mon1'] [[= <-] Hmon1]. case_decide; [apply Hbad|].
        rewrite (nb_modules_le mon1 mon1' Hmon1).
        eapply survives_seq; [by apply survives_lift, module_at_le|]. intros md md' Hmd.
        eapply (survives_bind failed_section _ section_le).
        -- apply (survives_world _ _ load_fuel (λ n, sections_loop n opts pkt md) (λ n, sections_loop n opts pkt md')); [done|].
           intros k. by apply sections_loop_le.
        -- intros [[e1 pkt1] md1] [[? ?] md1'] [[= <- <-] Hmd1].
           eapply survives_seq; [by apply survives_lift, put_module_le|]. intros mon2 mon2' Hmon2.
           apply survives_same; [apply survives_lift_same|]. intros _. by apply survives_ret.
        -- intros [[e1 pkt1] md1] w r w' He Hr. inv_C. unfold failed_section, failed in He. cbn in He. by rewrite decide_True.
      * intros [e mon1] w r w' He Hr. rewrite decide_True in Hr by exact He. by inv_C.
    + apply survives_same; [apply survives_lift_same|]. intros _. by apply survives_ret.
  - intros [pkt err] w r w' He Hr. rewrite decide_True in Hr by exact He. by inv_C.
Qed.

End Load.

(** ** Relocations *)

Lemma external_le fd fd' : function_le fd fd' → FUNCTION_IS_EXTERNAL fd' = FUNCTION_IS_EXTERNAL fd.
Proof. by intros (n & -> & _). Qed.

(** A null name that is compared is dereferenced. *)
Lemma strcmp_eq_le p p' q q' : name_le p p' → name_le q q' → res_le (=) (strcmp_eq p q) (strcmp_eq p' q').
Proof.
  intros [->| <-] Hq; [apply res_le_Undef|]. unfold strcmp_eq. apply res_le_same. intros a.
  destruct Hq as [->| <-]; [apply res_le_Undef|apply res_le_refl].
Qed.

Lemma defines_le f f' g g' : function_le f f' → function_le g g' → res_le (=) (defines f g) (defines f' g').
Proof.
  intros Hf Hg. unfold defines. rewrite (external_le _ _ Hg). destruct (FUNCTION_IS_EXTERNAL g); [by apply res_le_Val|].
  cbn. destruct Hf as (n & -> & Hn), Hg as (n' & -> & Hn'). by apply strcmp_eq_le.
Qed.

Lemma search_functions_le n : ∀ l fd fd' md md', function_le fd fd' → module_le md md' →
  res_le (=) (search_functions n l fd md) (search_functions n l fd' md').
Proof.
  induction n as [|n IH]; intros l fd fd' md md' Hfd Hmd; cbn [search_functions]; [by apply res_le_Val|].
  eapply res_le_bind; [by apply function_at_le|]. intros g g' Hg. eapply res_le_bind; [by apply defines_le|].
  intros [|] ? <-; [by apply res_le_Val|by apply IH].
Qed.

Lemma search_modules_le n : ∀ mid fd fd' data data', function_le fd fd' → data_le data data' →
  res_le (=) (search_modules n mid fd data) (search_modules n mid fd' data').
Proof.
  induction n as [|n IH]; intros mid fd fd' data data' Hfd Hd; cbn [search_modules]; [by apply res_le_Val|].
  cbn zeta. eapply res_le_bind; [by apply module_at_le|]. intros mk mk' Hmk. rewrite (nb_functions_le _ _ Hmk).
  eapply (res_le_bind (=)); [case_decide; [by apply search_functions_le|by apply res_le_Val]|].
  intros [l|] ? <-; [by apply res_le_Val|by apply IH].
Qed.

Lemma relocation_loop_le n : ∀ j mid fatal data data' md md', data_le data data' → module_le md md' →
  res_le (status_le module_le) (relocation_loop n j mid fatal data md) (relocation_loop n j mid fatal data' md').
Proof.
  induction n as [|n IH]; intros j mid fatal data data' md md' Hd Hmd; cbn [relocation_loop]; [by apply res_le_Val|].
  eapply res_le_bind; [by apply function_at_le|]. intros fd fd' Hfd. rewrite (external_le _ _ Hfd).
  destruct (FUNCTION_IS_EXTERNAL fd); [|by apply IH]. cbn zeta.
  rewrite (nb_modules_le _ _ Hd).
  eapply res_le_bind; [by apply search_modules_le|]. intros [[k l]|] ? <-; [|destruct fatal; [by apply res_le_Val|by apply IH]].
  destruct Hmd as (fs & -> & Hfs). cbn [set_functions relocations]. do 2 (apply res_le_same; intros ?).
  apply IH; [done|]. by exists fs.
Qed.

Lemma compute_relocations_le data data' mid fatal : data_le data data' →
  res_le (status_le data_le) (compute_relocations_of_module data mid fatal) (compute_relocations_of_module data' mid fatal).
Proof.
  intros Hd. unfold compute_relocations_of_module. cbn zeta. eapply res_le_bind; [by apply module_at_le|]. intros md md' Hmd.
  rewrite (nb_functions_le _ _ Hmd). eapply res_le_bind; [by apply relocation_loop_le|].
  intros [e md1] [? md1'] [[= <-] Hmd1]. eapply res_le_bind; [by apply put_module_le|]. intros d d' Hd1. by apply res_le_Val.
Qed.

Lemma relocate_all_le n : ∀ i data data', data_le data data' →
  res_le (status_le data_le) (relocate_all n i data) (relocate_all n i data').
Proof.
  induction n as [|n IH]; intros i data data' Hd; cbn [relocate_all]; [by apply res_le_Val|].
  eapply res_le_bind; [by apply compute_relocations_le|]. intros [e d] [? d'] [[= <-] Hd1].
  case_decide; [by apply res_le_Val|by apply IH].
Qed.

(** ** The checks do not read the names *)

Definition cptr_map {A B} (f : A → B) (p : cptr A) : cptr B :=
  match p with Null => Null | Live a => Live (f a) | Dangling => Dangling end.

Definition unname_module (md : module_data) : module_data := set_functions (cptr_map (fmap (set_name Null)) (functions md)) md.
Definition unname (data : monitor_data) : monitor_data :=
  MonitorData (nb_modules data) (cptr_map (fmap unname_module) (modules data)).

Lemma cptr_map_le {A B} (R : relation A) (f : A → B) p q : (∀ a b, R a b → f b = f a) → cptr_rel (Forall2 R) p q →
  cptr_map (fmap f) q = cptr_map (fmap f) p.
Proof.
  intros Hf. destruct p as [|l|], q as [|l'|]; try done. cbn. intros Hl. f_equal.
  induction Hl as [|a b l l' HR Hl IH]; [done|]. cbn. by rewrite (Hf _ _ HR), IH.
Qed.

Lemma unname_function_le fd fd' : function_le fd fd' → set_name Null fd' = set_name Null fd.
Proof. by intros (n & -> & _). Qed.

Lemma unname_module_le md md' : module_le md md' → unname_module md' = unname_module md.
Proof.
  intros (fs & -> & Hfs). unfold unname_module. cbn [set_functions functions].
  by rewrite (cptr_map_le function_le (set_name Null) _ _ unname_function_le Hfs).
Qed.

Lemma unname_le data data' : data_le data data' → unname data' = unname data.
Proof.
  intros (ms & -> & Hms). unfold unname. cbn [nb_modules modules]. by rewrite (cptr_map_le module_le unname_module _ _ unname_module_le Hms).
Qed.

Lemma arr_get_fmap {A B} (f : A → B) l i : arr_get (f <$> l) i = (x ← arr_get l i; Val (f x)).
Proof. unfold arr_get. case_decide; [|done]. rewrite list_lookup_fmap. by destruct (l !! Z.to_nat i). Qed.
Lemma deref_cptr_map {A B} (f : A → B) p : deref (cptr_map f p) = (x ← deref p; Val (f x)).
Proof. by destruct p. Qed.

Lemma module_at_unname data m : module_at (unname data) m = (md ← module_at data m; Val (unname_module md)).
Proof. unfold module_at. cbn [unname modules]. rewrite deref_cptr_map. destruct (deref (modules data)); [apply arr_get_fmap|done..]. Qed.
Lemma function_at_unname md f : function_at (unname_module md) f = (fd ← function_at md f; Val (set_name Null fd)).
Proof.
  unfold function_at. cbn [unname_module set_functions functions]. rewrite deref_cptr_map.
  destruct (deref (functions md)); [apply arr_get_fmap|done..].
Qed.

Section Run.
Context (opts : options) (data : monitor_data).

Lemma module_of_unname p : module_of (unname data) p = (md ← module_of data p; Val (unname_module md)).
Proof. destruct p; [apply module_at_unname|done]. Qed.
Lemma function_of_unname p : function_of (unname data) p = (fd ← function_of data p; Val (set_name Null fd)).
Proof.
  destruct p as [[m f]|]; [|done]. cbn [function_of]. rewrite module_at_unname.
  destruct (module_at data m); [apply function_at_unname|done..].
Qed.
Lemma function_addr_unname p f : function_addr (unname data) p f = function_addr data p f.
Proof.
  destruct p as [m|]; [|done]. unfold function_addr. rewrite module_at_unname. destruct (module_at data m) as [md| |]; [|done..].
  cbn. rewrite deref_cptr_map. by destruct (functions md).
Qed.

Lemma block_too_big_unname st : block_too_big (unname data) st = block_too_big data st.
Proof. unfold block_too_big. destruct (get_block (rs_sig st)); [|done..]. cbn. rewrite function_of_unname. by destruct (function_of data _). Qed.
Lemma no_jump_unname st : no_jump (unname data) st = no_jump data st.
Proof. unfold no_jump. destruct (get_block (rs_sig st)); [|done..]. cbn. rewrite function_of_unname. by destruct (function_of data _). Qed.
Lemma function_too_big_unname st : function_too_big (unname data) st = function_too_big data st.
Proof. unfold function_too_big. destruct (get_function (rs_sig st)); [|done..]. cbn. rewrite module_of_unname. by destruct (module_of data _). Qed.
Lemma no_call_unname st : no_call (unname data) st = no_call data st.
Proof. unfold no_call. destruct (get_function (rs_sig st)); [|done..]. cbn. rewrite module_of_unname. by destruct (module_of data _). Qed.
Lemma not_entrypoint_unname st f : not_entrypoint (unname data) st f = not_entrypoint data st f.
Proof.
  unfold not_entrypoint. rewrite module_of_unname. destruct (module_of data _) as [md| |]; [|done..]. cbn.
  rewrite function_at_unname. by destruct (function_at md f).
Qed.
Lemma at_post_dominator_unname st : at_post_dominator opts (unname data) st = at_post_dominator opts data st.
Proof. unfold at_post_dominator. rewrite function_of_unname. by destruct (function_of data _). Qed.
Lemma enter_callee_unname f st : enter_callee (unname data) f st = enter_callee data f st.
Proof.
  unfold enter_callee. rewrite module_of_unname. destruct (module_of data _) as [md| |]; [|done..]. cbn.
  rewrite function_at_unname. by destruct (function_at md f).
Qed.

Lemma C_bind_ext {A B} (m : C A) (f g : A → C B) w : (∀ a w', f a w' = g a w') → (m ≫= f) w = (m ≫= g) w.
Proof using Type. intros H. rewrite !C_bind_eq. by destruct (m w) as [[a w1]| |]. Qed.
Lemma res_bind_ext {A B} (m : res A) (f g : A → res B) : (∀ a, f a = g a) → (m ≫= f) = (m ≫= g).
Proof using Type. intros H. by destruct m; cbn. Qed.

Lemma on_call_unname st w : on_call opts (unname data) st w = on_call opts data st w.
Proof using Type.
  unfold on_call. rewrite function_too_big_unname, no_call_unname. apply C_bind_ext. intros [|] w1; [done|].
  do 3 (apply C_bind_ext; intros [? ?] ?). cbn zeta. apply C_bind_ext. intros f w2. rewrite enter_callee_unname.
  apply C_bind_ext. intros st1 w3. by rewrite function_addr_unname.
Qed.

Lemma on_enter_unname st : on_enter (unname data) st = on_enter data st.
Proof using Type.
  unfold on_enter. case_decide; [|done]. apply res_bind_ext. intros m. cbn [unname nb_modules]. case_decide; [done|].
  cbn zeta. apply res_bind_ext. intros f. rewrite function_too_big_unname, not_entrypoint_unname.
  apply res_bind_ext. intros [|]; [done|]. by rewrite function_addr_unname.
Qed.

Lemma leave_callee_unname st : leave_callee opts (unname data) st = leave_callee opts data st.
Proof using Type. unfold leave_callee. apply res_bind_ext. intros [c cs]. cbn zeta. by rewrite function_addr_unname. Qed.

Lemma on_exit_unname st w : on_exit opts (unname data) st w = on_exit opts data st w.
Proof using Type. unfold on_exit. by rewrite not_entrypoint_unname, leave_callee_unname. Qed.

Lemma dispatch_unname st w : dispatch opts (unname data) st w = dispatch opts data st w.
Proof using Type.
  unfold dispatch. apply C_bind_ext. intros e w1. destruct (client_event_case e) as [[]|]; [done|..|done].
  - unfold on_after_jump. by rewrite block_too_big_unname, no_jump_unname, at_post_dominator_unname.
  - apply on_call_unname.
  - by rewrite on_enter_unname.
  - apply on_exit_unname.
  - unfold on_returned. by rewrite function_too_big_unname, no_call_unname.
Qed.

Lemma run_loop_unname fuel : ∀ st w, run_loop fuel opts (unname data) st w = run_loop fuel opts data st w.
Proof using Type.
  induction fuel as [|fuel IH]; intros st w; cbn [run_loop]; [done|]. rewrite !C_bind_eq, dispatch_unname.
  destruct (dispatch opts data st w) as [[[st1|st1] w1]| |]; [|done..].
  do 2 (apply C_bind_ext; intros ? ?). case_decide; [done|]. apply C_bind_ext. intros [sg e] ?. apply IH.
Qed.

Lemma monitor_run_unname w : monitor_run opts (unname data) w = monitor_run opts data w.
Proof using Type.
  unfold monitor_run. apply C_bind_ext. intros [e cs] w1. case_decide; [done|]. apply C_bind_ext. intros [e' bs] w2.
  case_decide; [done|]. cbn zeta. apply C_bind_ext. intros err w3. case_decide; [done|]. apply C_bind_ext. intros [sg e1] w4.
  rewrite !C_bind_eq. by rewrite run_loop_unname.
Qed.

Lemma run_times_unname n : ∀ w, run_times n opts (unname data) w = run_times n opts data w.
Proof using Type.
  induction n as [|n IH]; intros w; cbn [run_times]; [done|]. rewrite !C_bind_eq, monitor_run_unname.
  destruct (monitor_run opts data w) as [[e w1]| |]; [|done..]. case_decide; [done|apply IH].
Qed.

End Run.

Lemma run_times_le n opts data data' : data_le data data' →
  survives failed (=) (run_times n opts data) (run_times n opts data').
Proof.
  intros Hd w e w' H. destruct (decide (e = 0)) as [->|He]; [left|by right]. exists 0. split; [|done].
  rewrite <- run_times_unname, (unname_le _ _ Hd), run_times_unname. by apply run_times_settled.
Qed.

(** ** The load *)

Lemma start_module_le opts data data' : data_le data data' →
  survives failed_status (status_le data_le) (start_module opts data) (start_module opts data').
Proof.
  intros Hd. unfold start_module. rewrite (nb_modules_le _ _ Hd).
  eapply survives_seq; [by apply survives_lift, compute_relocations_le|]. intros [e d] [? d'] [[= <-] Hd1].
  case_decide; [by apply survives_fail|]. rewrite (nb_modules_le d d' Hd1).
  eapply survives_seq; [by apply survives_lift, module_at_le|]. intros md md' Hmd.
  assert (nb_entrypoint_inits md' = nb_entrypoint_inits md) as -> by (by destruct Hmd as (? & -> & _)).
  eapply survives_bind; [by apply run_times_le| |].
  - intros e1 ? <-. by apply survives_done.
  - intros e1 w r w' He Hr. by inv_C.
Qed.

Lemma modules_loop_le opts (Hdump : OPTION_sm_dump opts = false) fuel : ∀ data data', data_le data data' →
  survives failed_status (status_le data_le) (modules_loop fuel opts data) (modules_loop fuel opts data').
Proof.
  induction fuel as [|fuel IH]; intros data data' Hd; cbn [modules_loop]; [by intros w a w'|].
  eapply survives_bind; [by apply load_module_le| |].
  - intros [e d] [? d'] [[= <-] Hd1]. case_decide; [by apply survives_done|]. case_decide; [by apply survives_fail|].
    eapply survives_bind; [by apply start_module_le| |].
    + intros [e1 d1] [? d1'] [[= <-] Hd2]. case_decide; [by apply survives_fail|by apply IH].
    + intros [e1 d1] w r w' He Hr. rewrite decide_True in Hr by exact He. by inv_C.
  - intros [e d] w r w' He Hr. cbn [fst] in He. rewrite decide_False, decide_True in Hr by lia. inv_C.
    unfold failed_status, failed. cbn. lia.
Qed.

Lemma monitor_load_le opts : OPTION_sm_dump opts = false →
  survives failed_status (status_le data_le) (monitor_load opts) (monitor_load opts).
Proof.
  intros Hdump. unfold monitor_load. eapply (survives_bind failed_status _ (status_le data_le)).
  - apply (survives_world _ _ load_fuel (λ n, modules_loop n opts _) (λ n, modules_loop n opts _)); [done|].
    intros k. by apply modules_loop_le; [|exists Null].
  - intros [e d] [? d'] [[= <-] Hd]. case_decide; [by apply survives_fail|]. rewrite (nb_modules_le d d' Hd).
    by apply survives_lift, relocate_all_le.
  - intros [e d] w r w' He Hr. rewrite decide_True in Hr by exact He. by inv_C.
Qed.

(** A load that succeeds does so in the settled world, and what follows it does
    not see the names that are missing. *)
Lemma monitor_load_settled opts w data w' : OPTION_sm_dump opts = false → monitor_load opts w = Val ((0, data), w') →
  ∃ data', monitor_load opts (settled w) = Val ((0, data'), settled w') ∧ data_le data data'.
Proof.
  intros Hdump H. destruct (monitor_load_le opts Hdump _ _ _ H) as [([e data'] & Hl & [He Hd])|Hf]; [|done].
  cbn in He. subst e. by exists data'.
Qed.

Lemma count_finis_le n : ∀ i data data' nb, data_le data data' → res_le (=) (count_finis n i data nb) (count_finis n i data' nb).
Proof.
  induction n as [|n IH]; intros i data data' nb Hd; cbn [count_finis]; [by apply res_le_Val|].
  eapply res_le_bind; [by apply module_at_le|]. intros md md' Hmd.
  assert (nb_entrypoint_finis md' = nb_entrypoint_finis md) as -> by (by destruct Hmd as (? & -> & _)). by apply IH.
Qed.

Lemma main_runs_le opts data data' w w' : data_le data data' → main_runs opts data w = Val (0, w') →
  main_runs opts data' w = Val (0, w').
Proof.
  intros Hd H. unfold main_runs in *. inv_C. rewrite C_bind_eq, E, C_bind_eq.
  rewrite <- monitor_run_unname, (unname_le _ _ Hd), monitor_run_unname, E0.
  case_decide; [by inv_C|]. inv_C. rewrite (nb_modules_le _ _ Hd), C_bind_eq.
  match goal with E : count_finis _ _ _ _ = _ |- _ => destruct (count_finis_le _ _ _ _ _ Hd _ E) as (? & -> & <-) end.
  rewrite lift_Val, C_bind_eq, <- run_times_unname, (unname_le _ _ Hd), run_times_unname. by rewrite E2, C_ret_eq, H.
Qed.
