(* ===== verification/LoadPackets.v ===== *)
(** * Sequences of packets

    The packets of a module as the loader reads them, one after the other: what
    each section leaves is what the next one finds. *)

From S2P Require Import Prelude CSem Wire CStack MonitorData MonitorRun RunSpec RunRefine RunTotal.
From S2P Require Import LoadSections Relocate Dot MonitorLoad LoadTotal Sessions LoadRuns.
From Stdlib Require Import Strings.Byte.

(** ** One packet *)

(** The writes of a packet, as the reads of the other end find them. *)
Definition packet_writes (e : loading_event) (v : list byte) : list (list byte) :=
  [le_bytes 4 (loading_event_code e); le_bytes 4 (Z.of_nat (length v))] ++
  if decide (v = []) then [] else [v].

Definition packet_value (v : list byte) : cptr (list byte) := if decide (v = []) then Null else Live v.

(** The packet read. *)
Definition packet_of (e : loading_event) (v : list byte) : loading_packet :=
  LoadingPacket (Some <$> le_bytes 4 (loading_event_code e)) (Z.of_nat (length v)) (packet_value v).

Lemma packet_event_field e :
  obj_field (Some <$> le_bytes 4 (loading_event_code e)) 0 4 = Val (loading_event_code e).
Proof. destruct e; vm_compute; reflexivity. Qed.

Lemma packet_of_event e v : pkt_event_of (packet_of e v) = Val (loading_event_code e).
Proof. apply packet_event_field. Qed.

Lemma FREE_packet_of e v : ∃ pkt, FREE_LOADING_PACKET (packet_of e v) = Val pkt ∧
  length (pkt_event pkt) = 4%nat ∧ pkt_value pkt = Null.
Proof.
  unfold FREE_LOADING_PACKET, packet_of, packet_value. cbn [pkt_value].
  destruct (decide (v = [])); eexists; (split; [done|]); cbn [pkt_event pkt_value];
    rewrite length_fmap, le_bytes_length; done.
Qed.

(** Nothing but the reads and the answers of the allocator is used. *)
Definition reads (w w' : world) : Prop :=
  (in_place w → in_place w') ∧ w_select w' = w_select w ∧ w_write w' = w_write w ∧
  w_sig w' = w_sig w ∧ w_out w' = w_out w.

Lemma read_packet e v dst ps w :
  in_u 32 (Z.of_nat (length v)) → w_load w = packet_writes e v ++ ps → in_place w →
  length (pkt_event dst) = 4%nat →
  ∃ w', READ_LOADING_PACKET dst 0 w = Val ((packet_of e v, 0), w') ∧ w_load w' = ps ∧ reads w w'.
Proof.
  intros Hv Hload Hpl Hdst. unfold packet_writes in Hload.
  cbn [app] in Hload. unfold READ_LOADING_PACKET, read_load.
  rewrite C_bind_eq, Hload. rewrite take_ge by (by rewrite le_bytes_length).
  rewrite le_bytes_length, decide_False by tauto. cbn zeta. rewrite C_bind_eq. cbn [w_load].
  rewrite take_ge by (by rewrite le_bytes_length).
  rewrite le_bytes_length, decide_False by tauto.
  assert (Hsize : le_value (overlay (le_bytes 4 (Z.of_nat (length v))) (le_bytes 4 0)) = Z.of_nat (length v)).
  { unfold overlay. rewrite drop_ge, app_nil_r by (by rewrite !le_bytes_length).
    by apply (le_value_small 4). }
  assert (Hev : overlay (Some <$> le_bytes 4 (loading_event_code e)) (pkt_event dst) =
    Some <$> le_bytes 4 (loading_event_code e)).
  { unfold overlay. by rewrite drop_ge, app_nil_r by (rewrite length_fmap, le_bytes_length; lia). }
  rewrite Hsize, Hev. unfold packet_of, packet_value. destruct (decide (v = [])) as [->|Hne].
  - rewrite decide_True by done. eexists. split; [done|]. by split.
  - rewrite decide_False by (destruct v; [done|cbn; lia]).
    match goal with |- context [(calloc _ _ ≫= _) ?w0] =>
      assert (Hw0 : in_place w0) by exact Hpl;
      destruct (alloc_ok_in_place w0 Hw0) as (w1 & Ha & Hq)
    end.
    destruct Hq as [Hq Hio]. unfold io in Hio. injection Hio as Hse Hwr Hsi Hlo Hou.
    change (w_load w1 = v :: ps) in Hlo.
    unfold calloc. rewrite !C_bind_eq, Ha, C_ret_eq, C_bind_eq, Hlo.
    rewrite Nat2Z.id, firstn_all, decide_False by tauto. cbn zeta.
    assert (Hov : overlay v (zeroed (Z.of_nat (length v)) x00) = v).
    { unfold overlay, zeroed. rewrite drop_ge, app_nil_r; [done|]. rewrite length_replicate. lia. }
    rewrite Hov. eexists. split; [done|]. split; [done|]. split_and!; try done; by apply Hq.
Qed.

(** A value that is cut short: error 4, and a value that was freed. *)
Lemma read_short_value dst w ev size p ps :
  w_load w = ev :: size :: p :: ps → length ev = 4%nat → length size = 4%nat →
  0 < le_value size → Z.of_nat (length p) < le_value size → in_place w →
  ∃ pkt w', READ_LOADING_PACKET dst 0 w = Val ((pkt, 4), w') ∧ FREE_LOADING_PACKET pkt = Undef DoubleFree ∧
    pkt_value pkt = Dangling.
Proof.
  intros Hload Hev Hsz Hpos Hlt Hpl. unfold READ_LOADING_PACKET, read_load.
  rewrite C_bind_eq, Hload, take_ge, Hev by lia. rewrite decide_False by tauto. cbn zeta.
  rewrite C_bind_eq. cbn [w_load]. rewrite take_ge, Hsz by lia. rewrite decide_False by tauto.
  assert (Hsize : le_value (overlay size (le_bytes 4 0)) = le_value size).
  { unfold overlay. rewrite drop_ge, app_nil_r; [done|]. rewrite le_bytes_length. lia. }
  rewrite Hsize, decide_False by lia.
  match goal with |- context [(calloc _ _ ≫= _) ?w0] =>
    assert (Hw0 : in_place w0) by exact Hpl;
    destruct (alloc_ok_in_place w0 Hw0) as (w2 & Ha & Hq); assert (Hl0 : w_load w0 = p :: ps) by done
  end.
  assert (Hl2 : w_load w2 = p :: ps).
  { destruct Hq as [_ Hio]. unfold io in Hio. injection Hio as _ _ _ -> _. done. }
  unfold calloc. rewrite !C_bind_eq, Ha, C_ret_eq, C_bind_eq, Hl2.
  rewrite take_ge by lia. rewrite decide_True by lia. rewrite C_bind_eq. cbn [free].
  by eexists _, _.
Qed.

(** ** Sections in a row *)

Abbreviation packet := (loading_event * list byte)%type (only parsing).

(** The section is loaded without error, from [P] to [Q]. *)
Definition loads (opts : options) (e : loading_event) (v : list byte)
    (P Q : module_data → Prop) : Prop :=
  ∀ md w, P md → in_place w → ∃ md' w',
    load_section opts (loading_event_code e) (packet_value v) md w = Val ((0, md'), w') ∧ Q md'.

Inductive loads_all (opts : options) : list packet → (module_data → Prop) → (module_data → Prop) → Prop :=
| loads_nil P : loads_all opts [] P P
| loads_cons e v ps P Q R :
    e ≠ CFI_LOADING_MODULE_END → in_u 32 (Z.of_nat (length v)) → loads opts e v P Q →
    loads_all opts ps Q R → loads_all opts ((e, v) :: ps) P R.

Lemma loads_all_app opts ps1 ps2 P Q R :
  loads_all opts ps1 P Q → loads_all opts ps2 Q R → loads_all opts (ps1 ++ ps2) P R.
Proof. induction 1; [done|]. intros Hrest. cbn. econstructor; eauto. Qed.

Lemma loads_all_split opts ps1 ps2 P R : loads_all opts (ps1 ++ ps2) P R →
  ∃ Q, loads_all opts ps1 P Q ∧ loads_all opts ps2 Q R.
Proof.
  revert P. induction ps1 as [|[e v] ps1 IH]; intros P H; cbn [app] in H; [exists P; by split; [constructor|]|].
  inversion H as [|? ? ? ? Q ? He Hv Hl Hrest]; subst. apply IH in Hrest as (Q' & H1 & H2). exists Q'.
  split; [by econstructor|done].
Qed.

Lemma loading_code_inj e1 e2 : loading_event_code e1 = loading_event_code e2 → e1 = e2.
Proof. by destruct e1, e2. Qed.

(** A section changes nothing in the pipes. *)
Lemma load_section_pipes opts e value md w r w' : load_section opts e value md w = Val (r, w') →
  w_load w' = w_load w ∧ w_sig w' = w_sig w ∧ answers_left w w'.
Proof. intros H. pose proof (tame_load_section opts e value md w) as Ht. rewrite H in Ht. tauto. Qed.

Lemma favourable_in_place w : favourable w → in_place w.
Proof. by intros (? & _). Qed.

Lemma reads_favourable w w' : reads w w' → favourable w → favourable w'.
Proof. intros (Ha & Hs & Hw & _) (Fa & Fw & Fs). unfold favourable. rewrite Hs, Hw. auto. Qed.

(** The packets up to the end of the module. *)
Lemma sections_loop_loads opts ps P Q : loads_all opts ps P Q → OPTION_sm_dump opts = false →
  ∀ fuel e0 v0 md w rest, P md → favourable w → e0 ≠ CFI_LOADING_MODULE_END →
  (2 + length ps <= fuel)%nat →
  w_load w = concat ((λ p : packet, packet_writes p.1 p.2) <$> ps) ++
             packet_writes CFI_LOADING_MODULE_END [] ++ rest →
  ∃ md' w', sections_loop fuel opts (packet_of e0 v0) md w =
      Val ((0, packet_of CFI_LOADING_MODULE_END [], md'), w') ∧ Q md' ∧ w_load w' = rest ∧
    w_sig w' = w_sig w ∧ favourable w'.
Proof.
  intros Hall Hdump. induction Hall as [P|e v ps P Q R He Hv Hload _ IH]; intros fuel e0 v0 md w rest HP Hw He0 Hfuel Hl.
  - destruct fuel as [|[|fuel]]; cbn [length] in Hfuel; try lia.
    destruct (FREE_packet_of e0 v0) as (pkt & Hfree & Hpe & _). cbn [fmap list_fmap concat app] in Hl.
    destruct (read_packet CFI_LOADING_MODULE_END [] pkt rest w) as (w1 & Hread & Hl1 & Hr1);
      [by vm_compute|exact Hl|by apply favourable_in_place|done|].
    exists md, w1. split; [|split; [done|split; [done|split; [apply Hr1|by eapply reads_favourable]]]].
    cbn [sections_loop]. rewrite C_bind_eq, packet_of_event, lift_Val.
    rewrite decide_False by (by intros E%loading_code_inj). rewrite C_bind_eq, Hfree, lift_Val.
    rewrite C_bind_eq, Hread. cbn beta iota. rewrite decide_False by (by intros []).
    rewrite C_bind_eq, packet_of_event, lift_Val, C_bind_eq.
    assert (Hend : load_section opts (loading_event_code CFI_LOADING_MODULE_END)
      (pkt_value (packet_of CFI_LOADING_MODULE_END [])) md w1 = Val ((0, md), w1)).
    { unfold load_section. rewrite loading_event_case_code. unfold dump_module. by rewrite Hdump. }
    rewrite Hend. cbn beta iota. rewrite decide_False by (by intros []).
    rewrite C_bind_eq, lift_Val, decide_True by done. done.
  - destruct fuel as [|fuel]; cbn [length] in Hfuel; try lia.
    destruct (FREE_packet_of e0 v0) as (pkt & Hfree & Hpe & _).
    cbn [fmap list_fmap concat fst snd] in Hl. rewrite <- app_assoc in Hl.
    edestruct (read_packet e v pkt _ w Hv Hl) as (w1 & Hread & Hl1 & Hr1);
      [by apply favourable_in_place|done|].
    pose proof (reads_favourable _ _ Hr1 Hw) as Hw1.
    destruct (Hload md w1 HP (favourable_in_place _ Hw1)) as (md1 & w2 & Hsec & HQ).
    destruct (load_section_pipes _ _ _ _ _ _ _ Hsec) as (Hl2 & Hs2 & Ha2).
    destruct (IH fuel e v md1 w2 rest HQ) as (md' & w' & Hloop & HR & Hl' & Hs' & Hw');
      [by eapply answers_left_favourable|done|lia|by rewrite Hl2|].
    exists md', w'. split; [|split; [done|split; [done|split; [|done]]]].
    + cbn [sections_loop]. rewrite C_bind_eq, packet_of_event, lift_Val.
      rewrite decide_False by (by intros E%loading_code_inj). rewrite C_bind_eq, Hfree, lift_Val.
      rewrite C_bind_eq, Hread. cbn beta iota. rewrite decide_False by (by intros []).
      rewrite C_bind_eq, packet_of_event, lift_Val, C_bind_eq.
      change (pkt_value (packet_of e v)) with (packet_value v). rewrite Hsec. cbn beta iota.
      by rewrite decide_False by (by intros []).
    + destruct Hr1 as (_ & _ & _ & Hs1 & _). congruence.
Qed.
