(* ===== verification/Network.v ===== *)
(** * Two processes and their pipes

    The client and the monitor run at the same time and only meet on the pipes,
    whose reads block.  Each has a log of what it does on them ([w_log]); here
    the two logs are played together, by any scheduler: a write appends its
    packet to a pipe when there is room, a read takes the packet it logged when
    that packet is at the head of the pipe, and both wait otherwise.  A read of
    an end of file waits for ever, the other process being there.  When one
    schedule comes to the end of both logs, every schedule does. *)

From S2P Require Import Prelude CSem Wire.
From Stdlib Require Import Strings.Byte.

(** ** Steps *)

(** The packets on their way, by pipe. *)
Record channel := Channel { on_sig : list (list byte); on_load : list (list byte) }.

Definition waiting_on (p : pipe) (c : channel) : list (list byte) := match p with PSig => on_sig c | PLoad => on_load c end.
Definition set_waiting (p : pipe) (q : list (list byte)) (c : channel) : channel :=
  match p with PSig => Channel q (on_load c) | PLoad => Channel (on_sig c) q end.
Definition put (p : pipe) (b : list byte) (c : channel) : channel := set_waiting p (waiting_on p c ++ [b]) c.

(** What the client and the monitor have still to do, what was written to
    the monitor and to the client and was not read yet. *)
Record network := Network {
  client_todo : list action;
  monitor_todo : list action;
  to_monitor : channel;
  to_client : channel;
}.

Section Network.

(** How many packets a pipe holds (16 for a pipe of Linux opened with
    [O_DIRECT], each packet taking a page of it). *)
Context (cap : nat).

(** An action of a process that writes on [out] and reads on [inp]. *)
Inductive act : action → channel * channel → channel * channel → Prop :=
| act_sent p b out inp : (length (waiting_on p out) < cap)%nat → act (Sent p b) (out, inp) (put p b out, inp)
| act_got p b q out inp : waiting_on p inp = b :: q → act (Got p b) (out, inp) (out, set_waiting p q inp).

Inductive advance : network → network → Prop :=
| step_client a lc lm cm mc cm' mc' : act a (cm, mc) (cm', mc') → advance (Network (a :: lc) lm cm mc) (Network lc lm cm' mc')
| step_monitor a lc lm cm mc cm' mc' : act a (mc, cm) (mc', cm') → advance (Network lc (a :: lm) cm mc) (Network lc lm cm' mc').

Definition nothing : channel := Channel [] [].

(** Nothing done yet. *)
Definition network_start (lc lm : list action) : network := Network lc lm nothing nothing.

(** Everything done. *)
Definition finished (y : network) : Prop := client_todo y = [] ∧ monitor_todo y = [].

Definition actions_left (y : network) : nat := length (client_todo y) + length (monitor_todo y).

(** A signal and its answer, as each process sees them. *)
Definition ok_bytes : list byte := le_bytes 1 CFI_OK.
Definition client_exchange (s : list byte) : list action := [Sent PSig s; Got PSig ok_bytes].
Definition monitor_exchange (s : list byte) : list action := [Got PSig s; Sent PSig ok_bytes].

(** ** Any schedule *)

Lemma step_left x y : advance x y → actions_left x = S (actions_left y).
Proof. destruct 1; unfold actions_left; cbn; lia. Qed.

Lemma act_functional a s s1 s2 : act a s s1 → act a s s2 → s1 = s2.
Proof. destruct 1; inversion 1; subst; [done|]. congruence. Qed.

(** A read leaves at least as much room. *)
Lemma room_after p p' b q c : waiting_on p' c = b :: q → (length (waiting_on p c) < cap)%nat →
  (length (waiting_on p (set_waiting p' q c)) < cap)%nat.
Proof. destruct p, p', c as [cs cl]; cbn; intros -> ?; cbn in *; lia. Qed.

(** A packet that is put behind leaves the head where it is. *)
Lemma put_behind p b p' b' c q : waiting_on p' c = b' :: q →
  ∃ q', waiting_on p' (put p b c) = b' :: q' ∧ put p b (set_waiting p' q c) = set_waiting p' q' (put p b c).
Proof. destruct p, p', c as [cs cl]; cbn; intros ->; eexists; (split; [done|]); done. Qed.

(** What one process does leaves the other one what it was to do, with the same
    result in the end. *)
Lemma act_commute a a' cm mc cm1 mc1 cm2 mc2 : act a (cm, mc) (cm1, mc1) → act a' (mc, cm) (mc2, cm2) →
  ∃ cm3 mc3, act a (cm2, mc2) (cm3, mc3) ∧ act a' (mc1, cm1) (mc3, cm3).
Proof.
  intros H1 H2. inversion H1 as [p b ? ? Hr|p b q ? ? Hq]; inversion H2 as [p' b' ? ? Hr'|p' b' q' ? ? Hq']; subst.
  - eexists _, _. by split; constructor.
  - destruct (put_behind p b _ _ _ _ Hq') as (q & Hq & E). eexists _, _.
    split; [constructor; by eapply room_after|]. rewrite E. by constructor.
  - destruct (put_behind p' b' _ _ _ _ Hq) as (q' & Hq' & E). eexists _, _.
    split; [|constructor; by eapply room_after]. rewrite E. by constructor.
  - eexists _, _. split; by constructor.
Qed.

Lemma step_commute x y z : advance x y → advance x z → y = z ∨ ∃ u, advance y u ∧ advance z u.
Proof.
  intros H1 H2. inversion H1 as [a lc lm cm mc cm1 mc1 A1|a lc lm cm mc cm1 mc1 A1]; subst;
    inversion H2 as [a' lc' lm' cm' mc' cm2 mc2 A2|a' lc' lm' cm' mc' cm2 mc2 A2]; subst.
  - left. pose proof (act_functional _ _ _ _ A1 A2). congruence.
  - right. destruct (act_commute _ _ _ _ _ _ _ _ A1 A2) as (cm3 & mc3 & A & A'). eexists. split; by constructor.
  - right. destruct (act_commute _ _ _ _ _ _ _ _ A2 A1) as (cm3 & mc3 & A & A'). eexists. split; by constructor.
  - left. pose proof (act_functional _ _ _ _ A1 A2). congruence.
Qed.

Lemma finished_stops x y : finished x → ¬ advance x y.
Proof. intros [Hc Hm] H. by destruct H. Qed.

(** A step towards the end does not lead away from it. *)
Lemma step_towards n : ∀ x f y, nsteps advance n x f → finished f → advance x y → ∃ m, n = S m ∧ nsteps advance m y f.
Proof.
  induction n as [|n IH]; intros x f y Hn Hf Hy.
  { inversion Hn; subst. by apply finished_stops in Hy. }
  inversion Hn as [|? ? z ? Hz Hn']; subst. exists n. split; [done|].
  destruct (step_commute _ _ _ Hz Hy) as [->|(u & Hu & Hu')]; [done|].
  destruct (IH _ _ _ Hn' Hf Hu) as (m & -> & Hm). by econstructor.
Qed.

(** When one schedule finishes, every schedule can be continued to the same end. *)
Lemma schedules_finish x f : rtc advance x f → finished f → ∀ y, rtc advance x y → rtc advance y f.
Proof.
  intros (n & Hn)%rtc_nsteps Hf y Hy. revert n Hn. induction Hy as [x|x z y Hz _ IH]; intros n Hn.
  - apply rtc_nsteps. by exists n.
  - destruct (step_towards _ _ _ _ Hn Hf Hz) as (m & -> & Hm). by eapply IH.
Qed.

(** So no schedule is ever stuck before the end, and none goes on for ever. *)
Lemma never_stuck x f : rtc advance x f → finished f → ∀ y, rtc advance x y → finished y ∨ ∃ z, advance y z.
Proof.
  intros Hx Hf y Hy. pose proof (schedules_finish _ _ Hx Hf _ Hy) as H. inversion H as [|? z ? Hz]; subst; [by left|right; by exists z].
Qed.

(** From every state that some schedule leads to, either both processes have
    finished or one of them can go on; and a step uses up an action, so that all
    schedules have the same number of steps. *)
Definition never_blocks (x : network) : Prop := ∀ n y, nsteps advance n x y →
  (n + actions_left y)%nat = actions_left x ∧ (finished y ∨ ∃ z, advance y z).

Lemma steps_left n : ∀ x y, nsteps advance n x y → (n + actions_left y)%nat = actions_left x.
Proof. induction n as [|n IH]; intros x y H; inversion H as [|? ? z ? Hz Hn]; subst; [done|]. apply step_left in Hz. apply IH in Hn. lia. Qed.

Lemma finishes_never_blocks x f : rtc advance x f → finished f → never_blocks x.
Proof.
  intros Hx Hf n y Hn. split; [by apply steps_left|]. eapply never_stuck; [done..|]. apply rtc_nsteps. by exists n.
Qed.

(** ** Schedules *)

Implicit Types (lc lm : list action) (cm mc : channel).

Lemma client_sends lc lm mc p bs : ∀ cm, (length (waiting_on p cm) + length bs <= cap)%nat →
  rtc advance (Network ((Sent p <$> bs) ++ lc) lm cm mc) (Network lc lm (set_waiting p (waiting_on p cm ++ bs) cm) mc).
Proof.
  induction bs as [|b bs IH]; intros cm Hc; cbn [fmap list_fmap app].
  { rewrite app_nil_r. replace (set_waiting _ _ cm) with cm; [done|]. by destruct p, cm. }
  cbn [length] in Hc. eapply rtc_l; [apply step_client, act_sent; lia|]. etrans; [apply IH|].
  - destruct p, cm; cbn in *; rewrite length_app; cbn; lia.
  - destruct p, cm; cbn; by rewrite <- app_assoc.
Qed.

Lemma monitor_sends lc lm cm p bs : ∀ mc, (length (waiting_on p mc) + length bs <= cap)%nat →
  rtc advance (Network lc ((Sent p <$> bs) ++ lm) cm mc) (Network lc lm cm (set_waiting p (waiting_on p mc ++ bs) mc)).
Proof.
  induction bs as [|b bs IH]; intros mc Hc; cbn [fmap list_fmap app].
  { rewrite app_nil_r. replace (set_waiting _ _ mc) with mc; [done|]. by destruct p, mc. }
  cbn [length] in Hc. eapply rtc_l; [apply step_monitor, act_sent; lia|]. etrans; [apply IH|].
  - destruct p, mc; cbn in *; rewrite length_app; cbn; lia.
  - destruct p, mc; cbn; by rewrite <- app_assoc.
Qed.

Lemma monitor_gets lc lm mc p bs q : ∀ cm, waiting_on p cm = bs ++ q →
  rtc advance (Network lc ((Got p <$> bs) ++ lm) cm mc) (Network lc lm (set_waiting p q cm) mc).
Proof.
  induction bs as [|b bs IH]; intros cm Hq; cbn [fmap list_fmap app] in *.
  { subst q. replace (set_waiting _ _ cm) with cm; [done|]. by destruct p, cm. }
  eapply rtc_l; [by eapply step_monitor, act_got|]. etrans; [apply IH; by destruct p, cm|].
  by destruct p, cm.
Qed.

(** Packets that are read as soon as they are written. *)
Lemma passed_on lc lm mc p bs : ∀ cm, waiting_on p cm = [] → (1 <= cap)%nat →
  rtc advance (Network ((Sent p <$> bs) ++ lc) ((Got p <$> bs) ++ lm) cm mc) (Network lc lm cm mc).
Proof.
  induction bs as [|b bs IH]; intros cm Hq Hc; cbn [fmap list_fmap app]; [done|].
  eapply rtc_l; [apply step_client, act_sent; rewrite Hq; cbn; lia|].
  eapply rtc_l; [eapply step_monitor, (act_got _ _ []); destruct p, cm; cbn in *; by rewrite Hq|].
  replace (set_waiting p [] (put p b cm)) with cm; [by apply IH|]. by destruct p, cm; cbn in *; rewrite Hq.
Qed.

(** Exchanges, with [k] answers ahead. *)
Lemma exchanges lc lm sl ml k ss : (k < cap)%nat →
  rtc advance (Network ((ss ≫= client_exchange) ++ lc) ((ss ≫= monitor_exchange) ++ lm)
              (Channel [] sl) (Channel (replicate k ok_bytes) ml))
           (Network lc lm (Channel [] sl) (Channel (replicate k ok_bytes) ml)).
Proof.
  intros Hk. induction ss as [|s ss IH]; [done|]. cbn [mbind list_bind]. rewrite <- !app_assoc.
  cbn [client_exchange monitor_exchange app].
  eapply rtc_l; [apply step_client, act_sent; cbn; lia|]. eapply rtc_l; [eapply step_monitor, act_got; reflexivity|].
  eapply rtc_l; [apply step_monitor, act_sent; cbn; by rewrite length_replicate|].
  assert (Hq : waiting_on PSig (put PSig ok_bytes (Channel (replicate k ok_bytes) ml)) = ok_bytes :: replicate k ok_bytes).
  { cbn. by rewrite <- (replicate_cons_app k). }
  eapply rtc_l; [by eapply step_client, act_got|]. exact IH.
Qed.

(** A module: its first packet [b1] is sent, its number comes back, the others
    [b2] are sent, with more behind them; then come the exchanges of its
    constructors.  The monitor answers when it has read [begin], which the client
    has sent by then. *)
Lemma module_schedule lc lm num b1 b2 more begin rest ss : begin ++ rest = b1 ++ b2 → (length begin <= length b1)%nat →
  (1 <= cap)%nat → (length b1 <= cap)%nat → (length more <= cap)%nat →
  rtc advance (Network ((Sent PLoad <$> b1) ++ Got PLoad num :: (Sent PLoad <$> b2 ++ more) ++ (ss ≫= client_exchange) ++ lc)
              ((Got PLoad <$> begin) ++ Sent PLoad num :: (Got PLoad <$> rest) ++ (ss ≫= monitor_exchange) ++ lm)
              nothing nothing)
           (Network lc lm (Channel [] more) nothing).
Proof.
  intros Hb Hn H1 Hb1c Hmc. assert (Hb1 : b1 = begin ++ drop (length begin) b1).
  { rewrite <- (take_drop (length begin) b1) at 1. f_equal.
    apply (f_equal (take (length begin))) in Hb. by rewrite take_app_length, take_app_le in Hb. }
  set (tl := drop (length begin) b1) in *. assert (Hrest : rest = tl ++ b2).
  { rewrite Hb1, <- app_assoc in Hb. by apply app_inv_head in Hb. }
  etrans; [by apply client_sends|]. cbn [set_waiting waiting_on nothing on_sig on_load app].
  etrans; [apply (monitor_gets _ _ _ PLoad begin tl); cbn; by rewrite Hb1 at 1|]. cbn [set_waiting on_sig on_load].
  eapply rtc_l; [apply step_monitor, act_sent; cbn; lia|]. eapply rtc_l; [by eapply step_client, act_got|].
  rewrite Hrest, !fmap_app, <- !app_assoc.
  etrans; [by apply (monitor_gets _ _ _ PLoad tl []); cbn; rewrite app_nil_r|]. cbn [set_waiting on_sig on_load].
  etrans; [by apply passed_on|]. etrans; [by apply client_sends|]. apply (exchanges lc lm more [] 0 ss). lia.
Qed.

End Network.
