(* ===== verification/MonitorLog.v ===== *)
(** * What the monitor does on the pipes, in order

    The log of a load is that of its packets, with the number of the module
    after the first one; the log of a run that is accepted is one exchange per
    signal: read, then answered, and nothing read that was not there. *)

From S2P Require Import Prelude CSem Wire CStack BlockStack CallStack MonitorData.
From S2P Require Import MonitorRun RunSpec RunRefine RunTotal LoadSections Relocate Dot MonitorLoad LoadWf Main Sessions.
From S2P Require Import LoadRuns LoadAnswers Failures Network.
From Stdlib Require Import Strings.Byte.

(** ** Runs *)

(** A signal that was read, or the end of the file, then an answer. *)
Definition read_action (r : option (list byte)) : action := match r with Some b => Got PSig b | None => Eof PSig end.
Definition turn (r : option (list byte)) : list action := [read_action r; Sent PSig ok_bytes].

(** Between [w] and [w'] the reads [rs] were made, and [n] answers written. *)
Definition took (rs : list (option (list byte))) (n : nat) (w w' : world) : Prop :=
  w_sig w = omap id rs ++ w_sig w' ∧ w_load w' = w_load w ∧
  output PSig (w_out w') = output PSig (w_out w) ++ replicate n ok_bytes.

Lemma took_trans rs1 rs2 n1 n2 w1 w2 w3 : took rs1 n1 w1 w2 → took rs2 n2 w2 w3 → took (rs1 ++ rs2) (n1 + n2) w1 w3.
Proof.
  intros (S1 & L1 & O1) (S2 & L2 & O2). split_and!.
  - by rewrite S1, S2, omap_app, app_assoc.
  - congruence.
  - by rewrite O2, O1, replicate_add, app_assoc.
Qed.

Lemma untouched_took w w' : untouched w w' → took [] 0 w w'.
Proof. intros (_ & Hs & Hl & Ho). split_and!; [done..|]. by rewrite Ho, app_nil_r. Qed.

Lemma answer_log err w err' w' : WRITE_MONITOR_ANSWER CFI_OK err w = Val (err', w') → err' = 0 →
  err = 0 ∧ w_log w' = w_log w ++ [Sent PSig ok_bytes] ∧ took [] 1 w w'.
Proof.
  unfold WRITE_MONITOR_ANSWER, write_bytes. intros H He. inv_C.
  destruct (match w_write w with [] => true | b :: _ => b end); [|done]. split; [done|]. split; [done|].
  split_and!; [done..|]. cbn [w_out]. by rewrite output_app.
Qed.

Lemma signal_log dst err w r w' : READ_CLIENT_SIGNAL dst err w = Val (r, w') → ∃ x,
  w_log w' = w_log w ++ [read_action x] ∧ took [x] 0 w w'.
Proof.
  unfold READ_CLIENT_SIGNAL, read_sig. intros H. inv_C. destruct (w_sig w) as [|b ps] eqn:Es; inv_C.
  - exists None. split; [done|]. split_and!; [cbn; by rewrite Es|done|by rewrite app_nil_r].
  - exists (Some b). split; [done|]. split_and!; [done..|by rewrite app_nil_r].
Qed.

(** A case of the switch that goes on does nothing there. *)
Lemma dispatch_untouched opts data st w st' w' : dispatch opts data st w = Val (Next st', w') → untouched w w'.
Proof.
  unfold dispatch. intros H. apply C_bind_inv in H as (e & w1 & [_ ->]%lift_inv & H).
  destruct (client_event_case e) as [[]|]; try (by apply lift_inv in H as [_ ->]); [..|by inv_C].
  - assert (Hm : mute None (on_after_jump opts data st)) by (unfold on_after_jump, BLOCK_STACK_PUSH; solve_mute).
    by apply Hm in H.
  - assert (Hm : mute None (on_call opts data st)) by (unfold on_call, BLOCK_STACK_PUSH, CALL_STACK_PUSH; solve_mute).
    by apply Hm in H.
  - unfold on_exit in H. apply C_bind_inv in H as ([] & w2 & [_ ->]%lift_inv & H); [by inv_C|].
    apply C_bind_inv in H as ([] & w2 & [_ ->]%lift_inv & H); [|by apply lift_inv in H as [_ ->]].
    apply C_bind_inv in H as ([] & w2 & [_ ->]%lift_inv & H); by inv_C.
Qed.

(** The exits of a case, one by one. *)
Ltac split_exits :=
  repeat first
    [ done | progress inv_C | progress inv_res | case_decide
    | match goal with H : context [match ?x with _ => _ end] |- _ => destruct x eqn:? end ].

(** One that ends without an error has answered. *)
Lemma dispatch_exit opts data st w st' w' : dispatch opts data st w = Val (Exit st', w') → error st' = 0 →
  w_log w' = w_log w ++ [Sent PSig ok_bytes] ∧ took [] 1 w w'.
Proof.
  intros H He. unfold dispatch in H. apply C_bind_inv in H as (e & w1 & [_ ->]%lift_inv & H).
  assert (Hno : ∀ r : res ctl, lift r w = Val (Exit st', w') → (∀ st1, r = Val (Exit st1) → error st1 ≠ 0) → False).
  { intros r [Hr _]%lift_inv Hall. by apply (Hall _ Hr). }
  destruct (client_event_case e) as [[]|]; [..|by inv_C]; try (exfalso; eapply Hno; [exact H|]; clear H).
  - intros st1 H. unfold on_before_jump in H. split_exits.
  - unfold on_after_jump in H. split_exits.
  - unfold on_call in H. split_exits.
  - intros st1 H. unfold on_enter in H. split_exits.
  - unfold on_exit in H. apply C_bind_inv in H as ([] & w2 & [_ ->]%lift_inv & H); [by inv_C|].
    apply C_bind_inv in H as ([] & w2 & [_ ->]%lift_inv & H).
    + apply C_bind_inv in H as ([] & w2 & [_ ->]%lift_inv & H); [by inv_C|]. inv_C. eapply answer_log; [eassumption|done].
    + exfalso. eapply Hno; [exact H|]. clear H. intros st1 H. unfold leave_callee in H. split_exits.
  - intros st1 H. unfold on_returned in H. split_exits.
Qed.

(** One signal read and answered after the other. *)
Definition turns (rs : list (option (list byte))) (w w' : world) : Prop :=
  w_log w' = w_log w ++ (rs ≫= turn) ∧ took rs (length rs) w w'.

Lemma turns_trans rs1 rs2 w1 w2 w3 : turns rs1 w1 w2 → turns rs2 w2 w3 → turns (rs1 ++ rs2) w1 w3.
Proof.
  intros [L1 T1] [L2 T2]. split; [by rewrite L2, L1, bind_app, app_assoc|].
  rewrite length_app. by eapply took_trans.
Qed.

Lemma untouched_turns w w' : untouched w w' → turns [] w w'.
Proof. intros H. split; [by rewrite app_nil_r; apply H|by apply untouched_took]. Qed.

Lemma timeout_log opts err w err' w' : MONITOR_SIGNAL_TIMEOUT opts err w = Val (err', w') → err' = 0 → err = 0 ∧ untouched w w'.
Proof.
  intros H He. split; [|by apply (mute_TIMEOUT None) in H].
  unfold MONITOR_SIGNAL_TIMEOUT in H. destruct (TIMEOUT opts); inv_C; [|done]. by destruct a.
Qed.

Lemma run_loop_log opts data fuel : ∀ st w st' w', run_loop fuel opts data st w = Val (st', w') → error st' = 0 →
  ∃ rs, w_log w' = w_log w ++ [Sent PSig ok_bytes] ++ (rs ≫= turn) ∧ took rs (S (length rs)) w w'.
Proof.
  induction fuel as [|fuel IH]; intros st w st' w' H He; cbn [run_loop] in H; [done|].
  apply C_bind_inv in H as (c & w1 & Hd & H). destruct c as [st1|st1].
  - apply dispatch_untouched in Hd as Hu. inv_C. case_decide as Herr; inv_C; [done|]. destruct a1 as [sg err].
    assert (a0 = 0) as -> by lia. apply timeout_log in E0 as [-> Hu2]; [|done]. apply answer_log in E as (_ & Hl1 & T1); [|done].
    apply signal_log in E1 as (x & Hl3 & T3). destruct (IH _ _ _ _ H He) as (rs & Hl4 & T4).
    exists (x :: rs). split.
    + rewrite Hl4, Hl3, (proj1 Hu2), Hl1, (proj1 Hu). cbn [mbind list_bind turn app]. by rewrite <- !app_assoc.
    + apply (took_trans [] (x :: rs) 0 (S (S (length rs))) _ w1); [by apply untouched_took|].
      apply (took_trans [] (x :: rs) 1 (S (length rs)) _ w0); [done|].
      apply (took_trans [] (x :: rs) 0 (S (length rs)) _ w2); [by apply untouched_took|].
      by apply (took_trans [x] rs 0 (S (length rs)) _ w3).
  - inv_C. apply dispatch_exit in Hd as [Hl T]; [|done]. exists []. by split.
Qed.

Lemma run_exit_log opts st w w' : run_exit opts st w = Val (0, w') → error st = 0 ∧ w' = w.
Proof.
  intros H. unfold run_exit in H. case_decide as He; inv_C; [|by split; [lia|]].
  destruct (OPTION_sm_trace opts); inv_C; [|done]. unfold exit_trace in E. inv_C.
  repeat match goal with H : context [let '(_, _) := ?x in _] |- _ => destruct x; inv_C end. done.
Qed.

(** A run that ends without an error has taken turns. *)
Lemma monitor_run_log opts data w w' : monitor_run opts data w = Val (0, w') → ∃ rs, turns rs w w'.
Proof.
  assert (Hinit1 : ∀ s, mute None (call_stack_init s)) by (intros s; unfold call_stack_init; solve_mute).
  assert (Hinit2 : ∀ s, mute None (block_stack_init s)) by (intros s; unfold block_stack_init; solve_mute).
  unfold monitor_run. intros H. apply C_bind_inv in H as ([e cs] & w1 & E1%Hinit1 & H). case_decide; [by inv_C|].
  apply C_bind_inv in H as ([e2 bs] & w2 & E2%Hinit2 & H). case_decide; [by inv_C|].
  apply C_bind_inv in H as (err & w3 & E3 & H). case_decide as Herr; [by apply run_exit_log in H as [? _]|].
  assert (err = 0) as -> by lia. apply timeout_log in E3 as [_ Hu3]; [|done].
  apply C_bind_inv in H as ([sg err] & w4 & E4 & H). apply signal_log in E4 as (x & Hl4 & T4).
  apply C_bind_inv in H as (st & w5 & E5 & H). apply run_exit_log in H as [He ->].
  apply run_loop_log in E5 as (rs & Hl5 & T5); [|done]. exists (x :: rs).
  apply (turns_trans [] (x :: rs) _ w3); [apply untouched_turns; by do 2 (etrans; [eassumption|])|]. split.
  - rewrite Hl5, Hl4. cbn [mbind list_bind turn app]. by rewrite <- app_assoc.
  - by apply (took_trans [x] rs 0 (S (length rs)) _ w4).
Qed.

(** A run that is accepted: nothing but exchanges. *)
Definition exchanged (w w' : world) : Prop := ∃ ps,
  w_log w' = w_log w ++ (ps ≫= monitor_exchange) ∧ w_sig w = ps ++ w_sig w' ∧ w_load w' = w_load w.

#[export] Instance exchanged_preorder : PreOrder exchanged.
Proof.
  split; [intros w; exists []; by rewrite app_nil_r|]. intros w1 w2 w3 (ps1 & L1 & S1 & D1) (ps2 & L2 & S2 & D2).
  exists (ps1 ++ ps2). rewrite L2, L1, S1, S2, bind_app, !app_assoc. split_and!; [done..|congruence].
Qed.

Lemma all_read (rs : list (option (list byte))) : (length (omap id rs) <= length rs)%nat ∧
  (length (omap id rs) = length rs → rs = Some <$> omap id rs).
Proof.
  induction rs as [|[b|] rs [Hle IH]]; [done| |]; cbn in *; (split; [lia|]); [|lia].
  intros H. f_equal. apply IH. lia.
Qed.

Lemma read_turns ps : (Some <$> ps) ≫= turn = ps ≫= monitor_exchange.
Proof. induction ps as [|p ps IH]; [done|]. cbn. by rewrite <- IH. Qed.

(** The answers that are preloaded. *)
Definition nb_preloaded (opts : options) : nat := Z.to_nat (OPTION_nb_preload_monitor_ok_answers opts).

Section Exchanges.
Context (opts : options) (data : monitor_data) (Hready : run_ready data).

Lemma monitor_run_exchanged w w' : favourable w → Forall full_packet (w_sig w) →
  monitor_run opts data w = Val (0, w') → exchanged w w' ∧ favourable w' ∧ Forall full_packet (w_sig w').
Proof using Hready.
  intros Hw Hps Hrun. destruct (monitor_run_log _ _ _ _ Hrun) as (rs & Hlog & Hs & Hl & Ho).
  destruct (monitor_run_accepts opts data Hready w w' Hw Hps Hrun) as (tr & _ & Hsig & (Hw' & Hout & _) & Hps').
  split; [|done]. exists (omap id rs). split_and!; [|done..].
  assert (Hn : length rs = length tr).
  { rewrite Hout, output_app in Ho. apply app_inv_head, (f_equal length) in Ho. rewrite length_replicate in Ho.
    rewrite <- Ho. clear. induction (length tr) as [|n IH]; [done|]. exact (f_equal S IH). }
  assert (Ht : length (omap id rs) = length tr).
  { unfold signals in Hsig. rewrite Hs, fmap_app in Hsig. apply app_inv_tail, (f_equal length) in Hsig.
    by rewrite length_fmap in Hsig. }
  rewrite Hlog. f_equal. rewrite (proj2 (all_read rs)) at 1 by congruence. apply read_turns.
Qed.

Lemma run_times_exchanged n : ∀ w w', favourable w → Forall full_packet (w_sig w) →
  run_times n opts data w = Val (0, w') → exchanged w w' ∧ favourable w' ∧ Forall full_packet (w_sig w').
Proof using Hready.
  induction n as [|n IH]; intros w w' Hw Hps H; cbn [run_times] in H; inv_C; [done|].
  case_decide as He; inv_C; [done|]. assert (a = 0) as -> by lia.
  apply monitor_run_exchanged in E as (E & Hw1 & Hps1); [|done..]. apply IH in H as (H & ?); [|done..]. split; [by etrans|done].
Qed.

Lemma preload_loop_log n : ∀ err w w', preload_loop n err w = Val (0, w') →
  err = 0 ∧ w_log w' = w_log w ++ (Sent PSig <$> replicate n ok_bytes).
Proof using Type.
  induction n as [|n IH]; intros err w w' H; cbn [preload_loop] in H; inv_C; [by rewrite app_nil_r|].
  case_decide; inv_C; [done|]. apply IH in H as [-> Hl]. apply answer_log in E as (-> & Hl1 & _); [|done].
  split; [done|]. rewrite Hl, Hl1. cbn. by rewrite <- app_assoc.
Qed.

(** The preloaded answers, then the runs of the program. *)
Lemma main_runs_log w w' : favourable w → Forall full_packet (w_sig w) → main_runs opts data w = Val (0, w') → ∃ ps,
  w_log w' = w_log w ++ (Sent PSig <$> replicate (nb_preloaded opts) ok_bytes) ++ (ps ≫= monitor_exchange) ∧
  w_sig w = ps ++ w_sig w'.
Proof using Hready.
  intros Hw Hps H. unfold main_runs in H. destruct (preload_ok opts w Hw) as (w1 & Hpre & Hw1 & Hs1 & _).
  rewrite C_bind_eq, Hpre in H. rewrite <- Hs1 in *.
  assert (Hk : w_log w1 = w_log w ++ (Sent PSig <$> replicate (nb_preloaded opts) ok_bytes)).
  { unfold nb_preloaded. case_decide; [by apply preload_loop_log in Hpre as [_ Hpre]|].
    rewrite Z2Nat.nonpos by lia. injection Hpre as <-. by rewrite app_nil_r. }
  clear Hpre. apply C_bind_inv in H as (e & w2 & Hrun & H). case_decide as He.
  { inv_C. congruence. }
  assert (e = 0) as -> by (apply small_u32; [by eapply monitor_run_small|lia]).
  apply monitor_run_exchanged in Hrun as (Hx & Hw2 & Hps2); [|done..].
  apply C_bind_inv in H as (nb & w3 & [_ ->]%lift_inv & H). apply C_bind_inv in H as (e & w3 & Hruns & H).
  rewrite C_ret_eq in H. injection H as Hu <-. apply small_u32 in Hu as ->; [|by eapply run_times_small].
  apply run_times_exchanged in Hruns as [Hx2 _]; [|done..]. destruct (transitivity Hx Hx2) as (ps & Hlog & Hsig & _).
  exists ps. by rewrite Hlog, Hk, Hsig, <- app_assoc.
Qed.

End Exchanges.

(** ** Modules *)

(** Only packets of the loading pipe were read: [ps]. *)
Definition gets (ps : list (list byte)) (w w' : world) : Prop :=
  w_log w' = w_log w ++ (Got PLoad <$> ps) ∧ w_load w = ps ++ w_load w' ∧ w_sig w' = w_sig w.

Lemma gets_trans ps1 ps2 w1 w2 w3 : gets ps1 w1 w2 → gets ps2 w2 w3 → gets (ps1 ++ ps2) w1 w3.
Proof.
  intros (G1 & L1 & S1) (G2 & L2 & S2). split_and!; [by rewrite G2, G1, fmap_app, app_assoc| |congruence].
  by rewrite L1, L2, app_assoc.
Qed.

Lemma untouched_gets w w' : untouched w w' → gets [] w w'.
Proof. intros (Hl & Hs & Hd & _). split_and!; [by rewrite app_nil_r|done..]. Qed.

Lemma read_load_gets n w bs w' : read_load n w = Val (bs, w') → bs ≠ [] → ∃ p, gets [p] w w'.
Proof.
  unfold read_load. intros H Hne. destruct (w_load w) as [|p ps] eqn:El; inv_C; [done|]. exists p. by split_and!.
Qed.

(** A packet that is read whole. *)
Lemma READ_LOADING_gets dst w pkt w' : READ_LOADING_PACKET dst 0 w = Val ((pkt, 0), w') →
  ∃ ps, gets ps w w' ∧ (length ps <= 3)%nat.
Proof.
  unfold READ_LOADING_PACKET. intros H. apply C_bind_inv in H as (ebs & w1 & R1 & H).
  case_decide as He; [by inv_C|]. apply read_load_gets in R1 as [p1 G1]; [|by intros ->].
  apply C_bind_inv in H as (sbs & w2 & R2 & H). cbn zeta in H. case_decide as Hs; [by inv_C|].
  apply read_load_gets in R2 as [p2 G2]; [|by intros ->]. pose proof (gets_trans _ _ _ _ _ G1 G2) as G.
  case_decide as Hz; [inv_C; eexists; split; [exact G|cbn; lia]|].
  apply C_bind_inv in H as (buf & w3 & R3%(mute_calloc None) & H). apply untouched_gets in R3.
  destruct buf as [|zeros|]; try by inv_C. apply C_bind_inv in H as (vbs & w4 & R4 & H).
  case_decide as Hv; inv_C; [done|]. apply read_load_gets in R4 as [p3 G3].
  - eexists. split; [exact (gets_trans _ _ _ _ _ G (gets_trans _ _ _ _ _ R3 G3))|cbn; lia].
  - intros ->. by rewrite <- Hv in Hz.
Qed.

Lemma sections_loop_gets opts fuel : ∀ pkt md w pkt' md' w',
  sections_loop fuel opts pkt md w = Val ((0, pkt', md'), w') → ∃ ps, gets ps w w'.
Proof.
  induction fuel as [|fuel IH]; intros pkt md w pkt' md' w' H; cbn [sections_loop] in H; [done|].
  apply C_bind_inv in H as (e & w1 & [_ ->]%lift_inv & H).
  case_decide; [inv_C; exists []; by apply untouched_gets|]. apply C_bind_inv in H as (pkt1 & w1 & [_ ->]%lift_inv & H).
  apply C_bind_inv in H as ([pkt2 err] & w1 & R1 & H). case_decide; [by inv_C|]. assert (err = 0) as -> by lia.
  apply READ_LOADING_gets in R1 as (ps1 & G1 & _). apply C_bind_inv in H as (e2 & w2 & [_ ->]%lift_inv & H).
  apply C_bind_inv in H as ([err md2] & w2 & R2%(mute_load_section None) & H). apply untouched_gets in R2.
  case_decide; [by inv_C|]. apply IH in H as [ps2 G2]. eexists. eapply gets_trans; [exact G1|]. by eapply gets_trans.
Qed.

(** The log of a module: its first packet, its number, its other packets. *)
Definition module_log (k : Z) (begin rest : list (list byte)) : list action :=
  (Got PLoad <$> begin) ++ [Sent PLoad (module_number k)] ++ (Got PLoad <$> rest).

Lemma module_begin_log mon w mon' w' : load_inv mon → module_begin mon 0 w = Val ((0, mon'), w') →
  w_log w' = w_log w ++ [Sent PLoad (module_number (nb_modules mon))] ∧ w_load w' = w_load w.
Proof.
  intros Hinv H. unfold module_begin in H. apply C_bind_inv in H as (ok & w1 & Hu%(mute_alloc_ok None) & H).
  destruct Hu as (Hl & _ & Hd & _). destruct (negb ok); [by injection H|].
  apply C_bind_inv in H as (ms & w2 & [_ ->]%lift_inv & H). cbn zeta in H. rewrite next_module_number in H by apply Hinv.
  unfold WRITE_MONITOR_TO_LOADING_PACKET, write_bytes in H. inv_C.
  destruct (match w_write w1 with [] => true | b :: _ => b end); [|done]. cbn [w_log w_load sent_of]. by rewrite Hl, Hd.
Qed.

Lemma load_module_log opts mon w mon' w' : load_inv mon → monitor_load_module opts mon w = Val ((0, mon'), w') →
  ∃ begin rest, w_log w' = w_log w ++ module_log (nb_modules mon) begin rest ∧
    w_load w = begin ++ rest ++ w_load w' ∧ (length begin <= 3)%nat.
Proof.
  intros Hinv H. unfold monitor_load_module in H. apply C_bind_inv in H as ([pkt err] & w1 & R1 & H).
  case_decide; [by inv_C|]. assert (err = 0) as -> by lia. apply READ_LOADING_gets in R1 as (ps1 & (L1 & D1 & _) & Hn).
  apply C_bind_inv in H as (e & w2 & [_ ->]%lift_inv & H). destruct (loading_event_case e) as [[]|]; try by inv_C.
  apply C_bind_inv in H as ([err mon1] & w2 & R2 & H). case_decide; [by inv_C|]. assert (err = 0) as -> by lia.
  apply module_begin_log in R2 as [L2 D2]; [|done]. apply C_bind_inv in H as (md & w3 & [_ ->]%lift_inv & H).
  apply C_bind_inv in H as ([[err pkt1] md1] & w3 & R3 & H). inv_C. case_decide; [done|]. assert (err = 0) as -> by lia.
  apply sections_loop_gets in R3 as (ps2 & L3 & D3 & _). exists ps1, ps2. unfold module_log.
  split_and!; [|by rewrite D1, <- D3, D2|done]. by rewrite L3, L2, L1, <- !app_assoc.
Qed.

(** The log of the end of the load: packets. *)
Lemma load_end_log opts mon w mon' w' : monitor_load_module opts mon w = Val ((1, mon'), w') → ∃ ps, gets ps w w'.
Proof.
  intros H. unfold monitor_load_module in H. apply C_bind_inv in H as ([pkt err] & w1 & R1 & H).
  case_decide; [by inv_C|]. assert (err = 0) as -> by lia. apply READ_LOADING_gets in R1 as (ps1 & G & _).
  apply C_bind_inv in H as (e & w2 & [_ ->]%lift_inv & H). destruct (loading_event_case e) as [[]|]; try by inv_C.
  - apply C_bind_inv in H as ([err mon1] & w2 & R2 & H). case_decide; [by inv_C|].
    apply C_bind_inv in H as (md & w3 & [_ ->]%lift_inv & H).
    apply C_bind_inv in H as ([[err1 pkt1] md1] & w3 & R3 & H). inv_C. by case_decide.
  - inv_C. by exists ps1.
Qed.
