(* ===== verification/Text.v ===== *)
(** * Text files

    The pass and the prelink script exchange text files.  Here is what they
    use of the C++ and Python libraries to write and read them: decimal
    numbers, extraction of words and numbers from a stream, lines, splitting
    on white space; and the lemmas by which what is written is read back. *)

From S2P Require Import Prelude CSem Dot.
From Stdlib Require Import Strings.Byte Strings.String NArith DecimalString DecimalN.
From stdpp Require Import countable.
#[local] Open Scope Z_scope.

Abbreviation text := (list byte) (only parsing).

#[export] Instance byte_countable : Countable byte :=
  inj_countable Byte.to_N Byte.of_N Byte.of_to_N.

(** ** Characters *)

Definition space : byte := x20.

(** [isspace] in the C locale. *)
Definition is_space (b : byte) : bool :=
  bool_decide (b = x20) || bool_decide (b = x09) || bool_decide (b = x0a) ||
  bool_decide (b = x0b) || bool_decide (b = x0c) || bool_decide (b = x0d).

Definition is_digit (b : byte) : bool :=
  bool_decide (byte_to_Z x30 <= byte_to_Z b <= byte_to_Z x39).

(** The longest prefix of bytes that satisfy [p], and the rest. *)
Fixpoint span (p : byte → bool) (s : text) : text * text :=
  match s with
  | [] => ([], [])
  | b :: s' => if p b then let '(u, v) := span p s' in (b :: u, v) else ([], s)
  end.

(** A word: not empty, without white space. *)
Definition word (s : text) : Prop := s ≠ [] ∧ Forall (λ b, is_space b = false) s.

#[export] Instance word_dec s : Decision (word s).
Proof. unfold word. apply _. Defined.

(** ** Numbers *)

(** [<<] of an [int]. *)
Definition percent_d (z : Z) : text :=
  if decide (z < 0) then x2d :: percent_u (- z) else percent_u z.

(** Value of a string of digits. *)
Definition digits_value (s : text) : option Z :=
  (λ d, Z.of_N (N.of_uint d)) <$> NilZero.uint_of_string (string_of_list_byte s).

(** ** Streams (C++) *)

(** [>>] of a [std::string]: the next word. *)
Definition get_word (s : text) : option (text * text) :=
  let '(w, rest) := span (λ b, negb (is_space b)) (span is_space s).2 in
  match w with [] => None | _ => Some (w, rest) end.

(** [>>] of a [uint32_t]: an optional sign, digits; a minus sign negates
    modulo 2^32; a value out of range is a failure. *)
Definition get_uint32 (s : text) : option (Z * text) :=
  let s := (span is_space s).2 in
  let '(neg, s) :=
    match s with
    | b :: s' => if bool_decide (b = x2d) then (true, s')
                 else if bool_decide (b = x2b) then (false, s') else (false, s)
    | [] => (false, s)
    end in
  let '(d, rest) := span is_digit s in
  v ← digits_value d;
  if decide (v < 2 ^ 32) then Some (if (neg : bool) then u32 (- v) else v, rest) else None.

(** [std::getline] until it fails: the lines of a file, without their ends. *)
Fixpoint lines_from (acc : text) (s : text) : list text :=
  match s with
  | [] => match acc with [] => [] | _ => [rev acc] end
  | b :: s' => if bool_decide (b = newline) then rev acc :: lines_from [] s'
               else lines_from (b :: acc) s'
  end.
Definition lines (s : text) : list text := lines_from [] s.

(** ** Strings (Python) *)

(** [str.split()] *)
Fixpoint split_from (acc : text) (s : text) : list text :=
  match s with
  | [] => match acc with [] => [] | _ => [rev acc] end
  | b :: s' =>
      if is_space b then match acc with [] => split_from [] s' | _ => rev acc :: split_from [] s' end
      else split_from (b :: acc) s'
  end.
Definition split (s : text) : list text := split_from [] s.

(** [s[a:-1]], for [a] at most the length of [s]. *)
Definition slice (a : nat) (s : text) : text := removelast (drop a s).

(** [int(s)], of a word. *)
Definition py_int (s : text) : option Z :=
  match s with
  | b :: s' => if bool_decide (b = x2d) then Z.opp <$> digits_value s'
               else if bool_decide (b = x2b) then digits_value s' else digits_value s
  | [] => None
  end.

(** [str.rstrip()] *)
Definition rstrip (s : text) : text := rev (span is_space (rev s)).2.

(** ** Lemmas: spans *)

Lemma span_stop p s rest :
  Forall (λ b, p b = true) s → match rest with [] => True | b :: _ => p b = false end →
  span p (s ++ rest) = (s, rest).
Proof.
  intros Hs Hr. induction Hs as [|b s Hb Hs IH]; cbn.
  - destruct rest as [|b rest]; cbn; [done|]. by rewrite Hr.
  - by rewrite Hb, IH.
Qed.

Lemma span_none p b s : p b = false → span p (b :: s) = ([], b :: s).
Proof. intros Hb. cbn. by rewrite Hb. Qed.

(** ** Numbers *)

Lemma percent_u_uint z : ∃ d, d ≠ Decimal.Nil ∧ percent_u z = lit (NilZero.string_of_uint d) ∧
  (0 <= z → Z.of_N (N.of_uint d) = z).
Proof.
  exists (N.to_uint (Z.to_N z)). split; [|split; [done|]].
  - by destruct (Z.to_N z) as [|p]; [|apply DecimalPos.Unsigned.to_uint_nonnil].
  - intros Hz. rewrite DecimalN.Unsigned.of_to. lia.
Qed.

Lemma digits_value_percent_u z : 0 <= z → digits_value (percent_u z) = Some z.
Proof.
  intros Hz. destruct (percent_u_uint z) as (d & Hnil & -> & Hv). unfold digits_value, lit.
  rewrite string_of_list_byte_of_string, NilZero.usu by done. cbn. by rewrite Hv.
Qed.

Lemma uint_digits d : Forall (λ b, is_digit b = true) (lit (NilEmpty.string_of_uint d)).
Proof. induction d; cbn; constructor; done. Qed.

Lemma percent_u_digits z : Forall (λ b, is_digit b = true) (percent_u z).
Proof.
  destruct (percent_u_uint z) as (d & Hnil & -> & _).
  assert (NilZero.string_of_uint d = NilEmpty.string_of_uint d) as -> by (by destruct d).
  apply uint_digits.
Qed.

Lemma percent_u_nonempty z : percent_u z ≠ [].
Proof. by destruct (percent_u_uint z) as (d & Hnil & -> & _); destruct d. Qed.

Lemma digit_not_space b : is_digit b = true → is_space b = false.
Proof. by destruct b. Qed.

Lemma percent_u_word z : word (percent_u z).
Proof.
  split; [apply percent_u_nonempty|]. apply (Forall_impl _ digit_not_space), percent_u_digits.
Qed.

(** A digit is no sign. *)
Lemma percent_u_head z : ∃ b s, percent_u z = b :: s ∧ b ≠ x2d ∧ b ≠ x2b ∧ is_space b = false.
Proof.
  pose proof (percent_u_nonempty z). pose proof (percent_u_digits z) as Hd.
  destruct (percent_u z) as [|b s]; [done|]. apply Forall_cons_1 in Hd as [Hb _].
  exists b, s. split; [done|]. split_and!; [by intros ->..|by apply digit_not_space].
Qed.

Lemma percent_d_pos z : 0 <= z → percent_d z = percent_u z.
Proof. intros. unfold percent_d. by rewrite decide_False by lia. Qed.

Lemma py_int_percent_u z : 0 <= z → py_int (percent_u z) = Some z.
Proof.
  intros Hz. destruct (percent_u_head z) as (b & s & E & H1 & H2 & _).
  unfold py_int. rewrite E. cbv beta iota. rewrite !bool_decide_false by done. rewrite <- E. by apply digits_value_percent_u.
Qed.

(** ** Streams *)

(** The stream starts with white space, or has ended. *)
Definition at_space (s : text) : Prop := match s with [] => True | b :: _ => is_space b = true end.

Lemma skip_word w rest : word w → (span is_space (w ++ rest)).2 = w ++ rest.
Proof.
  intros [Hne Hw]. destruct w as [|b w]; [done|]. apply Forall_cons_1 in Hw as [Hb _].
  cbn [app]. by rewrite span_none.
Qed.

Lemma skip_space s : (span is_space (space :: s)).2 = (span is_space s).2.
Proof. cbn. by destruct (span is_space s). Qed.

Lemma get_word_eq w rest : word w → at_space rest → get_word (w ++ rest) = Some (w, rest).
Proof.
  intros Hw Hr. unfold get_word. rewrite skip_word by done. destruct Hw as [Hne Hw].
  rewrite (span_stop _ w rest).
  - by destruct w.
  - revert Hw. apply Forall_impl. by intros b ->.
  - destruct rest; [done|]. cbn in Hr. by rewrite Hr.
Qed.

Lemma get_word_space s : get_word (space :: s) = get_word s.
Proof. unfold get_word. by rewrite skip_space. Qed.

Lemma get_uint32_space s : get_uint32 (space :: s) = get_uint32 s.
Proof. unfold get_uint32. by rewrite skip_space. Qed.

Lemma get_uint32_eq z rest : in_u 32 z → at_space rest → get_uint32 (percent_u z ++ rest) = Some (z, rest).
Proof.
  intros [Hz1 Hz2] Hr. unfold get_uint32. rewrite skip_word by apply percent_u_word.
  destruct (percent_u_head z) as (b & s & E & H1 & H2 & _).
  pose proof (percent_u_digits z) as Hd.
  assert (Hspan : span is_digit (percent_u z ++ rest) = (percent_u z, rest)).
  { apply span_stop; [done|]. destruct rest as [|c rest]; [done|]. cbn in Hr.
    destruct (is_digit c) eqn:Hc; [|done]. apply digit_not_space in Hc. congruence. }
  rewrite E in *. cbn [app]. rewrite !bool_decide_false by done. cbn [app] in Hspan.
  rewrite Hspan, <- E, digits_value_percent_u by done. cbn. by rewrite decide_True.
Qed.
