(* ===== verification/Ir.v ===== *)
(** * The intermediate representation, as the pass sees it

    What the pass observes of an LLVM module and what it changes in it:
    functions with their linkage and visibility, basic blocks, instructions
    (told apart as far as the pass tells them apart), terminators with their
    successors, and the initialisers of the three global variables it reads.
    A pointer to a function is its name, a pointer to a basic block its label:
    both are unique where they are used. *)

From S2P Require Import Prelude CSem Text.
From Stdlib Require Import Strings.Byte.

#[local] Set Warnings "-register-all".

Abbreviation name := (list byte) (only parsing).
Abbreviation label := nat (only parsing).

(** ** Instructions *)

(** Operands: a 32-bit constant, the result of the call named [r], another. *)
Inductive value := ConstInt (z : Z) | ResultOf (r : text) | OtherValue.

#[export] Instance value_eq_dec : EqDecision value.
Proof. solve_decision. Defined.

(** An instruction that is no terminator.  [IntrinsicInst] is a call of an
    intrinsic, whose result is named [r]; [CallInst] a direct call of another
    function; [IndirectCallInst] a call whose [getCalledFunction] is null. *)
Inductive instruction :=
| PHINode
| DbgInfoIntrinsic
| IntrinsicInst (f : name) (args : list value) (r : text)
| CallInst (f : name) (args : list value)
| IndirectCallInst
| InlineAsmInst
| OtherInst.

#[export] Instance instruction_eq_dec : EqDecision instruction.
Proof. solve_decision. Defined.

(** [BranchInst] stands for br, switch and indirectbr, [UnreachableInst] for
    the other terminators without successors. *)
Inductive terminator :=
| ReturnInst
| BranchInst (succs : list label)
| InvokeInst (succs : list label)
| UnreachableInst.

#[export] Instance terminator_eq_dec : EqDecision terminator.
Proof. solve_decision. Defined.

(** From [succ_begin] to [succ_end]. *)
Definition successors (t : terminator) : list label :=
  match t with
  | BranchInst succs | InvokeInst succs => succs
  | ReturnInst | UnreachableInst => []
  end.

(** [isa<InvokeInst>] *)
Definition is_invoke (t : terminator) : bool :=
  match t with InvokeInst _ => true | _ => false end.

Record basic_block := BasicBlock {
  bb_label : label;
  bb_insts : list instruction;
  bb_term : terminator;
}.

(** ** Functions *)

Inductive linkage := ExternalLinkage | InternalLinkage | PrivateLinkage | OtherLinkage.
Inductive visibility := DefaultVisibility | HiddenVisibility | ProtectedVisibility.

Definition hasLocalLinkage (l : linkage) : bool :=
  match l with InternalLinkage | PrivateLinkage => true | _ => false end.

(** [fn_intrinsic]: [getIntrinsicID()] is not [not_intrinsic]. *)
Record function := MkFunction {
  fn_name : name;
  fn_intrinsic : bool;
  fn_blocks : list basic_block;
  fn_linkage : linkage;
  fn_visibility : visibility;
}.

Definition isDeclaration (F : function) : bool :=
  match fn_blocks F with [] => true | _ => false end.

Definition set_blocks_of (bs : list basic_block) (F : function) : function :=
  MkFunction (fn_name F) (fn_intrinsic F) bs (fn_linkage F) (fn_visibility F).
Definition setLinkage (l : linkage) (F : function) : function :=
  MkFunction (fn_name F) (fn_intrinsic F) (fn_blocks F) l (fn_visibility F).
Definition setVisibility (v : visibility) (F : function) : function :=
  MkFunction (fn_name F) (fn_intrinsic F) (fn_blocks F) (fn_linkage F) v.

(** ** Constants of the initialisers *)

Inductive constant :=
| ConstantArray (ops : list constant)
| ConstantStruct (ops : list constant)
| ConstantFunction (f : name)
| ConstantExpr (is_cast : bool) (ops : list constant)
| ConstantGlobal (init : option constant)
| ConstantDataArray (s : text)
| ConstantNull
| ConstantOther.

(** A global variable: whether it has a first operand, its initialiser, the
    number of its uses. *)
Record global_variable := GlobalVariable {
  gv_operand : bool;
  gv_initializer : option constant;
  gv_uses : Z;
}.

(** ** Modules *)

Record ir_module := IrModule {
  m_functions : list function;
  m_annotations : option global_variable;   (* llvm.global.annotations *)
  m_ctors : option global_variable;         (* llvm.global_ctors *)
  m_dtors : option global_variable;         (* llvm.global_dtors *)
}.

Definition set_functions_of (fs : list function) (M : ir_module) : ir_module :=
  IrModule fs (m_annotations M) (m_ctors M) (m_dtors M).

(** [getFunction(f)] *)
Definition getFunction (M : ir_module) (f : name) : option function :=
  find (λ F, bool_decide (fn_name F = f)) (m_functions M).

(** A change of the function named [f]. *)
Definition update_function (f : name) (g : function → function) (M : ir_module) : ir_module :=
  set_functions_of ((λ F, if decide (fn_name F = f) then g F else F) <$> m_functions M) M.

(** ** Well-formedness, as LLVM's verifier checks it *)

(** A call names a function of the module, of the right kind. *)
Definition wf_instruction (M : ir_module) (i : instruction) : Prop :=
  match i with
  | CallInst f _ => ∃ F, getFunction M f = Some F ∧ fn_intrinsic F = false
  | IntrinsicInst f _ _ => ∃ F, getFunction M f = Some F ∧ fn_intrinsic F = true
  | _ => True
  end.

(** Labels are unique; no branch leads out of the function or to its entry. *)
Definition wf_function_ir (M : ir_module) (F : function) : Prop :=
  NoDup (bb_label <$> fn_blocks F) ∧
  (∀ B, B ∈ fn_blocks F → Forall (wf_instruction M) (bb_insts B) ∧
     Forall (λ l, l ∈ tail (bb_label <$> fn_blocks F)) (successors (bb_term B))).

Definition wf_ir (M : ir_module) : Prop :=
  NoDup (fn_name <$> m_functions M) ∧
  ∀ F, F ∈ m_functions M → wf_function_ir M F ∧ (fn_intrinsic F = true → fn_blocks F = []).

(** Well-formedness can be checked. *)
Lemma Forall_elem_iff {A} (P : A → Prop) l : Forall P l ↔ ∀ a, a ∈ l → P a.
Proof.
  rewrite Forall_forall. split; intros H a Ha; apply H; by apply list_elem_of_In.
Qed.

#[export] Instance forall_elem_dec {A} (P : A → Prop) (l : list A) `{∀ a, Decision (P a)} : Decision (∀ a, a ∈ l → P a).
Proof. refine (cast_if (decide (Forall P l))); by rewrite <- Forall_elem_iff. Defined.

#[export] Instance wf_instruction_dec M i : Decision (wf_instruction M i).
Proof.
  assert (Hdec : ∀ f b, Decision (∃ F, getFunction M f = Some F ∧ fn_intrinsic F = b)).
  { intros f b. destruct (getFunction M f) as [F|]; [|right; by intros (F & HF & _)].
    destruct (decide (fn_intrinsic F = b)) as [E|E]; [left; by exists F|right; intros (F' & [= ->] & ?); done]. }
  destruct i; cbn; first [apply _ | apply Hdec].
Defined.

#[export] Instance wf_function_ir_dec M F : Decision (wf_function_ir M F).
Proof. unfold wf_function_ir. apply _. Defined.

#[export] Instance wf_ir_dec M : Decision (wf_ir M).
Proof. unfold wf_ir. apply _. Defined.

(** ** Lemmas *)

Lemma getFunction_elem M f F : getFunction M f = Some F → F ∈ m_functions M ∧ fn_name F = f.
Proof.
  unfold getFunction. intros H%find_some. destruct H as [Hin Hf%bool_decide_eq_true].
  by rewrite list_elem_of_In.
Qed.

Lemma getFunction_name M F : NoDup (fn_name <$> m_functions M) → F ∈ m_functions M →
  getFunction M (fn_name F) = Some F.
Proof.
  unfold getFunction. induction (m_functions M) as [|G Fs IH]; intros Hnd HF; [by apply elem_of_nil in HF|].
  cbn in Hnd |- *. apply NoDup_cons_1_1 in Hnd as H1. apply NoDup_cons_1_2 in Hnd.
  apply elem_of_cons in HF as [->|HF]; [by rewrite bool_decide_true|].
  rewrite bool_decide_false; [by apply IH|].
  intros E. apply H1. rewrite E. by apply list_elem_of_fmap_2.
Qed.
