(* ===== verification/Pass.v ===== *)
(** * Analysis part of the pass (llvm_pass/CFI/CFI.hh, llvm_pass/CFI/CFI.cpp)

    The class [ControlFlowIntegrity]: it numbers the functions and the blocks
    of a module, in agreement with the files left by the compilation of other
    modules of the same binary, and appends to these files the function table,
    the call graph, the control-flow graphs and the post-dominators. *)

From S2P Require Import Prelude CSem Dot Text Ir.
From Stdlib Require Import Strings.Byte.
From stdpp Require Import sorting.
From Stdlib Require Strings.String.
Import Strings.String.StringSyntax.
#[local] Open Scope string_scope.
#[local] Open Scope Z_scope.
#[local] Open Scope list_scope.

(** ** Outcomes *)

(** The pass stops with [report_fatal_error], with a failed assertion, or by
    an access to an operand that is not there. *)
Inductive stop :=
| FatalError (msg : String.string)
| AssertionFailed (msg : String.string)
| BadOperand.

Inductive pass (A : Type) := Ok (a : A) | Stop (s : stop).
Arguments Ok {A} a.
Arguments Stop {A} s.

#[export] Instance pass_ret : MRet pass := @Ok.
#[export] Instance pass_bind : MBind pass := λ A B f m,
  match m with Ok a => f a | Stop s => Stop s end.

Definition report_fatal_error {A} (msg : String.string) : pass A := Stop (FatalError msg).

(** A loop that threads a state through a list. *)
Fixpoint pass_fold {A B} (f : B → A → pass B) (b : B) (l : list A) : pass B :=
  match l with
  | [] => Ok b
  | a :: l => b ← f b a; pass_fold f b l
  end.

(** ** State *)

(** [fun] is a pointer to the function of that name. *)
Record CFIFct := MkCFIFct {
  cf_fun : name;
  cf_id : Z;
  cf_bb_map : gmap label Z;
}.

(** The fields that name the other files are left out: each file is a field of
    [cfi_files]. *)
Record ControlFlowIntegrity := MkCFI {
  _M : ir_module;
  _FunctionMap : gmap name CFIFct;
  _IdentifiedFunctions : gmap name Z;
  _IgnoredFunctions : gset name;
  _InitFunctions : gset name;
  _FiniFunctions : gset name;
  _IgnoredBlocksFunctions : gset name;
  _fun_id_file : text;
  _fun_id_ctr : Z;
}.

Definition set_M M st := MkCFI M (_FunctionMap st) (_IdentifiedFunctions st) (_IgnoredFunctions st)
  (_InitFunctions st) (_FiniFunctions st) (_IgnoredBlocksFunctions st) (_fun_id_file st) (_fun_id_ctr st).
Definition set_FunctionMap m st := MkCFI (_M st) m (_IdentifiedFunctions st) (_IgnoredFunctions st)
  (_InitFunctions st) (_FiniFunctions st) (_IgnoredBlocksFunctions st) (_fun_id_file st) (_fun_id_ctr st).
Definition set_IdentifiedFunctions m st := MkCFI (_M st) (_FunctionMap st) m (_IgnoredFunctions st)
  (_InitFunctions st) (_FiniFunctions st) (_IgnoredBlocksFunctions st) (_fun_id_file st) (_fun_id_ctr st).
Definition set_InitFunctions s st := MkCFI (_M st) (_FunctionMap st) (_IdentifiedFunctions st)
  (_IgnoredFunctions st) s (_FiniFunctions st) (_IgnoredBlocksFunctions st) (_fun_id_file st) (_fun_id_ctr st).
Definition set_FiniFunctions s st := MkCFI (_M st) (_FunctionMap st) (_IdentifiedFunctions st)
  (_IgnoredFunctions st) (_InitFunctions st) s (_IgnoredBlocksFunctions st) (_fun_id_file st) (_fun_id_ctr st).
Definition set_IgnoredBlocksFunctions s st := MkCFI (_M st) (_FunctionMap st) (_IdentifiedFunctions st)
  (_IgnoredFunctions st) (_InitFunctions st) (_FiniFunctions st) s (_fun_id_file st) (_fun_id_ctr st).
Definition set_fun_id_ctr n st := MkCFI (_M st) (_FunctionMap st) (_IdentifiedFunctions st)
  (_IgnoredFunctions st) (_InitFunctions st) (_FiniFunctions st) (_IgnoredBlocksFunctions st)
  (_fun_id_file st) n.

(** The files of a prefix; [None]: the file does not exist. *)
Record cfi_files := CfiFiles {
  f_fctid : option text;
  f_trans : option text;
  f_bbtrans : option text;
  f_ipdom : option text;
}.

Definition no_files : cfi_files := CfiFiles None None None None.

(** What the pass is given by the system and by LLVM.  [order] is the order in
    which a [StringMap] is iterated, [nearest_common_dominator] the analysis
    of [PostDominatorTree] on a function, [NDEBUG] tells whether assertions
    were compiled out; the booleans tell whether a file can be opened for
    writing, [ignored_file] is what can be read of the file of ignored
    functions. *)
Record pass_env := PassEnv {
  order : ∀ V, gmap name V → list (name * V);
  nearest_common_dominator : function → label → label → option label;
  NDEBUG : bool;
  opens_fctid : bool;
  opens_trans : bool;
  opens_bbtrans : bool;
  opens_ipdom : bool;
  ignored_file : option text;
  unique_name : list name → name → name;   (* the name LLVM gives to a new function *)
}.

(** What LLVM documents of it: a map is iterated once over each entry, a name
    that is free is kept. *)
Definition env_ok (env : pass_env) : Prop :=
  (∀ V (m : gmap name V), order env V m ≡ₚ map_to_list m) ∧
  (∀ taken n, n ∉ taken → unique_name env taken n = n).

Section Pass.
Context (env : pass_env).

(** [assert(b && msg)] *)
Definition cassert (b : bool) (msg : String.string) : pass unit :=
  if b || NDEBUG env then Ok () else Stop (AssertionFailed msg).

(** Append to a file opened with [app]; nothing is written to a stream that
    could not be opened. *)
Definition append_file (opens : bool) (file : option text) (out : text) : option text :=
  if opens then Some (default [] file ++ out) else file.

(** ** Constructor and predicates *)

(** [IgnoredFctFileName]: [None] is the empty string. *)
Definition newControlFlowIntegrity (M : ir_module) (fun_id_file : text)
    (IgnoredFctFileName : option text) : pass ControlFlowIntegrity :=
  ignored ←
    match IgnoredFctFileName with
    | None => Ok ∅
    | Some _ =>
        match ignored_file env with
        | None => _ ← cassert false "Can't open file to read the ignored functions"; Ok ∅
        | Some s => Ok (list_to_set (lines s))
        end
    end;
  Ok (MkCFI M ∅ ∅ ignored ∅ ∅ ∅ fun_id_file 0).

Definition isIgnoredFunction (st : ControlFlowIntegrity) (f : name) : bool :=
  bool_decide (f ∈ _IgnoredFunctions st).
Definition isInitFunction (st : ControlFlowIntegrity) (f : name) : bool :=
  bool_decide (f ∈ _InitFunctions st).
Definition isFiniFunction (st : ControlFlowIntegrity) (f : name) : bool :=
  bool_decide (f ∈ _FiniFunctions st).
Definition isIgnoredBlocksFunction (st : ControlFlowIntegrity) (f : name) : bool :=
  bool_decide (f ∈ _IgnoredBlocksFunctions st).

(** ** Identifiers *)

(** The identifiers are kept as [int]s; the counter is a [uint32_t]. *)
Definition IdentifyFunction (F : name) (st : ControlFlowIntegrity) : Z * ControlFlowIntegrity :=
  match _IdentifiedFunctions st !! F with
  | Some id => (u32 id, st)
  | None =>
      let id := _fun_id_ctr st in
      (id, set_IdentifiedFunctions (<[F := s32 id]> (_IdentifiedFunctions st))
             (set_fun_id_ctr (u32 (id + 1)) st))
  end.

Definition AddIdentifiedFunction (nm : name) (id : Z) (st : ControlFlowIntegrity) :
    pass ControlFlowIntegrity :=
  st ← match _IdentifiedFunctions st !! nm with
       | Some _ => _ ← cassert false "Function already present"; Ok st
       | None => Ok (set_IdentifiedFunctions (<[nm := s32 id]> (_IdentifiedFunctions st)) st)
       end;
  Ok (if decide (_fun_id_ctr st <= id) then set_fun_id_ctr (u32 (id + 1)) st else st).

Definition HasAlreadyBeenIdentified_id (F : name) (st : ControlFlowIntegrity) : bool :=
  bool_decide (is_Some (_IdentifiedFunctions st !! F)).

Definition getIdentifier (F : name) (st : ControlFlowIntegrity) : pass Z :=
  match _IdentifiedFunctions st !! F with
  | Some id => Ok id
  | None => _ ← cassert false "Function Identifier out of range!"; Ok (-1)
  end.

(** [while (fs >> fctName >> id >> flags)]: the entries read until an
    extraction fails. *)
Fixpoint read_entries (fuel : nat) (s : text) : list (name * (Z * text)) :=
  match fuel with
  | O => []
  | S fuel =>
      match (r1 ← get_word s; r2 ← get_uint32 r1.2; r3 ← get_word r2.2;
             Some (r1.1, (r2.1, r3.1), r3.2)) with
      | Some (e, rest) => e :: read_entries fuel rest
      | None => []
      end
  end.

(** Each entry takes a character at least. *)
Definition fctid_entries (s : text) : list (name * (Z * text)) := read_entries (S (length s)) s.

(** The numbers of the blocks of a function, from [bb_id]. *)
Fixpoint number_blocks (bbs : list basic_block) (bb_id : Z) (m : gmap label Z) : gmap label Z :=
  match bbs with
  | [] => m
  | BB :: bbs => number_blocks bbs (u32 (bb_id + 1)) (<[bb_label BB := bb_id]> m)
  end.

(** One iteration of the loop over the functions of the module. *)
Definition identify_one (st : ControlFlowIntegrity) (F : function) : ControlFlowIntegrity :=
  if isIgnoredFunction st (fn_name F) then st
  else if fn_intrinsic F then st
  else
    let '(id, st) := IdentifyFunction (fn_name F) st in
    set_FunctionMap
      (<[fn_name F := MkCFIFct (fn_name F) id (number_blocks (fn_blocks F) 0 ∅)]> (_FunctionMap st)) st.

(** The loop ends when an extraction has failed; [peek] on a stream in that
    state returns EOF, so that the check that follows it never fails. *)
Definition IdentifyFunctions (files : cfi_files) (st : ControlFlowIntegrity) :
    pass ControlFlowIntegrity :=
  st ← match f_fctid files with
       | Some s => pass_fold (λ st e, AddIdentifiedFunction e.1 e.2.1 st) st (fctid_entries s)
       | None => Ok st
       end;
  Ok (foldl identify_one st (m_functions (_M st))).

(** [*cfi_f.fun] *)
Definition fun_of (st : ControlFlowIntegrity) (cf : CFIFct) : pass function :=
  match getFunction (_M st) (cf_fun cf) with Some F => Ok F | None => Stop BadOperand end.

(** ** The function table *)

(** What [writeFunctionIDs] writes on the line of a function of the module:
    its identifier and its flags.  [oldMap] holds the entries of the file. *)
Definition function_flags (st : ControlFlowIntegrity) (oldMap : gmap name (Z * text))
    (F : function) (fct_name : name) (id : Z) : pass (Z * text) :=
  _ ← match oldMap !! fct_name with
      | Some E => cassert (bool_decide (E.1 = id))
                    "ID of function in file is different from ID to be written"
      | None => Ok ()
      end;
  if isIgnoredFunction st fct_name then Ok (id, lit "Ignored")
  else if isInitFunction st fct_name then Ok (id, lit "Init")
  else if isFiniFunction st fct_name then Ok (id, lit "Fini")
  else if bool_decide (fct_name = lit "main") then Ok (id, lit "Main")
  else if isDeclaration F then
    match oldMap !! fct_name with
    | Some E => Ok (id, if bool_decide (E.2 ≠ lit "External") then E.2 else lit "External")
    | None => Ok (id, lit "External")
    end
  else if HasAlreadyBeenIdentified_id (fn_name F) st then
    Ok ((IdentifyFunction (fn_name F) st).1, _fun_id_file st)
  else _ ← cassert false "should not be here"; Ok (id, []).

(** [tmpbuf << name << " " << id << " " << flags << "\n"] *)
Definition fctid_line (e : name * (Z * text)) : text :=
  e.1 ++ [space] ++ percent_u e.2.1 ++ [space] ++ e.2.2 ++ [newline].

(** The loop over [_FunctionMap]: the lines written, in reverse, and the names
    of [alreadyAdded]. *)
Definition write_function (st : ControlFlowIntegrity) (oldMap : gmap name (Z * text))
    (acc : list (name * (Z * text)) * gset name) (it : name * CFIFct) :
    pass (list (name * (Z * text)) * gset name) :=
  F ← fun_of st it.2;
  r ← function_flags st oldMap F it.1 (cf_id it.2);
  let added :=
    (* every branch but the last one, which assertions exclude, adds the name *)
    if isIgnoredFunction st it.1 || isInitFunction st it.1 || isFiniFunction st it.1 ||
       bool_decide (it.1 = lit "main") || isDeclaration F || HasAlreadyBeenIdentified_id (fn_name F) st
    then {[it.1]} ∪ acc.2 else acc.2 in
  Ok ((it.1, r) :: acc.1, added).

Definition old_map (files : cfi_files) : gmap name (Z * text) :=
  match f_fctid files with
  | Some s => foldl (λ m e, <[e.1 := e.2]> m) ∅ (fctid_entries s)
  | None => ∅
  end.

(** The entries of the new file, in order: the functions of the module, then
    those of the old file that are not among them. *)
Definition new_entries (files : cfi_files) (st : ControlFlowIntegrity) :
    pass (list (name * (Z * text))) :=
  let oldMap := old_map files in
  acc ← pass_fold (write_function st oldMap) ([], ∅) (order env _ (_FunctionMap st));
  Ok (rev acc.1 ++ filter (λ e, e.1 ∉ acc.2) (order env _ oldMap)).

Definition writeFunctionIDs (files : cfi_files) (st : ControlFlowIntegrity) : pass cfi_files :=
  es ← new_entries files st;
  _ ← cassert (opens_fctid env) "Can't open file to write the CFI Function ID file.";
  Ok (CfiFiles (if opens_fctid env then Some (concat (fctid_line <$> es)) else f_fctid files)
        (f_trans files) (f_bbtrans files) (f_ipdom files)).

(** ** The call graph *)

(** One instruction of function [id]: the callee it adds to the callees of
    [id].  [allowed] is the map of sets [_AllowedMapTrans]. *)
Definition callgraph_inst (st : ControlFlowIntegrity) (id : Z) (allowed : gmap Z (gset Z))
    (I : instruction) : pass (gmap Z (gset Z)) :=
  match I with
  | InlineAsmInst => Ok allowed
  | IndirectCallInst => report_fatal_error "Indirect calls not yet supported in Picon"
  | CallInst CF _ =>
      if isIgnoredFunction st CF then Ok allowed
      else
        match _IdentifiedFunctions st !! CF with
        | Some id_cf => Ok (<[s32 id := {[id_cf]} ∪ default ∅ (allowed !! s32 id)]> allowed)
        | None => Ok allowed      (* reported on cerr *)
        end
  | IntrinsicInst _ _ _ | DbgInfoIntrinsic => Ok allowed   (* ignored, or an intrinsic *)
  | PHINode | OtherInst => Ok allowed
  end.

Definition callgraph_block (st : ControlFlowIntegrity) (id : Z) (allowed : gmap Z (gset Z))
    (BB : basic_block) : pass (gmap Z (gset Z)) :=
  allowed ← pass_fold (callgraph_inst st id) allowed (bb_insts BB);
  if is_invoke (bb_term BB)
  then report_fatal_error "Invoke instructions not yet supported in Picon"
  else Ok allowed.

Definition callgraph_function (st : ControlFlowIntegrity) (allowed : gmap Z (gset Z))
    (it : name * CFIFct) : pass (gmap Z (gset Z)) :=
  F ← fun_of st it.2;
  if isDeclaration F then Ok allowed
  else pass_fold (callgraph_block st (cf_id it.2)) allowed (fn_blocks F).

(** The elements of a [std::set], in their order. *)
Definition in_order (s : gset Z) : list Z := merge_sort Z.le (elements s).

(** A line of the file. *)
Definition trans_line (i : Z) (succs : list Z) : text :=
  lit "(" ++ percent_d i ++ lit ") " ++ concat ((λ j, percent_d j ++ [space]) <$> succs) ++ [newline].

Definition callgraph_map (st : ControlFlowIntegrity) : pass (gmap Z (gset Z)) :=
  pass_fold (callgraph_function st) ∅ (order env _ (_FunctionMap st)).

(** [std::map] is iterated by increasing keys. *)
Definition callgraph_lines (allowed : gmap Z (gset Z)) : list (Z * list Z) :=
  (λ i, (i, in_order (default ∅ (allowed !! i)))) <$> in_order (dom allowed).

Definition writeCallgraph (st : ControlFlowIntegrity) : pass text :=
  allowed ← callgraph_map st;
  Ok (concat ((λ l, trans_line l.1 l.2) <$> callgraph_lines allowed)).

(** ** The control-flow graphs *)

(** [bb_map[l]]: a missing key is added with the value 0. *)
Definition bb_id (m : gmap label Z) (l : label) : Z := default 0 (m !! l).

Definition bbtrans_line (m : gmap label Z) (BB : basic_block) : text :=
  match successors (bb_term BB) with
  | [] => []
  | succs => lit "(" ++ percent_u (bb_id m (bb_label BB)) ++ lit ") " ++
             concat ((λ l, percent_u (bb_id m l) ++ [space]) <$> succs) ++ [newline]
  end.

(** [F.size()] *)
Definition fn_size (F : function) : Z := Z.of_nat (length (fn_blocks F)).

Definition bbtrans_head (F : function) (fct_id : Z) : text :=
  lit ";{" ++ percent_u fct_id ++ lit "} " ++ percent_u (fn_size F) ++ [newline].

(** The lines of one function. *)
Definition bbtrans_function (st : ControlFlowIntegrity) (F : function) (cf : CFIFct) : text :=
  if isIgnoredFunction st (fn_name F) then []
  else if isIgnoredBlocksFunction st (fn_name F) then []
  else if isDeclaration F then []
  else if decide (fn_size F = 1) then bbtrans_head F (cf_id cf)
  else bbtrans_head F (cf_id cf) ++
       concat (bbtrans_line (cf_bb_map cf) <$> fn_blocks F) ++ [newline].

Definition writeAllowedBBTrans (st : ControlFlowIntegrity) : pass text :=
  pass_fold (λ out it, F ← fun_of st it.2; Ok (out ++ bbtrans_function st F it.2)) []
    (order env _ (_FunctionMap st)).

(** ** The post-dominators *)

(** The nearest common post-dominator of the successors, [None] when there is
    none. *)
Definition block_ipd (F : function) (BB : basic_block) : option label :=
  match successors (bb_term BB) with
  | [] => None
  | si :: se => foldl (λ posdom su2, p ← posdom; nearest_common_dominator env F p su2) (Some si) se
  end.

(** [bb_map[&F.back()]] *)
Definition last_block_id (F : function) (m : gmap label Z) : Z :=
  match last (fn_blocks F) with Some BB => bb_id m (bb_label BB) | None => 0 end.

Definition ipdom_line (st : ControlFlowIntegrity) (F : function) (m : gmap label Z)
    (BB : basic_block) : pass text :=
  if is_invoke (bb_term BB) then report_fatal_error "Invoke Instruction detected!"
  else
    id ← getIdentifier (fn_name F) st;
    Ok (percent_d id ++ [space] ++ percent_u (bb_id m (bb_label BB)) ++ [space] ++
        percent_u (match block_ipd F BB with Some p => bb_id m p | None => 0 end) ++ [space] ++
        percent_u (last_block_id F m) ++ [newline]).

Definition ipdom_function (st : ControlFlowIntegrity) (out : text) (it : name * CFIFct) : pass text :=
  F ← fun_of st it.2;
  if isDeclaration F then Ok out
  else if isIgnoredFunction st (fn_name F) then Ok out
  else if isIgnoredBlocksFunction st (fn_name F) then Ok out
  else pass_fold (λ out BB, l ← ipdom_line st F (cf_bb_map it.2) BB; Ok (out ++ l)) out (fn_blocks F).

Definition writeIPDOMToFile (files : cfi_files) (st : ControlFlowIntegrity) : pass cfi_files :=
  _ ← cassert (opens_ipdom env) "Can't open file to write ipdom!";
  out ← pass_fold (ipdom_function st) [] (order env _ (_FunctionMap st));
  Ok (CfiFiles (f_fctid files) (f_trans files) (f_bbtrans files)
        (append_file (opens_ipdom env) (f_ipdom files) out)).

(** ** The transitions *)

(** [cfi_level_t] *)
Definition FUNCTION : Z := 0.
Definition BASICBLOCK : Z := 1.

Definition writeTransToFile (level : Z) (files : cfi_files) (st : ControlFlowIntegrity) :
    pass cfi_files :=
  _ ← cassert (opens_trans env) "Can't open file to write the transitions of functions.";
  out ← writeCallgraph st;
  let files := CfiFiles (f_fctid files) (append_file (opens_trans env) (f_trans files) out)
                 (f_bbtrans files) (f_ipdom files) in
  if decide (level = BASICBLOCK) then
    _ ← cassert (opens_bbtrans env) "Can't open file to write the transitions of basic blocks.";
    out ← writeAllowedBBTrans st;
    Ok (CfiFiles (f_fctid files) (f_trans files)
          (append_file (opens_bbtrans env) (f_bbtrans files) out) (f_ipdom files))
  else Ok files.

(** ** Global variables *)

(** [c->getOperand(n)] *)
Definition getOperand (c : constant) (n : nat) : pass constant :=
  let ops := match c with
             | ConstantArray ops | ConstantStruct ops | ConstantExpr _ ops => ops
             | ConstantGlobal (Some init) => [init]
             | _ => []
             end in
  match ops !! n with Some o => Ok o | None => Stop BadOperand end.

Definition isNullValue (c : constant) : bool :=
  match c with ConstantNull => true | _ => false end.

(** [dyn_cast<Function>(c)] *)
Definition as_function (c : constant) : option name :=
  match c with ConstantFunction f => Some f | _ => None end.

(** The constant [c], or what it is a cast of; only an expression can be asked. *)
Definition strip_cast (c : constant) : pass constant :=
  match c with
  | ConstantExpr is_cast _ => if is_cast then getOperand c 0 else Ok c
  | _ => report_fatal_error "Cast to ConstantExpr failed"
  end.

(** The function a constant denotes, under a cast or not. *)
Definition constant_function (FP : constant) : pass name :=
  match as_function FP with
  | Some f => Ok f
  | None =>
      FP ← strip_cast FP;
      match as_function FP with
      | Some f => Ok f
      | None => report_fatal_error "Cast to Function failed"
      end
  end.

(** The elements of the array that initialises a global variable. *)
Definition global_elements (g : global_variable) : pass (list constant) :=
  match gv_initializer g with
  | None => report_fatal_error "global without initializer!"
  | Some (ConstantArray ops) => Ok ops
  | Some _ => report_fatal_error "Cast to ConstantArray failed"
  end.

Definition as_struct (c : constant) : pass constant :=
  match c with
  | ConstantStruct _ => Ok c
  | _ => report_fatal_error "Cast to ConstantStruct failed"
  end.

Definition ANNOTATION_IGNORE_BLOCK : text := lit "cfi_ignore_blocks".

(** The string of an annotation. *)
Definition annotation_string (SP : constant) : pass text :=
  SP ← strip_cast SP;
  V ← getOperand SP 0;
  match V with
  | ConstantGlobal init =>
      match init with Some (ConstantDataArray s) => Ok s | _ => Stop BadOperand end
  | _ => report_fatal_error "Cast to GlobalVariable failed"
  end.

Fixpoint parse_annotations (ops : list constant) (st : ControlFlowIntegrity) :
    pass ControlFlowIntegrity :=
  match ops with
  | [] => Ok st
  | Op :: ops =>
      CS ← as_struct Op;
      FP ← getOperand CS 0;
      if isNullValue FP then Ok st
      else
        F ← constant_function FP;
        SP ← getOperand CS 1;
        if isNullValue SP then Ok st
        else
          s ← annotation_string SP;
          parse_annotations ops
            (if bool_decide (s = ANNOTATION_IGNORE_BLOCK)
             then set_IgnoredBlocksFunctions ({[F]} ∪ _IgnoredBlocksFunctions st) st else st)
  end.

Definition ParseAnnotations (st : ControlFlowIntegrity) : pass ControlFlowIntegrity :=
  match m_annotations (_M st) with
  | None => Ok st
  | Some g =>
      if negb (gv_operand g) then Ok st
      else
        ops ← global_elements g;
        st ← parse_annotations ops st;
        if decide (0 < gv_uses g) then report_fatal_error "llvm.global.annotations uses count is > 0"
        else Ok st
  end.

(** A constructor or destructor is hidden, and made visible to the other files
    of the binary when it is static. *)
Definition expose (F : function) : function :=
  setVisibility HiddenVisibility
    (if hasLocalLinkage (fn_linkage F) then setLinkage ExternalLinkage F else F).

(** The loop of [PatchCtorFunctions] and [PatchDtorFunctions]; [insert] adds
    the name to the set of the initialisation or termination functions. *)
Fixpoint patch_functions (insert : name → ControlFlowIntegrity → ControlFlowIntegrity)
    (ops : list constant) (st : ControlFlowIntegrity) : pass ControlFlowIntegrity :=
  match ops with
  | [] => Ok st
  | Op :: ops =>
      CS ← as_struct Op;
      FP ← getOperand CS 1;
      if isNullValue FP then Ok st
      else
        F ← constant_function FP;
        patch_functions insert ops (insert F (set_M (update_function F expose (_M st)) st))
  end.

Definition PatchCtorFunctions (st : ControlFlowIntegrity) : pass ControlFlowIntegrity :=
  match m_ctors (_M st) with
  | None => Ok st
  | Some g =>
      if negb (gv_operand g) then Ok st
      else
        ops ← global_elements g;
        st ← patch_functions (λ F st, set_InitFunctions ({[F]} ∪ _InitFunctions st) st) ops st;
        if decide (0 < gv_uses g) then report_fatal_error "llvm.global_ctors uses count is > 0!"
        else
          let M := _M st in
          Ok (set_M (IrModule (m_functions M) (m_annotations M) None (m_dtors M)) st)
  end.

Definition PatchDtorFunctions (st : ControlFlowIntegrity) : pass ControlFlowIntegrity :=
  match m_dtors (_M st) with
  | None => Ok st
  | Some g =>
      if negb (gv_operand g) then Ok st
      else
        ops ← global_elements g;
        st ← patch_functions (λ F st, set_FiniFunctions ({[F]} ∪ _FiniFunctions st) st) ops st;
        if decide (0 < gv_uses g) then report_fatal_error "llvm.global_dtors uses count is > 0!"
        else
          let M := _M st in
          Ok (set_M (IrModule (m_functions M) (m_annotations M) (m_ctors M) None) st)
  end.

End Pass.
