(* ===== verification/Injector.v ===== *)
(** * Instrumentation (llvm_pass/CFI/CFIInjector.hh, llvm_pass/CFI/CFIInjector.cpp,
      llvm_pass/CFI/CFIModulePass.hh, llvm_pass/CFI/CFIModulePass.cpp)

    The calls of the run-time support that are inserted in the functions of a
    module, and [runOnModule], the order in which the pass does its work. *)

From S2P Require Import Prelude CSem Dot Text Ir Pass.
From Stdlib Require Import Strings.Byte.
From Stdlib Require Strings.String.
Import Strings.String.StringSyntax.
#[local] Open Scope string_scope.
#[local] Open Scope Z_scope.
#[local] Open Scope list_scope.

(** ** Names *)

Definition __FORK_WRAPPER : name := lit "__FORK_WRAPPER".
Definition n_AFTER_BR : name := lit "__CFI_INTERNAL_BB_AFTER_BR".
Definition n_BEFORE_BR : name := lit "__CFI_INTERNAL_BB_BEFORE_BR".
Definition n_ENTER : name := lit "__CFI_INTERNAL_ENTER".
Definition n_EXIT : name := lit "__CFI_INTERNAL_EXIT".
Definition n_CALL : name := lit "__CFI_INTERNAL_CALL".
Definition n_RETURNED : name := lit "__CFI_INTERNAL_RETURNED".
Definition n_FORK_SON : name := lit "__CFI_INTERNAL_FORK_SON".
Definition n_returnaddress : name := lit "llvm.returnaddress".

(** In the order of their creation. *)
Definition prototypes : list name :=
  [__FORK_WRAPPER; n_AFTER_BR; n_BEFORE_BR; n_ENTER; n_EXIT; n_CALL; n_RETURNED; n_FORK_SON].

Section Injector.
Context (env : pass_env).

(** ** Prototypes *)

(** [Function::Create(..., name, &_M)] of an external function. *)
Definition create_function (M : ir_module) (n : name) : ir_module :=
  let n' := unique_name env (fn_name <$> m_functions M) n in
  set_functions_of
    (m_functions M ++ [MkFunction n' false [] ExternalLinkage DefaultVisibility]) M.

Definition injectPrototype (M : ir_module) : ir_module := foldl create_function M prototypes.

(** [Intrinsic::getDeclaration(&_M, Intrinsic::returnaddress)] *)
Definition declare_returnaddress (M : ir_module) : ir_module :=
  match getFunction M n_returnaddress with
  | Some _ => M
  | None =>
      set_functions_of
        (m_functions M ++ [MkFunction n_returnaddress true [] ExternalLinkage DefaultVisibility]) M
  end.

(** [_M.getFunction(n)] must not be null: an assertion says so; without
    assertions the null function is used. *)
Definition support (M : ir_module) (n : name) (msg : String.string) : pass unit :=
  match getFunction M n with
  | Some _ => Ok ()
  | None => _ ← cassert env false msg; Stop BadOperand
  end.

(** A 32-bit constant operand. *)
Definition id_operand (id : Z) : value := ConstInt (u32 id).

(** ** Entry and exit *)

Definition is_phi (inst : instruction) : bool := match inst with PHINode => true | _ => false end.
Definition is_phi_or_dbg (inst : instruction) : bool :=
  match inst with PHINode | DbgInfoIntrinsic => true | _ => false end.

(** Insertion of [new] before the first instruction that does not satisfy [p]. *)
Fixpoint insert_after (p : instruction → bool) (new insts : list instruction) : list instruction :=
  match insts with
  | inst :: rest => if p inst then inst :: insert_after p new rest else new ++ insts
  | [] => new
  end.

(** A change of the instructions of a block. *)
Definition set_insts (insts : list instruction) (BB : basic_block) : basic_block :=
  BasicBlock (bb_label BB) insts (bb_term BB).

(** The return address, under the name [r], and the call of [n] with it; without
    assertions, a null [n] is not called. *)
Definition retaddr_call (M : ir_module) (n : name) (msg : String.string) (r : text) (FctID : Z) :
    pass (list instruction) :=
  let retAddrCall := IntrinsicInst n_returnaddress [ConstInt 0] r in
  match getFunction M n with
  | Some _ => Ok [retAddrCall; CallInst n [id_operand FctID; ResultOf r]]
  | None => _ ← cassert env false msg; Ok [retAddrCall]
  end.

(** Before the first insertion point of the entry block. *)
Definition injectMentry (M : ir_module) (F : function) (FctID : Z) : pass function :=
  match fn_blocks F with
  | [] => Stop BadOperand
  | Entry :: rest =>
      new ← retaddr_call M n_ENTER "__CFI_INTERNAL_ENTER must be defined"
              (lit "saved_retaddr_prolog") FctID;
      Ok (set_blocks_of (set_insts (insert_after is_phi new (bb_insts Entry)) Entry :: rest) F)
  end.

(** A change of the last element. *)
Fixpoint map_last {A} (f : A → A) (l : list A) : list A :=
  match l with
  | [] => []
  | [a] => [f a]
  | a :: l => a :: map_last f l
  end.

(** Before the terminator of the last block. *)
Definition injectMexit (M : ir_module) (F : function) (FctID : Z) : pass function :=
  match fn_blocks F with
  | [] => Stop BadOperand
  | bbs =>
      new ← retaddr_call M n_EXIT "__CFI_INTERNAL_EXIT must be defined"
              (lit "saved_retaddr_epilog") FctID;
      Ok (set_blocks_of (map_last (λ BB, set_insts (bb_insts BB ++ new) BB) bbs) F)
  end.

(** ** Calls *)

(** [pending] is [NF] when [insertAfter] holds: the call just passed, whose
    return is announced before the next instruction. *)
Definition returned_call (cfi : ControlFlowIntegrity) (pending : option name) :
    pass (list instruction) :=
  match pending with
  | None => Ok []
  | Some NF => id ← getIdentifier env NF cfi; Ok [CallInst n_RETURNED [id_operand id]]
  end.

Fixpoint mcall_insts (cfi : ControlFlowIntegrity) (pending : option name)
    (insts : list instruction) : pass (list instruction * option name) :=
  match insts with
  | [] => Ok ([], pending)
  | inst :: insts =>
      ret ← returned_call cfi pending;
      '(before, pending) ←
        match inst with
        | IndirectCallInst => report_fatal_error "Called function is NULL"
        | CallInst NF _ =>
            if isIgnoredFunction cfi NF then Ok ([], None)
            else id ← getIdentifier env NF cfi; Ok ([CallInst n_CALL [id_operand id]], Some NF)
        | IntrinsicInst _ _ _ | DbgInfoIntrinsic | InlineAsmInst | PHINode | OtherInst => Ok ([], None)
        end;
      '(rest, pending) ← mcall_insts cfi pending insts;
      Ok (ret ++ before ++ inst :: rest, pending)
  end.

(** The terminator is the last instruction of the loop; it is no call. *)
Definition mcall_block (cfi : ControlFlowIntegrity) (BB : basic_block) : pass basic_block :=
  '(insts, pending) ← mcall_insts cfi None (bb_insts BB);
  ret ← returned_call cfi pending;
  _ ← cassert env (negb (is_invoke (bb_term BB))) "Invoke not yet implemented";
  Ok (set_insts (insts ++ ret) BB).

Fixpoint mcall_blocks (cfi : ControlFlowIntegrity) (bbs : list basic_block) : pass (list basic_block) :=
  match bbs with
  | [] => Ok []
  | BB :: bbs => BB ← mcall_block cfi BB; bbs ← mcall_blocks cfi bbs; Ok (BB :: bbs)
  end.

Definition injectMcall (cfi : ControlFlowIntegrity) (M : ir_module) (F : function) : pass function :=
  _ ← support M n_CALL "__CFI_INTERNAL_CALL must be defined";
  _ ← support M n_RETURNED "__CFI_INTERNAL_RETURNED must be defined";
  if isIgnoredFunction cfi (fn_name F) then Ok F
  else bbs ← mcall_blocks cfi (fn_blocks F); Ok (set_blocks_of bbs F).

(** ** Basic blocks *)

(** Every block but the first one announces its entry; [idBB] is the number of
    the first block of [bbs]. *)
Fixpoint enter_blocks (id idBB : Z) (bbs : list basic_block) : list basic_block :=
  match bbs with
  | [] => []
  | BB :: bbs =>
      set_insts (insert_after is_phi_or_dbg [CallInst n_AFTER_BR [id_operand id; id_operand idBB]]
                   (bb_insts BB)) BB :: enter_blocks id (u32 (idBB + 1)) bbs
  end.

Definition injectBBEnter (cfi : ControlFlowIntegrity) (M : ir_module) (F : function) : pass function :=
  _ ← support M n_AFTER_BR "__CFI_INTERNAL_BB_AFTER_BR must be defined";
  match fn_blocks F with
  | [] | [_] => Ok F
  | First :: bbs =>
      id ← getIdentifier env (fn_name F) cfi;
      Ok (set_blocks_of (First :: enter_blocks id 1 bbs) F)
  end.

(** Every block but the last one announces its end. *)
Fixpoint leave_blocks (id idBB : Z) (bbs : list basic_block) : list basic_block :=
  match bbs with
  | [] => []
  | [Last] => [Last]
  | BB :: bbs =>
      set_insts (bb_insts BB ++ [CallInst n_BEFORE_BR [id_operand id; id_operand idBB]]) BB ::
      leave_blocks id (u32 (idBB + 1)) bbs
  end.

Definition injectBBLeave (cfi : ControlFlowIntegrity) (M : ir_module) (F : function) : pass function :=
  _ ← support M n_BEFORE_BR "__CFI_INTERNAL_BB_BEFORE_BR must be defined";
  match fn_blocks F with
  | [] | [_] => Ok F
  | bbs =>
      id ← getIdentifier env (fn_name F) cfi;
      Ok (set_blocks_of (leave_blocks id 0 bbs) F)
  end.

(** ** Forks *)

(** The first call of [fork] becomes a call of the wrapper.  (Not used by
    [InjectCode].)  [getName] of the null function of an indirect call, or of
    inline assembly, is an access to nothing. *)
Fixpoint fork_insts (insts : list instruction) : pass (list instruction * bool) :=
  match insts with
  | [] => Ok ([], false)
  | inst :: insts =>
      match inst with
      | IndirectCallInst | InlineAsmInst => Stop BadOperand
      | CallInst NF args =>
          if bool_decide (NF = lit "fork")
          then Ok (CallInst __FORK_WRAPPER [ConstInt 42] :: insts, true)
          else '(rest, found) ← fork_insts insts; Ok (inst :: rest, found)
      | _ => '(rest, found) ← fork_insts insts; Ok (inst :: rest, found)
      end
  end.

Fixpoint fork_blocks (bbs : list basic_block) : pass (list basic_block) :=
  match bbs with
  | [] => Ok []
  | BB :: bbs =>
      '(insts, found) ← fork_insts (bb_insts BB);
      if (found : bool) then Ok (set_insts insts BB :: bbs)
      else bbs ← fork_blocks bbs; Ok (BB :: bbs)
  end.

Definition injectForkSon (F : function) : pass function :=
  bbs ← fork_blocks (fn_blocks F); Ok (set_blocks_of bbs F).

(** ** InjectCode *)

(** The changes made to one function, of number [id]. *)
Definition inject_function (cfi : ControlFlowIntegrity) (level : Z) (M : ir_module) (F : function)
    (id : Z) : pass function :=
  F ← injectMcall cfi M F;
  if isDeclaration F then Ok F
  else
    F ← (if bool_decide (level = BASICBLOCK) && negb (isIgnoredBlocksFunction cfi (fn_name F)) then
           F ← injectBBEnter cfi M F; injectBBLeave cfi M F
         else Ok F);
    F ← injectMentry M F id;
    injectMexit M F id.

(** One iteration of the loop over [_FunctionMap]. *)
Definition inject_one (cfi : ControlFlowIntegrity) (level : Z) (M : ir_module) (it : name * CFIFct) :
    pass ir_module :=
  match getFunction M (cf_fun it.2) with
  | None => Stop BadOperand
  | Some F =>
      F' ← inject_function cfi level M F (cf_id it.2);
      let M := update_function (cf_fun it.2) (λ _, F') M in
      Ok (if isDeclaration F then M else declare_returnaddress M)
  end.

Definition InjectCode (cfi : ControlFlowIntegrity) (level : Z) : pass ir_module :=
  pass_fold (inject_one cfi level) (injectPrototype (_M cfi)) (order env _ (_FunctionMap cfi)).

(** ** runOnModule *)

(** What the system answers about the lock file: descriptor and status. *)
Record lock_result := LockResult { lock_fd : Z; lock_rc : Z }.

(** The assertions on the lock are that it failed. *)
Definition take_lock (lock : lock_result) : pass unit :=
  _ ← (if decide (lock_fd lock < 0) then cassert env (bool_decide (lock_fd lock < 0))
                                           "Could not create lock file" else Ok ());
  if decide (lock_rc lock < 0) then cassert env (bool_decide (lock_rc lock < 0)) "flock() failed"
  else Ok ().

(** The module as instrumented and the files as they are left.  [IdentifyBB]
    only prints. *)
Definition runOnModule (prefix : text) (level : Z) (IgnoredFctFileName : option text)
    (lock : lock_result) (M : ir_module) (files : cfi_files) : pass (ir_module * cfi_files) :=
  let s_fctid := prefix ++ lit ".fctid" in
  _ ← take_lock lock;
  st ← newControlFlowIntegrity env M s_fctid IgnoredFctFileName;
  st ← ParseAnnotations st;
  st ← IdentifyFunctions env files st;
  st ← PatchCtorFunctions st;
  st ← PatchDtorFunctions st;
  files ← writeTransToFile env level files st;
  files ← writeFunctionIDs env files st;
  files ← writeIPDOMToFile env files st;
  M ← InjectCode st level;
  Ok (M, files).

End Injector.
