(* ===== verification/PassTable.v ===== *)
(** * The table of the functions of a binary

    Compilations of the modules of a binary share the file of function
    identifiers.  Each of them reads the table left by the others, numbers the
    functions that are new to it and writes the table back: identifiers are
    unique, have no gap, and never change. *)

From S2P Require Import Prelude CSem Dot Text Ir Pass.
From Stdlib Require Import Strings.Byte.
From Stdlib Require Strings.String.
Import Strings.String.StringSyntax.
#[local] Open Scope string_scope.
#[local] Open Scope Z_scope.
#[local] Open Scope list_scope.

(** ** The outcome monad *)

Lemma pass_bind_Ok {A B} (m : pass A) (f : A → pass B) b :
  (m ≫= f) = Ok b ↔ ∃ a, m = Ok a ∧ f a = Ok b.
Proof. destruct m; cbn; naive_solver. Qed.

(** Inversion of a computation that ends well. *)
Ltac inv_pass :=
  repeat match goal with
  | H : Ok _ = Ok _ |- _ => injection H as H; try subst
  | H : Stop _ = Ok _ |- _ => discriminate H
  | H : report_fatal_error _ = Ok _ |- _ => discriminate H
  | H : (_ ≫= _) = Ok _ |- _ =>
      let a := fresh "a" in let E := fresh "E" in
      apply pass_bind_Ok in H as (a & E & H)
  end.

Lemma pass_fold_app {A B} (f : B → A → pass B) b l1 l2 :
  pass_fold f b (l1 ++ l2) = b ← pass_fold f b l1; pass_fold f b l2.
Proof. revert b. induction l1 as [|a l1 IH]; intros b; [done|]. cbn. destruct (f b a); cbn; [apply IH|done]. Qed.

(** An invariant of a loop that ends well. *)
Lemma pass_fold_inv {A B} (P : list A → B → Prop) (f : B → A → pass B) l b b' :
  pass_fold f b l = Ok b' → P [] b →
  (∀ l1 a l2 b1 b2, l = l1 ++ a :: l2 → P l1 b1 → f b1 a = Ok b2 → P (l1 ++ [a]) b2) → P l b'.
Proof.
  intros H H0 Hstep. cut (∀ l1 l2 b1, l = l1 ++ l2 → P l1 b1 → pass_fold f b1 l2 = Ok b' → P l b').
  { intros Hcut. by apply (Hcut [] l b). }
  intros l1 l2. revert l1. induction l2 as [|a l2 IH]; intros l1 b1 -> Hb1 Hf; cbn in Hf; inv_pass.
  - by rewrite app_nil_r.
  - eapply (IH (l1 ++ [a])); [by rewrite <- app_assoc| |done]. by eapply Hstep.
Qed.

(** ** The file *)

Abbreviation entry := (name * (Z * text))%type (only parsing).

(** What can be written and read back. *)
Definition wf_entry (e : entry) : Prop := word e.1 ∧ in_u 32 e.2.1 ∧ word e.2.2.

Lemma get_word_newline s : get_word (newline :: s) = get_word s.
Proof. unfold get_word. cbn [span is_space]. by destruct (span is_space s). Qed.

Lemma read_entry e rest : wf_entry e →
  (r1 ← get_word (fctid_line e ++ rest); r2 ← get_uint32 r1.2; r3 ← get_word r2.2;
   Some (r1.1, (r2.1, r3.1), r3.2)) = Some (e, newline :: rest).
Proof.
  destruct e as [nm [id fl]]. intros (Hnm & Hid & Hfl). cbn [fst snd] in *.
  unfold fctid_line. cbn [fst snd]. rewrite <- !app_assoc. cbn [app].
  rewrite get_word_eq by done. cbn [mbind option_bind fst snd].
  rewrite get_uint32_space, get_uint32_eq by done. cbn [mbind option_bind fst snd].
  rewrite get_word_space, get_word_eq by done. done.
Qed.

Lemma fctid_line_length e : (1 <= length (fctid_line e))%nat.
Proof. unfold fctid_line. rewrite !length_app. cbn. lia. Qed.

(** No entry can be read from [s]. *)
Definition no_entry (s : text) : Prop :=
  (r1 ← get_word s; r2 ← get_uint32 r1.2; r3 ← get_word r2.2; Some (r1.1, (r2.1, r3.1), r3.2)) = None.

Lemma read_entries_lines es rest : no_entry rest → ∀ fuel, Forall wf_entry es → (length es < fuel)%nat →
  read_entries fuel (concat (fctid_line <$> es) ++ rest) = es ∧
  read_entries fuel (newline :: concat (fctid_line <$> es) ++ rest) = es.
Proof.
  intros Hrest. induction es as [|e es IH]; intros fuel Hes Hfuel; destruct fuel as [|fuel]; cbn [length] in Hfuel; try lia.
  { cbn [fmap list_fmap concat app read_entries]. rewrite get_word_newline. unfold no_entry in Hrest. by rewrite Hrest. }
  apply Forall_cons_1 in Hes as [He Hes]. destruct (IH fuel Hes ltac:(lia)) as [_ IH'].
  cbn [fmap list_fmap concat read_entries]. rewrite <- app_assoc, get_word_newline, read_entry by done.
  split; by rewrite IH'.
Qed.

(** What follows the last entry is not seen. *)
Lemma fctid_entries_app es rest : Forall wf_entry es → no_entry rest →
  fctid_entries (concat (fctid_line <$> es) ++ rest) = es.
Proof.
  intros Hes Hrest. apply (read_entries_lines es rest Hrest _ Hes). rewrite Nat.lt_succ_r, length_app. clear Hes.
  induction es as [|e es IH]; cbn [fmap list_fmap concat length]; [lia|].
  rewrite length_app. pose proof (fctid_line_length e). lia.
Qed.

(** What is written is read back. *)
Lemma fctid_entries_lines es : Forall wf_entry es → fctid_entries (concat (fctid_line <$> es)) = es.
Proof. intros Hes. rewrite <- (app_nil_r (concat _)). by apply fctid_entries_app. Qed.

(** ** Numberings *)

(** [m] gives the numbers from 0 to [n - 1], each to one function. *)
Definition numbering (m : gmap name Z) (n : Z) : Prop :=
  (∀ f id, m !! f = Some id → 0 <= id < n) ∧
  (∀ f g id, m !! f = Some id → m !! g = Some id → f = g) ∧
  (∀ id, 0 <= id < n → ∃ f, m !! f = Some id).

Lemma numbering_add m n f : numbering m n → 0 <= n → m !! f = None → numbering (<[f := n]> m) (n + 1).
Proof.
  intros (Hr & Hinj & Hsur) Hn Hf. split_and!.
  - intros g id. rewrite lookup_insert. case_decide; [intros [= <-]; lia|].
    intros Hg%Hr. lia.
  - intros g h id. rewrite !lookup_insert.
    repeat case_decide; subst; try naive_solver.
    + intros [= <-] Hh%Hr. lia.
    + intros Hg%Hr [= <-]. lia.
  - intros id Hid. destruct (decide (id = n)) as [->|].
    + exists f. by rewrite lookup_insert_eq.
    + destruct (Hsur id ltac:(lia)) as [g Hg]. exists g. by rewrite lookup_insert_ne by congruence.
Qed.

Lemma s32_small id : 0 <= id < 2 ^ 31 → s32 id = id.
Proof.
  intros Hid. unfold s32, u32. rewrite Z.mod_small by lia. by rewrite decide_True by lia.
Qed.

Lemma u32_small id : 0 <= id < 2 ^ 32 → u32 id = id.
Proof. intros. by apply Z.mod_small. Qed.

(** The fields that numbering leaves alone. *)
Definition same_but_ids (st st' : ControlFlowIntegrity) : Prop :=
  _M st' = _M st ∧ _IgnoredFunctions st' = _IgnoredFunctions st ∧
  _InitFunctions st' = _InitFunctions st ∧ _FiniFunctions st' = _FiniFunctions st ∧
  _IgnoredBlocksFunctions st' = _IgnoredBlocksFunctions st ∧ _fun_id_file st' = _fun_id_file st.

#[export] Instance same_but_ids_preorder : PreOrder same_but_ids.
Proof. split; [done|]. intros x y z (?&?&?&?&?&?) (?&?&?&?&?&?). unfold same_but_ids. split_and!; congruence. Qed.

Lemma IdentifyFunction_spec F st id st' :
  IdentifyFunction F st = (id, st') → numbering (_IdentifiedFunctions st) (_fun_id_ctr st) →
  0 <= _fun_id_ctr st < 2 ^ 31 →
  numbering (_IdentifiedFunctions st') (_fun_id_ctr st') ∧
  _IdentifiedFunctions st' = <[F := id]> (_IdentifiedFunctions st) ∧
  _IdentifiedFunctions st ⊆ _IdentifiedFunctions st' ∧
  _fun_id_ctr st <= _fun_id_ctr st' <= _fun_id_ctr st + 1 ∧
  _FunctionMap st' = _FunctionMap st ∧ same_but_ids st st'.
Proof.
  unfold IdentifyFunction. intros H Hnum Hctr. destruct (_IdentifiedFunctions st !! F) as [z|] eqn:Hz.
  - injection H as <- <-. pose proof (proj1 Hnum F z Hz). rewrite u32_small by lia.
    split; [done|]. split; [by rewrite insert_id|]. split; [done|]. split; [lia|]. by split.
  - injection H as <- <-. cbn. rewrite s32_small, u32_small by lia.
    split; [by apply numbering_add; [|lia|]|]. split; [done|]. split; [by apply insert_subseteq|].
    split; [lia|]. by split.
Qed.

(** ** Reading the table *)

Definition ids_of (es : list entry) : gmap name Z := list_to_map ((λ e, (e.1, e.2.1)) <$> es).

(** The table of [n] functions that [es] is. *)
Definition table (es : list entry) (n : Z) : Prop :=
  Forall wf_entry es ∧ NoDup es.*1 ∧ numbering (ids_of es) n ∧ 0 <= n <= 2 ^ 31.

Lemma ids_of_elem es f id : NoDup es.*1 → ids_of es !! f = Some id ↔ ∃ fl, (f, (id, fl)) ∈ es.
Proof.
  intros Hnd. unfold ids_of. rewrite <- elem_of_list_to_map.
  - rewrite list_elem_of_fmap. split.
    + intros ([g [z fl]] & [= -> ->] & He). by exists fl.
    + intros [fl He]. by exists (f, (id, fl)).
  - rewrite <- list_fmap_compose. done.
Qed.

Lemma AddIdentifiedFunction_fresh env f id st :
  _IdentifiedFunctions st !! f = None → 0 <= id < 2 ^ 31 →
  ∃ st1, AddIdentifiedFunction env f id st = Ok st1 ∧
    _IdentifiedFunctions st1 = <[f := id]> (_IdentifiedFunctions st) ∧
    _fun_id_ctr st1 = (if decide (_fun_id_ctr st <= id) then id + 1 else _fun_id_ctr st) ∧
    _FunctionMap st1 = _FunctionMap st ∧ same_but_ids st st1.
Proof.
  intros Hnone Hid. unfold AddIdentifiedFunction. rewrite Hnone. cbn [mbind pass_bind].
  rewrite s32_small by done. eexists. split; [done|]. cbn.
  case_decide; cbn; [rewrite u32_small by lia|]; by repeat split.
Qed.

Lemma add_entries_spec env es : ∀ st, NoDup es.*1 →
  (∀ e, e ∈ es → 0 <= e.2.1 < 2 ^ 31 ∧ _IdentifiedFunctions st !! e.1 = None) →
  ∃ st', pass_fold (λ st e, AddIdentifiedFunction env e.1 e.2.1 st) st es = Ok st' ∧
    _IdentifiedFunctions st' = ids_of es ∪ _IdentifiedFunctions st ∧
    _fun_id_ctr st' = foldl (λ c e, if decide (c <= e.2.1) then e.2.1 + 1 else c) (_fun_id_ctr st) es ∧
    _FunctionMap st' = _FunctionMap st ∧ same_but_ids st st'.
Proof.
  induction es as [|e es IH]; intros st Hnd Hes; cbn [pass_fold foldl].
  { exists st. split; [done|]. split; [|by repeat split].
    change (ids_of []) with (∅ : gmap name Z). by rewrite (left_id_L ∅ (∪)). }
  destruct (Hes e) as [Hid Hnone]; [by left|]. cbn in Hnd.
  apply NoDup_cons_1_1 in Hnd as Hfresh. apply NoDup_cons_1_2 in Hnd.
  destruct (AddIdentifiedFunction_fresh env e.1 e.2.1 st Hnone Hid) as (st1 & -> & E1 & E2 & E3 & E4).
  cbn [mbind pass_bind].
  destruct (IH st1 Hnd) as (st' & Hf & H1 & H2 & H3 & H4).
  { intros e' He'. destruct (Hes e') as [? Hn]; [by right|]. split; [done|].
    rewrite E1, lookup_insert_ne; [done|]. intros Heq. apply Hfresh. rewrite Heq.
    by apply list_elem_of_fmap_2. }
  exists st'. split; [done|]. split; [|split; [by rewrite H2, E2|split; [congruence|by etrans]]].
  rewrite H1, E1. unfold ids_of at 2. cbn. fold (ids_of es).
  rewrite <- insert_union_r; [by rewrite insert_union_l|].
  apply not_elem_of_list_to_map_1. by rewrite <- list_fmap_compose.
Qed.

(** The counter after the table is read: the number of its entries. *)
Lemma counter_spec es : ∀ c,
  let c' := foldl (λ c (e : entry), if decide (c <= e.2.1) then e.2.1 + 1 else c) c es in
  c <= c' ∧ (∀ e, e ∈ es → e.2.1 < c') ∧ (c' = c ∨ ∃ e, e ∈ es ∧ c' = e.2.1 + 1).
Proof.
  induction es as [|e es IH]; intros c; cbn zeta; cbn [foldl].
  { split; [lia|]. split; [by intros e He%elem_of_nil|by left]. }
  set (c1 := if decide _ then _ else _). destruct (IH c1) as (H1 & H2 & H3). cbn zeta in *.
  assert (Hc1 : c <= c1 ∧ e.2.1 < c1 ∧ (c1 = c ∨ c1 = e.2.1 + 1)) by (unfold c1; case_decide; lia).
  split; [lia|]. split.
  - intros e' [->|He']%elem_of_cons; [lia|by apply H2].
  - destruct H3 as [->|(e' & He' & ->)].
    + destruct Hc1 as (_ & _ & [->| ->]); [by left|right; exists e; split; [by left|done]].
    + right. exists e'. split; [by right|done].
Qed.

Lemma counter_table es n : table es n →
  foldl (λ c (e : entry), if decide (c <= e.2.1) then e.2.1 + 1 else c) 0 es = n.
Proof.
  intros (Hwf & Hnd & (Hr & _ & Hsur) & Hn). destruct (counter_spec es 0) as (H1 & H2 & H3).
  cbn zeta in *. set (c := foldl _ _ _) in *. clearbody c.
  assert (Hle : c <= n).
  { destruct H3 as [->|([f [id fl]] & He & ->)]; [lia|]. cbn.
    assert (ids_of es !! f = Some id) as [_ ?]%Hr by (apply ids_of_elem; [done|by exists fl]). lia. }
  destruct (decide (n = 0)) as [->|]; [lia|].
  destruct (Hsur (n - 1)) as [f Hf]; [lia|]. apply ids_of_elem in Hf as [fl Hf]; [|done].
  apply H2 in Hf. cbn in Hf. lia.
Qed.

(** ** Numbering the functions of a module *)

(** The functions the pass protects: neither ignored nor intrinsic. *)
Definition concerned (st : ControlFlowIntegrity) (F : function) : Prop :=
  isIgnoredFunction st (fn_name F) = false ∧ fn_intrinsic F = false.

(** What is known after the functions [Fs] were numbered, from [st0]. *)
Record identified (st0 : ControlFlowIntegrity) (Fs : list function) (st : ControlFlowIntegrity) : Prop := {
  id_same : same_but_ids st0 st;
  id_num : numbering (_IdentifiedFunctions st) (_fun_id_ctr st);
  id_ctr : 0 <= _fun_id_ctr st0 <= _fun_id_ctr st ∧
           _fun_id_ctr st <= _fun_id_ctr st0 + Z.of_nat (length Fs);
  id_old : _IdentifiedFunctions st0 ⊆ _IdentifiedFunctions st;
  id_map : ∀ f cf, _FunctionMap st !! f = Some cf →
    cf_fun cf = f ∧ _IdentifiedFunctions st !! f = Some (cf_id cf) ∧
    ∃ F, F ∈ Fs ∧ fn_name F = f ∧ concerned st F ∧ cf_bb_map cf = number_blocks (fn_blocks F) 0 ∅;
  id_all : ∀ F, F ∈ Fs → concerned st F → is_Some (_FunctionMap st !! fn_name F);
  id_only : ∀ f, is_Some (_IdentifiedFunctions st !! f) →
    is_Some (_IdentifiedFunctions st0 !! f) ∨ is_Some (_FunctionMap st !! f);
}.

Lemma concerned_same st st' F : same_but_ids st st' → concerned st F ↔ concerned st' F.
Proof. intros (_ & E & _). unfold concerned, isIgnoredFunction. by rewrite E. Qed.

#[export] Instance concerned_dec st F : Decision (concerned st F).
Proof. unfold concerned. apply _. Defined.

Lemma identify_one_eq st F :
  identify_one st F = if decide (concerned st F) then
    let '(id, st) := IdentifyFunction (fn_name F) st in
    set_FunctionMap
      (<[fn_name F := MkCFIFct (fn_name F) id (number_blocks (fn_blocks F) 0 ∅)]> (_FunctionMap st)) st
  else st.
Proof.
  unfold identify_one, concerned. case_decide as H.
  - destruct H as [-> ->]. done.
  - destruct (isIgnoredFunction _ _); [done|]. destruct (fn_intrinsic F); [done|]. by destruct H.
Qed.

Lemma identify_one_step st0 Fs st F :
  identified st0 Fs st → _fun_id_ctr st < 2 ^ 31 → identified st0 (Fs ++ [F]) (identify_one st F).
Proof.
  intros [Hsame Hnum Hctr Hold Hmap Hall Honly] Hlt. rewrite identify_one_eq.
  assert (Hlen : Z.of_nat (length (Fs ++ [F])) = Z.of_nat (length Fs) + 1) by (rewrite length_app; cbn; lia).
  case_decide as Hc.
  2: { split; [done|done|lia|done| | |done].
    - intros f cf (? & ? & F' & ? & ?)%Hmap. split; [done|]. split; [done|]. exists F'.
      split; [by apply elem_of_app; left|done].
    - intros F' [HF'| ->%list_elem_of_singleton]%elem_of_app; [by apply Hall|done]. }
  destruct (IdentifyFunction (fn_name F) st) as [id st1] eqn:Hid.
  apply IdentifyFunction_spec in Hid as (Hnum1 & Hids & Hsub & Hctr1 & Hfm & Hsame1); [|done|lia].
  split; cbn.
  - by etrans.
  - done.
  - lia.
  - by etrans.
  - intros f cf. rewrite Hfm, lookup_insert. case_decide as Hf.
    + intros [= <-]. subst f. cbn. split; [done|]. split; [by rewrite Hids, lookup_insert_eq|].
      exists F. split; [apply elem_of_app; right; by left|]. split; [done|].
      split; [by apply (concerned_same st)|done].
    + intros (? & Hl & F' & ? & ? & Hc' & ?)%Hmap. split; [done|]. split.
      { by eapply lookup_weaken. }
      exists F'. split; [by apply elem_of_app; left|]. split; [done|].
      split; [by apply (concerned_same st)|done].
  - intros F' HF' Hc'. rewrite Hfm, lookup_insert. case_decide; [by eexists|].
    apply elem_of_app in HF' as [HF'| ->%list_elem_of_singleton]; [|done].
    apply Hall; [done|]. by apply (concerned_same st st1).
  - intros f. rewrite Hids, Hfm, !lookup_insert. case_decide; [right; by eexists|apply Honly].
Qed.

Lemma identify_all_spec st0 Fs : ∀ st Fs0,
  identified st0 Fs0 st → _fun_id_ctr st0 + Z.of_nat (length (Fs0 ++ Fs)) <= 2 ^ 31 →
  identified st0 (Fs0 ++ Fs) (foldl identify_one st Fs).
Proof.
  induction Fs as [|F Fs IH]; intros st Fs0 Hst Hlen; cbn [foldl]; [by rewrite app_nil_r|].
  replace (Fs0 ++ F :: Fs) with ((Fs0 ++ [F]) ++ Fs) in * by (by rewrite <- app_assoc).
  apply IH; [|done]. apply identify_one_step; [done|]. destruct Hst as [_ _ Hctr _ _ _ _].
  rewrite !length_app in Hlen. cbn in Hlen. lia.
Qed.

(** What the file holds before a compilation: no file, or a table. *)
Definition table_file (files : cfi_files) (es : list entry) (n : Z) : Prop :=
  table es n ∧ match f_fctid files with
               | Some s => s = concat (fctid_line <$> es)
               | None => es = []
               end.

(** The state of a new object. *)
Definition fresh_state (st : ControlFlowIntegrity) : Prop :=
  _FunctionMap st = ∅ ∧ _IdentifiedFunctions st = ∅ ∧ _fun_id_ctr st = 0.

Lemma IdentifyFunctions_spec env files es n st :
  table_file files es n → fresh_state st → n + Z.of_nat (length (m_functions (_M st))) <= 2 ^ 31 →
  ∃ st0 st', IdentifyFunctions env files st = Ok st' ∧ identified st0 (m_functions (_M st)) st' ∧
    _IdentifiedFunctions st0 = ids_of es ∧ _fun_id_ctr st0 = n ∧ same_but_ids st st'.
Proof.
  intros [Htab Hfile] (Hfm & Hids & Hctr) Hlen. pose proof Htab as (Hwf & Hnd & Hnum & Hn).
  assert (Hread : match f_fctid files with
    | Some s => pass_fold (λ st e, AddIdentifiedFunction env e.1 e.2.1 st) st (fctid_entries s)
    | None => Ok st
    end = pass_fold (λ st e, AddIdentifiedFunction env e.1 e.2.1 st) st es).
  { destruct (f_fctid files) as [s|]; [|by subst es]. by rewrite Hfile, fctid_entries_lines. }
  destruct (add_entries_spec env es st Hnd) as (st0 & Hadd & H1 & H2 & H3 & H4).
  { intros [f [id fl]] He. cbn. rewrite Hids. split; [|done].
    assert (ids_of es !! f = Some id) as [? ?]%Hnum by (apply ids_of_elem; [done|by exists fl]). lia. }
  rewrite Hids, (right_id_L ∅ (∪)) in H1. rewrite Hctr, (counter_table es n Htab) in H2.
  exists st0, (foldl identify_one st0 (m_functions (_M st))).
  unfold IdentifyFunctions. rewrite Hread, Hadd. cbn [mbind pass_bind].
  assert (HM : _M st0 = _M st) by apply H4. rewrite HM. split; [done|].
  assert (Hid : identified st0 (m_functions (_M st)) (foldl identify_one st0 (m_functions (_M st)))).
  { apply (identify_all_spec st0 (m_functions (_M st)) st0 []); [|cbn [app]; lia].
    split; [done|by rewrite H1, H2|cbn [length]; lia|done| | |by left].
    - intros f cf. by rewrite H3, Hfm.
    - by intros F HF%elem_of_nil. }
  split; [done|]. split; [done|]. split; [done|]. etrans; [exact H4|]. apply Hid.
Qed.

(** ** Writing the table back *)

Lemma flag_words : Forall word [lit "Ignored"; lit "Init"; lit "Fini"; lit "Main"; lit "External"].
Proof. repeat constructor; discriminate. Qed.

(** The flags of a function, when the assertions hold. *)
Definition flags_of (st : ControlFlowIntegrity) (old : option (Z * text)) (F : function) : text :=
  let f := fn_name F in
  if isIgnoredFunction st f then lit "Ignored"
  else if isInitFunction st f then lit "Init"
  else if isFiniFunction st f then lit "Fini"
  else if bool_decide (f = lit "main") then lit "Main"
  else if isDeclaration F then match old with Some E => E.2 | None => lit "External" end
  else _fun_id_file st.

(** What a compilation knows when it writes the table. *)
Record to_write (es : list entry) (st : ControlFlowIntegrity) : Prop := {
  tw_num : numbering (_IdentifiedFunctions st) (_fun_id_ctr st);
  tw_ctr : 0 <= _fun_id_ctr st <= 2 ^ 31;
  tw_old : ids_of es ⊆ _IdentifiedFunctions st;
  tw_map : ∀ f cf, _FunctionMap st !! f = Some cf →
    cf_fun cf = f ∧ _IdentifiedFunctions st !! f = Some (cf_id cf) ∧
    ∃ F, getFunction (_M st) f = Some F;
  tw_only : ∀ f, is_Some (_IdentifiedFunctions st !! f) →
    is_Some (ids_of es !! f) ∨ is_Some (_FunctionMap st !! f);
  tw_words : (∀ f, is_Some (_FunctionMap st !! f) → word f) ∧ word (_fun_id_file st);
}.

Lemma old_map_eq files es n : table_file files es n → old_map files = list_to_map es.
Proof.
  intros [(Hwf & Hnd & _) Hfile]. unfold old_map.
  assert (Hf : ∀ l (m : gmap name (Z * text)), NoDup l.*1 →
    foldl (λ m (e : entry), <[e.1 := e.2]> m) m l = list_to_map l ∪ m).
  { induction l as [|e l IH]; intros m Hl; cbn [foldl].
    { change (m = ∅ ∪ m). by rewrite (left_id_L ∅ (∪)). }
    cbn in Hl. apply NoDup_cons_1_1 in Hl as Hfr. apply NoDup_cons_1_2 in Hl.
    rewrite IH by done. destruct e as [f v]. cbn. rewrite <- insert_union_r; [by rewrite insert_union_l|].
    by apply not_elem_of_list_to_map_1. }
  destruct (f_fctid files) as [s|]; [|by subst es].
  rewrite Hfile, fctid_entries_lines, Hf by done. by rewrite (right_id_L ∅ (∪)).
Qed.

Section Write.
Context (env : pass_env) (Henv : env_ok env) (files : cfi_files) (es : list entry) (n : Z).
Context (st : ControlFlowIntegrity) (Hfile : table_file files es n) (Hst : to_write es st).

Let old : gmap name (Z * text) := list_to_map es.

Lemma old_lookup f E : old !! f = Some E ↔ (f, E) ∈ es.
Proof using Hfile. symmetry. apply elem_of_list_to_map, Hfile. Qed.

Lemma function_flags_eq f cf F :
  _FunctionMap st !! f = Some cf → getFunction (_M st) f = Some F →
  function_flags env st old F f (cf_id cf) = Ok (cf_id cf, flags_of st (old !! f) F).
Proof using Hfile Hst.
  intros Hf HF. destruct Hst as [Hnum Hctr Hold Hmap _ _].
  destruct (Hmap f cf Hf) as (_ & Hid & _). apply getFunction_elem in HF as [_ HF].
  assert (Hassert : ∀ E, old !! f = Some E → E.1 = cf_id cf).
  { intros [id fl] HE. assert (ids_of es !! f = Some id) as Hi.
    { apply ids_of_elem; [apply Hfile|]. exists fl. by apply old_lookup. }
    eapply lookup_weaken in Hi; [|exact Hold]. cbn. congruence. }
  rewrite <- HF in *.
  assert (Hhas : HasAlreadyBeenIdentified_id (fn_name F) st = true).
  { unfold HasAlreadyBeenIdentified_id. rewrite Hid. by apply bool_decide_true. }
  assert (Hident : (IdentifyFunction (fn_name F) st).1 = cf_id cf).
  { unfold IdentifyFunction. rewrite Hid. cbn. apply Hnum in Hid. apply u32_small. lia. }
  unfold function_flags, flags_of. rewrite Hhas, Hident.
  destruct (old !! fn_name F) as [E|] eqn:HE; cbn [mbind pass_bind].
  - rewrite (bool_decide_true (E.1 = cf_id cf)) by by apply Hassert.
    change (cassert env true _) with (Ok () : pass unit). cbn [mbind pass_bind].
    repeat (match goal with |- (if ?b then _ else _) = _ => destruct b; [done|] end).
    destruct (isDeclaration F); [|done]. do 2 f_equal.
    by case_bool_decide.
  - repeat (match goal with |- (if ?b then _ else _) = _ => destruct b; [done|] end). done.
Qed.

(** The entry of a function of the module. *)
Definition new_entry (it : name * CFIFct) : entry :=
  (it.1, (cf_id it.2, match getFunction (_M st) it.1 with
                      | Some F => flags_of st (old !! it.1) F | None => [] end)).

Lemma write_function_eq acc f cf : _FunctionMap st !! f = Some cf →
  write_function env st old acc (f, cf) = Ok (new_entry (f, cf) :: acc.1, {[f]} ∪ acc.2).
Proof using Hfile Hst.
  intros Hf. destruct (tw_map _ _ Hst f cf Hf) as (Hfun & Hid & F & HF).
  unfold write_function, fun_of. cbn [fst snd]. rewrite Hfun, HF. cbn [mbind pass_bind].
  rewrite (function_flags_eq f cf F Hf HF). cbn [mbind pass_bind].
  unfold new_entry. cbn [fst snd]. rewrite HF.
  assert (Hid' : HasAlreadyBeenIdentified_id (fn_name F) st = true).
  { apply getFunction_elem in HF as [_ ->]. unfold HasAlreadyBeenIdentified_id. rewrite Hid.
    by apply bool_decide_true. }
  by rewrite Hid', orb_true_r.
Qed.

Lemma write_functions_eq l : ∀ acc, Forall (λ it, _FunctionMap st !! it.1 = Some it.2) l →
  pass_fold (write_function env st old) acc l =
    Ok (rev (new_entry <$> l) ++ acc.1, list_to_set l.*1 ∪ acc.2).
Proof using Hfile Hst.
  induction l as [|[f cf] l IH]; intros acc Hl; cbn [pass_fold fmap list_fmap rev list_to_set].
  { rewrite (left_id_L ∅ (∪)). by destruct acc. }
  apply Forall_cons_1 in Hl as [Hf Hl]. rewrite write_function_eq by done. cbn [mbind pass_bind].
  rewrite IH by done. cbn [fst snd]. f_equal. f_equal; [by rewrite <- app_assoc|].
  by rewrite (assoc_L (∪)), (comm_L (∪) _ {[f]}).
Qed.

Lemma order_map it : it ∈ order env _ (_FunctionMap st) → _FunctionMap st !! it.1 = Some it.2.
Proof using Henv.
  destruct it as [f cf]. rewrite (proj1 Henv CFIFct (_FunctionMap st)). apply elem_of_map_to_list.
Qed.

(** The entries of the new file. *)
Lemma new_entries_eq : new_entries env files st =
  Ok ((new_entry <$> order env _ (_FunctionMap st)) ++
      filter (λ e : entry, e.1 ∉ dom (_FunctionMap st)) (order env _ old)).
Proof using Henv Hfile Hst.
  unfold new_entries. rewrite (old_map_eq files es n Hfile). fold old.
  rewrite write_functions_eq by (apply Forall_forall; intros it Hit%list_elem_of_In; by apply order_map).
  cbn [mbind pass_bind fst snd]. rewrite app_nil_r, rev_involutive, (right_id_L ∅ (∪)).
  f_equal. f_equal. apply list_filter_iff. intros e.
  apply not_iff_compat. rewrite elem_of_list_to_set, list_elem_of_fmap, elem_of_dom. split.
  - intros ([f cf] & -> & Hin%order_map). by eexists.
  - intros [cf Hcf]. exists (e.1, cf). split; [done|]. rewrite (proj1 Henv CFIFct (_FunctionMap st)).
    by apply elem_of_map_to_list.
Qed.

Definition written : list entry :=
  (new_entry <$> order env _ (_FunctionMap st)) ++
  filter (λ e : entry, e.1 ∉ dom (_FunctionMap st)) (order env _ old).

Lemma order_old e : e ∈ order env _ old ↔ e ∈ es.
Proof using Henv Hfile.
  destruct e as [f v]. rewrite (proj1 Henv (Z * text)%type old), elem_of_map_to_list. apply old_lookup.
Qed.

Lemma written_elem f v : (f, v) ∈ written ↔
  (∃ cf, _FunctionMap st !! f = Some cf ∧ (f, v) = new_entry (f, cf)) ∨
  (_FunctionMap st !! f = None ∧ (f, v) ∈ es).
Proof using Henv Hfile.
  unfold written. rewrite elem_of_app, list_elem_of_fmap, list_elem_of_filter, order_old.
  cbn [fst]. rewrite not_elem_of_dom. apply or_iff_compat_r. split.
  - intros ([g cf] & Heq & Hin%order_map). cbn [fst snd] in Hin. exists cf.
    assert (g = f) as -> by (unfold new_entry in Heq; cbn in Heq; congruence). done.
  - intros (cf & Hcf & Heq). exists (f, cf). split; [done|].
    rewrite (proj1 Henv CFIFct (_FunctionMap st)). by apply elem_of_map_to_list.
Qed.

Lemma written_NoDup : NoDup written.*1.
Proof using Henv Hfile.
  unfold written. rewrite fmap_app, <- list_fmap_compose.
  assert (Hnd1 : NoDup ((λ it : name * CFIFct, it.1) <$> order env _ (_FunctionMap st))).
  { rewrite (proj1 Henv CFIFct (_FunctionMap st)). apply NoDup_fst_map_to_list. }
  apply list.NoDup_app. split; [done|]. split.
  - intros f ([g cf] & -> & Hg%order_map)%list_elem_of_fmap ([h v] & Heq & Hh)%list_elem_of_fmap.
    apply list_elem_of_filter in Hh as [Hh _]. apply Hh. cbn in *. subst h.
    apply elem_of_dom. by eexists.
  - apply (sublist_NoDup _ ((order env _ old).*1)).
    + rewrite (proj1 Henv (Z * text)%type old). apply NoDup_fst_map_to_list.
    + apply fmap_sublist, sublist_filter.
Qed.

Lemma written_wf : Forall wf_entry written.
Proof using Henv Hfile Hst.
  destruct Hst as [Hnum Hctr _ Hmap _ [Hwords Hname]]. destruct Hfile as [(Hwf & _) _].
  rewrite Forall_forall in Hwf.
  assert (Hold : ∀ e, e ∈ es → wf_entry e) by (intros e He%list_elem_of_In; by apply Hwf).
  apply Forall_forall. intros [f v] Hin%list_elem_of_In.
  apply written_elem in Hin as [(cf & Hcf & Heq)|[_ Hin]]; [|by apply Hold].
  destruct (Hmap f cf Hcf) as (_ & Hid & F & HF). apply Hnum in Hid.
  rewrite Heq. unfold new_entry. split_and!; cbn [fst snd].
  - apply Hwords. by eexists.
  - unfold in_u. lia.
  - rewrite HF. unfold flags_of.
    pose proof flag_words as Hfl. do 5 apply Forall_cons_1 in Hfl as [? Hfl].
    repeat case_match; try assumption.
    match goal with H : old !! f = Some _ |- _ => apply old_lookup, Hold in H; apply H end.
Qed.

Lemma written_ids : ids_of written = _IdentifiedFunctions st.
Proof using Henv Hfile Hst.
  pose proof Hst as [Hnum Hctr Hold Hmap Honly _].
  assert (Hin : ∀ f id, ids_of written !! f = Some id → _IdentifiedFunctions st !! f = Some id).
  { intros f id [fl H]%ids_of_elem; [|apply written_NoDup].
    apply written_elem in H as [(cf & Hcf & Heq)|[_ H]].
    - destruct (Hmap f cf Hcf) as (_ & Hid & _). unfold new_entry in Heq. cbn in Heq. congruence.
    - eapply lookup_weaken; [|exact Hold]. apply ids_of_elem; [apply Hfile|by exists fl]. }
  apply map_eq. intros f. destruct (_IdentifiedFunctions st !! f) as [id|] eqn:Hf.
  - assert (is_Some (ids_of written !! f)) as [id' Hid'].
    { assert (∃ v, (f, v) ∈ written) as [[id' fl] Hv].
      { destruct (_FunctionMap st !! f) as [cf|] eqn:Hcf.
        - exists (new_entry (f, cf)).2. apply written_elem. left. by exists cf.
        - destruct (Honly f) as [[z Hz]|[cf Hcf']]; [by eexists| |congruence].
          apply ids_of_elem in Hz as [fl Hz]; [|apply Hfile]. exists (z, fl).
          apply written_elem. by right. }
      exists id'. apply ids_of_elem; [apply written_NoDup|by exists fl]. }
    pose proof (Hin _ _ Hid'). congruence.
  - destruct (ids_of written !! f) as [id|] eqn:Hw; [|done]. apply Hin in Hw. congruence.
Qed.

(** The new file is a table again: that of the identifiers of this run. *)
Lemma writeFunctionIDs_eq : opens_fctid env = true →
  writeFunctionIDs env files st = Ok (CfiFiles (Some (concat (fctid_line <$> written)))
    (f_trans files) (f_bbtrans files) (f_ipdom files)).
Proof using Henv Hfile Hst.
  intros Hopen. unfold writeFunctionIDs. rewrite new_entries_eq. cbn [mbind pass_bind]. fold written.
  by rewrite Hopen.
Qed.

Lemma written_table : table written (_fun_id_ctr st).
Proof using Henv Hfile Hst.
  split_and!; [apply written_wf|apply written_NoDup| | |]; try rewrite written_ids; by apply Hst.
Qed.

End Write.
