(* ===== verification/PassAnalysis.v ===== *)
(** * Analysis of a module

    The modules the pass supports, and the state of [ControlFlowIntegrity] once
    it has analysed one: which functions are numbered, ignored, run at start-up
    or at exit, and what became of their linkage. *)

From S2P Require Import Prelude CSem Dot Text Ir Pass Injector PassTable.
From Stdlib Require Import Strings.Byte.
From Stdlib Require Strings.String.
Import Strings.String.StringSyntax.
#[local] Open Scope string_scope.
#[local] Open Scope Z_scope.
#[local] Open Scope list_scope.

(** ** Supported modules *)

(** A constant that is function [f], under a cast or not. *)
Definition denotes (c : constant) (f : name) : Prop :=
  c = ConstantFunction f ∨ ∃ rest, c = ConstantExpr true (ConstantFunction f :: rest).

(** An element of the array of constructors or destructors. *)
Definition ctor_op (c : constant) (f : name) : Prop :=
  ∃ priority fc rest, c = ConstantStruct (priority :: fc :: rest) ∧ denotes fc f.

(** An element of the array of annotations: a function and a string. *)
Definition annotation_op (c : constant) (a : name * text) : Prop :=
  ∃ fc rest gep, c = ConstantStruct (fc :: ConstantExpr false gep :: rest) ∧ denotes fc a.1 ∧
    gep !! 0%nat = Some (ConstantGlobal (Some (ConstantDataArray a.2))).

(** A global variable that is absent, or lists [l]. *)
Definition global_lists {A} (op : constant → A → Prop) (g : option global_variable) (l : list A) : Prop :=
  match g with
  | None => l = []
  | Some g => gv_operand g = true ∧ gv_uses g <= 0 ∧
      ∃ ops, gv_initializer g = Some (ConstantArray ops) ∧ Forall2 op ops l
  end.

(** What Picon supports of the code of a function: direct calls, no invoke. *)
Definition plain_instruction (i : instruction) : Prop := i ≠ IndirectCallInst.
Definition plain_block (BB : basic_block) : Prop :=
  Forall plain_instruction (bb_insts BB) ∧ is_invoke (bb_term BB) = false.

#[export] Instance plain_instruction_dec i : Decision (plain_instruction i).
Proof. unfold plain_instruction. apply _. Defined.
#[export] Instance plain_block_dec BB : Decision (plain_block BB).
Proof. unfold plain_block. apply _. Defined.

(** A module and what its global variables list. *)
Record supported (M : ir_module) (annotations : list (name * text)) (ctors dtors : list name) : Prop := {
  sup_wf : wf_ir M;
  sup_names : Forall word (fn_name <$> m_functions M);
  sup_plain : ∀ F, F ∈ m_functions M → Forall plain_block (fn_blocks F);
  sup_sizes : ∀ F, F ∈ m_functions M → Z.of_nat (length (fn_blocks F)) < 2 ^ 31;
  sup_free : ∀ n, n ∈ prototypes → getFunction M n = None;
  sup_returnaddress : ∀ F, getFunction M n_returnaddress = Some F → fn_intrinsic F = true;
  sup_annotations : global_lists annotation_op (m_annotations M) annotations;
  sup_ctors : global_lists ctor_op (m_ctors M) ctors;
  sup_dtors : global_lists ctor_op (m_dtors M) dtors;
}.

(** ** Global variables *)

Lemma denotes_not_null c f : denotes c f → isNullValue c = false.
Proof. by intros [->|(rest & ->)]. Qed.

Lemma denotes_function c f : denotes c f → constant_function c = Ok f.
Proof. by intros [->|(rest & ->)]. Qed.

(** The functions annotated to keep their blocks unchecked. *)
Definition unchecked (annotations : list (name * text)) : gset name :=
  list_to_set (filter (λ a, a.2 = ANNOTATION_IGNORE_BLOCK) annotations).*1.

Lemma parse_annotations_spec ops l : Forall2 annotation_op ops l → ∀ st,
  parse_annotations ops st =
    Ok (set_IgnoredBlocksFunctions (unchecked l ∪ _IgnoredBlocksFunctions st) st).
Proof.
  induction 1 as [|op [f s] ops l (fc & rest & gep & -> & Hf & Hgep) _ IH]; intros st.
  { cbn [parse_annotations]. unfold unchecked. cbn. rewrite union_empty_l_L. by destruct st. }
  cbn [parse_annotations as_struct mbind pass_bind]. cbn [getOperand lookup list_lookup].
  cbn [mbind pass_bind]. cbn [fst snd] in Hf, Hgep. rewrite (denotes_not_null _ _ Hf), (denotes_function _ _ Hf).
  cbn [mbind pass_bind isNullValue]. cbn [annotation_string strip_cast mbind pass_bind].
  unfold getOperand at 1. rewrite Hgep. cbn [mbind pass_bind]. rewrite IH. f_equal.
  unfold unchecked. rewrite filter_cons. cbn [snd].
  case_bool_decide; case_decide; try done.
  unfold set_IgnoredBlocksFunctions. cbn [_M _FunctionMap _IdentifiedFunctions _IgnoredFunctions
    _InitFunctions _FiniFunctions _IgnoredBlocksFunctions _fun_id_file _fun_id_ctr]. f_equal.
  cbn [fmap list_fmap list_to_set fst]. set_solver.
Qed.

Lemma ParseAnnotations_spec st l : global_lists annotation_op (m_annotations (_M st)) l →
  ParseAnnotations st = Ok (set_IgnoredBlocksFunctions (unchecked l ∪ _IgnoredBlocksFunctions st) st).
Proof.
  unfold global_lists, ParseAnnotations. destruct (m_annotations (_M st)) as [g|].
  - intros (Hop & Huses & ops & Hinit & Hops). rewrite Hop. unfold global_elements. rewrite Hinit.
    cbn [negb mbind pass_bind]. rewrite (parse_annotations_spec _ _ Hops). cbn [mbind pass_bind].
    by rewrite decide_False by lia.
  - intros ->. unfold unchecked. cbn. rewrite union_empty_l_L. by destruct st.
Qed.

(** The functions of [fs] are exposed. *)
Definition expose_in (fs : gset name) (F : function) : function :=
  if decide (fn_name F ∈ fs) then expose F else F.

Lemma expose_name F : fn_name (expose F) = fn_name F.
Proof. unfold expose. by destruct (hasLocalLinkage _). Qed.
Lemma expose_blocks F : fn_blocks (expose F) = fn_blocks F.
Proof. unfold expose. by destruct (hasLocalLinkage _). Qed.
Lemma expose_intrinsic F : fn_intrinsic (expose F) = fn_intrinsic F.
Proof. unfold expose. by destruct (hasLocalLinkage _). Qed.
Lemma expose_expose F : expose (expose F) = expose F.
Proof. unfold expose. by destruct F as [n i bs [] v]. Qed.
Lemma expose_in_name fs F : fn_name (expose_in fs F) = fn_name F.
Proof. unfold expose_in. case_decide; [apply expose_name|done]. Qed.
Lemma expose_in_blocks fs F : fn_blocks (expose_in fs F) = fn_blocks F.
Proof. unfold expose_in. case_decide; [apply expose_blocks|done]. Qed.
Lemma expose_in_intrinsic fs F : fn_intrinsic (expose_in fs F) = fn_intrinsic F.
Proof. unfold expose_in. case_decide; [apply expose_intrinsic|done]. Qed.

Lemma expose_in_expose_in fs gs F : expose_in fs (expose_in gs F) = expose_in (fs ∪ gs) F.
Proof.
  unfold expose_in at 1. rewrite expose_in_name. unfold expose_in.
  repeat case_decide; rewrite ?expose_expose; set_solver.
Qed.

Lemma expose_in_empty F : expose_in ∅ F = F.
Proof. unfold expose_in. by rewrite decide_False by set_solver. Qed.

(** [st'] is [st] with the functions of [fs] exposed and the fields of the
    module other than its functions changed. *)
Definition exposes (fs : gset name) (M M' : ir_module) : Prop :=
  m_functions M' = expose_in fs <$> m_functions M.

Lemma exposes_refl M : exposes ∅ M M.
Proof. unfold exposes. symmetry. rewrite <- (list_fmap_id (m_functions M)) at 2. apply list_fmap_ext. intros; apply expose_in_empty. Qed.

Lemma exposes_trans fs gs M1 M2 M3 : exposes gs M1 M2 → exposes fs M2 M3 → exposes (fs ∪ gs) M1 M3.
Proof.
  unfold exposes. intros -> ->. rewrite <- list_fmap_compose. apply list_fmap_ext.
  intros i F _. apply expose_in_expose_in.
Qed.

Lemma update_expose f M : exposes {[f]} M (update_function f expose M).
Proof.
  unfold exposes, update_function. cbn. apply list_fmap_ext. intros i F _. unfold expose_in.
  repeat case_decide; set_solver.
Qed.

(** ** Constructors and destructors *)

(** [inits] and [finis] were added to the functions run at start-up and at
    exit, and exposed. *)
Record patched (inits finis : gset name) (st st' : ControlFlowIntegrity) : Prop := {
  pt_module : exposes (inits ∪ finis) (_M st) (_M st');
  pt_inits : _InitFunctions st' = inits ∪ _InitFunctions st;
  pt_finis : _FiniFunctions st' = finis ∪ _FiniFunctions st;
  pt_same : _FunctionMap st' = _FunctionMap st ∧ _IdentifiedFunctions st' = _IdentifiedFunctions st ∧
    _IgnoredFunctions st' = _IgnoredFunctions st ∧
    _IgnoredBlocksFunctions st' = _IgnoredBlocksFunctions st ∧
    _fun_id_file st' = _fun_id_file st ∧ _fun_id_ctr st' = _fun_id_ctr st;
}.

Lemma patched_refl st : patched ∅ ∅ st st.
Proof. split; rewrite ?union_empty_l_L; [apply exposes_refl|done..]. Qed.

Lemma patched_trans i1 f1 i2 f2 st1 st2 st3 :
  patched i1 f1 st1 st2 → patched i2 f2 st2 st3 → patched (i2 ∪ i1) (f2 ∪ f1) st1 st3.
Proof.
  intros [HM1 HI1 HF1 (?&?&?&?&?&?)] [HM2 HI2 HF2 (?&?&?&?&?&?)]. split.
  - replace (i2 ∪ i1 ∪ (f2 ∪ f1)) with (i2 ∪ f2 ∪ (i1 ∪ f1)) by set_solver. by eapply exposes_trans.
  - rewrite HI2, HI1. set_solver.
  - rewrite HF2, HF1. set_solver.
  - split_and!; congruence.
Qed.

Section Patch.
Context (insert : name → ControlFlowIntegrity → ControlFlowIntegrity).

(** What one iteration of the loop does. *)
Definition patch_one (st : ControlFlowIntegrity) (f : name) : ControlFlowIntegrity :=
  insert f (set_M (update_function f expose (_M st)) st).

Lemma patch_functions_eq ops fs : Forall2 ctor_op ops fs → ∀ st,
  patch_functions insert ops st = Ok (foldl patch_one st fs).
Proof using Type.
  induction 1 as [|op f ops fs (p & fc & rest & -> & Hf) _ IH]; intros st; [done|].
  cbn [patch_functions as_struct mbind pass_bind]. cbn [getOperand lookup list_lookup mbind pass_bind].
  rewrite (denotes_not_null _ _ Hf), (denotes_function _ _ Hf). cbn [mbind pass_bind foldl].
  apply IH.
Qed.

End Patch.

Definition insert_init (f : name) (st : ControlFlowIntegrity) : ControlFlowIntegrity :=
  set_InitFunctions ({[f]} ∪ _InitFunctions st) st.
Definition insert_fini (f : name) (st : ControlFlowIntegrity) : ControlFlowIntegrity :=
  set_FiniFunctions ({[f]} ∪ _FiniFunctions st) st.

(** The module but for its functions. *)
Definition same_globals (M M' : ir_module) : Prop :=
  m_annotations M' = m_annotations M ∧ m_ctors M' = m_ctors M ∧ m_dtors M' = m_dtors M.

Lemma patch_inits fs : ∀ st, let st' := foldl (patch_one insert_init) st fs in
  patched (list_to_set fs) ∅ st st' ∧ same_globals (_M st) (_M st').
Proof.
  induction fs as [|f fs IH]; intros st; cbn zeta; cbn [foldl list_to_set].
  { split; [apply patched_refl|done]. }
  destruct (IH (patch_one insert_init st f)) as [Hp Hg]. cbn zeta in *. split.
  - rewrite (union_comm_L {[f]}), <- (union_empty_l_L (∅ : gset name)). eapply patched_trans; [|exact Hp].
    split; cbn; try done; [|set_solver]. rewrite union_empty_r_L. apply update_expose.
  - exact Hg.
Qed.

Lemma patch_finis fs : ∀ st, let st' := foldl (patch_one insert_fini) st fs in
  patched ∅ (list_to_set fs) st st' ∧ same_globals (_M st) (_M st').
Proof.
  induction fs as [|f fs IH]; intros st; cbn zeta; cbn [foldl list_to_set].
  { split; [apply patched_refl|done]. }
  destruct (IH (patch_one insert_fini st f)) as [Hp Hg]. cbn zeta in *. split.
  - rewrite (union_comm_L {[f]}), <- (union_empty_l_L (∅ : gset name)). eapply patched_trans; [|exact Hp].
    split; cbn; try done; [|set_solver]. rewrite union_empty_l_L. apply update_expose.
  - exact Hg.
Qed.

(** Removing a global variable changes no function. *)
Lemma patched_remove inits finis st st' M' :
  patched inits finis st st' → m_functions M' = m_functions (_M st') → patched inits finis st (set_M M' st').
Proof. intros [HM HI HF Hs] E. split; try done. unfold exposes. cbn. by rewrite E. Qed.

Lemma PatchCtorFunctions_spec st fs : global_lists ctor_op (m_ctors (_M st)) fs →
  ∃ st', PatchCtorFunctions st = Ok st' ∧ patched (list_to_set fs) ∅ st st' ∧
    m_dtors (_M st') = m_dtors (_M st).
Proof.
  unfold global_lists, PatchCtorFunctions. destruct (m_ctors (_M st)) as [g|].
  - intros (Hop & Huses & ops & Hinit & Hops). rewrite Hop. unfold global_elements. rewrite Hinit.
    cbn [negb mbind pass_bind]. rewrite (patch_functions_eq _ _ _ Hops). cbn [mbind pass_bind].
    rewrite decide_False by lia. destruct (patch_inits fs st) as [Hp Hg]. cbn zeta in *.
    eexists. split; [done|]. split; [by apply patched_remove|]. cbn. apply Hg.
  - intros ->. exists st. split; [done|]. split; [apply patched_refl|done].
Qed.

Lemma PatchDtorFunctions_spec st fs : global_lists ctor_op (m_dtors (_M st)) fs →
  ∃ st', PatchDtorFunctions st = Ok st' ∧ patched ∅ (list_to_set fs) st st'.
Proof.
  unfold global_lists, PatchDtorFunctions. destruct (m_dtors (_M st)) as [g|].
  - intros (Hop & Huses & ops & Hinit & Hops). rewrite Hop. unfold global_elements. rewrite Hinit.
    cbn [negb mbind pass_bind]. rewrite (patch_functions_eq _ _ _ Hops). cbn [mbind pass_bind].
    rewrite decide_False by lia. destruct (patch_finis fs st) as [Hp _]. cbn zeta in *.
    eexists. split; [done|]. by apply patched_remove.
  - intros ->. exists st. split; [done|]. apply patched_refl.
Qed.

(** ** The analysis *)

(** The names of the file of ignored functions. *)
Definition ignored_are (env : pass_env) (IgnoredFctFileName : option text) (ignored : gset name) : Prop :=
  match IgnoredFctFileName with
  | None => ignored = ∅
  | Some _ => ∃ s, ignored_file env = Some s ∧ ignored = list_to_set (lines s)
  end.

(** The analysis part of [runOnModule]. *)
Definition analysis (env : pass_env) (s_fctid : text) (IgnoredFctFileName : option text) (M : ir_module)
    (files : cfi_files) : pass ControlFlowIntegrity :=
  st ← newControlFlowIntegrity env M s_fctid IgnoredFctFileName;
  st ← ParseAnnotations st;
  st ← IdentifyFunctions env files st;
  st ← PatchCtorFunctions st;
  PatchDtorFunctions st.

(** What it finds, when the table held the entries [es]. *)
Record analysed (M : ir_module) (ignored : gset name) (annotations : list (name * text))
    (ctors dtors : list name) (es : list entry) (st : ControlFlowIntegrity) : Prop := {
  an_module : exposes (list_to_set ctors ∪ list_to_set dtors) M (_M st);
  an_ignored : _IgnoredFunctions st = ignored;
  an_unchecked : _IgnoredBlocksFunctions st = unchecked annotations;
  an_inits : _InitFunctions st = list_to_set ctors;
  an_finis : _FiniFunctions st = list_to_set dtors;
  an_write : to_write es st;
  an_map : ∀ f cf, _FunctionMap st !! f = Some cf → ∃ F, F ∈ m_functions M ∧ fn_name F = f ∧
    concerned st F ∧ cf_bb_map cf = number_blocks (fn_blocks F) 0 ∅;
  an_all : ∀ F, F ∈ m_functions M → concerned st F → is_Some (_FunctionMap st !! fn_name F);
  an_ctr : _fun_id_ctr st <= Z.of_nat (length es) + Z.of_nat (length (m_functions M));
}.

Lemma exposes_getFunction fs M M' f : exposes fs M M' →
  getFunction M' f = expose_in fs <$> getFunction M f.
Proof.
  unfold exposes, getFunction. intros ->. induction (m_functions M) as [|F Fs IH]; cbn; [done|].
  rewrite expose_in_name. by case_bool_decide.
Qed.

(** The number of entries of a table. *)
Lemma table_length es n : table es n → Z.of_nat (length es) = n.
Proof.
  intros (_ & Hnd & (Hr & Hinj & Hsur) & Hn).
  assert (Hset : list_to_set ((λ e : entry, e.2.1) <$> es) =@{gset Z} list_to_set (seqZ 0 n)).
  { apply set_eq. intros z. rewrite !elem_of_list_to_set, elem_of_seqZ, list_elem_of_fmap. split.
    - intros ([f [id fl]] & -> & He). cbn. enough (0 <= id < n) by lia. apply (Hr f), ids_of_elem; [done|].
      by exists fl.
    - intros Hz. destruct (Hsur z ltac:(lia)) as [f Hf]. apply ids_of_elem in Hf as [fl Hf]; [|done].
      by exists (f, (z, fl)). }
  apply (f_equal size) in Hset. rewrite !size_list_to_set in Hset; [|apply NoDup_seqZ|].
  - rewrite length_fmap, length_seqZ in Hset. lia.
  - apply NoDup_fmap_2_strong; [|by apply NoDup_fmap_1 in Hnd].
    intros [f [id fl]] [g [id' fl']] He1 He2 E. cbn in E. subst id'.
    assert (f = g) as <- by (eapply Hinj; (apply ids_of_elem; [done|]); eauto).
    assert (Hnd' : ∀ v v', (f, v) ∈ es → (f, v') ∈ es → v = v').
    { intros v v' H1 H2. apply (elem_of_list_to_map (M := gmap name)) in H1, H2; [congruence|done..]. }
    f_equal. by apply Hnd'.
Qed.

Section Analysis.
Context (env : pass_env) (files : cfi_files) (es : list entry) (n : Z) (Htab : table_file files es n).
Context (s_fctid : text) (Hword : word s_fctid).
Context (ign : option text) (ignored : gset name) (Hign : ignored_are env ign ignored).
Context (M : ir_module) (annotations : list (name * text)) (ctors dtors : list name).
Context (Hsup : supported M annotations ctors dtors).
Context (Hlen : n + Z.of_nat (length (m_functions M)) <= 2 ^ 31).

Lemma constructor_spec :
  newControlFlowIntegrity env M s_fctid ign = Ok (MkCFI M ∅ ∅ ignored ∅ ∅ ∅ s_fctid 0).
Proof using Hign.
  unfold newControlFlowIntegrity, ignored_are in *. destruct ign as [f|].
  - by destruct Hign as (s & -> & ->).
  - by rewrite Hign.
Qed.

(** What the identifiers need to be written back. *)
Lemma identified_to_write st0 st st' :
  identified st0 (m_functions M) st → _IdentifiedFunctions st0 = ids_of es → _fun_id_ctr st0 = n →
  _fun_id_file st = s_fctid → patched (list_to_set ctors) (list_to_set dtors) st st' → _M st = M →
  to_write es st'.
Proof using Htab Hword Hsup Hlen.
  intros [Hsame Hnum Hctr Hold Hmap Hall Honly] Hids Hn Hfile [HM _ _ (Hfm & Hif & Hig & _ & Hff & Hfc)] HMM.
  destruct Htab as [(Hwf & _) _]. rewrite HMM in HM. split; rewrite ?Hif, ?Hfc, ?Hff.
  - done.
  - lia.
  - by rewrite <- Hids.
  - intros f cf. rewrite Hfm. intros (Hfun & Hid & F & HF & <- & _)%Hmap. split; [done|]. split; [done|].
    rewrite (exposes_getFunction _ _ _ _ HM), (getFunction_name M F); [by eexists|apply Hsup|done].
  - intros f. rewrite Hfm, <- Hids. apply Honly.
  - split; [|by rewrite Hfile]. intros f. rewrite Hfm. intros [cf (_ & _ & F & HF & <- & _)%Hmap].
    pose proof (sup_names _ _ _ _ Hsup) as Hw. rewrite Forall_forall in Hw.
    by apply Hw, list_elem_of_In, list_elem_of_fmap_2.
Qed.

Lemma analysis_spec : ∃ st, analysis env s_fctid ign M files = Ok st ∧
  _fun_id_file st = s_fctid ∧ analysed M ignored annotations ctors dtors es st.
Proof using Htab Hword Hign Hsup Hlen.
  unfold analysis. rewrite constructor_spec. cbn [mbind pass_bind].
  rewrite (ParseAnnotations_spec _ annotations) by apply Hsup. cbn [mbind pass_bind].
  set (st1 := set_IgnoredBlocksFunctions _ _).
  destruct (IdentifyFunctions_spec env files es n st1 Htab) as (st0 & st2 & Hid & Hst2 & Hids & Hctr & Hsame);
    [done|done|]. rewrite Hid. cbn [mbind pass_bind].
  destruct Hsame as (HM & Hig & Hin & Hfi & Hib & Hff). change (_M st1) with M in *.
  destruct (PatchCtorFunctions_spec st2 ctors) as (st3 & -> & Hp3 & Hd3); [rewrite HM; apply Hsup|].
  cbn [mbind pass_bind].
  destruct (PatchDtorFunctions_spec st3 dtors) as (st4 & -> & Hp4); [rewrite Hd3, HM; apply Hsup|].
  exists st4. split; [done|].
  assert (Hp : patched (list_to_set ctors) (list_to_set dtors) st2 st4).
  { pose proof (patched_trans _ _ _ _ _ _ _ Hp3 Hp4) as Hp.
    by rewrite union_empty_l_L, union_empty_r_L in Hp. }
  pose proof (identified_to_write st0 st2 st4 Hst2 Hids Hctr Hff Hp HM) as Hw.
  destruct Hp as [HM4 HI4 HF4 (Hfm4 & Hif4 & Hig4 & Hib4 & Hff4 & Hfc4)]. split; [by rewrite Hff4|]. rewrite HM in HM4.
  assert (Hcc : ∀ F, concerned st2 F ↔ concerned st4 F).
  { intros F. unfold concerned, isIgnoredFunction. by rewrite Hig4. }
  destruct Hst2 as [_ _ Hc _ Hmap Hall _]. split.
  - done.
  - by rewrite Hig4, Hig.
  - rewrite Hib4, Hib. cbn. by rewrite union_empty_r_L.
  - rewrite HI4, Hin. cbn. by rewrite union_empty_r_L.
  - rewrite HF4, Hfi. cbn. by rewrite union_empty_r_L.
  - done.
  - intros f cf. rewrite Hfm4. intros (_ & _ & F & HF & Hn & Hcn & Hbb)%Hmap. exists F.
    split; [done|]. split; [done|]. split; [by apply Hcc|done].
  - intros F HF HcF. rewrite Hfm4. apply Hall; [done|]. by apply Hcc.
  - rewrite Hfc4. rewrite (table_length es n) by apply Htab. lia.
Qed.

End Analysis.
