(* ===== verification/PassFiles.v ===== *)
(** * The files of the call graph, of the control-flow graphs and of the
      post-dominators

    What a compilation appends to the files of a binary, as the lists of edges
    and rows that the text lays out, and what these lists hold of the module. *)

From stdpp Require Import sorting.
From S2P Require Import Prelude CSem Dot Text Ir Pass PassTable PassAnalysis.
From Stdlib Require Import Strings.Byte.
From Stdlib Require Strings.String.
Import Strings.String.StringSyntax.
#[local] Open Scope string_scope.
#[local] Open Scope Z_scope.
#[local] Open Scope list_scope.

(** ** Sets of edges *)

Abbreviation row := (Z * list Z)%type (only parsing).

(** [i] leads to [j]. *)
Definition leads (m : gmap Z (gset Z)) (i j : Z) : Prop := ∃ s, m !! i = Some s ∧ j ∈ s.

(** No row is empty. *)
Definition no_empty_row (m : gmap Z (gset Z)) : Prop := ∀ i s, m !! i = Some s → s ≠ ∅.

(** A loop each iteration of which adds the edges [R a]. *)
Lemma pass_fold_edges {A} (f : gmap Z (gset Z) → A → pass (gmap Z (gset Z))) (R : A → Z → Z → Prop) l :
  (∀ m a, a ∈ l → no_empty_row m → ∃ m', f m a = Ok m' ∧ no_empty_row m' ∧
     ∀ i j, leads m' i j ↔ leads m i j ∨ R a i j) →
  ∀ m, no_empty_row m → ∃ m', pass_fold f m l = Ok m' ∧ no_empty_row m' ∧
     ∀ i j, leads m' i j ↔ leads m i j ∨ ∃ a, a ∈ l ∧ R a i j.
Proof.
  induction l as [|a l IH]; intros Hf m Hm; cbn [pass_fold].
  { exists m. split; [done|]. split; [done|]. set_solver. }
  destruct (Hf m a) as (m1 & -> & Hm1 & E1); [by left|done|]. cbn [mbind pass_bind].
  destruct (IH (λ m a Ha, Hf m a (list_elem_of_further _ _ _ Ha)) m1 Hm1) as (m2 & -> & Hm2 & E2).
  exists m2. split; [done|]. split; [done|]. intros i j. rewrite E2, E1.
  setoid_rewrite elem_of_cons. naive_solver.
Qed.

Lemma leads_insert m id z i j :
  leads (<[id := {[z]} ∪ default ∅ (m !! id)]> m) i j ↔ leads m i j ∨ (i = id ∧ j = z).
Proof.
  unfold leads. rewrite lookup_insert. case_decide as H.
  - subst i. split.
    + intros (s & [= <-] & [->%elem_of_singleton|Hj]%elem_of_union); [by right|left].
      destruct (m !! id) as [s|]; [by exists s|]. by apply elem_of_empty in Hj.
    + intros [(s & Hs & Hj)|[_ ->]]; eexists; (split; [done|]); apply elem_of_union.
      * right. by rewrite Hs.
      * left. by apply elem_of_singleton.
  - naive_solver.
Qed.

Lemma no_empty_row_insert m id z s : no_empty_row m → no_empty_row (<[id := {[z]} ∪ s]> m).
Proof. intros Hm i s'. rewrite lookup_insert. case_decide; [intros [= <-]; set_solver|apply Hm]. Qed.

(** ** Rows *)

Definition row_lists (rows : list row) (i j : Z) : Prop := ∃ js, (i, js) ∈ rows ∧ j ∈ js.

Lemma in_order_elem s z : z ∈ in_order s ↔ z ∈ s.
Proof. unfold in_order. by rewrite merge_sort_Permutation, elem_of_elements. Qed.

Lemma in_order_NoDup s : NoDup (in_order s).
Proof. unfold in_order. rewrite merge_sort_Permutation. apply NoDup_elements. Qed.

Lemma callgraph_lines_keys m : NoDup (callgraph_lines m).*1 ∧
  ∀ i, i ∈ (callgraph_lines m).*1 ↔ i ∈ dom m.
Proof.
  unfold callgraph_lines. rewrite <- list_fmap_compose.
  assert (E : fst ∘ (λ i, (i, in_order (default ∅ (m !! i)))) <$> in_order (dom m) = in_order (dom m)).
  { rewrite <- (list_fmap_id (in_order (dom m))) at 2. by apply list_fmap_ext. }
  rewrite E. split; [apply in_order_NoDup|]. intros. apply in_order_elem.
Qed.

Lemma callgraph_lines_lists m i j : row_lists (callgraph_lines m) i j ↔ leads m i j.
Proof.
  unfold row_lists, leads, callgraph_lines. split.
  - intros (js & (i' & [= -> ->] & Hi)%list_elem_of_fmap & Hj).
    apply in_order_elem, elem_of_dom in Hi as [s Hs]. rewrite Hs in Hj. cbn in Hj.
    exists s. split; [done|]. by apply in_order_elem.
  - intros (s & Hs & Hj). exists (in_order s). split; [|by apply in_order_elem].
    apply list_elem_of_fmap. exists i. rewrite Hs. split; [done|].
    apply in_order_elem, elem_of_dom. by eexists.
Qed.

(** ** The call graph *)

(** The code of [F] has a direct call of [g]. *)
Definition calls (F : function) (g : name) : Prop :=
  ∃ B args, B ∈ fn_blocks F ∧ CallInst g args ∈ bb_insts B.

(** The calls that the call graph keeps. *)
Definition adds_inst (st : ControlFlowIntegrity) (id : Z) (I : instruction) (i j : Z) : Prop :=
  ∃ g args, I = CallInst g args ∧ isIgnoredFunction st g = false ∧ i = id ∧
    _IdentifiedFunctions st !! g = Some j.

Definition adds_block (st : ControlFlowIntegrity) (id : Z) (BB : basic_block) (i j : Z) : Prop :=
  ∃ I, I ∈ bb_insts BB ∧ adds_inst st id I i j.

(** Function [i] calls function [j], by their identifiers. *)
Definition calls_id (st : ControlFlowIntegrity) (i j : Z) : Prop :=
  ∃ f cf F g, _FunctionMap st !! f = Some cf ∧ cf_id cf = i ∧ getFunction (_M st) f = Some F ∧
    calls F g ∧ isIgnoredFunction st g = false ∧ _IdentifiedFunctions st !! g = Some j.

Lemma callgraph_inst_spec st id m I : 0 <= id < 2 ^ 31 → plain_instruction I → no_empty_row m →
  ∃ m', callgraph_inst st id m I = Ok m' ∧ no_empty_row m' ∧
    ∀ i j, leads m' i j ↔ leads m i j ∨ adds_inst st id I i j.
Proof.
  intros Hid Hpl Hm. rewrite <- (s32_small id Hid). unfold adds_inst.
  assert (Hs : s32 id = id) by by apply s32_small.
  destruct I as [| |f args r|f args| | |]; cbn [callgraph_inst]; try done;
    try (exists m; split; [done|]; split; [done|]; intros i j; split;
         [by left|intros [?|(? & ? & ? & _)]; done]).
  destruct (isIgnoredFunction st f) eqn:Hig.
  { exists m. split; [done|]. split; [done|]. intros i j. split; [by left|].
    intros [?|(g & a & [= <- <-] & Hg & _)]; [done|congruence]. }
  destruct (_IdentifiedFunctions st !! f) as [z|] eqn:Hz.
  - rewrite !Hs. eexists. split; [done|]. split; [by apply no_empty_row_insert|]. intros i j.
    rewrite leads_insert. apply or_iff_compat_l. split.
    + intros [-> ->]. by exists f, args.
    + intros (g & a & [= <- <-] & _ & -> & Hg). split; [done|congruence].
  - exists m. split; [done|]. split; [done|]. intros i j. split; [by left|].
    intros [?|(g & a & [= <- <-] & _ & _ & Hg)]; [done|congruence].
Qed.

Lemma callgraph_block_spec st id m BB : 0 <= id < 2 ^ 31 → plain_block BB → no_empty_row m →
  ∃ m', callgraph_block st id m BB = Ok m' ∧ no_empty_row m' ∧
    ∀ i j, leads m' i j ↔ leads m i j ∨ adds_block st id BB i j.
Proof.
  intros Hid [Hpl Hinv] Hm. unfold callgraph_block.
  destruct (pass_fold_edges (callgraph_inst st id) (adds_inst st id) (bb_insts BB)) with (m := m)
    as (m' & -> & Hm' & E); [|done|].
  - intros m1 I HI Hm1. apply callgraph_inst_spec; [done| |done].
    rewrite Forall_forall in Hpl. by apply Hpl, list_elem_of_In.
  - cbn [mbind pass_bind]. rewrite Hinv. by exists m'.
Qed.

(** The functions of the module, as they are found in [_FunctionMap]. *)
Definition sound_map (st : ControlFlowIntegrity) : Prop := ∀ f cf, _FunctionMap st !! f = Some cf → cf_fun cf = f ∧ 0 <= cf_id cf < 2 ^ 31 ∧
    _IdentifiedFunctions st !! f = Some (cf_id cf) ∧
    ∃ F, getFunction (_M st) f = Some F ∧ F ∈ m_functions (_M st) ∧ fn_name F = f ∧
      concerned st F ∧ cf_bb_map cf = number_blocks (fn_blocks F) 0 ∅ ∧
      Forall plain_block (fn_blocks F).

Lemma fun_of_eq st f cf F : sound_map st → _FunctionMap st !! f = Some cf →
  getFunction (_M st) f = Some F → fun_of st cf = Ok F.
Proof. intros Hs Hf HF. destruct (Hs f cf Hf) as (E & _). unfold fun_of. by rewrite E, HF. Qed.

Section Files.
Context (env : pass_env) (Henv : env_ok env) (st : ControlFlowIntegrity) (Hst : sound_map st).

Lemma order_FunctionMap it :
  it ∈ order env _ (_FunctionMap st) ↔ _FunctionMap st !! it.1 = Some it.2.
Proof using Henv.
  destruct it as [f cf]. rewrite (proj1 Henv CFIFct (_FunctionMap st)). apply elem_of_map_to_list.
Qed.

Definition adds_function (it : name * CFIFct) (i j : Z) : Prop :=
  ∃ F BB, getFunction (_M st) it.1 = Some F ∧ BB ∈ fn_blocks F ∧ adds_block st (cf_id it.2) BB i j.

Lemma callgraph_function_spec m it : _FunctionMap st !! it.1 = Some it.2 → no_empty_row m →
  ∃ m', callgraph_function st m it = Ok m' ∧ no_empty_row m' ∧
    ∀ i j, leads m' i j ↔ leads m i j ∨ adds_function it i j.
Proof using Hst.
  destruct it as [f cf]. cbn [fst snd]. intros Hf Hm.
  destruct (Hst f cf Hf) as (_ & Hid & _ & F & HF & _ & _ & _ & _ & Hpl).
  unfold callgraph_function. cbn [snd]. rewrite (fun_of_eq st f cf F Hst Hf HF). cbn [mbind pass_bind].
  unfold adds_function. cbn [fst snd]. unfold isDeclaration. destruct (fn_blocks F) as [|B0 bs] eqn:Hb.
  { exists m. split; [done|]. split; [done|]. intros i j. split; [by left|].
    intros [?|(F' & BB & HF' & HBB & _)]; [done|]. assert (F' = F) as -> by congruence.
    rewrite Hb in HBB. by apply elem_of_nil in HBB. }
  rewrite <- Hb in *. clear Hb B0 bs.
  destruct (pass_fold_edges (callgraph_block st (cf_id cf)) (adds_block st (cf_id cf)) (fn_blocks F))
    with (m := m) as (m' & -> & Hm' & E); [|done|].
  - intros m1 BB HBB Hm1. apply callgraph_block_spec; [done| |done].
    rewrite Forall_forall in Hpl. by apply Hpl, list_elem_of_In.
  - exists m'. split; [done|]. split; [done|]. intros i j. rewrite E. naive_solver.
Qed.

(** The call graph is written, and its edges are the direct calls. *)
Lemma callgraph_map_spec : ∃ m, callgraph_map env st = Ok m ∧ no_empty_row m ∧
  ∀ i j, leads m i j ↔ calls_id st i j.
Proof using Henv Hst.
  unfold callgraph_map.
  destruct (pass_fold_edges (callgraph_function st) adds_function (order env _ (_FunctionMap st)))
    with (m := ∅ : gmap Z (gset Z)) as (m & -> & Hm & E).
  - intros m it Hit%order_FunctionMap Hm. by apply callgraph_function_spec.
  - intros i s H. by rewrite lookup_empty in H.
  - exists m. split; [done|]. split; [done|]. intros i j. rewrite E. split.
    + intros [(s & H & _)|([f cf] & Hit%order_FunctionMap & F & BB & HF & HBB & I & HI & g & args & -> & Hig & -> & Hg)].
      { by rewrite lookup_empty in H. }
      exists f, cf, F, g. split_and!; try done. by exists BB, args.
    + intros (f & cf & F & g & Hf & <- & HF & (BB & args & HBB & HI) & Hig & Hg). right.
      exists (f, cf). split; [by apply order_FunctionMap|]. exists F, BB. split; [done|]. split; [done|].
      exists (CallInst g args). split; [done|]. by exists g, args.
Qed.

End Files.

(** ** Numbers of the blocks *)

Lemma number_blocks_other bs l : ∀ k m, l ∉ bb_label <$> bs → number_blocks bs k m !! l = m !! l.
Proof.
  induction bs as [|B bs IH]; intros k m Hl; cbn [number_blocks]; [done|].
  cbn in Hl. apply not_elem_of_cons in Hl as [Hne Hl]. rewrite IH by done. by apply lookup_insert_ne.
Qed.

Lemma number_blocks_lookup bs : ∀ k m i B, NoDup (bb_label <$> bs) → 0 <= k →
  k + Z.of_nat (length bs) < 2 ^ 32 → bs !! i = Some B →
  number_blocks bs k m !! bb_label B = Some (k + Z.of_nat i).
Proof.
  induction bs as [|B0 bs IH]; intros k m i B Hnd Hk Hlen Hi; [done|].
  cbn in Hnd. apply NoDup_cons_1_1 in Hnd as Hfr. apply NoDup_cons_1_2 in Hnd. cbn [length] in Hlen.
  cbn [number_blocks]. rewrite u32_small by lia. destruct i as [|i].
  - injection Hi as ->. rewrite number_blocks_other by done. rewrite lookup_insert_eq. f_equal. lia.
  - rewrite (IH (k + 1) _ i B) by (done || lia). f_equal. lia.
Qed.

(** In a function of the module, the number of a block is its position. *)
Definition numbers_of (F : function) : gmap label Z := number_blocks (fn_blocks F) 0 ∅.

Definition small_function (F : function) : Prop :=
  NoDup (bb_label <$> fn_blocks F) ∧ Z.of_nat (length (fn_blocks F)) < 2 ^ 31.

Lemma bb_id_position F i B : small_function F → fn_blocks F !! i = Some B →
  bb_id (numbers_of F) (bb_label B) = Z.of_nat i.
Proof.
  intros [Hnd Hlen] Hi. unfold bb_id, numbers_of.
  by rewrite (number_blocks_lookup _ 0 _ i B) by (done || lia).
Qed.

Lemma bb_id_range F l : small_function F → 0 <= bb_id (numbers_of F) l ∧
  (fn_blocks F ≠ [] → bb_id (numbers_of F) l < Z.of_nat (length (fn_blocks F))).
Proof.
  intros HF. destruct (decide (l ∈ bb_label <$> fn_blocks F)) as [Hl|Hl].
  - apply list_elem_of_fmap in Hl as (B & -> & HB). apply list_elem_of_lookup in HB as [i Hi].
    rewrite (bb_id_position F i B) by done. apply lookup_lt_Some in Hi. lia.
  - unfold bb_id, numbers_of. rewrite number_blocks_other by done. rewrite lookup_empty. cbn.
    split; [lia|]. destruct (fn_blocks F); [done|cbn; lia].
Qed.

(** ** The control-flow graphs *)

(** A function of the file: its number, its size, the successors of its blocks. *)
Record section := Sec { sec_fct : Z; sec_num : Z; sec_rows : list row }.

Definition row_line (r : row) : text :=
  lit "(" ++ percent_u r.1 ++ lit ") " ++ concat ((λ j, percent_u j ++ [space]) <$> r.2) ++ [newline].

Definition section_text (s : section) : text :=
  lit ";{" ++ percent_u (sec_fct s) ++ lit "} " ++ percent_u (sec_num s) ++ [newline] ++
  (if decide (sec_num s = 1) then [] else concat (row_line <$> sec_rows s) ++ [newline]).

Definition block_row (m : gmap label Z) (BB : basic_block) : option row :=
  match successors (bb_term BB) with
  | [] => None
  | succs => Some (bb_id m (bb_label BB), bb_id m <$> succs)
  end.

Definition section_of (F : function) (cf : CFIFct) : section :=
  Sec (cf_id cf) (fn_size F)
    (if decide (fn_size F = 1) then [] else omap (block_row (cf_bb_map cf)) (fn_blocks F)).

(** The functions whose blocks are checked. *)
Definition checked_blocks (st : ControlFlowIntegrity) (F : function) : bool :=
  negb (isIgnoredFunction st (fn_name F)) && negb (isIgnoredBlocksFunction st (fn_name F)) &&
  negb (isDeclaration F).

Definition sections_of (env : pass_env) (st : ControlFlowIntegrity) : list section :=
  order env _ (_FunctionMap st) ≫= λ it,
    match getFunction (_M st) it.1 with
    | Some F => if checked_blocks st F then [section_of F it.2] else []
    | None => []
    end.

Lemma bbtrans_lines_eq m bs :
  concat (bbtrans_line m <$> bs) = concat (row_line <$> omap (block_row m) bs).
Proof.
  induction bs as [|B bs IH]; [done|]. cbn [fmap list_fmap concat omap list_omap]. rewrite IH.
  unfold bbtrans_line. destruct (successors (bb_term B)) as [|l ls] eqn:E.
  - assert (block_row m B = None) as -> by (unfold block_row; by rewrite E). done.
  - assert (block_row m B = Some (bb_id m (bb_label B), bb_id m <$> l :: ls)) as ->
      by (unfold block_row; by rewrite E).
    cbn [fmap list_fmap concat]. unfold row_line at 2. cbn [fst snd fmap list_fmap concat].
    by rewrite <- list_fmap_compose.
Qed.

Lemma bbtrans_function_eq st F cf :
  bbtrans_function st F cf = if checked_blocks st F then section_text (section_of F cf) else [].
Proof.
  unfold bbtrans_function, checked_blocks. destruct (isIgnoredFunction _ _); [done|].
  destruct (isIgnoredBlocksFunction _ _); [done|]. destruct (isDeclaration F); [done|].
  cbn [negb andb]. unfold section_text, section_of, bbtrans_head. cbn [sec_fct sec_num sec_rows].
  case_decide; rewrite <- ?app_assoc; [by rewrite app_nil_r|]. by rewrite bbtrans_lines_eq.
Qed.

Lemma pass_fold_concat {A B} (f : list B → A → pass (list B)) (g : A → list B) (l : list A) :
  (∀ out a, a ∈ l → f out a = Ok (out ++ g a)) → ∀ out,
  pass_fold f out l = Ok (out ++ concat (g <$> l)).
Proof.
  induction l as [|a l IH]; intros Hf out; cbn [pass_fold]; [by rewrite app_nil_r|].
  rewrite Hf by by left. cbn [mbind pass_bind]. rewrite IH by (intros out' b Hb; apply Hf; by right).
  cbn [fmap list_fmap concat]. by rewrite app_assoc.
Qed.

(** ** The post-dominators *)

(** A line of the file. *)
Record ipd_row := Ipd { ipd_fct : Z; ipd_bb : Z; ipd_ipd : Z; ipd_last : Z }.

Definition ipd_text (r : ipd_row) : text :=
  percent_u (ipd_fct r) ++ [space] ++ percent_u (ipd_bb r) ++ [space] ++
  percent_u (ipd_ipd r) ++ [space] ++ percent_u (ipd_last r) ++ [newline].

Definition ipd_of (env : pass_env) (F : function) (cf : CFIFct) (BB : basic_block) : ipd_row :=
  let m := cf_bb_map cf in
  Ipd (cf_id cf) (bb_id m (bb_label BB))
    (match block_ipd env F BB with Some p => bb_id m p | None => 0 end) (last_block_id F m).

Definition ipds_of (env : pass_env) (st : ControlFlowIntegrity) : list ipd_row :=
  order env _ (_FunctionMap st) ≫= λ it,
    match getFunction (_M st) it.1 with
    | Some F => if checked_blocks st F then ipd_of env F it.2 <$> fn_blocks F else []
    | None => []
    end.

Section Text.
Context (env : pass_env) (Henv : env_ok env) (st : ControlFlowIntegrity) (Hst : sound_map st).

(** The text of the lists that each function gives. *)
Lemma concat_map_bind {A B} (f : A → list B) (h : B → text) (l : list A) :
  concat ((λ a, concat (h <$> f a)) <$> l) = concat (h <$> (l ≫= f)).
Proof.
  induction l as [|a l IH]; [done|]. cbn [fmap list_fmap concat]. rewrite IH.
  change ((a :: l) ≫= f) with (f a ++ (l ≫= f)). by rewrite fmap_app, concat_app.
Qed.

Lemma writeAllowedBBTrans_spec :
  writeAllowedBBTrans env st = Ok (concat (section_text <$> sections_of env st)).
Proof using Henv Hst.
  unfold writeAllowedBBTrans, sections_of. rewrite <- concat_map_bind.
  rewrite (pass_fold_concat _ (λ it : name * CFIFct, concat (section_text <$>
    match getFunction (_M st) it.1 with
    | Some F => if checked_blocks st F then [section_of F it.2] else [] | None => [] end))); [done|].
  intros out [f cf] Hit%(order_FunctionMap env Henv). cbn [fst snd] in *.
  destruct (Hst f cf Hit) as (_ & _ & _ & F & HF & _).
  rewrite (fun_of_eq st f cf F Hst Hit HF), HF. cbn [mbind pass_bind]. rewrite bbtrans_function_eq.
  destruct (checked_blocks st F); [|done]. cbn [fmap list_fmap concat]. by rewrite app_nil_r.
Qed.

Lemma last_block_id_range F : small_function F → 0 <= last_block_id F (numbers_of F) ∧
  (fn_blocks F ≠ [] → last_block_id F (numbers_of F) < Z.of_nat (length (fn_blocks F))).
Proof using Type.
  intros HF. unfold last_block_id. case_match.
  - by apply bb_id_range.
  - split; [done|]. destruct (fn_blocks F); [done|cbn; lia].
Qed.

Lemma ipdom_line_eq F f cf BB : _FunctionMap st !! f = Some cf → fn_name F = f → plain_block BB →
  ipdom_line env st F (cf_bb_map cf) BB = Ok (ipd_text (ipd_of env F cf BB)).
Proof using Hst.
  intros Hf HF [_ Hinv]. destruct (Hst f cf Hf) as (_ & Hr & Hid & _). unfold ipdom_line. rewrite Hinv.
  unfold getIdentifier. rewrite HF, Hid. cbn [mbind pass_bind]. by rewrite percent_d_pos by lia.
Qed.

Lemma ipdom_function_eq out it : _FunctionMap st !! it.1 = Some it.2 →
  ipdom_function env st out it = Ok (out ++ concat (ipd_text <$>
    match getFunction (_M st) it.1 with
    | Some F => if checked_blocks st F then ipd_of env F it.2 <$> fn_blocks F else [] | None => [] end)).
Proof using Hst.
  destruct it as [f cf]. cbn [fst snd]. intros Hf.
  destruct (Hst f cf Hf) as (_ & _ & _ & F & HF & _ & Hn & _ & _ & Hpl).
  unfold ipdom_function. cbn [fst snd]. rewrite (fun_of_eq st f cf F Hst Hf HF), HF. cbn [mbind pass_bind].
  unfold checked_blocks. destruct (isDeclaration F); [by rewrite andb_false_r, app_nil_r|].
  destruct (isIgnoredFunction _ _); [by rewrite app_nil_r|].
  destruct (isIgnoredBlocksFunction _ _); [by rewrite app_nil_r|]. cbn [negb andb].
  rewrite <- list_fmap_compose. apply (pass_fold_concat _ (ipd_text ∘ ipd_of env F cf)).
  intros out' BB HBB. rewrite Forall_forall in Hpl.
  by rewrite (ipdom_line_eq F f cf BB) by (done || by apply Hpl, list_elem_of_In).
Qed.

Lemma writeIPDOMToFile_spec files : opens_ipdom env = true →
  writeIPDOMToFile env files st = Ok (CfiFiles (f_fctid files) (f_trans files) (f_bbtrans files)
    (Some (default [] (f_ipdom files) ++ concat (ipd_text <$> ipds_of env st)))).
Proof using Henv Hst.
  intros Ho. unfold writeIPDOMToFile. rewrite Ho. cbn [cassert orb mbind pass_bind].
  rewrite (pass_fold_concat _ (λ it : name * CFIFct, concat (ipd_text <$>
    match getFunction (_M st) it.1 with
    | Some F => if checked_blocks st F then ipd_of env F it.2 <$> fn_blocks F else [] | None => [] end))).
  - cbn [mbind pass_bind app]. rewrite concat_map_bind. done.
  - intros out it Hit%(order_FunctionMap env Henv). by apply ipdom_function_eq.
Qed.

End Text.

(** ** What the sections hold *)

(** Block [j] may follow block [i] of [F], by their numbers. *)
Definition jumps (F : function) (i j : Z) : Prop :=
  ∃ (a b : nat) B B', i = Z.of_nat a ∧ j = Z.of_nat b ∧ fn_blocks F !! a = Some B ∧
    fn_blocks F !! b = Some B' ∧ bb_label B' ∈ successors (bb_term B).

(** The branches of [F] stay in it, and never lead to its entry. *)
Definition closed_function (F : function) : Prop :=
  ∀ B l, B ∈ fn_blocks F → l ∈ successors (bb_term B) → l ∈ tail (bb_label <$> fn_blocks F).

Lemma closed_target F B l : closed_function F → B ∈ fn_blocks F → l ∈ successors (bb_term B) →
  ∃ b B', (0 < b)%nat ∧ fn_blocks F !! b = Some B' ∧ bb_label B' = l.
Proof.
  intros Hc HB Hl. specialize (Hc B l HB Hl). destruct (fn_blocks F) as [|B0 bs]; [by apply elem_of_nil in HB|].
  cbn in Hc. apply list_elem_of_fmap in Hc as (B' & -> & Hin). apply list_elem_of_lookup in Hin as [b Hb].
  exists (S b), B'. split; [lia|done].
Qed.

Section Rows.
Context (F : function) (HF : small_function F) (Hc : closed_function F).

Let m := numbers_of F.

Lemma block_row_inv B r : B ∈ fn_blocks F → block_row m B = Some r →
  ∃ i, fn_blocks F !! i = Some B ∧ r.1 = Z.of_nat i ∧ successors (bb_term B) ≠ [] ∧
    r.2 = bb_id m <$> successors (bb_term B).
Proof using HF.
  intros HB Hr. apply list_elem_of_lookup in HB as [i Hi]. exists i. split; [done|].
  unfold block_row in Hr. destruct (successors (bb_term B)) as [|l ls] eqn:E; [done|].
  injection Hr as <-. cbn [fst snd]. split; [by apply bb_id_position|done].
Qed.

(** The rows of all blocks. *)
Let rows := omap (block_row m) (fn_blocks F).

Lemma rows_lists i j : row_lists rows i j ↔ jumps F i j.
Proof using HF Hc.
  unfold row_lists, rows, jumps. split.
  - intros (js & (B & HB & Hr)%list_elem_of_omap & Hj).
    destruct (block_row_inv B _ HB Hr) as (a & Ha & Hi & _ & Hjs). cbn in Hi, Hjs. subst js.
    apply list_elem_of_fmap in Hj as (l & -> & Hl).
    destruct (closed_target F B l Hc HB Hl) as (b & B' & _ & Hb & <-).
    exists a, b, B, B'. split; [done|]. split; [by apply bb_id_position|done].
  - intros (a & b & B & B' & -> & -> & Ha & Hb & Hl).
    exists (bb_id m <$> successors (bb_term B)). split.
    + apply list_elem_of_omap. exists B. split; [by eapply list_elem_of_lookup_2|]. unfold block_row.
      rewrite (bb_id_position F a B HF Ha : bb_id m (bb_label B) = Z.of_nat a). destruct (successors (bb_term B)); [by apply elem_of_nil in Hl|done].
    + apply list_elem_of_fmap. exists (bb_label B'). split; [|done]. symmetry. by apply bb_id_position.
Qed.

Lemma rows_keys_sorted : ∀ bs k, (∀ i B, bs !! i = Some B → bb_id m (bb_label B) = k + Z.of_nat i) →
  NoDup (omap (block_row m) bs).*1 ∧ (∀ r, r ∈ omap (block_row m) bs → k <= r.1).
Proof using Type.
  induction bs as [|B bs IH]; intros k Hk; cbn [omap list_omap].
  { split; [constructor|]. by intros r H%elem_of_nil. }
  destruct (IH (k + 1)) as [Hnd Hge].
  { intros i B' Hi. rewrite (Hk (S i) B' Hi). lia. }
  destruct (block_row m B) as [r|] eqn:Hr; [|split; [done|]; intros r H%Hge; lia].
  assert (Hr1 : r.1 = k).
  { pose proof (Hk 0%nat B eq_refl) as H0. unfold block_row in Hr.
    destruct (successors (bb_term B)); [done|]. injection Hr as <-. cbn. lia. }
  split.
  - cbn. constructor; [|done]. intros (r' & E & Hin%Hge)%list_elem_of_fmap. lia.
  - intros r' [->|H%Hge]%elem_of_cons; lia.
Qed.

Lemma rows_wf : NoDup rows.*1 ∧ ∀ r, r ∈ rows → 0 <= r.1 < fn_size F ∧ r.2 ≠ [] ∧
  Forall (λ j, 0 < j < fn_size F) r.2.
Proof using HF Hc.
  split.
  - apply (rows_keys_sorted (fn_blocks F) 0). intros i B Hi. by apply bb_id_position.
  - intros r (B & HB & Hr)%list_elem_of_omap.
    destruct (block_row_inv B _ HB Hr) as (a & Ha & -> & Hne & ->). unfold fn_size.
    split; [apply lookup_lt_Some in Ha; lia|]. split; [by intros ?%fmap_nil_inv|].
    apply Forall_forall. intros j Hj%list_elem_of_In. apply list_elem_of_fmap in Hj as (l & -> & Hl).
    destruct (closed_target F B l Hc HB Hl) as (b & B' & Hb0 & Hb & <-). unfold m.
    rewrite (bb_id_position F b B' HF Hb). apply lookup_lt_Some in Hb. lia.
Qed.

(** A function of one block has no row. *)
Lemma rows_single : fn_size F = 1 → rows = [].
Proof using HF Hc.
  intros H1. destruct rows as [|r rs] eqn:E; [done|].
  destruct (proj2 rows_wf r) as (_ & Hne & Hall); [rewrite E; by left|].
  destruct r.2 as [|j js]; [done|]. apply Forall_cons_1 in Hall as [? _]. lia.
Qed.

Lemma section_rows cf : cf_bb_map cf = numbers_of F → sec_rows (section_of F cf) = rows.
Proof using HF Hc.
  intros Hm. unfold section_of. rewrite Hm. cbn. case_decide; [|done]. symmetry. by apply rows_single.
Qed.

End Rows.

(** ** The transitions *)

(** The rows of the call graph of this compilation. *)
Definition calls_of (env : pass_env) (st : ControlFlowIntegrity) : list row :=
  match callgraph_map env st with Ok m => callgraph_lines m | Stop _ => [] end.

Section Trans.
Context (env : pass_env) (Henv : env_ok env) (st : ControlFlowIntegrity) (Hst : sound_map st).
Context (Hids : ∀ f id, _IdentifiedFunctions st !! f = Some id → 0 <= id < 2 ^ 31).

Lemma calls_of_spec :
  NoDup (calls_of env st).*1 ∧
  (∀ i j, row_lists (calls_of env st) i j ↔ calls_id st i j) ∧
  ∀ r, r ∈ calls_of env st → r.2 ≠ [] ∧ NoDup r.2 ∧ 0 <= r.1 < 2 ^ 31 ∧ Forall (λ j, 0 <= j < 2 ^ 31) r.2.
Proof using Henv Hst Hids.
  unfold calls_of. destruct (callgraph_map_spec env Henv st Hst) as (m & -> & Hne & He).
  split; [apply callgraph_lines_keys|]. split; [intros i j; by rewrite callgraph_lines_lists|].
  intros [i js] Hr. cbn [fst snd].
  assert (Hi : i ∈ dom m) by (apply callgraph_lines_keys, list_elem_of_fmap; by exists (i, js)).
  apply elem_of_dom in Hi as [s Hs].
  assert (Hj : ∀ j, j ∈ js → 0 <= i < 2 ^ 31 ∧ 0 <= j < 2 ^ 31).
  { intros j Hj. assert (Hl : leads m i j) by (apply callgraph_lines_lists; by exists js).
    apply He in Hl as (f & cf & F & g & Hf & <- & _ & _ & _ & Hg). apply Hids in Hg.
    destruct (Hst f cf Hf) as (_ & ? & _). done. }
  assert (Ejs : js = in_order s).
  { unfold callgraph_lines in Hr. apply list_elem_of_fmap in Hr as (i' & [= -> ->] & _). by rewrite Hs. }
  assert (Hnn : js ≠ []).
  { intros ->. apply (Hne i s Hs). apply set_eq. intros z. rewrite <- in_order_elem, <- Ejs.
    split; [by intros H%elem_of_nil|by intros H%elem_of_empty]. }
  split; [done|]. split; [rewrite Ejs; apply in_order_NoDup|].
  split; [destruct js as [|j js]; [done|]; by apply (Hj j); left|].
  apply Forall_forall. intros j Hj'%list_elem_of_In. by apply Hj.
Qed.

Lemma trans_line_row i js : 0 <= i → Forall (λ j, 0 <= j) js → trans_line i js = row_line (i, js).
Proof using Type.
  intros Hi Hjs. unfold trans_line, row_line. cbn [fst snd]. rewrite percent_d_pos by done.
  assert (concat ((λ j, percent_d j ++ [space]) <$> js) = concat ((λ j, percent_u j ++ [space]) <$> js)) as ->;
    [|done].
  induction Hjs as [|j js Hj _ IH]; [done|]. cbn [fmap list_fmap concat]. by rewrite IH, percent_d_pos.
Qed.

Lemma writeCallgraph_spec : writeCallgraph env st = Ok (concat (row_line <$> calls_of env st)).
Proof using Henv Hst Hids.
  unfold writeCallgraph. destruct calls_of_spec as (_ & _ & Hr). unfold calls_of in *.
  destruct (callgraph_map_spec env Henv st Hst) as (m & Hm & _). rewrite Hm in *. cbn [mbind pass_bind].
  do 2 f_equal. apply list_fmap_ext. intros k [i js] Hk. apply list_elem_of_lookup_2, Hr in Hk as (_ & _ & Hi & Hj).
  cbn in Hi, Hj. apply trans_line_row; [lia|]. eapply Forall_impl; [|exact Hj]. cbn. lia.
Qed.

Lemma writeTransToFile_spec level files : opens_trans env = true → opens_bbtrans env = true →
  writeTransToFile env level files st = Ok (CfiFiles (f_fctid files)
    (Some (default [] (f_trans files) ++ concat (row_line <$> calls_of env st)))
    (if decide (level = BASICBLOCK)
     then Some (default [] (f_bbtrans files) ++ concat (section_text <$> sections_of env st))
     else f_bbtrans files)
    (f_ipdom files)).
Proof using Henv Hst Hids.
  intros Ht Hb. unfold writeTransToFile. rewrite Ht. cbn [cassert orb mbind pass_bind].
  rewrite writeCallgraph_spec. cbn [mbind pass_bind append_file f_fctid f_trans f_bbtrans f_ipdom].
  case_decide; [|done]. rewrite Hb. cbn [cassert orb mbind pass_bind].
  by rewrite writeAllowedBBTrans_spec.
Qed.

End Trans.
