(* ===== verification/Debug.v ===== *)
(** * What is printed for the developers

    The log macros (picon/log.h) and the lines of the traces that they print,
    the messages of the pass (Debug.hh), its dump of the numbers of the blocks
    (IdentifyBB), and the call of printf that the pass can insert
    (DEBUG_PRINT_ON_RUNTIME, which nothing calls). *)

From S2P Require Import Prelude CSem Dot Text Ir Pass PassFiles.
From Stdlib Require Import Strings.Byte.
From Stdlib Require Strings.String.
From stdpp Require Import gmap.
Import Strings.String.StringSyntax.
#[local] Open Scope string_scope.
#[local] Open Scope Z_scope.
#[local] Open Scope list_scope.

(** ** Messages *)

Definition escape_code (s : String.string) : text := x1b :: lit s.

Definition _LOG_STR_ERROR : text := escape_code "[31;01m[error]" ++ escape_code "[00m".
Definition _LOG_STR_DEBUG : text := escape_code "[34;01m[debug]" ++ escape_code "[00m".
Definition _LOG_STR_TRACE : text := escape_code "[33;01m[trace]" ++ escape_code "[00m".
Definition _LOG_STR_MONITOR : text := escape_code "[35;01m[monitor]" ++ escape_code "[00m".
Definition _LOG_STR_CLIENT : text := escape_code "[36;01m[ client]" ++ escape_code "[00m".

Section Build.

(** The macros that a build defines or not.  A message is the text that its
    format and its arguments make; the result is what goes to [stderr]. *)
Context (SILENT CFI_DEBUG : bool).

Definition _LOG (msg : text) : text := if SILENT then [] else msg.

Definition _LOG_ERROR (msg : text) : text := _LOG (_LOG_STR_ERROR ++ [tab] ++ msg).
Definition LOG_ERROR_CLIENT (msg : text) : text := _LOG_ERROR (_LOG_STR_CLIENT ++ [tab] ++ msg).
Definition LOG_ERROR_MONITOR (msg : text) : text := _LOG_ERROR (_LOG_STR_MONITOR ++ [tab] ++ msg).

Definition _LOG_DEBUG (msg : text) : text := if CFI_DEBUG then _LOG (_LOG_STR_DEBUG ++ [tab] ++ msg) else [].
Definition LOG_DEBUG_CLIENT (msg : text) : text := _LOG_DEBUG (_LOG_STR_CLIENT ++ [tab] ++ msg).
Definition LOG_DEBUG_MONITOR (msg : text) : text := _LOG_DEBUG (_LOG_STR_MONITOR ++ [tab] ++ msg).

Definition _LOG_TRACE (msg : text) : text := _LOG (_LOG_STR_TRACE ++ [tab] ++ msg).
Definition LOG_TRACE_MONITOR (msg : text) : text := _LOG_TRACE (_LOG_STR_MONITOR ++ [tab] ++ msg).

(** [%6u] *)
Definition percent_6u (z : Z) : text := replicate (6 - length (percent_u z)) space ++ percent_u z.

(** The lines of [call_stack_trace] and [block_stack_trace]; [p] is the address
    as [%p] prints it. *)
Definition call_trace_line (p : text) (module function : Z) : text :=
  LOG_TRACE_MONITOR (lit "module=" ++ percent_6u module ++ lit "  function=" ++ percent_6u function ++
                     lit "  blocks_sp=0x" ++ p ++ [newline]).
Definition block_trace_line (p : text) (block : Z) : text :=
  LOG_TRACE_MONITOR (lit "@0x" ++ p ++ lit "  block=" ++ percent_6u block ++ [newline]).

(** What a visible effect of the monitor writes on [stderr]. *)
Definition stderr_of (p : text) (e : out_event) : text :=
  match e with
  | OTraceCall module function => call_trace_line p module function
  | OTraceBlock block => block_trace_line p block
  | _ => []
  end.

(** The kinds of messages. *)
Inductive log_kind := ErrorClient | ErrorMonitor | DebugClient | DebugMonitor | TraceMonitor.

Definition logged (k : log_kind) (msg : text) : text :=
  match k with
  | ErrorClient => LOG_ERROR_CLIENT msg
  | ErrorMonitor => LOG_ERROR_MONITOR msg
  | DebugClient => LOG_DEBUG_CLIENT msg
  | DebugMonitor => LOG_DEBUG_MONITOR msg
  | TraceMonitor => LOG_TRACE_MONITOR msg
  end.

(** Is a kind of messages compiled in? *)
Definition enabled (k : log_kind) : bool :=
  negb SILENT && match k with DebugClient | DebugMonitor => CFI_DEBUG | _ => true end.

(** A message that is printed tells its kind and its text. *)
Lemma logged_tells k1 k2 m1 m2 : enabled k1 = true → enabled k2 = true →
  logged k1 m1 = logged k2 m2 → k1 = k2 ∧ m1 = m2.
Proof using Type.
  unfold enabled, logged, LOG_ERROR_CLIENT, LOG_ERROR_MONITOR, LOG_DEBUG_CLIENT, LOG_DEBUG_MONITOR, LOG_TRACE_MONITOR,
    _LOG_ERROR, _LOG_DEBUG, _LOG_TRACE, _LOG.
  destruct SILENT, CFI_DEBUG, k1, k2; cbn [negb andb]; intros H1 H2 H; try done; vm_compute in H; try discriminate H;
    injection H as ->; done.
Qed.

Lemma logged_nothing k msg : enabled k = false → logged k msg = [].
Proof using Type.
  unfold enabled, logged, LOG_ERROR_CLIENT, LOG_ERROR_MONITOR, LOG_DEBUG_CLIENT, LOG_DEBUG_MONITOR, LOG_TRACE_MONITOR,
    _LOG_ERROR, _LOG_DEBUG, _LOG_TRACE, _LOG.
  by destruct SILENT, CFI_DEBUG, k.
Qed.

End Build.

(** ** The header *)

(** The macros of the first branch of its guard. *)
Definition guarded_macros : list text :=
  lit <$> ["__LOG_H__"; "_LOG_STR_ERROR"; "_LOG_STR_DEBUG"; "_LOG_STR_TRACE"; "_LOG_STR_MONITOR"; "_LOG_STR_CLIENT"; "_LOG";
           "_LOG_ERROR"; "LOG_ERROR_CLIENT"; "LOG_ERROR_MONITOR"; "_LOG_DEBUG"; "LOG_DEBUG_CLIENT"; "LOG_DEBUG_MONITOR";
           "_LOG_TRACE"].

(** The macros that are defined after an inclusion of log.h: the [#else] of the
    guard keeps [LOG_TRACE_MONITOR] for the inclusions after the first. *)
Definition log_h (defined : gset text) : gset text :=
  (if decide (lit "__LOG_H__" ∉ defined) then list_to_set guarded_macros else {[lit "LOG_TRACE_MONITOR"]}) ∪ defined.

(** One inclusion is not enough for the traces; shared.h and defs.h make two. *)
Lemma trace_after_two defined : lit "__LOG_H__" ∉ defined → lit "LOG_TRACE_MONITOR" ∉ defined →
  lit "LOG_TRACE_MONITOR" ∉ log_h defined ∧ lit "LOG_TRACE_MONITOR" ∈ log_h (log_h defined).
Proof.
  intros Hg Ht. assert (H1 : log_h defined = list_to_set guarded_macros ∪ defined) by (unfold log_h; by rewrite decide_True).
  assert (Hno : lit "LOG_TRACE_MONITOR" ∉ guarded_macros) by (apply (bool_decide_unpack _); vm_compute; exact I).
  split; [rewrite H1; set_solver|]. unfold log_h at 1. rewrite decide_False; [set_solver|]. intros Hn. apply Hn. rewrite H1.
  apply elem_of_union_l, elem_of_list_to_set. by left.
Qed.

(** ** The messages of the pass *)

(** [ON_DEBUG], at line [line] of [file], in a build with [NDEBUG] or not. *)
Definition ON_DEBUG (NDEBUG : bool) (file : text) (line : Z) (more_info : bool) (msg : text) : text :=
  if NDEBUG then []
  else if more_info then lit "DEBUG" ++ file ++ lit "(" ++ percent_d line ++ lit ") " ++ msg
  else msg.

(** Those of [IdentifyFunctions]. *)
Definition fctid_message (NDEBUG : bool) (file _fun_id_file : text) : text :=
  ON_DEBUG NDEBUG file 391 true (lit "IdentifyFunctions: " ++ _fun_id_file ++ [newline]).
Definition identified_message (NDEBUG : bool) (file : text) (F : function) (id : Z) : text :=
  ON_DEBUG NDEBUG file 420 true (fn_name F ++ lit " with identifier " ++ percent_u (u32 id) ++ [newline]).

(** ** The numbers of the blocks *)

Section IdentifyBB.

(** [BB.getName()] *)
Context (block_name : name → label → text).

Definition block_line (F : function) (BB : basic_block) (Identifier : Z) : text :=
  block_name (fn_name F) (bb_label BB) ++ lit " with identifier " ++ percent_d Identifier ++ lit " has " ++
  percent_u (Z.of_nat (S (length (bb_insts BB)))) ++ lit " Instructions" ++ [newline].

(** The loop over the blocks. *)
Fixpoint identify_blocks (F : function) (bbs : list basic_block) (Identifier : Z) : text :=
  match bbs with
  | [] => []
  | BB :: bbs => block_line F BB Identifier ++ identify_blocks F bbs (s32 (Identifier + 1))
  end.

Definition identify_function (F : function) : text :=
  if isDeclaration F then fn_name F ++ lit " is a declaration" ++ [newline]
  else [newline; newline] ++ lit "Identifier BB of " ++ fn_name F ++ [newline; newline] ++ identify_blocks F (fn_blocks F) 0.

Definition IdentifyBB (M : ir_module) : text := (m_functions M ≫= identify_function) ++ [newline].

Lemma identify_blocks_from F bbs : ∀ k m, NoDup (bb_label <$> bbs) → 0 <= k → k + Z.of_nat (length bbs) < 2 ^ 31 →
  identify_blocks F bbs k = concat ((λ BB, block_line F BB (default 0 (number_blocks bbs k m !! bb_label BB))) <$> bbs).
Proof using Type.
  induction bbs as [|BB bbs IH]; intros k m Hnd Hk Hlen; [done|]. cbn [identify_blocks fmap list_fmap concat number_blocks length] in *.
  apply list.NoDup_cons in Hnd as [Hni Hnd].
  assert (Hu : u32 (k + 1) = k + 1) by (unfold u32; apply Z.mod_small; lia).
  assert (Hs : s32 (k + 1) = k + 1) by (unfold s32; rewrite Hu, decide_True; lia).
  rewrite Hu, Hs. f_equal.
  - rewrite number_blocks_other by done. by rewrite lookup_insert_eq.
  - rewrite (IH (k + 1) (<[bb_label BB:=k]> m)) by (done || lia). done.
Qed.

(** The numbers printed are those that the pass gives to the blocks. *)
Lemma IdentifyBB_numbers F : NoDup (bb_label <$> fn_blocks F) → Z.of_nat (length (fn_blocks F)) < 2 ^ 31 →
  identify_blocks F (fn_blocks F) 0 =
    concat ((λ BB, block_line F BB (default 0 (number_blocks (fn_blocks F) 0 ∅ !! bb_label BB))) <$> fn_blocks F).
Proof using Type. intros Hnd Hlen. by apply identify_blocks_from. Qed.

End IdentifyBB.

(** ** A call of printf *)

(** The format; the pass makes a constant of it, with its final zero. *)
Definition debug_format : text := lit "salut : %x" ++ [newline; x00].

(** The instructions inserted before [Where], the one of position [n]. *)
Definition DEBUG_PRINT_ON_RUNTIME (retVal : value) (M : ir_module) (n : nat) (BB : basic_block) : pass basic_block :=
  match getFunction M (lit "printf") with
  | None => Stop BadOperand
  | Some func_printf =>
      Ok (BasicBlock (bb_label BB)
            (take n (bb_insts BB) ++ [OtherInst; OtherInst; CallInst (fn_name func_printf) [OtherValue; retVal]] ++
             drop n (bb_insts BB))
            (bb_term BB))
  end.

(** The array that holds the format has its size. *)
Lemma debug_format_size : length debug_format = 12%nat.
Proof. reflexivity. Qed.
