(* ===== verification/InjectSpec.v ===== *)
(** * What instrumentation makes of a function

    The calls of the support that surround each call, each block and the body
    of a function, written as functions of the code they instrument; and that
    this is what [InjectCode] leaves in the module. *)

From S2P Require Import Prelude CSem Dot Text Ir Pass Injector PassTable PassAnalysis PassFiles.
From Stdlib Require Import Strings.Byte.
From Stdlib Require Strings.String.
Import Strings.String.StringSyntax.
#[local] Open Scope string_scope.
#[local] Open Scope Z_scope.
#[local] Open Scope list_scope.

(** ** Instrumented code *)

(** The identifier of a function that has one. *)
Definition ident (st : ControlFlowIntegrity) (f : name) : Z := default (-1) (_IdentifiedFunctions st !! f).

(** An instruction between the signals of the call it makes. *)
Definition mark (st : ControlFlowIntegrity) (inst : instruction) : list instruction :=
  match inst with
  | CallInst NF _ =>
      if isIgnoredFunction st NF then [inst]
      else [CallInst n_CALL [id_operand (ident st NF)]; inst;
            CallInst n_RETURNED [id_operand (ident st NF)]]
  | _ => [inst]
  end.

Definition mark_insts (st : ControlFlowIntegrity) (insts : list instruction) : list instruction :=
  insts ≫= mark st.

Lemma mark_insts_cons st inst insts : mark_insts st (inst :: insts) = mark st inst ++ mark_insts st insts.
Proof. done. Qed.

Definition mark_block (st : ControlFlowIntegrity) (BB : basic_block) : basic_block :=
  set_insts (mark_insts st (bb_insts BB)) BB.

(** The signals of the jumps of function [id]. *)
Definition jump_blocks (id : Z) (bbs : list basic_block) : list basic_block :=
  match bbs with
  | [] | [_] => bbs
  | First :: bbs => leave_blocks id 0 (First :: enter_blocks id 1 bbs)
  end.

Definition prolog (id : Z) : list instruction :=
  [IntrinsicInst n_returnaddress [ConstInt 0] (lit "saved_retaddr_prolog");
   CallInst n_ENTER [id_operand id; ResultOf (lit "saved_retaddr_prolog")]].
Definition epilog (id : Z) : list instruction :=
  [IntrinsicInst n_returnaddress [ConstInt 0] (lit "saved_retaddr_epilog");
   CallInst n_EXIT [id_operand id; ResultOf (lit "saved_retaddr_epilog")]].

Definition entry_blocks (id : Z) (bbs : list basic_block) : list basic_block :=
  match bbs with
  | [] => []
  | Entry :: rest => set_insts (insert_after is_phi (prolog id) (bb_insts Entry)) Entry :: rest
  end.

Definition exit_blocks (id : Z) (bbs : list basic_block) : list basic_block :=
  map_last (λ BB, set_insts (bb_insts BB ++ epilog id) BB) bbs.

(** The blocks are announced. *)
Definition announces (st : ControlFlowIntegrity) (level : Z) (f : name) : bool :=
  bool_decide (level = BASICBLOCK) && negb (isIgnoredBlocksFunction st f).

Definition instrument (st : ControlFlowIntegrity) (level : Z) (id : Z) (F : function) : function :=
  let bbs := mark_block st <$> fn_blocks F in
  let bbs := if announces st level (fn_name F) then jump_blocks id bbs else bbs in
  set_blocks_of (exit_blocks id (entry_blocks id bbs)) F.

(** ** Support functions *)

Definition has_support (M : ir_module) : Prop := ∀ n, n ∈ prototypes → is_Some (getFunction M n).

(** Every call of a block is of an ignored or of an identified function. *)
Definition known_calls (st : ControlFlowIntegrity) (BB : basic_block) : Prop :=
  ∀ g args, CallInst g args ∈ bb_insts BB →
    isIgnoredFunction st g = true ∨ is_Some (_IdentifiedFunctions st !! g).

Section Inject.
Context (env : pass_env) (st : ControlFlowIntegrity).

Lemma getIdentifier_ident f : is_Some (_IdentifiedFunctions st !! f) → getIdentifier env f st = Ok (ident st f).
Proof using Type. intros [id Hid]. unfold getIdentifier, ident. by rewrite Hid. Qed.

(** The return of the call that is pending. *)
Definition pending_return (pending : option name) : list instruction :=
  match pending with None => [] | Some NF => [CallInst n_RETURNED [id_operand (ident st NF)]] end.

Definition known_pending (pending : option name) : Prop :=
  match pending with None => True | Some NF => is_Some (_IdentifiedFunctions st !! NF) end.

Lemma returned_call_eq pending : known_pending pending →
  returned_call env st pending = Ok (pending_return pending).
Proof using Type. destruct pending as [f|]; [|done]. intros H. cbn. by rewrite getIdentifier_ident. Qed.

Lemma mcall_insts_eq insts : ∀ pending, known_pending pending → Forall plain_instruction insts →
  (∀ g args, CallInst g args ∈ insts → isIgnoredFunction st g = true ∨ is_Some (_IdentifiedFunctions st !! g)) →
  ∃ l pending', mcall_insts env st pending insts = Ok (l, pending') ∧ known_pending pending' ∧
    l ++ pending_return pending' = pending_return pending ++ mark_insts st insts.
Proof using Type.
  induction insts as [|inst insts IH]; intros pending Hp Hpl Hk.
  { exists [], pending. split; [done|]. split; [done|]. by rewrite app_nil_r. }
  apply Forall_cons_1 in Hpl as [Hpi Hpl]. cbn [mcall_insts]. rewrite returned_call_eq by done.
  cbn [mbind pass_bind]. rewrite mark_insts_cons.
  assert (Hnone : ∃ l pending', (r ← mcall_insts env st None insts;
      let '(rest, pending') := r in Ok (pending_return pending ++ [] ++ inst :: rest, pending')) =
      Ok (l, pending') ∧ known_pending pending' ∧
    l ++ pending_return pending' = pending_return pending ++ [inst] ++ mark_insts st insts).
  { destruct (IH None) as (l & pending' & -> & Hp' & E); [done|done|by intros; eapply Hk; right|].
    cbn [mbind pass_bind]. eexists _, _. split; [done|]. split; [done|]. cbn in E.
    rewrite <- E, <- !app_assoc. done. }
  destruct inst as [| |f args r|f args| | |]; try exact Hnone; [|by destruct Hpi].
  cbn [mark]. destruct (isIgnoredFunction st f) eqn:Hig; [cbn [mbind pass_bind]; exact Hnone|].
  destruct (Hk f args) as [H|H]; [by left|congruence|].
  rewrite getIdentifier_ident by done. cbn [mbind pass_bind].
  destruct (IH (Some f)) as (l & pending' & -> & Hp' & E); [done|done|by intros; eapply Hk; right|].
  cbn [mbind pass_bind]. eexists _, _. split; [done|]. split; [done|]. cbn in E.
  rewrite <- !app_assoc. cbn [app]. by rewrite E.
Qed.

Lemma mcall_block_eq BB : plain_block BB → known_calls st BB →
  mcall_block env st BB = Ok (mark_block st BB).
Proof using Type.
  intros [Hpl Hinv] Hk. unfold mcall_block.
  destruct (mcall_insts_eq (bb_insts BB) None) as (l & pending & -> & Hp & E); [done|done|exact Hk|].
  cbn [mbind pass_bind]. rewrite returned_call_eq by done. cbn [mbind pass_bind].
  rewrite Hinv. cbn [negb cassert orb mbind pass_bind]. by rewrite E.
Qed.

Lemma mcall_blocks_eq bbs : Forall plain_block bbs → Forall (known_calls st) bbs →
  mcall_blocks env st bbs = Ok (mark_block st <$> bbs).
Proof using Type.
  induction bbs as [|BB bbs IH]; intros Hpl Hk; [done|]. apply Forall_cons_1 in Hpl as [? Hpl].
  apply Forall_cons_1 in Hk as [? Hk]. cbn [mcall_blocks fmap list_fmap].
  rewrite mcall_block_eq by done. cbn [mbind pass_bind]. by rewrite IH.
Qed.

Context (M : ir_module) (HM : has_support M).

Lemma support_ok n msg : n ∈ prototypes → support env M n msg = Ok ().
Proof using HM. intros [F HF]%HM. unfold support. by rewrite HF. Qed.

Lemma retaddr_call_ok n msg r id : n ∈ prototypes →
  retaddr_call env M n msg r id =
    Ok [IntrinsicInst n_returnaddress [ConstInt 0] r; CallInst n [id_operand id; ResultOf r]].
Proof using HM. intros [F HF]%HM. unfold retaddr_call. by rewrite HF. Qed.

Lemma injectMcall_eq F : isIgnoredFunction st (fn_name F) = false → Forall plain_block (fn_blocks F) →
  Forall (known_calls st) (fn_blocks F) →
  injectMcall env st M F = Ok (set_blocks_of (mark_block st <$> fn_blocks F) F).
Proof using HM.
  intros Hig Hpl Hk. unfold injectMcall.
  rewrite !support_ok by (by repeat (left || right)). cbn [mbind pass_bind]. rewrite Hig.
  by rewrite mcall_blocks_eq.
Qed.

(** The two passes over the blocks of a function that has several. *)
Lemma inject_jumps_eq F : is_Some (_IdentifiedFunctions st !! fn_name F) →
  (F1 ← injectBBEnter env st M F; injectBBLeave env st M F1) =
    Ok (set_blocks_of (jump_blocks (ident st (fn_name F)) (fn_blocks F)) F).
Proof using HM.
  intros Hid. unfold injectBBEnter, injectBBLeave.
  rewrite support_ok by (by repeat (left || right)). cbn [mbind pass_bind].
  destruct (fn_blocks F) as [|B0 [|B1 bs]] eqn:Hb.
  1,2: cbn [mbind pass_bind]; rewrite support_ok by (by repeat (left || right));
    cbn [mbind pass_bind]; rewrite Hb; f_equal; destruct F; cbn in *; by subst.
  rewrite getIdentifier_ident by done. cbn [mbind pass_bind].
  rewrite support_ok by (by repeat (left || right)). cbn [mbind pass_bind set_blocks_of fn_blocks fn_name].
  cbn [enter_blocks]. rewrite getIdentifier_ident by done. done.
Qed.

Lemma jump_blocks_nil id bbs : jump_blocks id bbs = [] ↔ bbs = [].
Proof using Type. destruct bbs as [|? [|? ?]]; done. Qed.

Lemma entry_blocks_nil id bbs : entry_blocks id bbs = [] ↔ bbs = [].
Proof using Type. by destruct bbs. Qed.

Lemma inject_ends_eq id F : fn_blocks F ≠ [] →
  (F1 ← injectMentry env M F id; injectMexit env M F1 id) =
    Ok (set_blocks_of (exit_blocks id (entry_blocks id (fn_blocks F))) F).
Proof using HM.
  intros Hb. unfold injectMentry, injectMexit. destruct (fn_blocks F) as [|B0 bs]; [done|].
  rewrite retaddr_call_ok by (by repeat (left || right)). cbn [mbind pass_bind set_blocks_of fn_blocks].
  by rewrite retaddr_call_ok by (by repeat (left || right)).
Qed.

Lemma inject_function_eq level F id : isIgnoredFunction st (fn_name F) = false →
  _IdentifiedFunctions st !! fn_name F = Some id → Forall plain_block (fn_blocks F) →
  Forall (known_calls st) (fn_blocks F) →
  inject_function env st level M F id = Ok (if isDeclaration F then F else instrument st level id F).
Proof using HM.
  intros Hig Hid Hpl Hk. unfold inject_function. rewrite injectMcall_eq by done. cbn [mbind pass_bind].
  unfold isDeclaration. cbn [set_blocks_of fn_blocks fn_name].
  destruct (fn_blocks F) as [|B0 bs] eqn:Hb.
  { f_equal. destruct F; cbn in *; by subst. }
  rewrite <- Hb. assert (Hne : mark_block st <$> fn_blocks F ≠ []) by (by rewrite Hb).
  assert (E : (mark_block st <$> fn_blocks F) = mark_block st B0 :: (mark_block st <$> bs)) by by rewrite Hb.
  rewrite E. rewrite <- E. unfold instrument, announces.
  destruct (bool_decide (level = BASICBLOCK) && _).
  - change (set_blocks_of ?x F) with (set_blocks_of x F).
    pose proof (inject_jumps_eq (set_blocks_of (mark_block st <$> fn_blocks F) F)) as Hj.
    cbn [set_blocks_of fn_name fn_blocks fn_intrinsic fn_linkage fn_visibility] in Hj.
    rewrite Hj by by eexists. cbn [mbind pass_bind].
    unfold ident. rewrite Hid. cbn [default]. rewrite inject_ends_eq; [done|]. cbn. by rewrite jump_blocks_nil.
  - cbn [mbind pass_bind]. by rewrite inject_ends_eq.
Qed.

End Inject.

(** ** The module *)

Lemma getFunction_app M fs f :
  getFunction (set_functions_of (m_functions M ++ fs) M) f =
    match getFunction M f with
    | Some F => Some F
    | None => find (λ F, bool_decide (fn_name F = f)) fs
    end.
Proof.
  unfold getFunction. cbn. induction (m_functions M) as [|F Fs IH]; [done|]. cbn. by case_bool_decide.
Qed.

Lemma getFunction_None M f : f ∉ fn_name <$> m_functions M ↔ getFunction M f = None.
Proof.
  unfold getFunction. induction (m_functions M) as [|F Fs IH]; cbn; [by split; [|intros _ ?%elem_of_nil]|].
  case_bool_decide as E; split.
  - intros H. destruct H. rewrite E. by left.
  - done.
  - intros H. apply IH. intros Hin. apply H. by right.
  - intros H [Hin|Hin]%elem_of_cons; [by apply E|]. by apply IH in H.
Qed.

(** A change of one function. *)
Lemma getFunction_update M f g h : (∀ F, fn_name F = f → fn_name (h F) = f) →
  getFunction (update_function f h M) g = if decide (g = f) then h <$> getFunction M g else getFunction M g.
Proof.
  intros Hh. unfold getFunction, update_function. cbn. induction (m_functions M) as [|F Fs IH]; cbn.
  { by case_decide. }
  destruct (decide (fn_name F = f)) as [E|E].
  - rewrite (Hh F E), E. case_bool_decide; case_decide; congruence || done.
  - case_bool_decide as Hg; [|done]. rewrite decide_False by congruence. done.
Qed.

Definition declared (n : name) : function := MkFunction n false [] ExternalLinkage DefaultVisibility.

Section Code.
Context (env : pass_env) (Henv : env_ok env).

Lemma create_functions_spec ns : ∀ M, NoDup ns → (∀ n, n ∈ ns → getFunction M n = None) →
  ∀ f, getFunction (foldl (create_function env) M ns) f =
    if decide (f ∈ ns) then Some (declared f) else getFunction M f.
Proof using Henv.
  induction ns as [|n ns IH]; intros M Hnd Hfree f; cbn [foldl].
  { rewrite decide_False; [done|]. by intros ?%elem_of_nil. }
  apply NoDup_cons_1_1 in Hnd as Hn. apply NoDup_cons_1_2 in Hnd.
  assert (E : ∀ g, getFunction (create_function env M n) g =
    if decide (g = n) then Some (declared n) else getFunction M g).
  { intros g. unfold create_function. rewrite (proj2 Henv) by (apply getFunction_None, Hfree; by left).
    rewrite getFunction_app. cbn. destruct (decide (g = n)) as [->|Hne].
    - rewrite Hfree by by left. by rewrite bool_decide_true.
    - destruct (getFunction M g); [done|]. by rewrite bool_decide_false by congruence. }
  rewrite IH; [|done|].
  - rewrite E. repeat case_decide; subst; try done; exfalso; set_solver.
  - intros g Hg. rewrite E, decide_False by (intros ->; by apply Hn). apply Hfree. by right.
Qed.

Context (st : ControlFlowIntegrity) (level : Z) (Hst : sound_map st).
Context (Hfree : ∀ n, n ∈ prototypes → getFunction (_M st) n = None).
Context (Hknown : ∀ F, F ∈ m_functions (_M st) → concerned st F → Forall (known_calls st) (fn_blocks F)).

(** What becomes of function [f]: instrumented when it is in [done]. *)
Definition instrumented_in (done : list name) (f : name) : option function :=
  if decide (f ∈ prototypes) then Some (declared f)
  else
    match getFunction (_M st) f, _FunctionMap st !! f with
    | Some F, Some cf =>
        if decide (f ∈ done) then Some (if isDeclaration F then F else instrument st level (cf_id cf) F)
        else Some F
    | o, _ => o
    end.

Lemma injectPrototype_spec f : getFunction (injectPrototype env (_M st)) f = instrumented_in [] f.
Proof using Henv Hfree.
  unfold injectPrototype. rewrite create_functions_spec; [|apply (bool_decide_unpack _); vm_compute; exact I|done].
  unfold instrumented_in. case_decide; [done|]. destruct (getFunction _ _), (_FunctionMap st !! f); try done.
Qed.

(** The module agrees with [g] on every function but the intrinsic. *)
Definition agrees_but_intrinsic (M : ir_module) (g : name → option function) : Prop :=
  ∀ f, f ≠ n_returnaddress → getFunction M f = g f.

Lemma instrumented_in_support M done : agrees_but_intrinsic M (instrumented_in done) → has_support M.
Proof using Type.
  intros HM n Hn. exists (declared n). rewrite HM.
  - unfold instrumented_in. by rewrite decide_True.
  - intros ->. revert Hn. apply (bool_decide_unpack _). vm_compute. exact I.
Qed.

Lemma declare_returnaddress_agrees M g : agrees_but_intrinsic M g → agrees_but_intrinsic (declare_returnaddress M) g.
Proof using Type.
  intros HM f Hf. unfold declare_returnaddress. destruct (getFunction M n_returnaddress); [by apply HM|].
  rewrite getFunction_app, HM by done. destruct (g f); [done|]. cbn [find].
  rewrite bool_decide_false; [done|]. intros E. apply Hf. by rewrite <- E.
Qed.

Lemma instrument_name id F : fn_name (instrument st level id F) = fn_name F.
Proof using Type. done. Qed.

Lemma inject_one_spec done it M :
  _FunctionMap st !! it.1 = Some it.2 → it.1 ∉ done → it.1 ≠ n_returnaddress →
  agrees_but_intrinsic M (instrumented_in done) →
  ∃ M', inject_one env st level M it = Ok M' ∧ agrees_but_intrinsic M' (instrumented_in (done ++ [it.1])).
Proof using Henv Hst Hknown Hfree.
  destruct it as [f cf]. cbn [fst snd]. intros Hf Hnew Hra HM.
  destruct (Hst f cf Hf) as (Hfun & _ & Hid & F & HF & HFin & Hn & Hc & _ & Hpl).
  assert (Hnp : f ∉ prototypes) by (intros Hp; apply Hfree in Hp; congruence).
  assert (HMf : getFunction M f = Some F).
  { rewrite HM by done. unfold instrumented_in. by rewrite decide_False, HF, Hf, decide_False. }
  unfold inject_one. cbn [snd]. rewrite Hfun, HMf.
  rewrite inject_function_eq; [|by eapply instrumented_in_support|by apply Hc|by rewrite Hn|done|by apply Hknown].
  cbn [mbind pass_bind]. set (F' := if isDeclaration F then F else _).
  assert (Hstep : agrees_but_intrinsic (update_function f (λ _, F') M) (instrumented_in (done ++ [f]))).
  { intros g Hg. rewrite getFunction_update by (intros _ _; unfold F'; by destruct (isDeclaration F)).
    case_decide as E.
    - subst g. rewrite HMf. cbn [fmap option_fmap option_map]. unfold instrumented_in.
      rewrite decide_False, HF, Hf, decide_True; [done| |done]. apply elem_of_app. right. by left.
    - rewrite HM by done. unfold instrumented_in. case_decide; [done|].
      destruct (getFunction (_M st) g); [|done]. destruct (_FunctionMap st !! g); [|done].
      assert (g ∈ done ++ [f] ↔ g ∈ done) as Hiff by set_solver.
      by destruct (decide (g ∈ done)), (decide (g ∈ done ++ [f])); tauto. }
  destruct (isDeclaration F); eexists; (split; [done|]); [done|by apply declare_returnaddress_agrees].
Qed.

Lemma inject_all_spec l : ∀ done M, NoDup (done ++ l.*1) →
  (∀ it, it ∈ l → _FunctionMap st !! it.1 = Some it.2 ∧ it.1 ≠ n_returnaddress) →
  agrees_but_intrinsic M (instrumented_in done) →
  ∃ M', pass_fold (inject_one env st level) M l = Ok M' ∧
    agrees_but_intrinsic M' (instrumented_in (done ++ l.*1)).
Proof using Henv Hst Hknown Hfree.
  induction l as [|it l IH]; intros dn M Hnd Hl HM; cbn [pass_fold fmap list_fmap].
  { rewrite app_nil_r. by exists M. }
  cbn [fmap list_fmap] in Hnd. destruct (Hl it) as [Hit Hra]; [by left|].
  assert (Hnew : it.1 ∉ dn).
  { intros Hin. apply list.NoDup_app in Hnd as (_ & Hd & _). apply (Hd _ Hin). by left. }
  destruct (inject_one_spec dn it M Hit Hnew Hra HM) as (M1 & -> & HM1). cbn [mbind pass_bind].
  replace (dn ++ it.1 :: l.*1) with ((dn ++ [it.1]) ++ l.*1) in * by (by rewrite <- app_assoc).
  apply IH; [done| |done]. intros it' Hin. apply Hl. by right.
Qed.

(** The code of the module once it is instrumented. *)
Definition instrumented (f : name) : option function :=
  instrumented_in (map_to_list (_FunctionMap st)).*1 f.

Lemma InjectCode_spec : _FunctionMap st !! n_returnaddress = None →
  ∃ M', InjectCode env st level = Ok M' ∧ agrees_but_intrinsic M' instrumented.
Proof using Henv Hst Hknown Hfree.
  intros Hra. unfold InjectCode.
  destruct (inject_all_spec (order env _ (_FunctionMap st)) [] (injectPrototype env (_M st)))
    as (M' & -> & HM').
  - cbn [app]. rewrite (proj1 Henv). apply NoDup_fst_map_to_list.
  - intros [f cf] Hit%(order_FunctionMap env Henv). split; [done|]. cbn in *. congruence.
  - intros f _. apply injectPrototype_spec.
  - exists M'. split; [done|]. intros f Hf. rewrite HM' by done. unfold instrumented, instrumented_in.
    cbn [app]. case_decide; [done|]. destruct (getFunction _ _); [|done].
    destruct (_FunctionMap st !! f); [|done].
    assert (f ∈ (order env _ (_FunctionMap st)).*1 ↔ f ∈ (map_to_list (_FunctionMap st)).*1) as Hiff.
    { by rewrite (proj1 Henv CFIFct (_FunctionMap st)). }
    by repeat case_decide; tauto.
Qed.

(** Function by function. *)
Lemma instrumented_defined f cf F : _FunctionMap st !! f = Some cf → getFunction (_M st) f = Some F →
  instrumented f = Some (if isDeclaration F then F else instrument st level (cf_id cf) F).
Proof using Hfree.
  intros Hf HF. unfold instrumented, instrumented_in. rewrite decide_False, HF, Hf.
  - rewrite decide_True; [done|]. apply list_elem_of_fmap. exists (f, cf). split; [done|].
    by apply elem_of_map_to_list.
  - intros Hp. apply Hfree in Hp. congruence.
Qed.

End Code.
