(* ===== verification/PassRun.v ===== *)
(** * One compilation

    The outcome of [runOnModule] on a supported module: it never stops, the
    table of functions is extended, the edges of the module are appended to
    the other files, and the module is left instrumented. *)

From S2P Require Import Prelude CSem Dot Text Ir Pass Injector.
From S2P Require Import PassTable PassAnalysis PassFiles InjectSpec.
From Stdlib Require Import Strings.Byte.
From Stdlib Require Strings.String.
Import Strings.String.StringSyntax.
#[local] Open Scope string_scope.
#[local] Open Scope Z_scope.
#[local] Open Scope list_scope.

(** ** What the analysis provides *)

Section Analysed.
Context (M : ir_module) (ignored : gset name) (annotations : list (name * text)) (ctors dtors : list name).
Context (es : list entry) (st : ControlFlowIntegrity).
Context (Hsup : supported M annotations ctors dtors).
Context (Hst : analysed M ignored annotations ctors dtors es st).

Lemma analysed_getFunction f :
  getFunction (_M st) f = expose_in (list_to_set ctors ∪ list_to_set dtors) <$> getFunction M f.
Proof using Hst. apply exposes_getFunction, Hst. Qed.

(** A function of the patched module is one of [M], but for its linkage. *)
Lemma analysed_function F : F ∈ m_functions (_M st) → ∃ G, G ∈ m_functions M ∧
  fn_name F = fn_name G ∧ fn_blocks F = fn_blocks G ∧ fn_intrinsic F = fn_intrinsic G.
Proof using Hst.
  rewrite (an_module _ _ _ _ _ _ _ Hst), list_elem_of_fmap. intros (G & -> & HG). exists G.
  by rewrite expose_in_name, expose_in_blocks, expose_in_intrinsic.
Qed.

Lemma analysed_ids f id : _IdentifiedFunctions st !! f = Some id → 0 <= id < 2 ^ 31.
Proof using Hst.
  destruct (an_write _ _ _ _ _ _ _ Hst) as [Hnum Hctr _ _ _ _]. intros H%Hnum. lia.
Qed.

Lemma analysed_sound : sound_map st.
Proof using Hsup Hst.
  intros f cf Hf. destruct (an_write _ _ _ _ _ _ _ Hst) as [_ _ _ Hmap _ _].
  destruct (Hmap f cf Hf) as (Hfun & Hid & F' & HF'). split; [done|]. split; [by eapply analysed_ids|].
  split; [done|]. destruct (an_map _ _ _ _ _ _ _ Hst f cf Hf) as (G & HG & HGf & Hc & Hbb).
  exists F'. split; [done|]. apply getFunction_elem in HF' as HF2. destruct HF2 as [HF'in HF'n].
  split; [done|]. split; [done|].
  rewrite analysed_getFunction, <- HGf, (getFunction_name M G) in HF' by (done || apply Hsup).
  injection HF' as HF'. rewrite <- HF'. unfold concerned. rewrite expose_in_name, expose_in_intrinsic.
  split; [exact Hc|]. rewrite expose_in_blocks. split; [done|]. by apply (sup_plain _ _ _ _ Hsup).
Qed.

(** A call in the module is of an ignored function or of one that has a number. *)
Lemma analysed_call F B g args : F ∈ m_functions M → B ∈ fn_blocks F → CallInst g args ∈ bb_insts B →
  isIgnoredFunction st g = true ∨ is_Some (_FunctionMap st !! g).
Proof using Hsup Hst.
  intros HF HB Hi. destruct (sup_wf _ _ _ _ Hsup) as [Hnd Hwf].
  destruct (Hwf F HF) as [[_ Hb] _]. destruct (Hb B HB) as [Hins _]. rewrite Forall_forall in Hins.
  destruct (Hins _ (proj1 (list_elem_of_In _ _) Hi)) as (G & HG & Hint).
  apply getFunction_elem in HG as [HG <-]. destruct (isIgnoredFunction st (fn_name G)) eqn:Hig; [by left|].
  right. by apply (an_all _ _ _ _ _ _ _ Hst G HG).
Qed.

Lemma analysed_identified f : is_Some (_FunctionMap st !! f) → is_Some (_IdentifiedFunctions st !! f).
Proof using Hst.
  intros [cf Hf]. destruct (an_write _ _ _ _ _ _ _ Hst) as [_ _ _ Hmap _ _].
  apply Hmap in Hf as (_ & Hid & _). by eexists.
Qed.

Lemma analysed_known F : F ∈ m_functions (_M st) → Forall (known_calls st) (fn_blocks F).
Proof using Hsup Hst.
  intros (G & HG & _ & Hb & _)%analysed_function. rewrite Hb. apply Forall_forall.
  intros B HB%list_elem_of_In g args Hi. destruct (analysed_call G B g args HG HB Hi); [by left|right].
  by apply analysed_identified.
Qed.

Lemma analysed_free n : n ∈ prototypes → getFunction (_M st) n = None.
Proof using Hsup Hst. intros Hn. by rewrite analysed_getFunction, (sup_free _ _ _ _ Hsup). Qed.

Lemma analysed_returnaddress : _FunctionMap st !! n_returnaddress = None.
Proof using Hsup Hst.
  destruct (_FunctionMap st !! n_returnaddress) as [cf|] eqn:Hf; [|done].
  destruct (an_map _ _ _ _ _ _ _ Hst _ cf Hf) as (G & HG & HGf & [_ Hc] & _).
  rewrite (sup_returnaddress _ _ _ _ Hsup G) in Hc; [done|]. rewrite <- HGf.
  apply getFunction_name; [apply Hsup|done].
Qed.

Lemma analysed_small f F : getFunction (_M st) f = Some F → small_function F ∧ closed_function F.
Proof using Hsup Hst.
  intros [HF _]%getFunction_elem. apply analysed_function in HF as (G & HG & _ & Hb & _).
  unfold small_function, closed_function. rewrite Hb.
  destruct (sup_wf _ _ _ _ Hsup) as [_ Hwf]. destruct (Hwf G HG) as [[Hnd Hbl] _].
  split; [split; [done|by apply (sup_sizes _ _ _ _ Hsup)]|].
  intros B l HB Hl. destruct (Hbl B HB) as [_ Hsucc]. rewrite Forall_forall in Hsucc.
  by apply Hsucc, list_elem_of_In.
Qed.

End Analysed.

(** ** The lock *)

(** Whatever the system answers, the pass goes on. *)
Lemma take_lock_ok env lock : take_lock env lock = Ok ().
Proof.
  unfold take_lock. destruct (decide (lock_fd lock < 0)) as [H1|H1];
    destruct (decide (lock_rc lock < 0)) as [H2|H2]; rewrite ?(bool_decide_true (_ < 0)) by done; done.
Qed.

(** ** The pass *)

(** All files can be written. *)
Definition opens_all (env : pass_env) : Prop :=
  opens_fctid env = true ∧ opens_trans env = true ∧ opens_bbtrans env = true ∧ opens_ipdom env = true.

(** The files after a compilation that found [st]. *)
Definition files_after (env : pass_env) (level : Z) (es : list entry) (st : ControlFlowIntegrity)
    (files : cfi_files) : cfi_files :=
  CfiFiles (Some (concat (fctid_line <$> written env es st)))
    (Some (default [] (f_trans files) ++ concat (row_line <$> calls_of env st)))
    (if decide (level = BASICBLOCK)
     then Some (default [] (f_bbtrans files) ++ concat (section_text <$> sections_of env st))
     else f_bbtrans files)
    (Some (default [] (f_ipdom files) ++ concat (ipd_text <$> ipds_of env st))).

Lemma runOnModule_steps env prefix level ign lock M files :
  runOnModule env prefix level ign lock M files =
    st ← analysis env (prefix ++ lit ".fctid") ign M files;
    files ← writeTransToFile env level files st;
    files ← writeFunctionIDs env files st;
    files ← writeIPDOMToFile env files st;
    M ← InjectCode env st level;
    Ok (M, files).
Proof.
  unfold runOnModule. rewrite take_lock_ok. cbn [mbind pass_bind]. unfold analysis.
  destruct (newControlFlowIntegrity _ _ _ _); [|done]. cbn [mbind pass_bind].
  destruct (ParseAnnotations _); [|done]. cbn [mbind pass_bind].
  destruct (IdentifyFunctions _ _ _); [|done]. cbn [mbind pass_bind].
  by destruct (PatchCtorFunctions _).
Qed.

Section Run.
Context (env : pass_env) (Henv : env_ok env) (Hopen : opens_all env).
Context (files : cfi_files) (es : list entry) (n : Z) (Htab : table_file files es n).
Context (prefix : text) (Hword : word (prefix ++ lit ".fctid")).
Context (ign : option text) (ignored : gset name) (Hign : ignored_are env ign ignored).
Context (M : ir_module) (annotations : list (name * text)) (ctors dtors : list name).
Context (Hsup : supported M annotations ctors dtors).
Context (Hlen : n + Z.of_nat (length (m_functions M)) <= 2 ^ 31).
Context (level : Z) (lock : lock_result).

Lemma runOnModule_spec : ∃ st M',
  analysed M ignored annotations ctors dtors es st ∧ _fun_id_file st = prefix ++ lit ".fctid" ∧
  runOnModule env prefix level ign lock M files = Ok (M', files_after env level es st files) ∧
  agrees_but_intrinsic M' (instrumented st level).
Proof using Henv Hopen Htab Hword Hign Hsup Hlen.
  destruct (analysis_spec env files es n Htab _ Hword ign ignored Hign M annotations ctors dtors Hsup Hlen)
    as (st & Han & Hfile & Hst).
  pose proof (analysed_sound _ _ _ _ _ _ _ Hsup Hst) as Hsound.
  destruct (InjectCode_spec env Henv st level Hsound (analysed_free _ _ _ _ _ _ _ Hsup Hst)
    (λ F HF _, analysed_known _ _ _ _ _ _ _ Hsup Hst F HF)
    (analysed_returnaddress _ _ _ _ _ _ _ Hsup Hst)) as (M' & Hinj & HM').
  exists st, M'. split; [done|]. split; [done|]. split; [|done].
  destruct Hopen as (Ho1 & Ho2 & Ho3 & Ho4).
  rewrite runOnModule_steps, Han. cbn [mbind pass_bind].
  rewrite (writeTransToFile_spec env Henv st Hsound) by
    (done || by intros; eapply analysed_ids). cbn [mbind pass_bind].
  rewrite (writeFunctionIDs_eq env Henv _ es n st) by (done || apply Hst). cbn [mbind pass_bind].
  rewrite (writeIPDOMToFile_spec env Henv st Hsound) by done. cbn [mbind pass_bind].
  rewrite Hinj. done.
Qed.

(** The table is one for the next compilation. *)
Lemma files_after_table st : analysed M ignored annotations ctors dtors es st →
  table_file (files_after env level es st files) (written env es st) (_fun_id_ctr st) ∧
  ids_of es ⊆ ids_of (written env es st) ∧ ids_of (written env es st) = _IdentifiedFunctions st.
Proof using Henv Htab.
  intros Hst. pose proof (an_write _ _ _ _ _ _ _ Hst) as Hw.
  pose proof (written_table env Henv files es n st Htab Hw) as Ht.
  pose proof (written_ids env Henv files es n st Htab Hw) as Hi.
  split; [done|]. split; [|done]. rewrite Hi. apply Hw.
Qed.

End Run.
