(* ===== verification/Exec.v ===== *)
(** * Executions of instrumented code

    The signals that the execution of a function sends: those of the calls of
    the support it makes, and those of the functions it calls.  The executions
    of an instrumented function send the signals of an activation, as the
    grammar of the monitor defines it. *)

From S2P Require Import Prelude CSem Wire MonitorData RunSpec Client.
From S2P Require Import Dot Text Ir Pass Injector PassTable PassAnalysis PassFiles InjectSpec.
From Stdlib Require Import Strings.Byte.
From Stdlib Require Strings.String.
Import Strings.String.StringSyntax.
#[local] Open Scope string_scope.
#[local] Open Scope Z_scope.
#[local] Open Scope list_scope.

(** ** Semantics *)

(** The call of the support that the call of [f] is, if it is one. *)
Definition support_call (f : name) (args : list value) : option client_call :=
  match args with
  | [ConstInt a] =>
      if bool_decide (f = n_CALL) then Some (CallCall a)
      else if bool_decide (f = n_RETURNED) then Some (CallReturned a) else None
  | [ConstInt a; ConstInt b] =>
      if bool_decide (f = n_BEFORE_BR) then Some (CallBefore a b)
      else if bool_decide (f = n_AFTER_BR) then Some (CallAfter a b) else None
  | [ConstInt a; _] =>
      if bool_decide (f = n_ENTER) then Some (CallEnter a)
      else if bool_decide (f = n_EXIT) then Some (CallExit a) else None
  | _ => None
  end.

Section Exec.
(** The code runs in module [m] of the process; [callee f tr]: a call of [f]
    may return after the signals [tr]. *)
Context (m : Z) (callee : name → list client_signal → Prop).

(** Signals of an instruction. *)
Definition emits (inst : instruction) (tr : list client_signal) : Prop :=
  match inst with
  | CallInst f args =>
      match support_call f args with
      | Some c => tr = [call_signal m c]
      | None => callee f tr
      end
  | IndirectCallInst => False
  | _ => tr = []
  end.

Fixpoint exec_insts (insts : list instruction) (tr : list client_signal) : Prop :=
  match insts with
  | [] => tr = []
  | inst :: insts => ∃ tr1 tr2, tr = tr1 ++ tr2 ∧ emits inst tr1 ∧ exec_insts insts tr2
  end.

(** From the beginning of a block of [F] until [F] returns. *)
Inductive exec_from (F : function) : basic_block → list client_signal → Prop :=
| exec_return B tr :
    bb_term B = ReturnInst → exec_insts (bb_insts B) tr → exec_from F B tr
| exec_branch B B' tr1 tr2 :
    exec_insts (bb_insts B) tr1 → B' ∈ fn_blocks F → bb_label B' ∈ successors (bb_term B) →
    exec_from F B' tr2 → exec_from F B (tr1 ++ tr2).

Definition exec_function (F : function) (tr : list client_signal) : Prop :=
  ∃ B rest, fn_blocks F = B :: rest ∧ exec_from F B tr.

Lemma exec_insts_app l1 l2 tr :
  exec_insts (l1 ++ l2) tr ↔ ∃ tr1 tr2, tr = tr1 ++ tr2 ∧ exec_insts l1 tr1 ∧ exec_insts l2 tr2.
Proof using Type.
  revert tr. induction l1 as [|i l1 IH]; intros tr; cbn [app exec_insts].
  - split; [intros H; by exists [], tr|]. by intros (tr1 & tr2 & -> & -> & H).
  - split.
    + intros (t1 & t2 & -> & Hi & (t3 & t4 & -> & H3 & H4)%IH). exists (t1 ++ t3), t4.
      split; [by rewrite app_assoc|]. split; [by exists t1, t3|done].
    + intros (t12 & t3 & -> & (t1 & t2 & -> & Hi & H2) & H3). exists t1, (t2 ++ t3).
      split; [by rewrite app_assoc|]. split; [done|]. apply IH. by exists t2, t3.
Qed.

(** Insertion after instructions that send nothing. *)
Lemma exec_insert_after p new l tr :
  (∀ i t, p i = true → emits i t → t = []) →
  exec_insts (insert_after p new l) tr → exec_insts (new ++ l) tr.
Proof using Type.
  intros Hp. revert tr. induction l as [|i l IH]; intros tr; cbn [insert_after]; [by rewrite app_nil_r|].
  destruct (p i) eqn:Hi; [|done]. cbn [exec_insts]. intros (t1 & t2 & -> & He & Hl).
  apply IH in Hl. assert (t1 = []) as -> by by eapply Hp. cbn [app].
  apply exec_insts_app in Hl as (t3 & t4 & -> & Hn & Hl). apply exec_insts_app.
  exists t3, t4. split; [done|]. split; [done|]. by exists [], t4.
Qed.

End Exec.

(** ** Shape of an instrumented function *)

(** The signals announced on arrival in block [k], on departure from it, at
    the end of the last block. *)
Definition arrival (an : bool) (id : Z) (k : nat) : list client_call :=
  match k with
  | O => [CallEnter (u32 id)]
  | S _ => if an then [CallAfter (u32 id) (u32 (Z.of_nat k))] else []
  end.
Definition departure (an : bool) (id : Z) (n k : nat) : list client_call :=
  if decide (S k = n) then [CallExit (u32 id)]
  else if an then [CallBefore (u32 id) (u32 (Z.of_nat k))] else [].

(** A block that sends these signals around those of the instructions [insts]. *)
Definition wraps (m : Z) (callee : name → list client_signal → Prop) (insts' : list instruction)
    (before : list client_call) (insts : list instruction) (after : list client_call) : Prop :=
  ∀ tr, exec_insts m callee insts' tr → ∃ tr0, exec_insts m callee insts tr0 ∧
    tr = (call_signal m <$> before) ++ tr0 ++ (call_signal m <$> after).

Section Wraps.
Context (m : Z) (callee : name → list client_signal → Prop).

Lemma wraps_refl insts : wraps m callee insts [] insts [].
Proof using Type. intros tr Htr. exists tr. split; [done|]. cbn. by rewrite app_nil_r. Qed.

(** Instructions that only send the signals of [cs]. *)
Definition sends (new : list instruction) (cs : list client_call) : Prop :=
  ∀ tr, exec_insts m callee new tr → tr = call_signal m <$> cs.

Lemma sends_prolog id : sends (prolog id) [CallEnter (u32 id)].
Proof using Type.
  intros tr (t1 & t2 & -> & -> & t3 & t4 & -> & He & ->). cbn in He. by rewrite He.
Qed.

Lemma sends_epilog id : sends (epilog id) [CallExit (u32 id)].
Proof using Type.
  intros tr (t1 & t2 & -> & -> & t3 & t4 & -> & He & ->). cbn in He. by rewrite He.
Qed.

Lemma sends_after id k : sends [CallInst n_AFTER_BR [id_operand id; id_operand k]] [CallAfter (u32 id) (u32 k)].
Proof using Type. intros tr (t3 & t4 & -> & He & ->). cbn in He. by rewrite He. Qed.

Lemma sends_before id k : sends [CallInst n_BEFORE_BR [id_operand id; id_operand k]] [CallBefore (u32 id) (u32 k)].
Proof using Type. intros tr (t3 & t4 & -> & He & ->). cbn in He. by rewrite He. Qed.

Lemma wraps_insert p new cs insts' before insts after :
  (∀ i t, p i = true → emits m callee i t → t = []) → sends new cs →
  wraps m callee insts' before insts after →
  wraps m callee (insert_after p new insts') (cs ++ before) insts after.
Proof using Type.
  intros Hp Hnew Hw tr Htr%exec_insert_after; [|done].
  apply exec_insts_app in Htr as (t1 & t2 & -> & Ht1%Hnew & (t0 & H0 & ->)%Hw). exists t0. split; [done|].
  by rewrite Ht1, fmap_app, <- !app_assoc.
Qed.

Lemma wraps_append new cs insts' before insts after :
  sends new cs → wraps m callee insts' before insts after →
  wraps m callee (insts' ++ new) before insts (after ++ cs).
Proof using Type.
  intros Hnew Hw tr (t1 & t2 & -> & (t0 & H0 & ->)%Hw & Ht2%Hnew)%exec_insts_app. exists t0.
  split; [done|]. by rewrite Ht2, fmap_app, <- !app_assoc.
Qed.

Lemma silent_phi i t : is_phi i = true → emits m callee i t → t = [].
Proof using Type. by destruct i. Qed.

Lemma silent_phi_or_dbg i t : is_phi_or_dbg i = true → emits m callee i t → t = [].
Proof using Type. by destruct i. Qed.

End Wraps.

(** ** Blocks by their position *)

Lemma enter_blocks_lookup id bs : ∀ i k, 0 <= i → i + Z.of_nat (length bs) < 2 ^ 32 →
  enter_blocks id i bs !! k = (λ B, set_insts (insert_after is_phi_or_dbg
    [CallInst n_AFTER_BR [id_operand id; id_operand (i + Z.of_nat k)]] (bb_insts B)) B) <$> bs !! k.
Proof.
  induction bs as [|B bs IH]; intros i k Hi Hlen; [done|]. cbn [length] in Hlen. cbn [enter_blocks].
  destruct k as [|k]; cbn [lookup list_lookup fmap option_fmap option_map].
  - by rewrite Z.add_0_r.
  - change (enter_blocks id (u32 (i + 1)) bs !! k = (λ B, set_insts (insert_after is_phi_or_dbg
      [CallInst n_AFTER_BR [id_operand id; id_operand (i + Z.of_nat (S k))]] (bb_insts B)) B) <$> bs !! k).
    rewrite u32_small, IH by lia. by replace (i + 1 + Z.of_nat k) with (i + Z.of_nat (S k)) by lia.
Qed.

Lemma leave_blocks_lookup id bs : ∀ i k, 0 <= i → i + Z.of_nat (length bs) < 2 ^ 32 →
  leave_blocks id i bs !! k = (λ B, if decide (S k = length bs) then B else
    set_insts (bb_insts B ++ [CallInst n_BEFORE_BR [id_operand id; id_operand (i + Z.of_nat k)]]) B) <$> bs !! k.
Proof.
  induction bs as [|B [|B1 bs] IH]; intros i k Hi Hlen; [done|by destruct k|].
  cbn [length] in Hlen, IH.
  change (leave_blocks id i (B :: B1 :: bs)) with
    (set_insts (bb_insts B ++ [CallInst n_BEFORE_BR [id_operand id; id_operand i]]) B ::
     leave_blocks id (u32 (i + 1)) (B1 :: bs)).
  destruct k as [|k].
  - change (Some (set_insts (bb_insts B ++ [CallInst n_BEFORE_BR [id_operand id; id_operand i]]) B) =
      Some (if decide (1%nat = S (S (length bs))) then B else
        set_insts (bb_insts B ++ [CallInst n_BEFORE_BR [id_operand id; id_operand (i + 0)]]) B)).
    rewrite decide_False by lia. by rewrite Z.add_0_r.
  - change ((?x :: leave_blocks id (u32 (i + 1)) (B1 :: bs)) !! S k) with
      (leave_blocks id (u32 (i + 1)) (B1 :: bs) !! k).
    change ((B :: B1 :: bs) !! S k) with ((B1 :: bs) !! k).
    rewrite u32_small, IH by (cbn [length]; lia).
    replace (i + 1 + Z.of_nat k) with (i + Z.of_nat (S k)) by lia. cbn [length].
    destruct ((B1 :: bs) !! k); [|done]. cbn. f_equal. by repeat case_decide; try lia.
Qed.

Lemma map_last_lookup {A} (f : A → A) l k :
  map_last f l !! k = (λ a, if decide (S k = length l) then f a else a) <$> l !! k.
Proof.
  revert k. induction l as [|a [|b l] IH]; intros k; [done|by destruct k|].
  change (map_last f (a :: b :: l)) with (a :: map_last f (b :: l)). destruct k as [|k].
  - cbn [length]. change (Some a = Some (if decide (1%nat = S (S (length l))) then f a else a)).
    by rewrite decide_False by lia.
  - change ((a :: map_last f (b :: l)) !! S k) with (map_last f (b :: l) !! k).
    change ((a :: b :: l) !! S k) with ((b :: l) !! k). rewrite IH. cbn [length].
    destruct ((b :: l) !! k); [|done]. cbn. f_equal. by repeat case_decide; try lia.
Qed.

(** [bs'] is [bs] where block [k] sends signals before and after. *)
Definition wrapped (m : Z) (callee : name → list client_signal → Prop) (bs' bs : list basic_block)
    (before after : nat → list client_call) : Prop :=
  ∀ k B', bs' !! k = Some B' → ∃ B, bs !! k = Some B ∧ bb_label B' = bb_label B ∧
    bb_term B' = bb_term B ∧ wraps m callee (bb_insts B') (before k) (bb_insts B) (after k).

Section Wrapped.
Context (m : Z) (callee : name → list client_signal → Prop).

Lemma wrapped_refl bs : wrapped m callee bs bs (λ _, []) (λ _, []).
Proof using Type. intros k B HB. exists B. split_and!; try done. apply wraps_refl. Qed.

(** Signals of the jumps. *)
Definition jump_arrival (id : Z) (k : nat) : list client_call :=
  match k with O => [] | S _ => [CallAfter (u32 id) (u32 (Z.of_nat k))] end.
Definition jump_departure (id : Z) (n k : nat) : list client_call :=
  if decide (S k = n) then [] else [CallBefore (u32 id) (u32 (Z.of_nat k))].

Lemma wrapped_jumps id bs : Z.of_nat (length bs) < 2 ^ 31 →
  wrapped m callee (jump_blocks id bs) bs (jump_arrival id) (jump_departure id (length bs)).
Proof using Type.
  intros Hlen k B' HB'. destruct bs as [|B0 [|B1 bs]]; [done| |].
  { destruct k as [|k]; [|done]. injection HB' as <-. exists B0. split_and!; try done. apply wraps_refl. }
  set (l := B1 :: bs) in *. assert (Hl : length (B0 :: l) = S (length l)) by done. rewrite Hl in *.
  unfold jump_blocks in HB'. fold l in HB'.
  change (leave_blocks id 0 (B0 :: enter_blocks id 1 l) !! k = Some B') in HB'.
  assert (Hle : length (enter_blocks id 1 l) = length l).
  { clear. generalize 1. induction l; intros z; cbn; congruence. }
  rewrite leave_blocks_lookup in HB' by (cbn [length]; rewrite ?Hle; lia).
  cbn [length] in HB'. rewrite Hle in HB'. apply fmap_Some in HB' as (B'' & HB'' & ->).
  assert (Hent : ∃ B, (B0 :: l) !! k = Some B ∧ bb_label B'' = bb_label B ∧ bb_term B'' = bb_term B ∧
    wraps m callee (bb_insts B'') (jump_arrival id k) (bb_insts B) []).
  { destruct k as [|k].
    - injection HB'' as <-. exists B0. split_and!; try done. apply wraps_refl.
    - change (enter_blocks id 1 l !! k = Some B'') in HB''.
      rewrite enter_blocks_lookup in HB'' by lia. apply fmap_Some in HB'' as (B & HB & ->).
      exists B. split_and!; try done. cbn [bb_insts set_insts]. change (jump_arrival id (S k)) with
        ([CallAfter (u32 id) (u32 (Z.of_nat (S k)))] ++ []).
      apply wraps_insert; [apply silent_phi_or_dbg| |apply wraps_refl].
      replace (Z.of_nat (S k)) with (1 + Z.of_nat k) by lia. apply sends_after. }
  destruct Hent as (B & HB & Hlab & Hterm & Hw). exists B. split; [done|]. unfold jump_departure.
  destruct (decide (S k = S (length l))); [done|]. split_and!; try done.
  cbn [bb_insts set_insts]. rewrite <- (app_nil_l [CallBefore _ _]).
  apply wraps_append; [apply sends_before|done].
Qed.

(** Signals of the entry and of the exit. *)
Lemma wrapped_ends id bs' bs before after : wrapped m callee bs' bs before after →
  length bs' = length bs →
  wrapped m callee (exit_blocks id (entry_blocks id bs')) bs
    (λ k, (match k with O => [CallEnter (u32 id)] | S _ => [] end) ++ before k)
    (λ k, after k ++ if decide (S k = length bs) then [CallExit (u32 id)] else []).
Proof using Type.
  intros Hw Hlen k B' HB'. unfold exit_blocks in HB'. rewrite map_last_lookup in HB'.
  assert (Hle : length (entry_blocks id bs') = length bs) by (by destruct bs').
  rewrite Hle in HB'. apply fmap_Some in HB' as (B1 & HB1 & ->).
  assert (Hent : ∃ B, bs !! k = Some B ∧ bb_label B1 = bb_label B ∧ bb_term B1 = bb_term B ∧
    wraps m callee (bb_insts B1) ((match k with O => [CallEnter (u32 id)] | S _ => [] end) ++ before k)
      (bb_insts B) (after k)).
  { destruct bs' as [|B0 rest]; [done|]. destruct k as [|k].
    - injection HB1 as <-. destruct (Hw 0%nat B0 eq_refl) as (B & HB & Hl & Ht & Hwr).
      exists B. split_and!; try done. apply wraps_insert; [apply silent_phi|apply sends_prolog|done].
    - destruct (Hw (S k) B1 HB1) as (B & HB & Hl & Ht & Hwr). exists B. done. }
  destruct Hent as (B & HB & Hlab & Hterm & Hwr). exists B. split; [done|].
  case_decide; [|by rewrite app_nil_r].
  split_and!; try done. apply wraps_append; [apply sends_epilog|done].
Qed.

End Wrapped.

Lemma jump_blocks_length id bs : length (jump_blocks id bs) = length bs.
Proof.
  destruct bs as [|B0 [|B1 bs]]; [done..|]. unfold jump_blocks.
  assert (Hl : ∀ l i, length (leave_blocks id i l) = length l).
  { induction l as [|b [|b' l] IH]; intros i; [done..|]. cbn [leave_blocks length]. f_equal. apply IH. }
  assert (He : ∀ l i, length (enter_blocks id i l) = length l).
  { induction l as [|b l IH]; intros i; [done|]. cbn [enter_blocks length]. f_equal. apply IH. }
  rewrite Hl. cbn [length]. by rewrite He.
Qed.

(** An instrumented function, block by block. *)
Lemma instrument_wrapped m callee st level id F : Z.of_nat (length (fn_blocks F)) < 2 ^ 31 →
  wrapped m callee (fn_blocks (instrument st level id F)) (mark_block st <$> fn_blocks F)
    (arrival (announces st level (fn_name F)) id)
    (departure (announces st level (fn_name F)) id (length (fn_blocks F))).
Proof.
  intros Hlen. set (an := announces st level (fn_name F)).
  set (bs := mark_block st <$> fn_blocks F).
  assert (Hbs : length bs = length (fn_blocks F)) by apply length_fmap.
  set (bs' := if an then jump_blocks id bs else bs).
  assert (Hbs' : length bs' = length bs) by (unfold bs'; destruct an; [apply jump_blocks_length|done]).
  assert (Hw : wrapped m callee bs' bs (λ k, if an then jump_arrival id k else [])
    (λ k, if an then jump_departure id (length bs) k else [])).
  { unfold bs'. destruct an; [apply wrapped_jumps; lia|apply wrapped_refl]. }
  pose proof (wrapped_ends m callee id bs' bs _ _ Hw Hbs') as He. rewrite Hbs in He.
  change (fn_blocks (instrument st level id F)) with (exit_blocks id (entry_blocks id bs')).
  intros k B' HB'. destruct (He k B' HB') as (B & HB & Hl & Ht & Hwr). exists B. split_and!; try done.
  cbn beta in Hwr. revert Hwr. unfold arrival, departure, jump_departure, jump_arrival.
  destruct k, an; case_decide; by rewrite ?app_nil_r, ?app_nil_l.
Qed.

(** ** Executions and the grammar *)

(** The function returns from its last block, and only from there. *)
Definition single_exit (F : function) : Prop :=
  ∀ k B, fn_blocks F !! k = Some B → bb_term B = ReturnInst ↔ S k = length (fn_blocks F).

Definition exits_well (F : function) (k : nat) : Prop :=
  (λ B, bool_decide (bb_term B = ReturnInst)) <$> fn_blocks F !! k =
  (λ _, bool_decide (S k = length (fn_blocks F))) <$> fn_blocks F !! k.

Lemma single_exit_positions F :
  Forall (exits_well F) (seq 0 (length (fn_blocks F))) ↔ single_exit F.
Proof.
  unfold single_exit, exits_well. rewrite Forall_forall. split.
  - intros H k B HB. specialize (H k). rewrite HB in H. cbn in H.
    assert (Hk : In k (seq 0 (length (fn_blocks F)))) by (apply in_seq; apply lookup_lt_Some in HB; lia).
    apply H in Hk. injection Hk as Hk. rewrite <- (bool_decide_eq_true (bb_term B = ReturnInst)), Hk.
    apply bool_decide_eq_true.
  - intros Hs k _. destruct (fn_blocks F !! k) as [B|] eqn:HB; [|done]. cbn. f_equal.
    apply bool_decide_ext. by apply Hs.
Qed.

#[export] Instance single_exit_dec F : Decision (single_exit F).
Proof.
  refine (cast_if (decide (Forall (exits_well F) (seq 0 (length (fn_blocks F))))));
    [apply Forall_dec; intros k; unfold exits_well; exact (decide _)|..];
    by rewrite <- single_exit_positions.
Defined.

Lemma body_app data m f b b' b'' tr1 tr2 :
  body data m f b b' tr1 → body data m f b' b'' tr2 → body data m f b b'' (tr1 ++ tr2).
Proof.
  intros H1. revert b'' tr2. induction H1; intros b1 tr3 Htail; [done| |].
  - cbn [app]. by apply body_jump; try apply IHbody.
  - cbn [app]. rewrite <- app_assoc. cbn [app]. eapply body_call; eauto.
Qed.

Lemma u32_u32 z : in_u 32 z → u32 (u32 z) = z.
Proof. unfold in_u. intros Hz. by rewrite !u32_small by (rewrite ?u32_small; lia). Qed.

Section Activation.
Context (data : monitor_data) (m : Z) (callee : name → list client_signal → Prop).
Context (st : ControlFlowIntegrity) (level : Z) (F : function) (id : Z).
Context (Hsmall : small_function F) (Hclosed : closed_function F) (Hexit : single_exit F).
Context (Hid : in_u 32 id).

Let an := announces st level (fn_name F).
Let n := length (fn_blocks F).

(** The monitor allows the jumps of the function. *)
Context (Hjump : an = true → ∀ i j, jumps F i j → may_jump data m id i j = true).

(** The functions called are not those of the support; those that are ignored
    send nothing; the others are allowed and send an activation. *)
Context (Hplain : ∀ g, calls F g → g ∉ prototypes).
Context (Hignored : ∀ g tr, calls F g → isIgnoredFunction st g = true → callee g tr → tr = []).
Context (Hcall : ∀ g tr, calls F g → isIgnoredFunction st g = false → callee g tr →
  in_u 32 (ident st g) ∧ may_call data m id (ident st g) = true ∧
  ∃ m' g', target data m (ident st g) = Val (m', g') ∧ activation data m' g' tr).

Lemma support_call_plain g args : g ∉ prototypes → support_call g args = None.
Proof using Type.
  intros Hg. assert (Hne : ∀ p, p ∈ prototypes → bool_decide (g = p) = false).
  { intros p Hp. apply bool_decide_eq_false. by intros ->. }
  unfold support_call. rewrite !Hne by (by repeat (left || right)).
  by destruct args as [|[] [|[] []]].
Qed.

(** The instructions of a block, between the signals of their calls. *)
Lemma marked_body insts : ∀ tr b, (∀ g args, CallInst g args ∈ insts → calls F g) →
  exec_insts m callee (mark_insts st insts) tr → body data m id b b tr.
Proof using Hplain Hignored Hcall.
  induction insts as [|inst insts IH]; intros tr b Hcalls Htr; [cbn in Htr; subst; constructor|].
  rewrite mark_insts_cons in Htr. apply exec_insts_app in Htr as (t1 & t2 & -> & Ht1 & Ht2).
  assert (H2 : body data m id b b t2) by (apply IH; [intros; eapply Hcalls; by right|done]).
  assert (Hsilent : ∀ t, exec_insts m callee [inst] t → (∀ t', emits m callee inst t' → t' = []) → t = []).
  { intros t (t3 & t4 & -> & He & ->) H. by rewrite (H _ He). }
  destruct inst as [| |f args r|f args| | |]; cbn [mark] in Ht1;
    try (rewrite (Hsilent _ Ht1); [exact H2|by intros ?]).
  assert (Hf : calls F f) by (eapply Hcalls; by left).
  assert (Hem : ∀ t, emits m callee (CallInst f args) t → callee f t).
  { intros t. cbn [emits]. rewrite support_call_plain by by apply Hplain. done. }
  destruct (isIgnoredFunction st f) eqn:Hig.
  - rewrite (Hsilent _ Ht1); [exact H2|]. intros t Ht%Hem. by eapply Hignored.
  - destruct Ht1 as (t3 & t4 & -> & H3 & t5 & t6 & -> & H5%Hem & t7 & t8 & -> & H7 & ->).
    assert (t3 = [call_signal m (CallCall (u32 (ident st f)))]) as -> by exact H3.
    assert (t7 = [call_signal m (CallReturned (u32 (ident st f)))]) as -> by exact H7.
    destruct (Hcall f t5 Hf Hig H5) as (Hu & Hmay & m' & g' & Ht & Hact).
    assert (Hsf : u32 (u32 (ident st f)) = ident st f) by by apply u32_u32.
    rewrite app_nil_r. rewrite <- !app_assoc. cbn [app].
    eapply (body_call data m id b b _ _ _ _ m' g'); try done; cbn [call_signal sig_function]; by rewrite ?Hsf.
Qed.

(** The block the monitor is in when the program is in block [k]. *)
Definition position (k : nat) : Z := if an then Z.of_nat k else 0.

(** Signals from the beginning of block [k] to the return. *)
Definition follows (k : nat) (tr : list client_signal) : Prop :=
  ∃ b' tr0, tr = (call_signal m <$> arrival an id k) ++ tr0 ++ [call_signal m (CallExit (u32 id))] ∧
    body data m id (position k) b' tr0.

Lemma position_u32 k : (k < n)%nat → u32 (u32 (Z.of_nat k)) = Z.of_nat k.
Proof using Hsmall. intros Hk. destruct Hsmall as [_ Hlen]. apply u32_u32. unfold in_u, n in *. lia. Qed.

Lemma calls_block k B : fn_blocks F !! k = Some B → ∀ g args, CallInst g args ∈ bb_insts B → calls F g.
Proof using Type. intros HB g args Hi. exists B, args. split; [by eapply list_elem_of_lookup_2|done]. Qed.

(** The jump to a block that is not the entry. *)
Lemma jump_follows k k' B B' tr1 tr2 :
  fn_blocks F !! k = Some B → fn_blocks F !! k' = Some B' → bb_label B' ∈ successors (bb_term B) →
  body data m id (position k) (position k) tr1 → follows k' tr2 →
  follows k ((call_signal m <$> arrival an id k) ++ (tr1 ++ (call_signal m <$> departure an id n k)) ++ tr2).
Proof using Hsmall Hclosed Hexit Hid Hjump.
  intros HB HB' Hl H1 (b' & tr0 & -> & H2).
  assert (Hk : (k < n)%nat) by (by eapply lookup_lt_Some). assert (Hk' : (k' < n)%nat) by (by eapply lookup_lt_Some).
  assert (Hnl : S k ≠ n).
  { intros E. apply (Hexit k B HB) in E. rewrite E in Hl. by apply elem_of_nil in Hl. }
  assert (Hne : k' ≠ 0%nat).
  { destruct (closed_target F B _ Hclosed (list_elem_of_lookup_2 _ _ _ HB) Hl) as (k2 & B2 & Hk2 & HB2 & Heq).
    enough (k' = k2) as -> by lia. destruct Hsmall as [Hnd _]. eapply (NoDup_lookup _ _ _ (bb_label B')); [done| |].
    - by rewrite list_lookup_fmap, HB'.
    - by rewrite list_lookup_fmap, HB2, <- Heq. }
  destruct k' as [|k']; [done|].
  exists b', ((tr1 ++ (call_signal m <$> departure an id n k)) ++
              (call_signal m <$> arrival an id (S k')) ++ tr0).
  split; [by rewrite <- !app_assoc|]. rewrite <- app_assoc. apply (body_app _ _ _ _ (position k)); [done|].
  unfold departure, arrival, position in *. rewrite decide_False by done. destruct an eqn:Han; [|exact H2].
  cbn [fmap list_fmap app]. apply body_jump; try done.
  - unfold names. cbn [call_signal sig_module sig_function]. rewrite (u32_u32 id Hid). by rewrite !bool_decide_true.
  - cbn [call_signal sig_block]. by apply position_u32.
  - unfold names. cbn [call_signal sig_module sig_function]. rewrite (u32_u32 id Hid). by rewrite !bool_decide_true.
  - cbn [call_signal sig_block]. rewrite position_u32 by done. apply Hjump; [done|].
    exists k, (S k'), B, B'. done.
  - cbn [call_signal sig_block]. by rewrite position_u32.
Qed.

Let F' := instrument st level id F.

Lemma exec_follows B' tr : exec_from m callee F' B' tr → ∀ k, fn_blocks F' !! k = Some B' → follows k tr.
Proof using Hsmall Hclosed Hexit Hid Hjump Hplain Hignored Hcall.
  destruct Hsmall as [Hnd Hlen].
  assert (Hblock : ∀ k B' tr, fn_blocks F' !! k = Some B' → exec_insts m callee (bb_insts B') tr →
    ∃ B tr0, fn_blocks F !! k = Some B ∧ bb_label B' = bb_label B ∧ bb_term B' = bb_term B ∧
      tr = (call_signal m <$> arrival an id k) ++ tr0 ++ (call_signal m <$> departure an id n k) ∧
      body data m id (position k) (position k) tr0).
  { intros k B1 tr1 HB1 Htr. destruct (instrument_wrapped m callee st level id F Hlen k B1 HB1)
      as (B2 & HB2 & Hl & Ht & Hw).
    destruct (Hw tr1 Htr) as (tr0 & H0 & ->). rewrite list_lookup_fmap in HB2.
    apply fmap_Some in HB2 as (B & HB & ->). exists B, tr0. split_and!; try done.
    eapply marked_body; [by eapply calls_block|exact H0]. }
  induction 1 as [B1 tr Hret Htr|B1 B2 tr1 tr2 Htr HB2 Hl Hrest IH]; intros k HB1.
  - destruct (Hblock k B1 tr HB1 Htr) as (B & tr0 & HB & _ & Ht & -> & Hb).
    exists (position k), tr0. split; [|done]. rewrite Ht in Hret. apply (Hexit k B HB) in Hret.
    unfold departure. by rewrite decide_True.
  - destruct (Hblock k B1 tr1 HB1 Htr) as (B & tr0 & HB & _ & Ht & -> & Hb).
    apply list_elem_of_lookup in HB2 as [k2 HB2]. specialize (IH k2 HB2).
    destruct (instrument_wrapped m callee st level id F Hlen k2 B2 HB2) as (B3 & HB3 & Hl3 & _).
    rewrite list_lookup_fmap in HB3. apply fmap_Some in HB3 as (B4 & HB4 & ->).
    rewrite <- app_assoc. eapply jump_follows; [done|exact HB4| |done|done].
    rewrite <- Ht. by rewrite Hl3 in Hl.
Qed.

(** An execution of an instrumented function sends the signals of an
    activation. *)
Lemma exec_activation tr : exec_function m callee F' tr → activation data m id tr.
Proof using Hsmall Hclosed Hexit Hid Hjump Hplain Hignored Hcall.
  intros (B & rest & HB & Hexec). apply (exec_follows B tr) with (k := 0%nat) in Hexec; [|by rewrite HB].
  destruct Hexec as (b' & tr0 & -> & Hb). unfold position in Hb.
  assert (Hb0 : body data m id FUNCTION_ENTRY_BLOCK_ID b' tr0) by (by destruct an).
  change (activation data m id (call_signal m (CallEnter (u32 id)) :: tr0 ++ [call_signal m (CallExit (u32 id))])).
  eapply activation_intro; try done; unfold names; cbn [call_signal sig_module sig_function];
    rewrite (u32_u32 id Hid); by rewrite !bool_decide_true.
Qed.

End Activation.
