(* ===== verification/Prelink.v ===== *)
(** * The prelink script (prelink/picon-prelink)

    It reads the files that the compilations of a binary left, packs them, and
    writes a C file whose constructor sends the packed sections to the monitor
    when the binary is loaded.  Here are the readers, the packers, the text of
    the string literals, and the packets that the generated code sends. *)

From S2P Require Import Prelude CSem Wire Dot Text Ir Pass.
From Stdlib Require Import Strings.Byte.
From Stdlib Require Strings.String.
Import Strings.String.StringSyntax.
#[local] Open Scope string_scope.
#[local] Open Scope Z_scope.
#[local] Open Scope list_scope.

(** ** Outcomes of the script *)

(** An exception nobody catches, or [sys.exit]. *)
Inductive py_error := IOError | ValueError | IndexError | KeyError | StructError | SysExit (status : Z).

Inductive py (A : Type) := PyOk (a : A) | PyErr (e : py_error).
Arguments PyOk {A} a.
Arguments PyErr {A} e.

#[export] Instance py_ret : MRet py := @PyOk.
#[export] Instance py_bind : MBind py := λ A B f m,
  match m with PyOk a => f a | PyErr e => PyErr e end.

Fixpoint py_fold {A B} (f : B → A → py B) (b : B) (l : list A) : py B :=
  match l with
  | [] => PyOk b
  | a :: l => b ← f b a; py_fold f b l
  end.

(** [map(f, l)] *)
Fixpoint py_map {A B} (f : A → py B) (l : list A) : py (list B) :=
  match l with
  | [] => PyOk []
  | a :: l => b ← f a; bs ← py_map f l; PyOk (b :: bs)
  end.

(** The order in which dictionaries are iterated. *)
Record py_env := PyEnv {
  items_name : ∀ V, gmap name V → list (name * V);
  items_id : ∀ V, gmap Z V → list (Z * V);
}.

(** What Python documents of it: each item comes once. *)
Definition py_env_ok (pe : py_env) : Prop :=
  (∀ V (m : gmap name V), items_name pe V m ≡ₚ map_to_list m) ∧
  (∀ V (m : gmap Z V), items_id pe V m ≡ₚ map_to_list m).

(** [int(s)] *)
Definition int_of (s : text) : py Z :=
  match py_int s with Some z => PyOk z | None => PyErr ValueError end.

(** [l[i]] *)
Definition item {A} (l : list A) (i : nat) : py A :=
  match l !! i with Some a => PyOk a | None => PyErr IndexError end.

(** [[line.rstrip() for line in open(filename)]] *)
Definition file_lines (s : text) : list text := rstrip <$> lines s.

(** ** Readers *)

Definition parse_fctids (s : text) : py (gmap name (Z * text)) :=
  py_fold (λ fcts line,
    match split line with
    | [nm; s_id; flags] => i_id ← int_of s_id; PyOk (<[nm := (i_id, flags)]> fcts)
    | _ => PyErr ValueError
    end) ∅ (file_lines s).

Definition parse_callgraph (s : text) : py (gmap Z (list Z)) :=
  py_fold (λ callgraph line,
    w ← item (split line) 0;
    ID ← int_of (slice 1 w);
    callees ← py_map int_of (drop 1 (split line));
    PyOk (<[ID := callees]> callgraph)) ∅ (file_lines s).

(** [bb], [fct_num_blocks] and [current_fct]. *)
Record bb_state := BbState {
  ps_bb : gmap Z (gmap Z (list Z));
  ps_num_blocks : gmap Z Z;
  ps_current : option Z;
}.

Definition parse_bb_line (ps : bb_state) (line : text) : py bb_state :=
  if bool_decide (take 2 line = lit ";{") then
    w ← item (split line) 0;
    current ← int_of (slice 2 w);
    w ← item (split line) 1;
    num_blocks ← int_of w;
    if bool_decide (is_Some (ps_bb ps !! current)) then PyErr (SysExit 255)
    else PyOk (BbState (<[current := ∅]> (ps_bb ps)) (<[current := num_blocks]> (ps_num_blocks ps))
                 (Some current))
  else
    match line with
    | [] => PyOk ps
    | _ =>
        w ← item (split line) 0;
        ID ← int_of (slice 1 w);
        next_bbs ← py_map int_of (drop 1 (split line));
        match ps_current ps with
        | None => PyErr KeyError
        | Some f =>
            match ps_bb ps !! f with
            | None => PyErr KeyError
            | Some d => PyOk (BbState (<[f := <[ID := next_bbs]> d]> (ps_bb ps)) (ps_num_blocks ps) (Some f))
            end
        end
    end.

Definition parse_bb (s : text) : py (gmap Z (gmap Z (list Z)) * gmap Z Z) :=
  ps ← py_fold parse_bb_line (BbState ∅ ∅ None) (file_lines s);
  PyOk (ps_bb ps, ps_num_blocks ps).

Definition parse_bb_ipd (s : text) : py (list (list Z)) :=
  py_map (λ line, py_map int_of (split line)) (file_lines s).

(** ** Packers *)

(** [struct.pack('<I', z)] *)
Definition pack_I (z : Z) : py (list byte) :=
  if decide (0 <= z < 2 ^ 32) then PyOk (le_bytes 4 z) else PyErr StructError.

(** [struct.pack('<II...', *l)] *)
Definition pack_Is (l : list Z) : py (list byte) := bs ← py_map pack_I l; PyOk (concat bs).

Definition flag_to_int (s : text) : Z :=
  if bool_decide (s = lit "External") then 1
  else if bool_decide (s = lit "Init") then 2
  else if bool_decide (s = lit "Fini") then 3
  else if bool_decide (s = lit "Main") then 4
  else 0.

Section Packers.
Context (pe : py_env).

(** The number of a name in the order of strings, first in the list. *)
Fixpoint bytes_leb (a b : list byte) : bool :=
  match a, b with
  | [], _ => true
  | _ :: _, [] => false
  | x :: a, y :: b =>
      if bool_decide (byte_to_Z x < byte_to_Z y) then true
      else if bool_decide (x = y) then bytes_leb a b else false
  end.

(** The tuples [(ID, fname, flags)] in increasing order: [list.sort()]. *)
Definition fct_le (a b : Z * (name * text)) : bool :=
  if bool_decide (a.1 < b.1) then true
  else if bool_decide (a.1 = b.1) then
    if bool_decide (a.2.1 = b.2.1) then bytes_leb a.2.2 b.2.2 else bytes_leb a.2.1 b.2.1
  else false.

Fixpoint insert_sorted {A} (le : A → A → bool) (a : A) (l : list A) : list A :=
  match l with
  | [] => [a]
  | b :: l => if le a b then a :: b :: l else b :: insert_sorted le a l
  end.

Definition sort {A} (le : A → A → bool) (l : list A) : list A := foldr (insert_sorted le) [] l.

(** The bytes of each section. *)
Definition packed_cfi (fcts : gmap name (Z * text)) : py (list byte) :=
  pack_I (Z.of_nat (size fcts)).

Definition packed_fctids (fcts : gmap name (Z * text)) : py (list byte) :=
  let fct_list := sort fct_le ((λ it : name * (Z * text), (it.2.1, (it.1, it.2.2))) <$> items_name pe _ fcts) in
  s ← py_map (λ e : Z * (name * text),
        h ← pack_Is [e.1; flag_to_int e.2.2]; PyOk (h ++ e.2.1 ++ [x00])) fct_list;
  n ← pack_I (Z.of_nat (size fcts));
  PyOk (n ++ concat s).

Definition packed_callgraph (callgraph : gmap Z (list Z)) : py (list byte) :=
  s ← py_map (λ e : Z * list Z,
        h ← pack_Is [e.1; Z.of_nat (length e.2)]; l ← pack_Is e.2; PyOk (h ++ l))
        (items_id pe _ callgraph);
  n ← pack_I (Z.of_nat (size callgraph));
  PyOk (n ++ concat s).

Definition packed_dict_uint32 (d : gmap Z (list Z)) : py (list byte) :=
  s ← py_map (λ e : Z * list Z, pack_Is (e.1 :: Z.of_nat (length e.2) :: e.2)) (items_id pe _ d);
  PyOk (concat s).

(** One element of the array [_s_bb]. *)
Definition packed_bb_entry (fct_num_blocks : gmap Z Z) (e : Z * gmap Z (list Z)) : py (list byte) :=
  nb ← match fct_num_blocks !! e.1 with Some nb => PyOk nb | None => PyErr KeyError end;
  h ← pack_Is [e.1; nb; Z.of_nat (size e.2)];
  t ← (if decide (0 < Z.of_nat (size e.2)) then packed_dict_uint32 e.2 else PyOk []);
  PyOk (h ++ t).

Definition packed_bb (bb : gmap Z (gmap Z (list Z))) (fct_num_blocks : gmap Z Z) : py (list (list byte)) :=
  py_map (packed_bb_entry fct_num_blocks) (items_id pe _ bb).

(** [struct.pack('<IIII', *ipd_def)] wants four numbers. *)
Definition packed_bb_ipd (bb_ipd : list (list Z)) : py (list byte) :=
  n ← pack_I (Z.of_nat (length bb_ipd));
  s ← py_map (λ d, if decide (length d = 4%nat) then pack_Is d else PyErr StructError) bb_ipd;
  PyOk (n ++ concat s).

End Packers.

(** ** String literals *)

Definition hex_digit (n : Z) : byte :=
  nth (Z.to_nat n) (lit "0123456789abcdef") x30.

(** ["\\x%.2x" % ord(c)] *)
Definition escape (c : byte) : text :=
  lit "\x" ++ [hex_digit (byte_to_Z c / 16); hex_digit (byte_to_Z c mod 16)].

(** [s[i:i+n] for i in range(0, len(s), n)] *)
Fixpoint chunks_from (fuel n : nat) (s : text) : list text :=
  match fuel, s with
  | S fuel, _ :: _ => take n s :: chunks_from fuel n (drop n s)
  | _, _ => []
  end.
Definition chunks (n : nat) (s : text) : list text := chunks_from (length s) n s.

Definition quote : byte := x22.

(** The lines of a literal: chunks of 64 characters between quotes. *)
Definition literal (s : list byte) : list text :=
  (λ c, [quote] ++ c ++ [quote]) <$> chunks 64 (concat (escape <$> s)).

(** What C makes of such lines: the adjacent literals are concatenated after
    their escapes are read; an escape takes all the hexadecimal digits that
    follow, and its value must fit a byte. *)
Definition hex_value (b : byte) : option Z :=
  let z := byte_to_Z b in
  if decide (48 <= z <= 57) then Some (z - 48)
  else if decide (97 <= z <= 102) then Some (z - 87)
  else if decide (65 <= z <= 70) then Some (z - 55)
  else None.

Definition is_hex (b : byte) : bool := match hex_value b with Some _ => true | None => false end.

Fixpoint hex_number (acc : Z) (s : text) : option Z :=
  match s with
  | [] => Some acc
  | b :: s => d ← hex_value b; hex_number (16 * acc + d) s
  end.

(** The characters between the quotes; [None]: not a literal of this kind. *)
Fixpoint read_escapes (fuel : nat) (s : text) : option (list byte) :=
  match fuel, s with
  | _, [] => Some []
  | S fuel, b1 :: b2 :: s =>
      if bool_decide (b1 = x5c ∧ b2 = x78) then
        let '(digits, rest) := span is_hex s in
        match digits with
        | [] => None
        | _ => v ← hex_number 0 digits;
               if decide (v < 256) then cons (byte_of_Z v) <$> read_escapes fuel rest else None
        end
      else None
  | _, _ => None
  end.

Definition read_literal_line (l : text) : option (list byte) :=
  match l with
  | b :: l => if bool_decide (b = quote ∧ list.last l = Some quote)
              then read_escapes (length l) (removelast l) else None
  | [] => None
  end.

Definition literal_bytes (ls : list text) : option (list byte) :=
  (@concat byte) <$> mapM read_literal_line ls.

(** ** The packets *)

(** What the script keeps of the files, packed. *)
Record prelinked := Prelinked {
  s_cfi : list byte;
  s_fctids : list byte;
  s_callgraph : list byte;
  s_bb : option (list (list byte) * list byte);   (* [_s_bb] and [_s_bb_ipd] *)
  has_main : bool;
  fcts_init : list name;                          (* what the wrappers call, in order *)
  fcts_fini : list name;
}.

(** [{k:v for (k,v) in fcts.iteritems() if v[1] == s}.keys()] *)
Definition flagged_names (pe : py_env) (s : text) (fcts : gmap name (Z * text)) : list name :=
  (items_name pe _ (filter (λ it : name * (Z * text), it.2.2 = s) fcts)).*1.

(** The main program of the script: the file of transitions between blocks may
    be missing; the other ones are opened. *)
Definition prelink (pe : py_env) (files : cfi_files) : py prelinked :=
  match f_fctid files, f_trans files with
  | Some fctid, Some trans =>
      fcts ← parse_fctids fctid;
      callgraph ← parse_callgraph trans;
      blocks ← match f_bbtrans files with
        | None => PyOk None
        | Some bbtrans =>
            '(bb, nums) ← parse_bb bbtrans;
            match f_ipdom files with
            | None => PyErr IOError
            | Some ipdom => ipd ← parse_bb_ipd ipdom; PyOk (Some (bb, nums, ipd))
            end
        end;
      cfi ← packed_cfi fcts;
      fctids ← packed_fctids pe fcts;
      cg ← packed_callgraph pe callgraph;
      packed ← match blocks with
        | None => PyOk None
        | Some (bb, nums, ipd) =>
            b ← packed_bb pe bb nums; i ← packed_bb_ipd ipd; PyOk (Some (b, i))
        end;
      PyOk (Prelinked cfi fctids cg packed (bool_decide (is_Some (fcts !! lit "main")))
        (flagged_names pe (lit "Init") fcts) (flagged_names pe (lit "Fini") fcts))
  | _, _ => PyErr IOError
  end.

(** A character array initialised by a literal ends with a null character. *)
Definition char_array (s : list byte) : list byte := s ++ [x00].

(** The packets of [_init_cfi], in order.  The elements of [_s_bb] carry their
    length. *)
Definition init_packets (p : prelinked) : list (loading_event * list byte) :=
  [(CFI_LOADING_MODULE_BEGIN, char_array (s_cfi p));
   (CFI_LOADING_SECTION_FUNCTION_ID, char_array (s_fctids p));
   (CFI_LOADING_SECTION_FUNCTION_TRANSITION, char_array (s_callgraph p))] ++
  match s_bb p with
  | None => []
  | Some (bb, ipd) => ((λ d, (CFI_LOADING_SECTION_BLOCK_TRANSITION, d)) <$> bb) ++
                      [(CFI_LOADING_SECTION_BLOCK_IPD, char_array ipd)]
  end ++
  [(CFI_LOADING_MODULE_END, [])] ++
  (if has_main p then [(CFI_LOADING_TERMINATED, [])] else []).
