(* ===== verification/PrelinkSpec.v ===== *)
(** * What the prelink script makes of the files

    The files that compilations leave are read back, and the sections packed
    from them are the encodings that the loader of the monitor expects. *)

From S2P Require Import Prelude CSem Wire MonitorData LoadSections LoadSpec.
From S2P Require Import Dot Text Ir Pass PassTable PassFiles Prelink.
From Stdlib Require Import Strings.Byte.
From Stdlib Require Strings.String.
Import Strings.String.StringSyntax.
#[local] Open Scope string_scope.
#[local] Open Scope Z_scope.
#[local] Open Scope list_scope.

(** ** Folds and maps *)

Lemma py_map_ok {A B} (f : A → py B) (g : A → B) l :
  Forall (λ a, f a = PyOk (g a)) l → py_map f l = PyOk (g <$> l).
Proof. induction 1 as [|a l Ha _ IH]; [done|]. cbn. by rewrite Ha, IH. Qed.

Lemma py_fold_ok {A B} (f : B → A → py B) (g : B → A → B) l : ∀ b,
  Forall (λ a, ∀ b, f b a = PyOk (g b a)) l → py_fold f b l = PyOk (foldl g b l).
Proof.
  induction l as [|a l IH]; intros b Hl; [done|]. apply Forall_cons_1 in Hl as [Ha Hl]. cbn.
  rewrite Ha. cbn. by apply IH.
Qed.

Lemma py_bind_ok {A B} (a : A) (f : A → py B) : (PyOk a ≫= f) = f a.
Proof. done. Qed.

Lemma py_fold_app {A B} (f : B → A → py B) b l1 l2 :
  py_fold f b (l1 ++ l2) = b ← py_fold f b l1; py_fold f b l2.
Proof. revert b. induction l1 as [|a l1 IH]; intros b; [done|]. cbn. destruct (f b a); cbn; [apply IH|done]. Qed.

(** ** Lines *)

Definition one_line (l : text) : Prop := newline ∉ l.

Lemma lines_from_line acc l rest : one_line l →
  lines_from acc (l ++ newline :: rest) = (rev acc ++ l) :: lines rest.
Proof.
  revert acc. induction l as [|b l IH]; intros acc Hl; cbn [app lines_from].
  - by rewrite app_nil_r.
  - apply not_elem_of_cons in Hl as [Hb Hl]. rewrite bool_decide_false by (by intros ->).
    rewrite IH by done. cbn [rev]. by rewrite <- app_assoc.
Qed.

Lemma lines_concat ls : Forall one_line ls → lines (concat ((λ l, l ++ [newline]) <$> ls)) = ls.
Proof.
  induction 1 as [|l ls Hl _ IH]; [done|]. cbn [fmap list_fmap concat].
  rewrite <- app_assoc. unfold lines. cbn [app]. rewrite lines_from_line by done. cbn. f_equal. exact IH.
Qed.

Lemma word_one_line w : word w → one_line w.
Proof.
  intros [_ Hw] Hin. rewrite Forall_forall in Hw. apply list_elem_of_In, Hw in Hin. done.
Qed.

Lemma one_line_app l1 l2 : one_line l1 → one_line l2 → one_line (l1 ++ l2).
Proof. unfold one_line. rewrite elem_of_app. tauto. Qed.

Lemma one_line_concat ls : Forall one_line ls → one_line (concat ls).
Proof. induction 1; cbn; [by intros ?%elem_of_nil|by apply one_line_app]. Qed.

Lemma one_line_space : one_line [space].
Proof. by intros H%list_elem_of_singleton. Qed.

(** ** Words of a line *)

Lemma split_from_word acc w s : Forall (λ b, is_space b = false) w → 
  split_from acc (w ++ s) = split_from (rev w ++ acc) s.
Proof.
  intros Hw. revert acc. induction Hw as [|b w Hb _ IH]; intros acc; [done|].
  cbn [app split_from]. rewrite Hb, IH. cbn [rev]. by rewrite <- app_assoc.
Qed.

Lemma split_word w : word w → split w = [w].
Proof.
  intros [Hne Hw]. unfold split. rewrite <- (app_nil_r w) at 1. rewrite split_from_word by done.
  rewrite app_nil_r. cbn. destruct (rev w) eqn:E; [|by rewrite <- E, rev_involutive].
  apply (f_equal (@rev byte)) in E. rewrite rev_involutive in E. by subst.
Qed.

Lemma split_word_space w s : word w → split (w ++ space :: s) = w :: split s.
Proof.
  intros [Hne Hw]. unfold split. rewrite split_from_word, app_nil_r by done. cbn [split_from].
  change (is_space space) with true. cbn iota. destruct (rev w) eqn:E.
  - apply (f_equal (@rev byte)) in E. rewrite rev_involutive in E. by subst.
  - by rewrite <- E, rev_involutive.
Qed.

Lemma split_words ws : Forall word ws → split (concat ((λ w, w ++ [space]) <$> ws)) = ws.
Proof.
  induction 1 as [|w ws Hw _ IH]; [done|]. cbn [fmap list_fmap concat]. rewrite <- app_assoc. cbn [app].
  by rewrite split_word_space, IH.
Qed.

(** ** Trailing white space *)

Lemma split_from_spaces acc sp : Forall (λ b, is_space b = true) sp →
  split_from acc sp = match acc with [] => [] | _ => [rev acc] end.
Proof.
  intros Hsp. revert acc. induction Hsp as [|b sp Hb _ IH]; intros acc; [done|].
  cbn [split_from]. rewrite Hb. destruct acc; by rewrite IH.
Qed.

Lemma split_app_spaces s sp : Forall (λ b, is_space b = true) sp → split (s ++ sp) = split s.
Proof.
  intros Hsp. unfold split. generalize (@nil byte) as acc. induction s as [|b s IH]; intros acc.
  - cbn [app split_from]. by apply split_from_spaces.
  - cbn [app split_from]. destruct (is_space b); [destruct acc; by rewrite IH|apply IH].
Qed.

Lemma span_parts p s : (span p s).1 ++ (span p s).2 = s ∧ Forall (λ b, p b = true) (span p s).1.
Proof.
  induction s as [|b s [IH1 IH2]]; [by repeat constructor|]. cbn. destruct (p b) eqn:Hb.
  - destruct (span p s) as [u v]. cbn in *. split; [by rewrite IH1|by constructor].
  - cbn. by repeat constructor.
Qed.

Lemma rstrip_parts s : ∃ sp, s = rstrip s ++ sp ∧ Forall (λ b, is_space b = true) sp.
Proof.
  destruct (span_parts is_space (rev s)) as [H1 H2]. exists (rev (span is_space (rev s)).1). split.
  - unfold rstrip. by rewrite <- rev_app_distr, H1, rev_involutive.
  - by apply Forall_rev.
Qed.

Lemma split_rstrip s : split (rstrip s) = split s.
Proof. destruct (rstrip_parts s) as (sp & E & Hsp). rewrite E at 2. by rewrite split_app_spaces. Qed.

Lemma span_snoc p s b : p b = false → (span p (s ++ [b])).2 = (span p s).2 ++ [b].
Proof.
  intros Hb. induction s as [|c s IH]; cbn; [by rewrite Hb|]. destruct (p c); [|done].
  destruct (span p (s ++ [b])), (span p s). cbn in *. done.
Qed.

Lemma rstrip_cons b s : is_space b = false → rstrip (b :: s) = b :: rstrip s.
Proof.
  intros Hb. unfold rstrip. cbn [rev]. rewrite span_snoc by done. by rewrite rev_app_distr.
Qed.

(** ** Numbers *)

Lemma int_of_percent_u z : 0 <= z → int_of (percent_u z) = PyOk z.
Proof. intros. unfold int_of. by rewrite py_int_percent_u. Qed.

Lemma ints_of zs : Forall (λ z, 0 <= z) zs → py_map int_of (percent_u <$> zs) = PyOk zs.
Proof. induction 1 as [|z zs Hz _ IH]; [done|]. cbn. by rewrite int_of_percent_u, IH. Qed.

Lemma slice_around (a : text) z c : slice (length a) (a ++ percent_u z ++ [c]) = percent_u z.
Proof. unfold slice. rewrite drop_app_length. apply removelast_last. Qed.

Lemma word_around (a : text) z c : Forall (λ b, is_space b = false) a → is_space c = false →
  word (a ++ percent_u z ++ [c]).
Proof.
  intros Ha Hc. destruct (percent_u_word z) as [Hne Hw]. split.
  - destruct a; [|done]. by destruct (percent_u z).
  - rewrite !Forall_app. split; [done|]. split; [done|by constructor].
Qed.

(** ** The function table *)

(** The line without its end. *)
Definition fctid_words (e : entry) : text := e.1 ++ [space] ++ percent_u e.2.1 ++ [space] ++ e.2.2.

Lemma fctid_line_words e : fctid_line e = fctid_words e ++ [newline].
Proof. unfold fctid_line, fctid_words. by simplify_list_eq. Qed.

Lemma fctid_words_split e : wf_entry e → split (fctid_words e) = [e.1; percent_u e.2.1; e.2.2].
Proof.
  intros (H1 & H2 & H3). unfold fctid_words. cbn [app]. rewrite split_word_space by done.
  rewrite split_word_space by apply percent_u_word. by rewrite split_word.
Qed.

Lemma fctid_words_one_line e : wf_entry e → one_line (fctid_words e).
Proof.
  intros (H1 & H2 & H3). unfold fctid_words.
  repeat apply one_line_app; try apply one_line_space; apply word_one_line; try done. apply percent_u_word.
Qed.

(** The entries of a file whose lines are [f <$> es]. *)
Lemma file_lines_eq {A} (f : A → text) (h : A → text) es :
  (∀ e, e ∈ es → h e = f e ++ [newline] ∧ one_line (f e)) →
  file_lines (concat (h <$> es)) = (λ e, rstrip (f e)) <$> es.
Proof.
  intros He. unfold file_lines.
  assert (E : h <$> es = (λ l, l ++ [newline]) <$> (f <$> es)).
  { rewrite <- list_fmap_compose. apply list_fmap_ext. intros i e Hi. by apply He, (list_elem_of_lookup_2 _ i). }
  rewrite E, lines_concat, <- list_fmap_compose; [done|]. apply Forall_forall. intros l Hl%list_elem_of_In.
  apply list_elem_of_fmap in Hl as (e & -> & Hin). by apply He.
Qed.

Lemma foldl_insert_map {K V} `{Countable K} (l : list (K * V)) : ∀ m : gmap K V, NoDup l.*1 →
  foldl (λ m (e : K * V), <[e.1 := e.2]> m) m l = list_to_map l ∪ m.
Proof.
  induction l as [|e l IH]; intros m Hl; cbn [foldl].
  { change (m = ∅ ∪ m). by rewrite (left_id_L ∅ (∪)). }
  cbn in Hl. apply NoDup_cons_1_1 in Hl as Hfr. apply NoDup_cons_1_2 in Hl.
  rewrite IH by done. destruct e as [f v]. cbn. rewrite <- insert_union_r; [by rewrite insert_union_l|].
  by apply not_elem_of_list_to_map_1.
Qed.

Lemma py_fold_fmap {A B S} (f : S → B → py S) (g : A → B) l : ∀ s,
  py_fold f s (g <$> l) = py_fold (λ s a, f s (g a)) s l.
Proof. induction l as [|a l IH]; intros s; [done|]. cbn. destruct (f s (g a)); cbn; [apply IH|done]. Qed.

Lemma parse_fctids_spec es : Forall wf_entry es → NoDup es.*1 →
  parse_fctids (concat (fctid_line <$> es)) = PyOk (list_to_map es).
Proof.
  intros Hes Hnd. rewrite Forall_forall in Hes. unfold parse_fctids.
  rewrite (file_lines_eq fctid_words fctid_line), py_fold_fmap.
  - rewrite (py_fold_ok _ (λ m (e : entry), <[e.1 := e.2]> m)).
    + rewrite foldl_insert_map by done. by rewrite (right_id_L ∅ (∪)).
    + apply Forall_forall. intros e He m. apply Hes in He as Hwf.
      rewrite split_rstrip, fctid_words_split by done. destruct Hwf as (_ & [H0 _] & _).
      rewrite int_of_percent_u by done. by destruct e as [f [id fl]].
  - intros e He%list_elem_of_In. split; [apply fctid_line_words|]. by apply fctid_words_one_line, Hes.
Qed.

(** ** Rows *)

Definition wf_row (r : row) : Prop := 0 <= r.1 ∧ Forall (λ j, 0 <= j) r.2.

Definition row_words (r : row) : text :=
  concat ((λ w, w ++ [space]) <$> (lit "(" ++ percent_u r.1 ++ lit ")") :: (percent_u <$> r.2)).

Lemma row_line_words r : row_line r = row_words r ++ [newline].
Proof.
  unfold row_line, row_words. cbn [fmap list_fmap concat]. rewrite <- list_fmap_compose.
  rewrite <- !app_assoc. do 2 f_equal.
Qed.

Lemma row_words_all r : Forall word ((lit "(" ++ percent_u r.1 ++ lit ")") :: (percent_u <$> r.2)).
Proof.
  constructor; [by apply word_around; repeat constructor|].
  apply Forall_forall. intros w Hw%list_elem_of_In. apply list_elem_of_fmap in Hw as (z & -> & _).
  apply percent_u_word.
Qed.

Lemma row_words_split r : split (row_words r) = (lit "(" ++ percent_u r.1 ++ lit ")") :: (percent_u <$> r.2).
Proof. unfold row_words. apply split_words, row_words_all. Qed.

Lemma row_words_one_line r : one_line (row_words r).
Proof.
  unfold row_words. apply one_line_concat. apply Forall_forall. intros w Hw%list_elem_of_In.
  apply list_elem_of_fmap in Hw as (v & -> & Hv). apply one_line_app; [|apply one_line_space].
  pose proof (row_words_all r) as Ha. rewrite Forall_forall in Ha. by apply word_one_line, Ha, list_elem_of_In.
Qed.

Lemma row_parse {S} r (k : Z → list Z → py S) : wf_row r →
  (w ← item (split (rstrip (row_words r))) 0;
   ID ← int_of (slice 1 w);
   ns ← py_map int_of (drop 1 (split (rstrip (row_words r))));
   k ID ns) = k r.1 r.2.
Proof.
  intros [H1 H2]. rewrite split_rstrip, row_words_split. cbn [item lookup list_lookup mbind py_bind drop].
  rewrite (slice_around (lit "(") r.1 x29 : slice 1 (lit "(" ++ percent_u r.1 ++ lit ")") = percent_u r.1).
  rewrite int_of_percent_u by done. cbn [mbind py_bind]. rewrite drop_0, ints_of by done. done.
Qed.

Lemma parse_callgraph_spec rows : Forall wf_row rows → NoDup rows.*1 →
  parse_callgraph (concat (row_line <$> rows)) = PyOk (list_to_map rows).
Proof.
  intros Hr Hnd. rewrite Forall_forall in Hr. unfold parse_callgraph.
  rewrite (file_lines_eq row_words row_line), py_fold_fmap
    by (intros e _; split; [apply row_line_words|apply row_words_one_line]).
  rewrite (py_fold_ok _ (λ m (e : row), <[e.1 := e.2]> m)).
  - rewrite foldl_insert_map by done. by rewrite (right_id_L ∅ (∪)).
  - apply Forall_forall. intros e He m. cbn zeta. by rewrite row_parse by by apply Hr.
Qed.

(** ** Sections of the control-flow graphs *)

Definition wf_section (s : section) : Prop :=
  0 <= sec_fct s ∧ 0 <= sec_num s ∧ Forall wf_row (sec_rows s) ∧ NoDup (sec_rows s).*1 ∧
  (sec_num s = 1 → sec_rows s = []).

Definition head_words (s : section) : text :=
  (lit ";{" ++ percent_u (sec_fct s) ++ lit "}") ++ space :: percent_u (sec_num s).

Definition section_lines (s : section) : list text :=
  head_words s :: (if decide (sec_num s = 1) then [] else (row_words <$> sec_rows s) ++ [[]]).

Lemma section_text_lines s : section_text s = concat ((λ l, l ++ [newline]) <$> section_lines s).
Proof.
  assert (E : (if decide (sec_num s = 1) then [] else concat (row_line <$> sec_rows s) ++ [newline]) =
    concat ((λ l, l ++ [newline]) <$>
      (if decide (sec_num s = 1) then [] else (row_words <$> sec_rows s) ++ [[]]))).
  { case_decide; [done|]. rewrite fmap_app, concat_app. cbn. f_equal. rewrite <- list_fmap_compose.
    f_equal. apply list_fmap_ext. intros i r _. apply row_line_words. }
  unfold section_text, section_lines. rewrite E. cbn [fmap list_fmap concat]. unfold head_words.
  change (lit "} ") with (lit "}" ++ [space]). by rewrite <- !app_assoc.
Qed.

Lemma section_lines_one_line s : Forall one_line (section_lines s).
Proof.
  constructor.
  - unfold head_words. apply one_line_app; [|apply (one_line_app [space]); [apply one_line_space|]];
      apply word_one_line; [by apply word_around; repeat constructor|apply percent_u_word].
  - case_decide; [constructor|]. apply Forall_app. split; [|repeat constructor; by intros ?%elem_of_nil].
    apply Forall_forall. intros l Hl%list_elem_of_In. apply list_elem_of_fmap in Hl as (r & -> & _).
    apply row_words_one_line.
Qed.

Lemma sections_file secs :
  file_lines (concat (section_text <$> secs)) = rstrip <$> (secs ≫= section_lines).
Proof.
  assert (E : concat (section_text <$> secs) = concat ((λ l, l ++ [newline]) <$> (secs ≫= section_lines))).
  { induction secs as [|s secs IH]; [done|]. cbn [fmap list_fmap concat]. rewrite IH, section_text_lines.
    change ((s :: secs) ≫= section_lines) with (section_lines s ++ (secs ≫= section_lines)).
    by rewrite fmap_app, concat_app. }
  unfold file_lines. rewrite E, lines_concat; [done|]. apply Forall_forall. intros l Hl%list_elem_of_In.
  apply list_elem_of_bind in Hl as (s & Hl & _). pose proof (section_lines_one_line s) as Ha.
  rewrite Forall_forall in Ha. by apply Ha, list_elem_of_In.
Qed.

(** The line of a function. *)
Lemma parse_bb_head s ps : wf_section s →
  parse_bb_line ps (rstrip (head_words s)) =
    if bool_decide (is_Some (ps_bb ps !! sec_fct s)) then PyErr (SysExit 255)
    else PyOk (BbState (<[sec_fct s := ∅]> (ps_bb ps)) (<[sec_fct s := sec_num s]> (ps_num_blocks ps))
                 (Some (sec_fct s))).
Proof.
  intros (H1 & H2 & _). unfold parse_bb_line.
  assert (Hw : word (lit ";{" ++ percent_u (sec_fct s) ++ lit "}")) by (by apply word_around; repeat constructor).
  assert (Htake : take 2 (rstrip (head_words s)) = lit ";{").
  { unfold head_words. change (lit ";{") with [x3b; x7b]. cbn [app]. rewrite !rstrip_cons by done. done. }
  rewrite Htake, bool_decide_true by done. rewrite split_rstrip. unfold head_words.
  rewrite split_word_space by done. cbn [item lookup list_lookup mbind py_bind].
  rewrite (slice_around (lit ";{") (sec_fct s) x7d : slice 2 (lit ";{" ++ percent_u (sec_fct s) ++ lit "}") = _).
  rewrite int_of_percent_u by done. cbn [mbind py_bind]. rewrite split_word by apply percent_u_word.
  cbn [item lookup list_lookup mbind py_bind]. by rewrite int_of_percent_u.
Qed.

(** The line of a block. *)
Lemma parse_bb_row r ps f d : wf_row r → ps_current ps = Some f → ps_bb ps !! f = Some d →
  parse_bb_line ps (rstrip (row_words r)) =
    PyOk (BbState (<[f := <[r.1 := r.2]> d]> (ps_bb ps)) (ps_num_blocks ps) (Some f)).
Proof.
  intros Hr Hc Hd. unfold parse_bb_line.
  assert (Hne : ∃ s, row_words r = x28 :: s) by (by eexists). destruct Hne as [s Hs].
  assert (Hrs : rstrip (row_words r) = x28 :: rstrip s) by (rewrite Hs; by apply rstrip_cons).
  rewrite bool_decide_false by (rewrite Hrs; done).
  rewrite Hrs. rewrite <- Hrs. rewrite row_parse by done. by rewrite Hc, Hd.
Qed.

Lemma parse_bb_rows rows : ∀ ps f d, Forall wf_row rows → ps_current ps = Some f → ps_bb ps !! f = Some d →
  py_fold parse_bb_line ps (rstrip <$> (row_words <$> rows)) =
    PyOk (BbState (<[f := foldl (λ m (e : row), <[e.1 := e.2]> m) d rows]> (ps_bb ps))
      (ps_num_blocks ps) (Some f)).
Proof.
  induction rows as [|r rows IH]; intros ps f d Hr Hc Hd; cbn [fmap list_fmap py_fold foldl].
  { destruct ps. cbn in *. subst. by rewrite insert_id. }
  apply Forall_cons_1 in Hr as [Hr Hrs]. rewrite (parse_bb_row r ps f d) by done. cbn [mbind py_bind].
  change (list_fmap _ _ ?f ?l) with (f <$> l). rewrite (IH _ f (<[r.1:=r.2]> d)); [|done|done|].
  - cbn [ps_bb ps_num_blocks]. by rewrite insert_insert_eq.
  - cbn [ps_bb]. by rewrite lookup_insert_eq.
Qed.

Lemma parse_bb_section s ps : wf_section s → ps_bb ps !! sec_fct s = None →
  py_fold parse_bb_line ps (rstrip <$> section_lines s) =
    PyOk (BbState (<[sec_fct s := list_to_map (sec_rows s)]> (ps_bb ps))
      (<[sec_fct s := sec_num s]> (ps_num_blocks ps)) (Some (sec_fct s))).
Proof.
  intros Hs Hnone. unfold section_lines. cbn [fmap list_fmap py_fold].
  rewrite parse_bb_head by done. rewrite bool_decide_false by (rewrite Hnone; by intros [? ?]).
  cbn [mbind py_bind]. destruct Hs as (_ & _ & Hr & Hnd & H1). case_decide as Hn.
  - rewrite H1 by done. done.
  - change (list_fmap _ _ ?f ?l) with (f <$> l). rewrite fmap_app, py_fold_app.
    rewrite (parse_bb_rows _ _ (sec_fct s) ∅); [|done|done|cbn; by rewrite lookup_insert_eq].
    cbn [mbind py_bind ps_bb ps_num_blocks fmap list_fmap py_fold].
    rewrite insert_insert_eq, foldl_insert_map by done. by rewrite (right_id_L ∅ (∪)).
Qed.

Lemma parse_bb_section_twice s ps : wf_section s → is_Some (ps_bb ps !! sec_fct s) →
  py_fold parse_bb_line ps (rstrip <$> section_lines s) = PyErr (SysExit 255).
Proof.
  intros Hs Hin. unfold section_lines. cbn [fmap list_fmap py_fold].
  by rewrite parse_bb_head, bool_decide_true.
Qed.

Lemma parse_bb_sections secs : ∀ ps, Forall wf_section secs → NoDup (sec_fct <$> secs) →
  (∀ s, s ∈ secs → ps_bb ps !! sec_fct s = None) →
  ∃ cur, py_fold parse_bb_line ps (rstrip <$> (secs ≫= section_lines)) =
    PyOk (BbState (list_to_map ((λ s, (sec_fct s, list_to_map (sec_rows s))) <$> secs) ∪ ps_bb ps)
      (list_to_map ((λ s, (sec_fct s, sec_num s)) <$> secs) ∪ ps_num_blocks ps) cur).
Proof.
  induction secs as [|s secs IH]; intros ps Hs Hnd Hnone.
  { exists (ps_current ps). cbn. destruct ps as [b n c]. cbn.
    change (PyOk (BbState b n c) = PyOk (BbState (∅ ∪ b) (∅ ∪ n) c)). by rewrite !(left_id_L ∅ (∪)). }
  apply Forall_cons_1 in Hs as [Hs Hss]. cbn in Hnd. apply NoDup_cons_1_1 in Hnd as Hfr.
  apply NoDup_cons_1_2 in Hnd.
  change ((s :: secs) ≫= section_lines) with (section_lines s ++ (secs ≫= section_lines)).
  rewrite fmap_app, py_fold_app, parse_bb_section by (done || (apply Hnone; by left)).
  cbn [mbind py_bind].
  destruct (IH (BbState (<[sec_fct s:=list_to_map (sec_rows s)]> (ps_bb ps))
      (<[sec_fct s:=sec_num s]> (ps_num_blocks ps)) (Some (sec_fct s)))) as (cur & ->); [done|done| |].
  { intros s' Hs'. cbn [ps_bb]. rewrite lookup_insert_ne; [apply Hnone; by right|].
    intros E. apply Hfr. rewrite E. by apply list_elem_of_fmap_2. }
  exists cur. cbn [ps_bb ps_num_blocks fmap list_fmap list_to_map foldr fst snd].
  assert (Hins : ∀ V (g : section → V) (m : gmap Z V),
    list_to_map ((λ s, (sec_fct s, g s)) <$> secs) ∪ <[sec_fct s := g s]> m =
    <[sec_fct s := g s]> (list_to_map ((λ s, (sec_fct s, g s)) <$> secs)) ∪ m).
  { intros V g m. rewrite <- insert_union_r; [by rewrite insert_union_l|].
    apply not_elem_of_list_to_map_1. by rewrite <- list_fmap_compose. }
  rewrite (Hins _ (λ s, list_to_map (sec_rows s) : gmap Z (list Z))), (Hins _ sec_num). done.
Qed.

Lemma parse_bb_spec secs : Forall wf_section secs → NoDup (sec_fct <$> secs) →
  parse_bb (concat (section_text <$> secs)) =
    PyOk (list_to_map ((λ s, (sec_fct s, list_to_map (sec_rows s))) <$> secs),
          list_to_map ((λ s, (sec_fct s, sec_num s)) <$> secs)).
Proof.
  intros Hs Hnd. unfold parse_bb. rewrite sections_file.
  destruct (parse_bb_sections secs (BbState ∅ ∅ None) Hs Hnd) as (cur & ->); [done|].
  cbn [mbind py_bind ps_bb ps_num_blocks]. by rewrite !(right_id_L ∅ (∪)).
Qed.

(** A function that is there twice stops the script. *)
Lemma parse_bb_twice secs1 s secs2 : Forall wf_section (secs1 ++ s :: secs2) → NoDup (sec_fct <$> secs1) →
  sec_fct s ∈ sec_fct <$> secs1 →
  parse_bb (concat (section_text <$> secs1 ++ s :: secs2)) = PyErr (SysExit 255).
Proof.
  intros [Hs1 Hs2]%Forall_app Hnd Hin. apply Forall_cons_1 in Hs2 as [Hs _].
  unfold parse_bb. rewrite sections_file, bind_app, fmap_app, py_fold_app.
  destruct (parse_bb_sections secs1 (BbState ∅ ∅ None) Hs1 Hnd) as (cur & ->); [done|].
  rewrite py_bind_ok. change ((s :: secs2) ≫= section_lines) with (section_lines s ++ (secs2 ≫= section_lines)).
  rewrite fmap_app, py_fold_app, parse_bb_section_twice; [done|done|].
  cbn [ps_bb]. rewrite (right_id_L ∅ (∪)).
  apply list_elem_of_fmap in Hin as (s' & E & Hin). eexists.
  apply (elem_of_list_to_map_1 _ _ (list_to_map (sec_rows s'))).
  - rewrite <- list_fmap_compose. exact Hnd.
  - apply list_elem_of_fmap. exists s'. by rewrite E.
Qed.

(** ** Post-dominators *)

Definition ipd_words (r : ipd_row) : text :=
  percent_u (ipd_fct r) ++ space :: percent_u (ipd_bb r) ++ space :: percent_u (ipd_ipd r) ++
  space :: percent_u (ipd_last r).

Definition ipd_list (r : ipd_row) : list Z := [ipd_fct r; ipd_bb r; ipd_ipd r; ipd_last r].

Lemma ipd_words_split r : split (ipd_words r) = percent_u <$> ipd_list r.
Proof.
  unfold ipd_words. rewrite !split_word_space by apply percent_u_word.
  by rewrite split_word by apply percent_u_word.
Qed.

Lemma parse_bb_ipd_spec rs : Forall (λ r, Forall (λ z, 0 <= z) (ipd_list r)) rs →
  parse_bb_ipd (concat (ipd_text <$> rs)) = PyOk (ipd_list <$> rs).
Proof.
  intros Hr. rewrite Forall_forall in Hr. unfold parse_bb_ipd. rewrite (file_lines_eq ipd_words).
  - induction rs as [|r rs IH]; [done|]. cbn [fmap list_fmap py_map]. rewrite split_rstrip.
    rewrite ipd_words_split, ints_of by (apply Hr; by left). cbn [mbind py_bind].
    change (list_fmap _ _ ?f ?l) with (f <$> l).
    rewrite IH by (intros r' Hr'; apply Hr; by right). done.
  - intros r _. split; [unfold ipd_text, ipd_words; by simplify_list_eq|]. unfold ipd_words.
    repeat first [apply (one_line_app [space]); [apply one_line_space|]
                 |apply word_one_line, percent_u_word | apply one_line_app; [apply word_one_line, percent_u_word|]].
Qed.

(** ** Packing *)

Lemma pack_I_ok z : in_u 32 z → pack_I z = PyOk (le_bytes 4 z).
Proof. intros Hz. unfold pack_I. by rewrite decide_True. Qed.

Lemma pack_Is_ok l : Forall (in_u 32) l → pack_Is l = PyOk (concat (le_bytes 4 <$> l)).
Proof.
  intros Hl. unfold pack_Is. rewrite (py_map_ok pack_I (le_bytes 4)); [done|].
  eapply Forall_impl; [|exact Hl]. apply pack_I_ok.
Qed.

Lemma sort_Permutation {A} (le : A → A → bool) l : sort le l ≡ₚ l.
Proof.
  assert (Hi : ∀ a l, insert_sorted le a l ≡ₚ a :: l).
  { intros a. induction l0 as [|b l0 IH]; cbn; [done|]. destruct (le a b); [done|]. rewrite IH. apply perm_swap. }
  induction l as [|a l IH]; cbn; [done|]. by rewrite Hi, IH.
Qed.

Section Packed.
Context (pe : py_env) (Hpe : py_env_ok pe).

Lemma items_name_length {V} (m : gmap name V) : length (items_name pe V m) = size m.
Proof using Hpe. rewrite (proj1 Hpe V m). by rewrite length_map_to_list. Qed.
Lemma items_id_length {V} (m : gmap Z V) : length (items_id pe V m) = size m.
Proof using Hpe. rewrite (proj2 Hpe V m). by rewrite length_map_to_list. Qed.
Lemma items_name_elem {V} (m : gmap name V) it : it ∈ items_name pe V m ↔ m !! it.1 = Some it.2.
Proof using Hpe. destruct it. rewrite (proj1 Hpe V m). apply elem_of_map_to_list. Qed.
Lemma items_id_elem {V} (m : gmap Z V) it : it ∈ items_id pe V m ↔ m !! it.1 = Some it.2.
Proof using Hpe. destruct it. rewrite (proj2 Hpe V m). apply elem_of_map_to_list. Qed.

(** The entries of the packed table. *)
Definition fct_entries (fcts : gmap name (Z * text)) : list fct_entry :=
  (λ e : Z * (name * text), FctEntry e.1 (flag_to_int e.2.2) e.2.1) <$>
    sort fct_le ((λ it : name * (Z * text), (it.2.1, (it.1, it.2.2))) <$> items_name pe _ fcts).

Lemma fct_entries_elem fcts e : e ∈ fct_entries fcts ↔
  ∃ fl, fcts !! fe_name e = Some (fe_id e, fl) ∧ fe_flags e = flag_to_int fl.
Proof using Hpe.
  unfold fct_entries. rewrite list_elem_of_fmap. split.
  - intros (x & -> & Hx). rewrite sort_Permutation in Hx. apply list_elem_of_fmap in Hx as ([f [id fl]] & -> & Hin).
    apply items_name_elem in Hin. cbn in *. by exists fl.
  - intros (fl & Hf & Hfl). exists (fe_id e, (fe_name e, fl)). split; [by destruct e; cbn in *; subst|].
    rewrite sort_Permutation. apply list_elem_of_fmap. exists (fe_name e, (fe_id e, fl)). split; [done|].
    by apply items_name_elem.
Qed.

Lemma fct_entries_length fcts : length (fct_entries fcts) = size fcts.
Proof using Hpe.
  unfold fct_entries. rewrite length_fmap, (Permutation_length (sort_Permutation _ _)), length_fmap.
  apply items_name_length.
Qed.

Lemma fct_entries_ids fcts : NoDup (fe_id <$> fct_entries fcts) ↔
  NoDup ((λ it : name * (Z * text), it.2.1) <$> map_to_list fcts).
Proof using Hpe.
  unfold fct_entries. rewrite <- list_fmap_compose.
  rewrite sort_Permutation, <- list_fmap_compose, (proj1 Hpe (Z * text)%type fcts). done.
Qed.

Lemma flag_to_int_range s : 0 <= flag_to_int s <= 4.
Proof using Type. unfold flag_to_int. repeat case_bool_decide; lia. Qed.

Lemma packed_fctids_ok fcts : in_u 32 (Z.of_nat (size fcts)) →
  (∀ f id fl, fcts !! f = Some (id, fl) → in_u 32 id) →
  packed_fctids pe fcts = PyOk (fct_l_bytes (fct_entries fcts)).
Proof using Hpe.
  intros Hsize Hids. unfold packed_fctids.
  rewrite (py_map_ok _ (λ e, fct_bytes (FctEntry e.1 (flag_to_int e.2.2) e.2.1))).
  - cbn [mbind py_bind]. rewrite pack_I_ok by done. cbn [mbind py_bind]. unfold fct_l_bytes.
    rewrite fct_entries_length. unfold fct_entries. by rewrite <- list_fmap_compose.
  - apply Forall_forall. intros e He%list_elem_of_In. rewrite sort_Permutation in He.
    apply list_elem_of_fmap in He as ([f [id fl]] & -> & Hin). apply items_name_elem in Hin. cbn [fst snd] in *.
    rewrite pack_Is_ok.
    + cbn [mbind py_bind fmap list_fmap concat]. unfold fct_bytes. cbn [fe_id fe_flags fe_name].
      by rewrite app_nil_r, <- !app_assoc.
    + pose proof (flag_to_int_range fl). repeat constructor; unfold in_u; try lia; by apply (Hids f id fl).
Qed.

Lemma packed_cfi_ok fcts : in_u 32 (Z.of_nat (size fcts)) →
  packed_cfi fcts = PyOk (le_bytes 4 (Z.of_nat (size fcts))).
Proof using Type. apply pack_I_ok. Qed.

(** Rows that fit their fields. *)
Definition small_rows (m : gmap Z (list Z)) : Prop :=
  ∀ i js, m !! i = Some js → in_u 32 i ∧ in_u 32 (Z.of_nat (length js)) ∧ Forall (in_u 32) js.

Definition trans_entries (m : gmap Z (list Z)) : list trans_entry :=
  (λ e : Z * list Z, TransEntry e.1 e.2) <$> items_id pe _ m.

Lemma trans_entries_listed m i j : listed (trans_entries m) i j ↔ ∃ js, m !! i = Some js ∧ j ∈ js.
Proof using Hpe.
  unfold listed, trans_entries. split.
  - intros (t & ([i' js] & -> & Hin%items_id_elem)%list_elem_of_fmap & <- & Hj). by exists js.
  - intros (js & Hm & Hj). exists (TransEntry i js). split; [|done]. apply list_elem_of_fmap.
    exists (i, js). split; [done|]. by apply items_id_elem.
Qed.

Lemma trans_entries_ids m : NoDup (te_id <$> trans_entries m) ∧
  (∀ i, i ∈ te_id <$> trans_entries m ↔ is_Some (m !! i)).
Proof using Hpe.
  unfold trans_entries. rewrite <- list_fmap_compose.
  change (te_id ∘ (λ e : Z * list Z, TransEntry e.1 e.2) <$> items_id pe _ m) with ((items_id pe _ m).*1).
  split.
  - rewrite (proj2 Hpe (list Z) m). apply NoDup_fst_map_to_list.
  - intros i. rewrite list_elem_of_fmap. split.
    + intros ([i' js] & -> & Hin%items_id_elem). by eexists.
    + intros [js Hjs]. exists (i, js). split; [done|]. by apply items_id_elem.
Qed.

Lemma pack_row e : in_u 32 e.1 → in_u 32 (Z.of_nat (length e.2)) → Forall (in_u 32) e.2 →
  pack_Is (e.1 :: Z.of_nat (length e.2) :: e.2) = PyOk (trans_bytes (TransEntry e.1 e.2)).
Proof using Type.
  intros H1 H2 H3. rewrite pack_Is_ok by (by do 2 (constructor; [done|])). cbn [fmap list_fmap concat].
  by unfold trans_bytes.
Qed.

Lemma packed_callgraph_ok m : in_u 32 (Z.of_nat (size m)) → small_rows m →
  packed_callgraph pe m = PyOk (fct_trans_l_bytes (trans_entries m)).
Proof using Hpe.
  intros Hsize Hm. unfold packed_callgraph.
  rewrite (py_map_ok _ (λ e : Z * list Z, trans_bytes (TransEntry e.1 e.2))).
  - cbn [mbind py_bind]. rewrite pack_I_ok by done. cbn [mbind py_bind]. unfold fct_trans_l_bytes, trans_entries.
    rewrite length_fmap, items_id_length. by rewrite <- list_fmap_compose.
  - apply Forall_forall. intros [i js] He%list_elem_of_In. apply items_id_elem in He. cbn [fst snd] in *.
    destruct (Hm i js He) as (H1 & H2 & H3). rewrite !pack_Is_ok by (try done; by do 2 (constructor; [done|])).
    cbn [mbind py_bind fmap list_fmap concat]. unfold trans_bytes. cbn [te_id te_succ].
    by rewrite app_nil_r, <- app_assoc.
Qed.

Lemma packed_dict_ok m : small_rows m →
  packed_dict_uint32 pe m = PyOk (concat (trans_bytes <$> trans_entries m)).
Proof using Hpe.
  intros Hm. unfold packed_dict_uint32.
  rewrite (py_map_ok _ (λ e : Z * list Z, trans_bytes (TransEntry e.1 e.2))).
  - cbn [mbind py_bind]. unfold trans_entries. by rewrite <- list_fmap_compose.
  - apply Forall_forall. intros [i js] He%list_elem_of_In. apply items_id_elem in He. cbn [fst snd] in *.
    destruct (Hm i js He) as (H1 & H2 & H3). by apply (pack_row (i, js)).
Qed.

Lemma packed_bb_entry_ok nums f nb m : nums !! f = Some nb → in_u 32 f → in_u 32 nb →
  in_u 32 (Z.of_nat (size m)) → small_rows m →
  packed_bb_entry pe nums (f, m) = PyOk (block_trans_l_bytes f nb (trans_entries m)).
Proof using Hpe.
  intros Hnum Hf Hnb Hsize Hm. unfold packed_bb_entry. cbn [fst snd]. rewrite Hnum. cbn [mbind py_bind].
  rewrite pack_Is_ok by (by do 3 (constructor; [done|])). cbn [mbind py_bind]. unfold block_trans_l_bytes.
  assert (Hlen : length (trans_entries m) = size m).
  { unfold trans_entries. rewrite length_fmap. apply items_id_length. }
  rewrite Hlen. cbn [fmap list_fmap concat].
  case_decide as Hz.
  - rewrite packed_dict_ok by done. cbn [mbind py_bind]. by rewrite app_nil_r, <- !app_assoc.
  - cbn [mbind py_bind]. assert (length (trans_entries m) = 0%nat) as H0 by lia.
    apply nil_length_inv in H0. rewrite H0. cbn. by rewrite !app_nil_r.
Qed.

End Packed.

(** The bytes of a post-dominator. *)
Definition ipd_bytes (r : ipd_row) : list byte := concat (le_bytes 4 <$> ipd_list r).
Definition block_ipd_l_bytes (rs : list ipd_row) : list byte :=
  le_bytes 4 (Z.of_nat (length rs)) ++ concat (ipd_bytes <$> rs).

Lemma packed_bb_ipd_ok rs : in_u 32 (Z.of_nat (length rs)) → Forall (λ r, Forall (in_u 32) (ipd_list r)) rs →
  packed_bb_ipd (ipd_list <$> rs) = PyOk (block_ipd_l_bytes rs).
Proof.
  intros Hn Hrs. unfold packed_bb_ipd. rewrite length_fmap, pack_I_ok by done. cbn [mbind py_bind].
  rewrite (py_map_ok _ (λ d, concat (le_bytes 4 <$> d))).
  - rewrite py_bind_ok. rewrite <- list_fmap_compose. done.
  - rewrite Forall_forall in Hrs. apply Forall_forall. intros d Hd%list_elem_of_In.
    apply list_elem_of_fmap in Hd as (r & -> & Hr). rewrite decide_True by done.
    by apply pack_Is_ok, Hrs, list_elem_of_In.
Qed.

(** ** String literals *)

Lemma hex_digit_value n : 0 <= n < 16 → hex_value (hex_digit n) = Some n.
Proof.
  intros Hn. assert (E : Forall (λ k, hex_value (hex_digit (Z.of_nat k)) = Some (Z.of_nat k)) (seq 0 16)).
  { repeat constructor. }
  rewrite Forall_forall in E. specialize (E (Z.to_nat n)). rewrite Z2Nat.id in E by lia.
  apply E, in_seq. lia.
Qed.

Lemma read_escape c fuel s : match s with [] => True | b :: _ => is_hex b = false end →
  read_escapes (S fuel) (escape c ++ s) = cons c <$> read_escapes fuel s.
Proof.
  intros Hs. unfold escape. pose proof (byte_to_Z_range c) as Hc.
  assert (Hd : 0 <= byte_to_Z c / 16 < 16) by (split; [apply Z.div_pos; lia|apply Z.div_lt_upper_bound; lia]).
  assert (Hm : 0 <= byte_to_Z c mod 16 < 16) by (apply Z.mod_pos_bound; lia).
  change (lit "\x") with [x5c; x78]. cbn [app read_escapes]. rewrite bool_decide_true by done.
  set (h1 := hex_digit (byte_to_Z c / 16)). set (h2 := hex_digit (byte_to_Z c mod 16)).
  assert (Hv1 : hex_value h1 = Some (byte_to_Z c / 16)) by by apply hex_digit_value.
  assert (Hv2 : hex_value h2 = Some (byte_to_Z c mod 16)) by by apply hex_digit_value.
  assert (Hspan : span is_hex (h1 :: h2 :: s) = ([h1; h2], s)).
  { apply (span_stop is_hex [h1; h2] s); [|done]. unfold is_hex. repeat constructor; by rewrite ?Hv1, ?Hv2. }
  rewrite Hspan. cbn [hex_number]. rewrite Hv1. cbn [mbind option_bind]. rewrite Hv2. cbn [mbind option_bind].
  replace (16 * (16 * 0 + byte_to_Z c / 16) + byte_to_Z c mod 16) with (byte_to_Z c)
    by (pose proof (Z.div_mod (byte_to_Z c) 16); lia).
  rewrite decide_True by lia. by rewrite byte_of_to_Z.
Qed.

Lemma read_escapes_spec s : ∀ fuel, (length s <= fuel)%nat →
  read_escapes fuel (concat (escape <$> s)) = Some s.
Proof.
  induction s as [|c s IH]; intros fuel Hf; cbn [fmap list_fmap concat length] in *; [by destruct fuel|].
  destruct fuel as [|fuel]; [lia|]. rewrite read_escape by (by destruct s).
  by rewrite IH by lia.
Qed.

Lemma escape_length c : length (escape c) = 4%nat.
Proof. done. Qed.

Lemma escapes_length s : length (concat (escape <$> s)) = (4 * length s)%nat.
Proof. induction s as [|c s IH]; [done|]. cbn [fmap list_fmap concat length]. rewrite length_app, IH, escape_length. lia. Qed.

(** A line of a literal is read back. *)
Lemma read_line s : read_literal_line ([quote] ++ concat (escape <$> s) ++ [quote]) = Some s.
Proof.
  cbn [app]. unfold read_literal_line. rewrite bool_decide_true by (split; [done|apply last_snoc]).
  rewrite removelast_last. apply read_escapes_spec. rewrite length_app, escapes_length. lia.
Qed.

Lemma take_escapes k s : take (4 * k) (concat (escape <$> s)) = concat (escape <$> take k s) ∧
  drop (4 * k) (concat (escape <$> s)) = concat (escape <$> drop k s).
Proof.
  revert s. induction k as [|k IH]; intros s; [done|]. destruct s as [|c s]; [done|].
  cbn [fmap list_fmap concat]. replace (4 * S k)%nat with (length (escape c) + 4 * k)%nat by (rewrite escape_length; lia).
  rewrite take_app_add', drop_app_add' by done. destruct (IH s) as [H1 H2].
  change (take (S k) (c :: s)) with (c :: take k s). change (drop (S k) (c :: s)) with (drop k s).
  cbn [fmap list_fmap concat]. change (list_fmap _ _ ?f ?l) with (f <$> l). by rewrite H1, H2.
Qed.

Lemma chunks_literal fuel : ∀ s, (4 * length s <= fuel)%nat →
  (@concat byte) <$> mapM read_literal_line ((λ c, [quote] ++ c ++ [quote]) <$>
    chunks_from fuel 64 (concat (escape <$> s))) = Some s.
Proof.
  induction fuel as [|fuel IH]; intros s Hf.
  { destruct s; [done|cbn in Hf; lia]. }
  destruct s as [|c s]; [done|].
  assert (E : chunks_from (S fuel) 64 (concat (escape <$> c :: s)) =
    concat (escape <$> take 16 (c :: s)) :: chunks_from fuel 64 (concat (escape <$> drop 16 (c :: s)))).
  { destruct (take_escapes 16 (c :: s)) as [H1 H2]. change (4 * 16)%nat with 64%nat in *.
    rewrite <- H1, <- H2. done. }
  rewrite E. change ((?h <$> ?a :: ?l)) with (h a :: (h <$> l)). cbn [mapM]. rewrite read_line.
  assert (Hl : (4 * length (drop 16 (c :: s)) <= fuel)%nat) by (rewrite length_drop; cbn [length] in *; lia).
  apply IH in Hl. apply fmap_Some in Hl as (ls & Hls & Hd). rewrite Hls. cbn [mbind option_bind].
  cbn [mret option_ret fmap option_fmap option_map concat]. rewrite <- Hd. f_equal. apply (take_drop 16 (c :: s)).
Qed.

(** What the compiler makes of a literal is what the script packed. *)
Lemma literal_bytes_literal s : literal_bytes (literal s) = Some s.
Proof. unfold literal_bytes, literal, chunks. apply chunks_literal. rewrite escapes_length. lia. Qed.
