(* ===== verification/Startup.v ===== *)
(** * The generated startup code (prelink/picon-prelink, monitor/src/main.c)

    The prelink script generates, for each binary, a constructor [_init_cfi]
    that takes the descriptors of the pipes from the environment, sends the
    packed sections, stores the module number that the monitor answers, and
    calls the constructors of the binary; and a destructor that calls its
    destructors.  The environment is set by the client process of the monitor
    program. *)

From S2P Require Import Prelude CSem Wire Client Dot Text Ir Pass Prelink.
From Stdlib Require Import Strings.Byte.
From Stdlib Require Strings.String.
Import Strings.String.StringSyntax.
#[local] Open Scope string_scope.
#[local] Open Scope Z_scope.
#[local] Open Scope list_scope.

(** ** The environment *)

Abbreviation environment := (gmap name text) (only parsing).

Definition ENV_FD_MONITOR_TO_LOADING : name := lit "CFI_MONITOR_TO_LOADING".
Definition ENV_FD_LOADING_TO_MONITOR : name := lit "CFI_LOADING_TO_MONITOR".
Definition ENV_FD_CLIENT_TO_MONITOR : name := lit "CFI_CLIENT_TO_MONITOR".
Definition ENV_FD_MONITOR_TO_CLIENT : name := lit "CFI_MONITOR_TO_CLIENT".

(** The ends of the pipes that the client keeps. *)
Record descriptors := Descriptors {
  fd_client_to_monitor : Z;
  fd_monitor_to_client : Z;
  fd_loading_to_monitor : Z;
  fd_monitor_to_loading : Z;
}.

(** [setenv(ENV, buffer, 1)], four times, before the [execve] of the program:
    the descriptors are printed with ["%u"]. *)
Definition client_environment (fds : descriptors) (env : environment) : environment :=
  <[ENV_FD_MONITOR_TO_LOADING := percent_u (u32 (fd_monitor_to_loading fds))]>
  (<[ENV_FD_LOADING_TO_MONITOR := percent_u (u32 (fd_loading_to_monitor fds))]>
  (<[ENV_FD_MONITOR_TO_CLIENT := percent_u (u32 (fd_monitor_to_client fds))]>
  (<[ENV_FD_CLIENT_TO_MONITOR := percent_u (u32 (fd_client_to_monitor fds))]> env))).

(** [strtol(s, &ptr, 10)]: white space, a sign, digits; the value saturates at
    the bounds of [long]; without digits it is 0.  [ptr] is never [NULL]. *)
Definition strtol (s : text) : Z :=
  let s := (span is_space s).2 in
  let '(neg, s) :=
    match s with
    | b :: s' => if bool_decide (b = x2d) then (true, s')
                 else if bool_decide (b = x2b) then (false, s') else (false, s)
    | [] => (false, s)
    end in
  let v := default 0 (digits_value (span is_digit s).1) in
  if (neg : bool) then Z.max (- v) (- 2 ^ 63) else Z.min v (2 ^ 63 - 1).

(** [s = getenv(ENV); assert(s != NULL); fd = strtol(s, &ptr, 10);
    assert(ptr != NULL); if (fd < 0) abort();]: [None] is an abort. *)
Definition get_fd (env : environment) (n : name) : option Z :=
  s ← env !! n;
  let fd := s32 (strtol s) in
  if decide (fd < 0) then None else Some fd.

(** ** The constructor *)

(** The parts of the text of [_init_cfi]. *)
Inductive template :=
| TEMPLATE_MAIN | TEMPLATE_SEND_BB | TEMPLATE_SEND_BB_IPD | TEMPLATE_MAIN_END | TEMPLATE_MAIN_TERMINATED
| CALL_INIT_WRAPPER.

Definition gen_ctor (granularity_bb has_main : bool) : list template :=
  [TEMPLATE_MAIN] ++ (if granularity_bb then [TEMPLATE_SEND_BB; TEMPLATE_SEND_BB_IPD] else []) ++
  [TEMPLATE_MAIN_END] ++ (if has_main then [TEMPLATE_MAIN_TERMINATED] else []) ++ [CALL_INIT_WRAPPER].

(** Code that returns or aborts, in a process of state [S]. *)
Definition client_code (S : Type) := S → C (outcome * S).

(** [c1; c2] *)
Definition and_then {S} (c1 c2 : client_code S) : client_code S := λ st,
  '(o, st) ← c1 st;
  match o with Aborted => mret (Aborted, st) | Returned => c2 st end.

Definition skip {S} : client_code S := λ st, mret (Returned, st).

Fixpoint in_sequence {S} (cs : list (client_code S)) : client_code S :=
  match cs with [] => skip | c :: cs => and_then c (in_sequence cs) end.

Section Constructor.
Context (env : environment) (p : prelinked).

(** The state of the process; an assignment to the variables of the copy of the
    support that is in the binary. *)
Context {S : Type} (assign : (client_state → client_state) → S → S).

(** The program itself: what a call of a function does. *)
Context (call : name → client_code S).

(** [pkt.event=..; pkt.size=..; pkt.value=..; WRITE_LOADING_PACKET(..);
    if (err) abort();] *)
Definition send_packet (e : loading_event) (value : list byte) : client_code S := λ st,
  err ← WRITE_LOADING_PACKET e value 0;
  mret (if decide (err ≠ 0) then Aborted else Returned, st).

(** The [getenv]s and the call of [__CFI_SET_FDS]. *)
Definition connect : client_code S := λ st,
  match get_fd env ENV_FD_LOADING_TO_MONITOR, get_fd env ENV_FD_MONITOR_TO_LOADING,
        get_fd env ENV_FD_CLIENT_TO_MONITOR, get_fd env ENV_FD_MONITOR_TO_CLIENT with
  | Some _, Some _, Some c2m, Some m2c => mret (Returned, assign (__CFI_SET_FDS c2m m2c) st)
  | _, _, _, _ => mret (Aborted, st)
  end.

(** [READ_MONITOR_TO_LOADING_PACKET(..); if (err) abort();
    __CFI_SET_MODULE_ID(m2l_pkt.id);] *)
Definition receive_module_id : client_code S := λ st,
  '(m2l_pkt, err) ← READ_MONITOR_TO_LOADING_PACKET (uninit 2) 0;
  if decide (err ≠ 0) then mret (Aborted, st)
  else id ← lift (obj_field m2l_pkt 0 2); mret (Returned, assign (__CFI_SET_MODULE_ID id) st).

(** [_init_wrapper]: the constructors of the binary. *)
Definition _init_wrapper : client_code S := in_sequence (call <$> fcts_init p).

(** [_fini_wrapper], all that [_fini_cfi] does. *)
Definition _fini_wrapper : client_code S := in_sequence (call <$> fcts_fini p).
Definition _fini_cfi : client_code S := _fini_wrapper.

Definition run_template (t : template) : client_code S :=
  match t with
  | TEMPLATE_MAIN =>
      in_sequence [connect; send_packet CFI_LOADING_MODULE_BEGIN (char_array (s_cfi p)); receive_module_id;
                   send_packet CFI_LOADING_SECTION_FUNCTION_ID (char_array (s_fctids p));
                   send_packet CFI_LOADING_SECTION_FUNCTION_TRANSITION (char_array (s_callgraph p))]
  | TEMPLATE_SEND_BB =>
      in_sequence (send_packet CFI_LOADING_SECTION_BLOCK_TRANSITION <$> default [] (fst <$> s_bb p))
  | TEMPLATE_SEND_BB_IPD =>
      send_packet CFI_LOADING_SECTION_BLOCK_IPD (char_array (default [] (snd <$> s_bb p)))
  | TEMPLATE_MAIN_END => send_packet CFI_LOADING_MODULE_END []
  | TEMPLATE_MAIN_TERMINATED => send_packet CFI_LOADING_TERMINATED []
  | CALL_INIT_WRAPPER => _init_wrapper
  end.

Definition _init_cfi : client_code S :=
  in_sequence (run_template <$> gen_ctor (bool_decide (is_Some (s_bb p))) (has_main p)).

End Constructor.

(** ** The text of the wrappers *)

Definition INIT_WRAPPER_NAME : name := lit "_init_wrapper".
Definition FINI_WRAPPER_NAME : name := lit "_fini_wrapper".

(** [gen_init_wrapper] and [gen_fini_wrapper]: the lines, in order. *)
Definition gen_wrapper (wrapper : name) (fcts : list name) : list text :=
  ((λ f, lit "extern void " ++ f ++ lit " (void);") <$> fcts) ++
  [lit "void __attribute__((visibility(" ++ [quote] ++ lit "hidden" ++ [quote] ++ lit "))) " ++ wrapper ++ lit "(void) {"] ++
  ((λ f, lit "  (void)" ++ f ++ lit "();") <$> fcts) ++ [lit "}"].

Definition gen_init_wrapper (fcts : list name) : list text := gen_wrapper INIT_WRAPPER_NAME fcts.
Definition gen_fini_wrapper (fcts : list name) : list text := gen_wrapper FINI_WRAPPER_NAME fcts.

(** What [print] writes of them. *)
Definition printed (ls : list text) : text := concat ((λ l, l ++ [newline]) <$> ls).

(** A C identifier. *)
Definition identifier_start (b : byte) : bool :=
  let z := byte_to_Z b in bool_decide (65 <= z <= 90) || bool_decide (97 <= z <= 122) || bool_decide (z = 95).
Definition identifier (f : name) : bool :=
  match f with
  | [] => false
  | b :: s => identifier_start b && forallb (λ b, identifier_start b || is_digit b) s
  end.

(** The function that a line of the body of a wrapper calls, as C reads it. *)
Definition called_by_line (l : text) : option name :=
  if decide (take 8 l = lit "  (void)") then
    let '(f, rest) := span (λ b, identifier_start b || is_digit b) (drop 8 l) in
    if decide (rest = lit "();" ∧ identifier f = true) then Some f else None
  else None.

Definition wrapper_calls (s : text) : list name := omap called_by_line (lines s).
