(* ===== verification/LoadModule.v ===== *)
(** * What the loader makes of a module

    The packets of a module, in the order in which the constructor that the
    prelink script generates sends them, and the data the monitor has when they
    are loaded: the function table, the call graph and the control-flow graphs
    that were packed.  [wire] is what the writes of these packets put in the
    pipe, which is the packets themselves when their sections fit
    ([small_packet]). *)

From S2P Require Import Prelude CSem Wire CStack MonitorData MonitorRun RunSpec RunRefine RunTotal.
From S2P Require Import LoadSections Relocate Dot MonitorLoad LoadWf LoadTotal LoadSpec Sessions LoadRuns.
From S2P Require Import LoadPackets Text Ir Pass PassFiles Prelink PrelinkSpec.
From S2P Require Import MonitorData.
From Stdlib Require Import Strings.Byte.

(** The blocks of a function: its number, how many, their successors. *)
Record blocks_of := BlocksOf { bo_fct : Z; bo_num : Z; bo_rows : list trans_entry }.

(** What is packed of a module. *)
Record tables := Tables {
  tb_fcts : list fct_entry;
  tb_calls : list trans_entry;
  tb_blocks : option (list blocks_of * list ipd_row);
}.

Definition tb_num (t : tables) : Z := Z.of_nat (length (tb_fcts t)).
Definition tb_sections (t : tables) : list blocks_of :=
  match tb_blocks t with Some (bs, _) => bs | None => [] end.

Definition wf_blocks (n : Z) (b : blocks_of) : Prop :=
  0 <= bo_fct b < n ∧ in_u 32 (bo_num b) ∧ bo_num b ≠ 0 ∧
  in_u 32 (Z.of_nat (length (bo_rows b))) ∧ Forall (wf_trans (bo_num b)) (bo_rows b).

(** A post-dominator is of a function whose blocks are there. *)
Definition wf_ipd (bs : list blocks_of) (r : ipd_row) : Prop :=
  Forall (in_u 32) (ipd_list r) ∧ ∃ b, b ∈ bs ∧ bo_fct b = ipd_fct r ∧ ipd_bb r < bo_num b.

Record wf_tables (t : tables) : Prop := {
  wt_num : 0 < tb_num t < 2 ^ 32;
  wt_fcts : Forall (wf_fct (tb_num t)) (tb_fcts t);
  wt_ids : NoDup (fe_id <$> tb_fcts t);
  wt_calls : Forall (wf_trans (tb_num t)) (tb_calls t);
  wt_calls_num : in_u 32 (Z.of_nat (length (tb_calls t)));
  wt_calls_ids : NoDup (te_id <$> tb_calls t);
  wt_blocks : Forall (wf_blocks (tb_num t)) (tb_sections t);
  wt_blocks_ids : NoDup (bo_fct <$> tb_sections t);
  wt_ipd : ∀ bs rs, tb_blocks t = Some (bs, rs) → Forall (wf_ipd bs) rs ∧ in_u 32 (Z.of_nat (length rs));
}.

Definition block_packet (b : blocks_of) : packet :=
  (CFI_LOADING_SECTION_BLOCK_TRANSITION, block_trans_l_bytes (bo_fct b) (bo_num b) (bo_rows b)).

(** The packets between the first and the last one of a module. *)
Definition section_packets (t : tables) : list packet :=
  [(CFI_LOADING_SECTION_FUNCTION_ID, char_array (fct_l_bytes (tb_fcts t)));
   (CFI_LOADING_SECTION_FUNCTION_TRANSITION, char_array (fct_trans_l_bytes (tb_calls t)))] ++
  match tb_blocks t with
  | None => []
  | Some (bs, rs) => (block_packet <$> bs) ++
                     [(CFI_LOADING_SECTION_BLOCK_IPD, char_array (block_ipd_l_bytes rs))]
  end.

(** ** What is loaded *)

Section Loaded.
Context (t : tables) (Ht : wf_tables t).

Let n := tb_num t.

(** Function [e] in the module, when the blocks of [done] were loaded. *)
Definition function_loaded (done : list blocks_of) (md : module_data) (e : fct_entry) : Prop :=
  ∃ fd, function_at md (fe_id e) = Val fd ∧ name fd = Live (fe_name e) ∧ flags fd = fe_flags e ∧
    (∀ b, b ∈ done → bo_fct b = fe_id e → nb_blocks fd = bo_num b ∧
       (∀ i j, edge (control_flow_graph fd) i j ↔ listed (bo_rows b) i j) ∧
       ∃ l, immediate_post_dominator fd = Live l ∧ Z.of_nat (length l) = bo_num b) ∧
    (fe_id e ∉ bo_fct <$> done → nb_blocks fd = 0).

Record loaded (cg : bool) (done : list blocks_of) (md : module_data) : Prop := {
  ld_num : nb_functions md = n;
  ld_inits : nb_entrypoint_inits md = flagged FCT_INIT (tb_fcts t);
  ld_finis : nb_entrypoint_finis md = flagged FCT_FINI (tb_fcts t);
  ld_calls : if cg then ∀ i j, edge (call_graph md) i j ↔ listed (tb_calls t) i j
             else call_graph md = Live (zeroed n Null);
  ld_fcts : ∀ e, e ∈ tb_fcts t → function_loaded done md e;
}.

Lemma num_u : in_u 32 n.
Proof using Ht. pose proof (wt_num t Ht). unfold in_u, n. lia. Qed.

Lemma fct_of_id i : 0 <= i < n → ∃ e, e ∈ tb_fcts t ∧ fe_id e = i.
Proof using Ht.
  intros Hi. pose proof (wt_ids t Ht) as Hnd. pose proof (wt_fcts t Ht) as Hwf. rewrite Forall_forall in Hwf.
  assert (Hsub : ∀ z, z ∈ fe_id <$> tb_fcts t → z ∈ seqZ 0 n).
  { intros z (e & -> & He)%list_elem_of_fmap. apply elem_of_seqZ.
    destruct (Hwf e) as [Hr _]; [by apply list_elem_of_In|]. unfold n. lia. }
  assert (Hperm : fe_id <$> tb_fcts t ≡ₚ seqZ 0 n).
  { apply submseteq_length_Permutation; [by apply NoDup_submseteq|].
    rewrite length_fmap, length_seqZ. unfold n, tb_num. lia. }
  assert (Hin : i ∈ fe_id <$> tb_fcts t) by (rewrite Hperm; apply elem_of_seqZ; lia).
  apply list_elem_of_fmap in Hin as (e & -> & He). by exists e.
Qed.

Lemma char_array_value v : packet_value (char_array v) = Live (v ++ [x00]).
Proof using Type. unfold packet_value, char_array. rewrite decide_False; [done|]. by destruct v. Qed.

(** The function table. *)
Lemma loads_function_id opts :
  loads opts CFI_LOADING_SECTION_FUNCTION_ID (char_array (fct_l_bytes (tb_fcts t)))
    (λ md, md = new_module) (loaded false []).
Proof using Ht.
  intros md w -> Hw. rewrite char_array_value.
  destruct (load_function_id_spec [x00] (tb_fcts t) new_module w num_u (wt_fcts t Ht) Hw)
    as (w' & Hload & _); [done..|].
  eexists _, w'. unfold load_section. rewrite loading_event_case_code. split; [exact Hload|].
  split; try done. intros e He. exists (fct_of e).
  split; [|split; [done|split; [done|split; [by intros b Hb%elem_of_nil|done]]]].
  unfold function_at. cbn [functions deref mbind res_bind]. apply arr_get_Val.
  pose proof (wt_fcts t Ht) as Hwf. rewrite Forall_forall in Hwf.
  destruct (Hwf e ltac:(by apply list_elem_of_In)) as [[? ?] _]. split; [done|].
  pose proof num_u as [? _].
  eapply (foldl_place_lookup n); [|apply (wt_ids t Ht)|done|unfold n, tb_num; by apply zeroed_length].
  by rewrite Forall_forall.
Qed.

(** The call graph. *)
Lemma loads_transition opts :
  loads opts CFI_LOADING_SECTION_FUNCTION_TRANSITION (char_array (fct_trans_l_bytes (tb_calls t)))
    (loaded false []) (loaded true []).
Proof using Ht.
  intros md w [Hn Hi Hf Hg Hfun] Hw. rewrite char_array_value. destruct (zeroed_graph n) as [Hno Hnull].
  pose proof num_u as [Hn0 _]. pose proof (wt_num t Ht) as Hpos. fold n in Hpos.
  destruct (function_transition_spec [x00] n (tb_calls t) md w num_u (wt_calls t Ht) Hw Hn)
    as (g & w' & Hrun & _ & _ & He & _).
  - rewrite Hg. by apply wf_graph_zeroed.
  - apply Ht.
  - intros c Hc. rewrite Hg. apply Hnull. pose proof (wt_calls t Ht) as Hts. rewrite Forall_forall in Hts.
    by apply list_elem_of_In, Hts in Hc as [? _].
  - exists (set_call_graph g md), w'. unfold load_section. rewrite loading_event_case_code. split.
    + unfold load_section_function_transition. rewrite Hg. cbn [non_null negb].
      rewrite decide_False by lia. cbn [deref]. rewrite C_bind_eq, lift_Val.
      unfold msg_num, msg_list, fct_trans_l_bytes. rewrite <- app_assoc, field_le4 by apply Ht.
      by rewrite C_bind_eq, lift_Val, drop_le4, Nat2Z.id.
    + split; try done. cbn. intros i j. rewrite He, Hg. split; [|by right].
      intros [H|H]; [by apply Hno in H|done].
Qed.

(** The blocks of one function. *)
Lemma loads_blocks opts done b : wf_blocks n b → bo_fct b ∉ bo_fct <$> done →
  loads opts CFI_LOADING_SECTION_BLOCK_TRANSITION (block_trans_l_bytes (bo_fct b) (bo_num b) (bo_rows b))
    (loaded true done) (loaded true (done ++ [b])).
Proof using Ht.
  intros (Hf & Hu & Hz & Hlen & Hrows) Hnew md w [Hn Hi Hfi Hg Hfun] Hw.
  destruct (fct_of_id (bo_fct b) Hf) as (e & He & Heq).
  destruct (Hfun e He) as (fd & Hfd & Hname & Hflags & _ & Hnb). rewrite Heq in Hfd, Hnb.
  destruct (load_block_transition_spec (bo_num b) (bo_fct b) (bo_rows b) md fd w Hu Hz Hlen Hrows)
    as (fs & g & w' & Hload & Hfd' & Hed & _ & Hoth); [rewrite Hn; apply num_u|by rewrite Hn|done|by apply Hnb|done|].
  cbn zeta in *. eexists _, w'. unfold load_section. rewrite loading_event_case_code. split.
  { unfold packet_value. rewrite decide_False by done. exact Hload. }
  split; try done. intros e' He'. destruct (decide (fe_id e' = bo_fct b)) as [E|E].
  - assert (e' = e) as ->.
    { apply (NoDup_fmap_elem fe_id (tb_fcts t)); [apply Ht|done|done|congruence]. }
    eexists. rewrite E. split; [exact Hfd'|]. split; [done|]. split; [done|]. split.
    + intros b' [Hb'|Hb'%list_elem_of_singleton]%elem_of_app Hid.
      * destruct Hnew. apply list_elem_of_fmap. by exists b'.
      * subst b'. split; [done|]. split; [exact Hed|]. eexists. split; [done|]. 
        destruct Hu. by apply zeroed_length.
    + intros Hn'. destruct Hn'. rewrite fmap_app. apply elem_of_app. right. by left.
  - destruct (Hfun e' He') as (fd' & Hfd2 & Hnm & Hfl & Hdone & Hnb').
    exists fd'. rewrite Hoth by done. split; [done|]. split; [done|]. split; [done|]. split.
    + intros b' [Hb'|Hb'%list_elem_of_singleton]%elem_of_app Hid; [by apply Hdone|]. subst b'. congruence.
    + intros Hn'. apply Hnb'. intros Hin. apply Hn'. rewrite fmap_app. apply elem_of_app. by left.
Qed.

(** The post-dominators. *)
Lemma ipd_fields r rest : Forall (in_u 32) (ipd_list r) →
  msg_block_ipd_f_id (ipd_bytes r ++ rest) = Val (ipd_fct r) ∧
  msg_block_ipd_b_id (ipd_bytes r ++ rest) = Val (ipd_bb r) ∧
  msg_block_ipd_b_ipd_id (ipd_bytes r ++ rest) = Val (ipd_ipd r) ∧
  drop sizeof_msg_block_ipd (ipd_bytes r ++ rest) = rest.
Proof using Type.
  intros Hr. unfold ipd_list in Hr. apply Forall_cons_1 in Hr as [H1 Hr]. apply Forall_cons_1 in Hr as [H2 Hr].
  apply Forall_cons_1 in Hr as [H3 Hr].
  assert (E : ipd_bytes r ++ rest = le_bytes 4 (ipd_fct r) ++ le_bytes 4 (ipd_bb r) ++
    le_bytes 4 (ipd_ipd r) ++ le_bytes 4 (ipd_last r) ++ rest).
  { unfold ipd_bytes, ipd_list. cbn [fmap list_fmap concat]. by rewrite app_nil_r, <- !app_assoc. }
  unfold msg_block_ipd_f_id, msg_block_ipd_b_id, msg_block_ipd_b_ipd_id. rewrite E.
  split; [by apply field_le4|]. split; [by apply field_le4_at; [rewrite le_bytes_length|]|]. split.
  - rewrite app_assoc. apply field_le4_at; [by rewrite length_app, !le_bytes_length|done].
  - rewrite !app_assoc. rewrite drop_app_length'; [done|]. by rewrite !length_app, !le_bytes_length.
Qed.

Lemma block_ipd_loop_spec bs tl rs : ∀ md, NoDup (bo_fct <$> bs) → Forall (wf_blocks n) bs →
  Forall (wf_ipd bs) rs → loaded true bs md →
  ∃ md', block_ipd_loop (length rs) (concat (ipd_bytes <$> rs) ++ tl) md = Val (0, md') ∧ loaded true bs md'.
Proof using Ht.
  induction rs as [|r rs IH]; intros md Hnd Hbs Hrs Hmd; [by exists md|].
  apply Forall_cons_1 in Hrs as [[Hu (b & Hb & Hbf & Hbb)] Hrs].
  destruct (ipd_fields r (concat (ipd_bytes <$> rs) ++ tl) Hu) as (F1 & F2 & F3 & F4).
  assert (Hwb : wf_blocks n b) by (rewrite Forall_forall in Hbs; by apply Hbs, list_elem_of_In).
  destruct Hwb as (Hf & _). destruct (fct_of_id (bo_fct b) Hf) as (e & He & Heq).
  pose proof Hmd as [Hn Hi Hfi Hg Hfun].
  destruct (Hfun e He) as (fd & Hfd & Hname & Hflags & Hdone & Hnb).
  destruct (Hdone b Hb (eq_sym Heq)) as (Hnum & Hed & l & Hl & Hlen).
  assert (Hbb0 : 0 <= ipd_bb r).
  { unfold ipd_list in Hu. apply Forall_cons_1 in Hu as [_ Hu]. by apply Forall_cons_1 in Hu as [[? _] _]. }
  unfold function_at in Hfd. destruct (functions md) as [|fs|] eqn:Hfs; [done| |done].
  cbn [deref mbind res_bind] in Hfd. assert (Hlt := arr_get_lt _ _ _ Hfd).
  set (fd' := set_immediate_post_dominator (Live (<[Z.to_nat (ipd_bb r) := ipd_ipd r]> l)) fd).
  set (md1 := set_functions (Live (<[Z.to_nat (ipd_fct r) := fd']> fs)) md).
  rewrite Heq, Hbf in Hlt, Hfd.
  assert (Hat : ∀ i, function_at md1 i = if decide (i = ipd_fct r) then Val fd' else function_at md i).
  { intros i. unfold md1, function_at. rewrite Hfs. cbn [functions set_functions deref mbind res_bind].
    by apply arr_get_insert. }
  assert (Hmd1 : loaded true bs md1).
  { split; try done. intros e' He'. destruct (Hfun e' He') as (fd2 & Hfd2 & Hn2 & Hf2 & Hd2 & Hnb2).
    unfold function_loaded. rewrite Hat. case_decide as Hc; [|by exists fd2].
    assert (e' = e) as -> by (apply (NoDup_fmap_elem fe_id (tb_fcts t)); [apply Ht|done|done|congruence]).
    exists fd'. split; [done|]. split; [done|]. split; [done|]. split; [|done].
    intros b' Hb' Hid. assert (b' = b) as ->.
    { apply (NoDup_fmap_elem bo_fct bs); [done..|congruence]. }
    split; [done|]. split; [exact Hed|]. eexists. split; [done|]. by rewrite length_insert. }
  destruct (IH md1 Hnd Hbs Hrs Hmd1) as (md' & Hrun & Hmd'). exists md'. split; [|done].
  cbn [length fmap list_fmap concat]. rewrite <- app_assoc. cbn [block_ipd_loop].
  rewrite F1. cbn [mbind res_bind]. rewrite decide_False by (rewrite Hn; lia).
  unfold function_at. rewrite Hfs. cbn [deref mbind res_bind]. rewrite Hfd. cbn [mbind res_bind].
  rewrite Hl. cbn [non_null negb]. rewrite F2. cbn [mbind res_bind]. rewrite decide_False by lia.
  cbn [deref mbind res_bind]. rewrite F3. cbn [mbind res_bind]. rewrite arr_set_in_range by lia.
  cbn [mbind res_bind]. unfold put_function. rewrite Hfs. cbn [deref mbind res_bind].
  rewrite arr_set_in_range by done. cbn [mbind res_bind]. rewrite F4. exact Hrun.
Qed.

Lemma loads_ipd opts bs rs : NoDup (bo_fct <$> bs) → Forall (wf_blocks n) bs → Forall (wf_ipd bs) rs →
  in_u 32 (Z.of_nat (length rs)) →
  loads opts CFI_LOADING_SECTION_BLOCK_IPD (char_array (block_ipd_l_bytes rs)) (loaded true bs) (loaded true bs).
Proof using Ht.
  intros Hnd Hbs Hrs Hlen md w Hmd Hw. rewrite char_array_value.
  destruct (block_ipd_loop_spec bs [x00] rs md Hnd Hbs Hrs Hmd) as (md' & Hrun & Hmd').
  exists md', w. split; [|done]. unfold load_section. rewrite loading_event_case_code.
  unfold load_section_block_ipd. destruct (functions md) as [|fs|] eqn:Hfs.
  - pose proof (wt_num t Ht) as Hpos. destruct (fct_of_id 0) as (e & He & _); [unfold n; lia|].
    destruct (ld_fcts _ _ _ Hmd e He) as (fd & Hfd & _). unfold function_at in Hfd. by rewrite Hfs in Hfd.
  - cbn [non_null negb deref]. rewrite C_bind_eq, lift_Val. unfold msg_num, msg_list, block_ipd_l_bytes.
    rewrite <- app_assoc, field_le4, C_bind_eq, lift_Val, drop_le4, Nat2Z.id, Hrun by done. done.
  - pose proof (wt_num t Ht) as Hpos. destruct (fct_of_id 0) as (e & He & _); [unfold n; lia|].
    destruct (ld_fcts _ _ _ Hmd e He) as (fd & Hfd & _). unfold function_at in Hfd. by rewrite Hfs in Hfd.
Qed.

(** ** All sections *)

(** The value of a packet fits a write of its own on the pipe. *)
Definition small_packet (p : packet) : Prop := Z.of_nat (length p.2) <= PIPE_BUF.

(** Its length fits the field of the packet. *)
Definition countable_packet (p : packet) : Prop := in_u 32 (Z.of_nat (length p.2)).

Lemma small_countable ps : Forall small_packet ps → Forall countable_packet ps.
Proof using Type. apply Forall_impl. intros p H. split; [apply Zle_0_nat|]. by eapply Z.le_lt_trans. Qed.

Lemma loads_all_blocks opts bs : ∀ done, Forall (wf_blocks n) bs → NoDup (bo_fct <$> done ++ bs) →
  Forall countable_packet (block_packet <$> bs) →
  loads_all opts (block_packet <$> bs) (loaded true done) (loaded true (done ++ bs)).
Proof using Ht.
  induction bs as [|b bs IH]; intros dn Hbs Hnd Hsmall; [rewrite app_nil_r; constructor|].
  apply Forall_cons_1 in Hbs as [Hb Hbs]. cbn [fmap list_fmap] in Hsmall |- *.
  apply Forall_cons_1 in Hsmall as [Hp Hsmall].
  econstructor; [done|exact Hp|apply (loads_blocks opts dn b Hb)|].
  - rewrite fmap_app in Hnd. apply list.NoDup_app in Hnd as (_ & Hd & _). intros Hin. apply (Hd _ Hin). by left.
  - replace (dn ++ b :: bs) with ((dn ++ [b]) ++ bs) in * by (by rewrite <- app_assoc). by apply IH.
Qed.

Lemma loads_section_packets opts : Forall countable_packet (section_packets t) →
  loads_all opts (section_packets t) (λ md, md = new_module) (loaded true (tb_sections t)).
Proof using Ht.
  intros Hsmall. unfold section_packets in *. cbn [app] in Hsmall |- *.
  apply Forall_cons_1 in Hsmall as [Hs1 Hsmall]. apply Forall_cons_1 in Hsmall as [Hs2 Hsmall].
  econstructor; [done|exact Hs1|apply loads_function_id|].
  econstructor; [done|exact Hs2|apply loads_transition|].
  pose proof (wt_blocks t Ht) as Hwb. pose proof (wt_blocks_ids t Ht) as Hnd. pose proof (wt_ipd t Ht) as Hipd.
  unfold tb_sections in *. destruct (tb_blocks t) as [[bs rs]|]; [|constructor].
  destruct (Hipd bs rs eq_refl) as [Hrs Hlen]. apply Forall_app in Hsmall as [Hb Hi].
  apply Forall_cons_1 in Hi as [Hi _]. eapply loads_all_app.
  - apply (loads_all_blocks opts bs []); done.
  - econstructor; [done|exact Hi|by apply loads_ipd|constructor].
Qed.

End Loaded.

(** Well-formedness comes with every section that is loaded. *)
Lemma loads_all_wf opts ps P Q : loads_all opts ps P Q →
  loads_all opts ps (λ md, (wf_module md ∧ blank md) ∧ P md) (λ md, (wf_module md ∧ blank md) ∧ Q md).
Proof.
  induction 1 as [P|e v ps P Q R He Hv Hl _ IH]; [constructor|]. econstructor; [done|done| |exact IH].
  intros md w [[Hwf Hb] HP] Hw. destruct (Hl md w HP Hw) as (md' & w' & Hload & HQ). exists md', w'.
  split; [done|]. split; [|done]. split; [by eapply load_section_wf|by eapply load_section_blank].
Qed.

(** ** The module *)

Lemma module_begin_ok mon w : load_inv mon → nb_modules mon + 1 < 2 ^ 32 → favourable w →
  ∃ w', module_begin mon 0 w = Val ((0, MonitorData (nb_modules mon + 1)
      (Live ((match modules mon with Live ms => ms | _ => [] end) ++ [new_module]))), w') ∧
    w_load w' = w_load w ∧ w_sig w' = w_sig w ∧ favourable w'.
Proof.
  intros [Hwf Hu] Hnb (Fa & Fw & Fs). destruct (alloc_ok_in_place w Fa) as (w1 & Ha & Hq & Hio).
  unfold io in Hio. injection Hio as Hse Hwr Hsi Hlo Hou.
  unfold module_begin. rewrite C_bind_eq, Ha. cbn [negb].
  assert (Hold : (if decide (nb_modules mon ≠ 0) then modules mon else Live []) =
    Live (match modules mon with Live ms => ms | _ => [] end)).
  { destruct Hwf as [[-> ->]|(ms & -> & Hlen & _)]; [done|]. case_decide as Hz; [done|].
    assert (nb_modules mon = 0) as H0 by lia. destruct ms; [done|cbn in Hlen; lia]. }
  rewrite Hold. cbn [deref]. rewrite C_bind_eq, lift_Val. cbn zeta.
  assert (Hn : (if decide (nb_modules mon ≠ 0) then u32 (nb_modules mon + 1) else 1) = nb_modules mon + 1).
  { case_decide; [|lia]. apply Z.mod_small. unfold in_u in Hu. lia. }
  rewrite Hn. unfold WRITE_MONITOR_TO_LOADING_PACKET, write_bytes. rewrite C_bind_eq, C_bind_eq.
  assert (Hok : match w_write w1 with [] => true | b :: _ => b end = true).
  { rewrite Hwr. destruct Fw; [done|by subst]. }
  rewrite Hok. cbn iota. rewrite C_ret_eq, C_ret_eq. eexists. split; [reflexivity|]. cbn.
  split; [done|]. split; [done|]. split; [by apply Hq|]. cbn. rewrite Hwr, Hse. split; [|done].
  by destruct Fw.
Qed.

(** The packets of a module, from the first one to the last. *)
Definition module_packets (v : list byte) (t : tables) : list packet :=
  (CFI_LOADING_MODULE_BEGIN, v) :: section_packets t ++ [(CFI_LOADING_MODULE_END, [])].

Definition writes_of (ps : list packet) : list (list byte) :=
  concat ((λ p : packet, packet_writes p.1 p.2) <$> ps).

Lemma writes_of_app ps1 ps2 : writes_of (ps1 ++ ps2) = writes_of ps1 ++ writes_of ps2.
Proof. unfold writes_of. by rewrite fmap_app, concat_app. Qed.

Lemma writes_of_length ps : (length ps <= length (writes_of ps))%nat.
Proof.
  induction ps as [|p ps IH]; [done|]. unfold writes_of. cbn [fmap list_fmap concat length].
  rewrite length_app. change (length ps <= length (writes_of ps))%nat in IH. unfold writes_of in IH. unfold packet_writes at 1.
  rewrite length_app. cbn [length]. lia.
Qed.

(** ** The writes, split by the pipe *)

(** What the pipe holds after the writes of packets. *)
Definition wire (ps : list packet) : list (list byte) := writes_of ps ≫= pipe_packets.

Lemma wire_cons e v ps : wire ((e, v) :: ps) =
  [le_bytes 4 (loading_event_code e); le_bytes 4 (Z.of_nat (length v))] ++ pipe_packets v ++ wire ps.
Proof.
  unfold wire, writes_of. cbn [fmap list_fmap concat fst snd]. rewrite bind_app. unfold packet_writes.
  rewrite bind_app. cbn [mbind list_bind]. rewrite !pipe_packets_field. cbn [app].
  by case_decide as Hv; [rewrite Hv|cbn [mbind list_bind]; rewrite app_nil_r].
Qed.

Lemma wire_app ps1 ps2 : wire (ps1 ++ ps2) = wire ps1 ++ wire ps2.
Proof. unfold wire. by rewrite writes_of_app, bind_app. Qed.

(** Small packets are not split. *)
Lemma wire_small ps : Forall small_packet ps → wire ps = writes_of ps.
Proof.
  induction 1 as [|[e v] ps Hp _ IH]; [done|]. rewrite wire_cons, IH. unfold writes_of. cbn [fmap list_fmap concat fst snd].
  unfold packet_writes. rewrite <- app_assoc. f_equal. f_equal. case_decide as Hv; [by rewrite Hv|].
  by apply pipe_packets_short.
Qed.

(** The modules there are, and the one after them. *)
Definition modules_of (mon : monitor_data) : list module_data := match modules mon with Live ms => ms | _ => [] end.

Lemma modules_of_length mon : load_inv mon → Z.of_nat (length (modules_of mon)) = nb_modules mon.
Proof. unfold modules_of. by intros [[[-> ->]|(ms & -> & -> & _)] _]. Qed.

Lemma module_at_last n k ms md : Z.of_nat (length ms) = k → module_at (MonitorData n (Live (ms ++ [md]))) k = Val md.
Proof.
  intros <-. unfold module_at. cbn [modules deref mbind res_bind]. apply arr_get_Val. split; [lia|].
  by rewrite lookup_app_r, Nat2Z.id, Nat.sub_diag by lia.
Qed.

Lemma module_at_before n mon md k : load_inv mon → 0 <= k < nb_modules mon →
  module_at (MonitorData n (Live (modules_of mon ++ [md]))) k = module_at mon k.
Proof.
  intros Hinv Hk. pose proof (modules_of_length mon Hinv) as Hlen. unfold module_at, modules_of in *.
  destruct Hinv as [[[Hz _]|(ms & E & _)] _]; [lia|]. rewrite E in *. cbn [modules deref mbind res_bind].
  unfold arr_get. case_decide; [|done]. by rewrite lookup_app_l by lia.
Qed.

(** A module is loaded as it was packed. *)
Lemma load_module_spec opts mon v t rest w :
  wf_tables t → OPTION_sm_dump opts = false → load_inv mon → nb_modules mon + 1 < 2 ^ 32 → favourable w →
  Forall small_packet (module_packets v t) → w_load w = writes_of (module_packets v t) ++ rest →
  ∃ mon' md w', monitor_load_module opts mon w = Val ((0, mon'), w') ∧
    nb_modules mon' = nb_modules mon + 1 ∧ module_at mon' (nb_modules mon) = Val md ∧
    (∀ k, 0 <= k < nb_modules mon → module_at mon' k = module_at mon k) ∧
    load_inv mon' ∧ wf_module md ∧ blank md ∧ loaded t true (tb_sections t) md ∧
    w_load w' = rest ∧ w_sig w' = w_sig w ∧ favourable w'.
Proof.
  intros Ht Hdump Hinv Hnb Hw Hsmall Hl. unfold module_packets in Hsmall, Hl.
  apply small_countable, Forall_cons_1 in Hsmall as [Hv Hsmall]. apply Forall_app in Hsmall as [Hsmall _].
  change ((CFI_LOADING_MODULE_BEGIN, v) :: section_packets t ++ [(CFI_LOADING_MODULE_END, [])])
    with ([(CFI_LOADING_MODULE_BEGIN, v)] ++ section_packets t ++ [(CFI_LOADING_MODULE_END, [])]) in Hl.
  rewrite !writes_of_app, <- !app_assoc in Hl. unfold writes_of at 1 in Hl.
  cbn [fmap list_fmap concat fst snd] in Hl. rewrite app_nil_r in Hl.
  destruct (read_packet CFI_LOADING_MODULE_BEGIN v fresh_packet _ w Hv Hl) as (w1 & Hread & Hl1 & Hr1);
    [by apply favourable_in_place|done|].
  pose proof (reads_favourable _ _ Hr1 Hw) as Hw1. destruct Hr1 as (_ & _ & _ & Hs1 & _).
  destruct (module_begin_ok mon w1 Hinv Hnb Hw1) as (w2 & Hbegin & Hl2 & Hs2 & Hw2).
  change (match modules mon with Live ms => ms | _ => [] end) with (modules_of mon) in Hbegin.
  set (ms := modules_of mon) in *. pose proof (modules_of_length mon Hinv : Z.of_nat (length ms) = _) as Hms.
  set (mon1 := MonitorData (nb_modules mon + 1) (Live (ms ++ [new_module]))) in *.
  assert (Hat : module_at mon1 (nb_modules mon1 - 1) = Val new_module) by (apply module_at_last; cbn; lia).
  destruct (sections_loop_loads opts (section_packets t) _ _
    (loads_all_wf _ _ _ _ (loads_section_packets t Ht opts Hsmall)) Hdump (load_fuel w2)
    CFI_LOADING_MODULE_BEGIN v new_module w2 rest) as (md & w3 & Hloop & [[Hwf Hblank] Hloaded] & Hl3 & Hs3 & Hw3).
  { split; [|done]. split; [apply new_module_wf|]. intros i r. by unfold reloc_at. }
  { done. }
  { done. }
  { unfold load_fuel. rewrite Hl2, Hl1, length_app. pose proof (writes_of_length (section_packets t)). lia. }
  { rewrite Hl2, Hl1. unfold writes_of at 2. cbn [fmap list_fmap concat fst snd]. by rewrite app_nil_r. }
  assert (Hrun : monitor_load_module opts mon w =
    Val ((0, MonitorData (nb_modules mon + 1) (Live (ms ++ [md]))), w3)).
  { unfold monitor_load_module. rewrite C_bind_eq, Hread. cbn beta iota. rewrite decide_False by (by intros []).
    rewrite C_bind_eq, packet_of_event, lift_Val, loading_event_case_code. rewrite C_bind_eq, Hbegin. cbn beta iota.
    rewrite decide_False by (by intros []). rewrite C_bind_eq, Hat, lift_Val.
    rewrite C_bind_eq, Hloop. cbn beta iota. unfold put_module, mon1. cbn [modules nb_modules deref mbind res_bind].
    rewrite arr_set_in_range by (rewrite length_app; cbn [length]; lia). cbn [mbind res_bind].
    destruct (FREE_packet_of CFI_LOADING_MODULE_END []) as (pkt & Hfree & _).
    rewrite C_bind_eq, lift_Val, C_bind_eq, Hfree, lift_Val, decide_False by (by intros []).
    rewrite C_ret_eq. cbn. do 4 f_equal.
    replace (Z.to_nat (nb_modules mon + 1 - 1)) with (length ms + 0)%nat by lia. by rewrite insert_app_r. }
  eexists _, md, w3. split; [exact Hrun|]. split; [done|]. split; [by apply module_at_last|].
  split; [by intros k Hk; apply module_at_before|].
  split; [eapply (monitor_load_module_inv _ _ _ _ _ _ Hrun Hinv); lia|].
  split; [done|]. split; [done|]. split; [done|]. split; [done|]. split; [congruence|done].
Qed.
