(* ===== verification/LongSections.v ===== *)
(** * Sections that do not fit a packet of the pipe

    The loader reads the value of a packet with one [read]; the pipe splits a
    write longer than [PIPE_BUF].  A load that succeeds has seen no such write:
    the loader stays in step with the packets up to the first one that was
    split, whose value it reads short. *)

From S2P Require Import Prelude CSem Wire CStack BlockStack CallStack MonitorData.
From S2P Require Import MonitorRun RunSpec RunRefine RunTotal LoadSections Relocate Dot MonitorLoad LoadWf LoadTotal LoadSpec Main Sessions.
From S2P Require Import LoadRuns LoadAnswers.
From S2P Require Import LoadPackets Network MonitorLog LoadModule.
From Stdlib Require Import Strings.Byte.

(** ** In step with the packets *)

Lemma read_load_cons n w p ps bs w' : w_load w = p :: ps → read_load n w = Val (bs, w') → bs = take n p ∧ w_load w' = ps.
Proof. intros Hl. unfold read_load. rewrite Hl. by intros [= <- <-]. Qed.

(** A packet that is read without error is the next one, and small. *)
Lemma read_wire dst w pkt w' ps : Forall countable_packet ps →
  w_load w = wire ps → READ_LOADING_PACKET dst 0 w = Val ((pkt, 0), w') →
  ∃ e v ps', ps = (e, v) :: ps' ∧ small_packet (e, v) ∧ w_load w' = wire ps' ∧
    pkt_event_of pkt = Val (loading_event_code e).
Proof.
  intros Hps Hl H. unfold READ_LOADING_PACKET in H. apply C_bind_inv in H as (ebs & w1 & R1 & H).
  destruct ps as [|[e v] ps].
  { unfold read_load in R1. rewrite Hl in R1. injection R1 as <- <-. by inv_C. }
  apply Forall_cons_1 in Hps as [Hv Hps]. cbn [snd] in Hv. rewrite wire_cons in Hl. cbn [app] in Hl.
  destruct (read_load_cons _ _ _ _ _ _ Hl R1) as [-> Hl1].
  rewrite take_ge in H by (by rewrite le_bytes_length). rewrite le_bytes_length, decide_False in H by tauto.
  cbn zeta in H. apply C_bind_inv in H as (sbs & w2 & R2 & H). destruct (read_load_cons _ _ _ _ _ _ Hl1 R2) as [-> Hl2].
  rewrite take_ge in H by (by rewrite le_bytes_length). rewrite le_bytes_length, decide_False in H by tauto.
  assert (Hsize : le_value (overlay (le_bytes 4 (Z.of_nat (length v))) (le_bytes 4 0)) = Z.of_nat (length v)).
  { unfold overlay. rewrite drop_ge, app_nil_r by (by rewrite !le_bytes_length). by apply (le_value_small 4). }
  assert (Hev : ∀ pk, pkt_event pk = overlay (Some <$> le_bytes 4 (loading_event_code e)) (pkt_event dst) →
    pkt_event_of pk = Val (loading_event_code e)).
  { intros pk Hpk. unfold pkt_event_of. rewrite Hpk. unfold overlay. by destruct e. }
  rewrite Hsize in H. exists e, v, ps. split; [done|]. case_decide as Hz.
  { inv_C. destruct v; [|cbn in Hz; lia]. split; [done|]. split; [done|by apply Hev]. }
  apply C_bind_inv in H as (buf & w3 & R3 & H). destruct (mute_calloc None _ _ _ _ _ R3) as (_ & _ & Hl3 & _).
  destruct buf as [|zeros|]; try by inv_C. apply C_bind_inv in H as (vbs & w4 & R4 & H).
  destruct (pipe_packets_head v) as [qs Hq]; [by intros ->|]. rewrite Hl2, Hq in Hl3. cbn [app] in Hl3.
  destruct (read_load_cons _ _ _ _ _ _ Hl3 R4) as [-> Hl4]. case_decide as Hs; inv_C; [done|].
  assert (Hsmall : small_packet (e, v)).
  { unfold small_packet. cbn [snd]. rewrite !length_take in Hs. unfold PIPE_BUF in *. lia. }
  split; [done|]. rewrite (pipe_packets_short v) in Hq; [|by intros ->|done]. injection Hq as _ <-.
  split; [done|by apply Hev].
Qed.

Section InStep.
Implicit Types (ps : list packet).

(** From [ps] to [ps'] the loader has taken small packets. *)
Definition in_step ps ps' : Prop := ∃ qs, ps = qs ++ ps' ∧ Forall small_packet qs.

Lemma in_step_trans ps1 ps2 ps3 : in_step ps1 ps2 → in_step ps2 ps3 → in_step ps1 ps3.
Proof.
  intros (qs1 & -> & H1) (qs2 & -> & H2). exists (qs1 ++ qs2). rewrite app_assoc. split; [done|by apply Forall_app].
Qed.

Lemma in_step_one e v ps : small_packet (e, v) → in_step ((e, v) :: ps) ps.
Proof. intros H. exists [(e, v)]. split; [done|by constructor]. Qed.

Lemma in_step_countable ps ps' : in_step ps ps' → Forall countable_packet ps → Forall countable_packet ps'.
Proof. intros (qs & -> & _) [_ H]%Forall_app. done. Qed.

Lemma sections_loop_wire opts fuel : ∀ pkt md w ps pkt' md' w', Forall countable_packet ps → w_load w = wire ps →
  sections_loop fuel opts pkt md w = Val ((0, pkt', md'), w') → ∃ ps', in_step ps ps' ∧ w_load w' = wire ps'.
Proof.
  induction fuel as [|fuel IH]; intros pkt md w ps pkt' md' w' Hps Hl H; cbn [sections_loop] in H; [done|].
  apply C_bind_inv in H as (ev & w1 & [_ ->]%lift_inv & H).
  case_decide; [inv_C; exists ps; split; [by exists []|done]|]. apply C_bind_inv in H as (pkt1 & w1 & [_ ->]%lift_inv & H).
  apply C_bind_inv in H as ([pkt2 err] & w1 & R1 & H). case_decide; [by inv_C|]. assert (err = 0) as -> by lia.
  destruct (read_wire _ _ _ _ _ Hps Hl R1) as (e & v & ps1 & -> & Hs & Hl1 & _).
  apply C_bind_inv in H as (e2 & w2 & [_ ->]%lift_inv & H).
  apply C_bind_inv in H as ([err md2] & w2 & R2%(mute_load_section None) & H). destruct R2 as (_ & _ & Hl2 & _).
  case_decide; [by inv_C|]. apply Forall_cons_1 in Hps as [_ Hps].
  destruct (IH _ _ w2 ps1 _ _ _ Hps (eq_trans Hl2 Hl1) H) as (ps' & Hin & Hl').
  exists ps'. split; [|done]. by eapply in_step_trans; [apply in_step_one|].
Qed.

(** A module, or the end of the load. *)
Lemma load_module_wire opts mon w ps r mon' w' : Forall countable_packet ps → w_load w = wire ps →
  monitor_load_module opts mon w = Val ((r, mon'), w') → 0 <= r → ∃ ps', in_step ps ps' ∧ w_load w' = wire ps' ∧
    (r ≠ 0 → ∃ v, ps = (CFI_LOADING_TERMINATED, v) :: ps').
Proof.
  intros Hps Hl H Hr. unfold monitor_load_module in H. apply C_bind_inv in H as ([pkt err] & w1 & R1 & H).
  case_decide; [inv_C; lia|]. assert (err = 0) as -> by lia.
  destruct (read_wire _ _ _ _ _ Hps Hl R1) as (e & v & ps1 & -> & Hs & Hl1 & He).
  apply Forall_cons_1 in Hps as [_ Hps]. rewrite C_bind_eq, He, lift_Val, loading_event_case_code in H.
  destruct e; try (by inv_C; lia).
  - apply C_bind_inv in H as ([err mon1] & w2 & R2 & H). case_decide; [inv_C; lia|].
    assert (Hl2 : w_load w2 = w_load w1).
    { unfold module_begin in R2. apply C_bind_inv in R2 as (ok & w3 & Hu%(mute_alloc_ok None) & R2).
      destruct Hu as (_ & _ & Hd & _). destruct (negb ok); [by injection R2 as <- <-|].
      apply C_bind_inv in R2 as (ms & w4 & [_ ->]%lift_inv & R2). cbn zeta in R2.
      unfold WRITE_MONITOR_TO_LOADING_PACKET, write_bytes in R2. by inv_C. }
    apply C_bind_inv in H as (md & w3 & [_ ->]%lift_inv & H).
    apply C_bind_inv in H as ([[err1 pkt1] md1] & w3 & R3 & H). inv_C. case_decide; [lia|]. assert (err1 = 0) as -> by lia.
    rewrite Hl1 in Hl2. destruct (sections_loop_wire _ _ _ _ _ _ _ _ _ Hps Hl2 R3) as (ps' & Hin & Hl').
    exists ps'. split; [by eapply in_step_trans; [apply in_step_one|]|]. by split.
  - inv_C. exists ps1. split; [by apply in_step_one|]. split; [done|]. intros _. by exists v.
Qed.

Lemma start_module_load opts data w data' w' : start_module opts data w = Val ((0, data'), w') → w_load w' = w_load w.
Proof.
  unfold start_module. intros H. apply C_bind_inv in H as ([e d] & w1 & [_ ->]%lift_inv & H). case_decide; [by inv_C|].
  apply C_bind_inv in H as (md & w1 & [_ ->]%lift_inv & H). apply C_bind_inv in H as (e2 & w1 & Hr & H). inv_C.
  revert w Hr. induction (Z.to_nat _) as [|n IH]; intros w Hr; cbn [run_times] in Hr; inv_C; [done|]. case_decide; inv_C; [done|].
  match goal with E : monitor_run _ _ _ = Val (?a, _) |- _ =>
    assert (a = 0) as -> by lia; apply monitor_run_log in E as (rs & _ & _ & E & _) end.
  rewrite (IH _ Hr). done.
Qed.

(** A load that succeeds comes to the end of the load in step. *)
Lemma modules_loop_wire opts fuel : ∀ data w ps data' w', Forall countable_packet ps → w_load w = wire ps →
  modules_loop fuel opts data w = Val ((0, data'), w') → ∃ v ps',
    in_step ps ((CFI_LOADING_TERMINATED, v) :: ps') ∧ small_packet (CFI_LOADING_TERMINATED, v).
Proof.
  induction fuel as [|fuel IH]; intros data w ps data' w' Hps Hl H; cbn [modules_loop] in H; [done|].
  apply C_bind_inv in H as ([r data1] & w1 & R1 & H). case_decide as Hr.
  { inv_C. destruct (load_module_wire _ _ _ _ _ _ _ Hps Hl R1) as (ps' & (qs & E & Hq) & _ & Hterm); [lia|].
    destruct Hterm as [v ->]; [lia|]. exists v, ps'. split; [by exists []|].
    destruct qs as [|q qs]; [exfalso; by apply (f_equal length) in E; cbn in E; lia|]. injection E as <- _. by inversion Hq. }
  case_decide; [by inv_C|]. assert (r = 0) as -> by lia.
  destruct (load_module_wire _ _ _ _ _ _ _ Hps Hl R1) as (ps1 & Hin & Hl1 & _); [done|].
  apply C_bind_inv in H as ([e data2] & w2 & R2 & H). case_decide; [by inv_C|]. assert (e = 0) as -> by lia.
  assert (Hl2 : w_load w2 = w_load w1) by (by eapply start_module_load).
  rewrite Hl1 in Hl2. destruct (IH _ _ _ _ _ (in_step_countable _ _ Hin Hps) Hl2 H) as (v & ps' & Hin' & Hv).
  exists v, ps'. split; [by eapply in_step_trans|done].
Qed.

(** A long packet before the announce of the end was not passed. *)
Lemma long_before_end ps1 e v ps2 qs v' ps' : ps1 ++ (e, v) :: ps2 = qs ++ (CFI_LOADING_TERMINATED, v') :: ps' →
  Forall small_packet qs → small_packet (CFI_LOADING_TERMINATED, v') → CFI_LOADING_TERMINATED ∉ ps1.*1 →
  PIPE_BUF < Z.of_nat (length v) → False.
Proof.
  intros Heq Hq Hv' Ht Hv. revert qs Heq Hq. induction ps1 as [|p ps1 IH]; intros [|q qs] Heq Hq; cbn [app] in Heq.
  - injection Heq as _ -> _. unfold small_packet in Hv'. cbn [snd] in Hv'. lia.
  - injection Heq as <- _. apply Forall_cons_1 in Hq as [Hq _]. unfold small_packet in Hq. cbn [snd] in Hq. lia.
  - injection Heq as -> _. apply Ht. cbn. by left.
  - injection Heq as <- Heq. apply Forall_cons_1 in Hq as [_ Hq]. eapply IH; [|done..]. intros Hin. apply Ht. cbn. by right.
Qed.

End InStep.

(** ** The first value that does not fit *)

(** The value of a packet is split by the pipe. *)
Definition long_packet (p : packet) : Prop := countable_packet p ∧ PIPE_BUF < Z.of_nat (length p.2).

Lemma read_long e v dst rest w : long_packet (e, v) → w_load w = wire [(e, v)] ++ rest → in_place w →
  ∃ pkt w', READ_LOADING_PACKET dst 0 w = Val ((pkt, 4), w') ∧ FREE_LOADING_PACKET pkt = Undef DoubleFree ∧
    pkt_value pkt = Dangling.
Proof.
  intros [Hv Hl] Hw Hpl. unfold countable_packet in Hv. cbn [snd] in *. rewrite wire_cons in Hw.
  assert (Hv0 : v ≠ []) by (intros ->; cbn in Hl; unfold PIPE_BUF in Hl; lia).
  destruct (pipe_packets_head v Hv0) as [qs Hq]. rewrite Hq in Hw. cbn [app] in Hw.
  assert (Hval : le_value (le_bytes 4 (Z.of_nat (length v))) = Z.of_nat (length v)) by by apply (le_value_small 4).
  eapply (read_short_value dst w _ _ _ _ Hw); rewrite ?le_bytes_length, ?Hval; try done; unfold PIPE_BUF in *; [lia|].
  rewrite length_take. lia.
Qed.

Lemma sections_loop_long opts ps P Q e v : loads_all opts ps P Q → long_packet (e, v) →
  ∀ fuel e0 v0 md w rest, P md → favourable w → e0 ≠ CFI_LOADING_MODULE_END → (1 + length ps <= fuel)%nat →
  w_load w = writes_of ps ++ wire [(e, v)] ++ rest →
  ∃ pkt md' w', sections_loop fuel opts (packet_of e0 v0) md w = Val ((4, pkt, md'), w') ∧
    FREE_LOADING_PACKET pkt = Undef DoubleFree.
Proof.
  intros Hall Hlong. induction Hall as [P|e1 v1 ps P Q R He Hv Hload _ IH];
    intros fuel e0 v0 md w rest HP Hw He0 Hfuel Hl; destruct fuel as [|fuel]; cbn [length] in Hfuel; try lia;
    destruct (FREE_packet_of e0 v0) as (pkt & Hfree & Hpe & _); cbn [sections_loop];
    rewrite C_bind_eq, packet_of_event, lift_Val, decide_False by (by intros E%loading_code_inj);
    rewrite C_bind_eq, Hfree, lift_Val, C_bind_eq.
  - destruct (read_long e v pkt rest w Hlong Hl (favourable_in_place _ Hw)) as (pkt' & w1 & -> & Hdf & _).
    by exists pkt', md, w1.
  - change (writes_of ((e1, v1) :: ps)) with (packet_writes e1 v1 ++ writes_of ps) in Hl. rewrite <- app_assoc in Hl.
    destruct (read_packet e1 v1 pkt _ w Hv Hl (favourable_in_place _ Hw) Hpe) as (w1 & -> & Hl1 & Hr1).
    pose proof (reads_favourable _ _ Hr1 Hw) as Hw1.
    destruct (Hload md w1 HP (favourable_in_place _ Hw1)) as (md1 & w2 & Hsec & HQ).
    destruct (load_section_pipes _ _ _ _ _ _ _ Hsec) as (Hl2 & _ & Ha2). cbn beta iota.
    rewrite decide_False by (by intros []). rewrite C_bind_eq, packet_of_event, lift_Val, C_bind_eq.
    change (pkt_value (packet_of e1 v1)) with (packet_value v1). rewrite Hsec. cbn beta iota.
    rewrite decide_False by (by intros []).
    apply (IH fuel e1 v1 md1 w2 rest HQ); [by eapply answers_left_favourable|done|lia|by rewrite Hl2].
Qed.

Lemma first_long ps : Forall countable_packet ps → ¬ Forall small_packet ps →
  ∃ qs e v rs, ps = qs ++ (e, v) :: rs ∧ Forall small_packet qs ∧ long_packet (e, v).
Proof.
  induction ps as [|[e v] ps IH]; intros Hc Hn; [by destruct Hn|]. apply Forall_cons_1 in Hc as [Hp Hc].
  destruct (decide (Z.of_nat (length v) <= PIPE_BUF)) as [Hs|Hs].
  - destruct IH as (qs & e1 & v1 & rs & -> & Hq & Hl); [done|intros H; apply Hn; by constructor|].
    exists ((e, v) :: qs), e1, v1, rs. split; [done|]. split; [by constructor|done].
  - exists [], e, v, ps. split; [done|]. split; [constructor|]. split; [done|cbn [snd]; lia].
Qed.

(** The value that was cut short is freed again. *)
Lemma load_module_long opts mon v t rest w :
  wf_tables t → load_inv mon → nb_modules mon + 1 < 2 ^ 32 → favourable w →
  Forall countable_packet (module_packets v t) → ¬ Forall small_packet (module_packets v t) →
  w_load w = wire (module_packets v t) ++ rest → monitor_load_module opts mon w = Undef DoubleFree.
Proof.
  intros Ht Hinv Hnb Hw Hc Hn Hl. destruct (first_long _ Hc Hn) as (qs & e & v' & rs & Heq & Hq & Hlong).
  rewrite Heq, wire_app, <- app_assoc in Hl. change ((e, v') :: rs) with ([(e, v')] ++ rs) in Hl.
  rewrite wire_app, <- app_assoc in Hl. unfold monitor_load_module. rewrite C_bind_eq.
  unfold module_packets in Heq. destruct qs as [|q qs]; injection Heq as Hq0 Heq.
  { cbn [app] in Hl. destruct (read_long e v' fresh_packet _ w Hlong Hl (favourable_in_place _ Hw)) as (pkt & w1 & -> & Hdf & _).
    cbn beta iota. rewrite decide_True by done. by rewrite C_bind_eq, Hdf. }
  subst q. change (section_packets t ++ [(CFI_LOADING_MODULE_END, [])] = qs ++ (e, v') :: rs) in Heq.
  apply Forall_cons_1 in Hq as [Hq0 Hq]. rewrite wire_small in Hl by (by constructor).
  change (writes_of ((CFI_LOADING_MODULE_BEGIN, v) :: qs)) with (packet_writes CFI_LOADING_MODULE_BEGIN v ++ writes_of qs) in Hl.
  rewrite <- app_assoc in Hl. apply Forall_cons_1 in Hc as [Hv Hc]. apply Forall_app in Hc as [Hc _].
  destruct (read_packet CFI_LOADING_MODULE_BEGIN v fresh_packet _ w Hv Hl (favourable_in_place _ Hw) eq_refl)
    as (w1 & -> & Hl1 & Hr1). pose proof (reads_favourable _ _ Hr1 Hw) as Hw1. cbn beta iota.
  rewrite decide_False by (by intros []). rewrite C_bind_eq, packet_of_event, lift_Val, loading_event_case_code.
  destruct (module_begin_ok mon w1 Hinv Hnb Hw1) as (w2 & Hbegin & Hl2 & _ & Hw2).
  rewrite C_bind_eq, Hbegin. cbn beta iota. rewrite decide_False by (by intros []).
  change (match modules mon with Live ms => ms | _ => [] end) with (modules_of mon).
  pose proof (modules_of_length mon Hinv : Z.of_nat (length (modules_of mon)) = _) as Hms.
  rewrite C_bind_eq, module_at_last, lift_Val by (cbn; lia).
  assert (Hsec : ∃ rs', section_packets t = qs ++ (e, v') :: rs').
  { destruct (decide (rs = [])) as [->|Hrs].
    - apply app_inj_tail in Heq as [_ E]. exfalso. injection E as _ <-. destruct Hlong as [_ Hlong]. done.
    - destruct (exists_last Hrs) as (rs' & x & ->). exists rs'. rewrite app_comm_cons, app_assoc in Heq.
      by apply app_inj_tail in Heq as [? _]. }
  destruct Hsec as [rs' Hsec]. pose proof (loads_section_packets t Ht opts Hc) as Hall. rewrite Hsec in Hall.
  apply loads_all_split in Hall as (Q & Hall & _).
  destruct (sections_loop_long opts qs _ _ e v' Hall Hlong (load_fuel w2) CFI_LOADING_MODULE_BEGIN v new_module w2
    (wire rs ++ rest)) as (pkt & md & w3 & Hloop & Hdf); [done|done|done| |by rewrite Hl2|].
  { unfold load_fuel. rewrite Hl2, Hl1, length_app. pose proof (writes_of_length qs). lia. }
  rewrite C_bind_eq, Hloop. cbn beta iota. unfold put_module. cbn [modules nb_modules deref mbind res_bind].
  rewrite arr_set_in_range by (rewrite length_app; cbn [length]; lia). cbn [mbind res_bind].
  by rewrite C_bind_eq, lift_Val, C_bind_eq, Hdf.
Qed.
