(* ===== verification/Build.v ===== *)
(** * The compilation of a binary

    The modules of a binary are compiled one after the other, in the order in
    which they take the lock; each compilation reads the files the others have
    left and extends them.  Here is what the files hold in the end: one table
    on which all the modules agree, and the edges of all of them. *)

From S2P Require Import Prelude CSem Wire MonitorData Dot Text Ir Pass Injector.
From S2P Require Import PassTable PassAnalysis PassFiles InjectSpec PassRun Prelink.
From Stdlib Require Import Strings.Byte.
From Stdlib Require Strings.String.
Import Strings.String.StringSyntax.
#[local] Open Scope string_scope.
#[local] Open Scope Z_scope.
#[local] Open Scope list_scope.

(** ** Compilations *)

(** One run of the pass: what it is given. *)
Record compilation := Compilation {
  c_env : pass_env;
  c_ign : option text;
  c_lock : lock_result;
  c_module : ir_module;
}.

(** All of them, on the files of a prefix. *)
Fixpoint compile_all (prefix : text) (level : Z) (us : list compilation) (files : cfi_files) :
    pass (list ir_module * cfi_files) :=
  match us with
  | [] => Ok ([], files)
  | u :: us =>
      '(M, files) ← runOnModule (c_env u) prefix level (c_ign u) (c_lock u) (c_module u) files;
      '(Ms, files) ← compile_all prefix level us files;
      Ok (M :: Ms, files)
  end.

(** A compilation that is supported, and what its module lists. *)
Record supported_compilation (ignored : gset name) (u : compilation) (annotations : list (name * text))
    (ctors dtors : list name) : Prop := {
  sc_env : env_ok (c_env u);
  sc_opens : opens_all (c_env u);
  sc_ignored : ignored_are (c_env u) (c_ign u) ignored;
  sc_module : supported (c_module u) annotations ctors dtors;
}.

(** What a compilation found and left. *)
Record compiled := Compiled {
  r_env : pass_env;
  r_source : ir_module;
  r_annotations : list (name * text);
  r_ctors : list name;
  r_dtors : list name;
  r_st : ControlFlowIntegrity;
  r_code : ir_module;
}.

Section Build.
Context (prefix : text) (level : Z) (ignored : gset name).

(** [r] is the outcome of a compilation when the table held [es]. *)
Record compiled_from (es : list entry) (r : compiled) : Prop := {
  cp_env : env_ok (r_env r);
  cp_supported : supported (r_source r) (r_annotations r) (r_ctors r) (r_dtors r);
  cp_analysed : analysed (r_source r) ignored (r_annotations r) (r_ctors r) (r_dtors r) es (r_st r);
  cp_file : _fun_id_file (r_st r) = prefix ++ lit ".fctid";
  cp_code : agrees_but_intrinsic (r_code r) (instrumented (r_st r) level);
}.

(** The compilations [rs] take the table from [es] to [es']. *)
Inductive builds : list entry → list compiled → list entry → Prop :=
| builds_nil es : builds es [] es
| builds_cons es r rs es' :
    compiled_from es r → builds (written (r_env r) es (r_st r)) rs es' → builds es (r :: rs) es'.

(** What they append to the files. *)
Definition build_calls (rs : list compiled) : list row := rs ≫= λ r, calls_of (r_env r) (r_st r).
Definition build_sections (rs : list compiled) : list section := rs ≫= λ r, sections_of (r_env r) (r_st r).
Definition build_ipds (rs : list compiled) : list ipd_row := rs ≫= λ r, ipds_of (r_env r) (r_st r).

Definition build_files (files : cfi_files) (rs : list compiled) (es : list entry) : cfi_files :=
  CfiFiles (Some (concat (fctid_line <$> es)))
    (Some (default [] (f_trans files) ++ concat (row_line <$> build_calls rs)))
    (if decide (level = BASICBLOCK)
     then Some (default [] (f_bbtrans files) ++ concat (section_text <$> build_sections rs))
     else f_bbtrans files)
    (Some (default [] (f_ipdom files) ++ concat (ipd_text <$> build_ipds rs))).

Lemma build_files_cons files r rs es es1 :
  build_files (files_after (r_env r) level es (r_st r) files) rs es1 = build_files files (r :: rs) es1.
Proof.
  unfold build_files, files_after, build_calls, build_sections, build_ipds. cbn.
  rewrite !fmap_app, !concat_app, !app_assoc. f_equal. by destruct (decide (level = BASICBLOCK)).
Qed.

Lemma build_files_nil env es st files :
  build_files (files_after env level es st files) [] (written env es st) = files_after env level es st files.
Proof.
  unfold build_files, files_after. cbn. rewrite !app_nil_r. f_equal.
  destruct (decide (level = BASICBLOCK)); cbn; by rewrite ?app_nil_r.
Qed.

(** Which source and lists each outcome has. *)
Definition compiles (u : compilation) (lists : list (name * text) * (list name * list name)) (r : compiled) : Prop :=
  r_env r = c_env u ∧ r_source r = c_module u ∧ r_annotations r = lists.1 ∧ r_ctors r = lists.2.1 ∧
  r_dtors r = lists.2.2.

Definition total_functions (us : list compilation) : Z :=
  Z.of_nat (sum_list ((λ u, length (m_functions (c_module u))) <$> us)).

Lemma compile_all_files us ls : Forall2 (λ u l, supported_compilation ignored u l.1 l.2.1 l.2.2) us ls →
  word (prefix ++ lit ".fctid") → ∀ files es n, table_file files es n → n + total_functions us <= 2 ^ 31 →
  us ≠ [] →
  ∃ rs es', compile_all prefix level us files = Ok (r_code <$> rs, build_files files rs es') ∧
    builds es rs es' ∧ Forall3 compiles us ls rs.
Proof.
  intros Hus Hword. induction Hus as [|u [ann [ctors dtors]] us ls Hu Hus IH]; intros files es n Htab Hlen Hne;
    [done|]. cbn [fst snd] in Hu. destruct Hu as [Henv Hopen Hign Hsup].
  unfold total_functions in Hlen. cbn [fmap list_fmap sum_list] in Hlen.
  destruct (runOnModule_spec (c_env u) Henv Hopen files es n Htab prefix Hword (c_ign u) ignored Hign
    (c_module u) ann ctors dtors Hsup ltac:(unfold sum_list in Hlen; cbn in Hlen; lia) level (c_lock u))
    as (st & M' & Han & Hfile & Hrun & HM').
  destruct (files_after_table (c_env u) Henv files es n Htab ignored (c_module u) ann ctors dtors level st Han)
    as (Htab' & _ & _).
  set (r := Compiled (c_env u) (c_module u) ann ctors dtors st M').
  assert (Hr : compiled_from es r) by done.
  cbn [compile_all]. rewrite Hrun. cbn [mbind pass_bind].
  destruct us as [|u' us].
  - inversion Hus; subst. exists [r], (written (c_env u) es st). cbn [compile_all mbind pass_bind].
    rewrite <- (build_files_cons files r [] es). cbn [r_env r_st r]. rewrite build_files_nil. split; [done|].
    split; [|by repeat constructor]. econstructor; [done|constructor].
  - destruct (IH (files_after (c_env u) level es st files) (written (c_env u) es st) (_fun_id_ctr st) Htab')
      as (rs & es' & Hall & Hbuilds & Hthree); [|done|].
    + pose proof (an_ctr _ _ _ _ _ _ _ Han) as Hctr.
      rewrite (table_length es n) in Hctr by apply Htab. unfold total_functions, sum_list in *. cbn in *. lia.
    + rewrite Hall. cbn [mbind pass_bind]. exists (r :: rs), es'. rewrite <- (build_files_cons files r rs es).
      split; [done|]. split; [by econstructor|]. by constructor.
Qed.

(** A compilation, from its two halves. *)
Lemma compiled_from_run files es n env ign M ann ctors dtors st M' :
  table_file files es n → word (prefix ++ lit ".fctid") → env_ok env → ignored_are env ign ignored →
  supported M ann ctors dtors → n + Z.of_nat (length (m_functions M)) <= 2 ^ 31 →
  analysis env (prefix ++ lit ".fctid") ign M files = Ok st → InjectCode env st level = Ok M' →
  compiled_from es (Compiled env M ann ctors dtors st M').
Proof.
  intros Htab Hword Henv Hign Hsup Hlen Han Hinj.
  destruct (analysis_spec env files es n Htab _ Hword ign ignored Hign M ann ctors dtors Hsup Hlen)
    as (st' & Han' & Hfile & Hst). rewrite Han in Han'. injection Han' as <-.
  destruct (InjectCode_spec env Henv st level (analysed_sound _ _ _ _ _ _ _ Hsup Hst)
    (analysed_free _ _ _ _ _ _ _ Hsup Hst) (λ F HF _, analysed_known _ _ _ _ _ _ _ Hsup Hst F HF)
    (analysed_returnaddress _ _ _ _ _ _ _ Hsup Hst)) as (M2 & Hinj' & HM). rewrite Hinj in Hinj'.
  injection Hinj' as <-. done.
Qed.

(** ** One table *)

(** The table a compilation starts from, seen from the file. *)
Definition lines_file (es : list entry) : cfi_files := CfiFiles (Some (concat (fctid_line <$> es))) None None None.

Lemma lines_file_table es n : table es n → table_file (lines_file es) es n.
Proof. done. Qed.

Lemma compiled_table es n r : table es n → compiled_from es r →
  table (written (r_env r) es (r_st r)) (_fun_id_ctr (r_st r)) ∧
  ids_of es ⊆ ids_of (written (r_env r) es (r_st r)) ∧
  ids_of (written (r_env r) es (r_st r)) = _IdentifiedFunctions (r_st r).
Proof.
  intros Htab [Henv _ Han _ _].
  destruct (files_after_table (r_env r) Henv (lines_file es) es n (lines_file_table es n Htab) ignored (r_source r) _ _ _ level _ Han)
    as ([Ht _] & Hsub & Hids). done.
Qed.

(** The table only grows, and ends with the identifiers of every module. *)
Lemma builds_table es rs es' : builds es rs es' → ∀ n, table es n →
  (∃ n', table es' n') ∧ ids_of es ⊆ ids_of es' ∧
  ∀ r, r ∈ rs → _IdentifiedFunctions (r_st r) ⊆ ids_of es' ∧ ∃ es0, compiled_from es0 r.
Proof.
  induction 1 as [es|es r rs es' Hr Hb IH]; intros n Htab.
  - split; [by exists n|]. split; [done|]. intros r Hr. by apply elem_of_nil in Hr.
  - destruct (compiled_table es n r Htab Hr) as (Ht & Hsub & Hids).
    destruct (IH _ Ht) as (Hn & Hsub' & Hall). split; [done|]. split; [by trans (ids_of (written (r_env r) es (r_st r)))|].
    intros r' [->|Hr']%elem_of_cons; [|by apply Hall]. rewrite <- Hids. split; [done|by exists es].
Qed.

Lemma table_nil : table [] 0.
Proof.
  split; [constructor|]. split; [constructor|]. split; [|lia]. split; [by intros f id Hf|].
  split; [by intros f g id Hf|]. lia.
Qed.

(** ** What a binary defines *)

(** The functions of the module whose code is there and is not ignored. *)
Definition defined (r : compiled) : list name :=
  fn_name <$> filter (λ F, isDeclaration F = false ∧ fn_name F ∉ ignored) (m_functions (r_source r)).

Lemma defined_elem r f : f ∈ defined r ↔ (f ∉ ignored) ∧
  ∃ F, F ∈ m_functions (r_source r) ∧ fn_name F = f ∧ isDeclaration F = false.
Proof.
  unfold defined. rewrite list_elem_of_fmap. setoid_rewrite list_elem_of_filter. split.
  - intros (F & -> & [HF Hi] & Hin). split; [done|by exists F].
  - intros (Hi & F & HF & <- & Hd). by exists F.
Qed.

Section Compiled.
Context (es : list entry) (r : compiled) (Hr : compiled_from es r).

Let st := r_st r.

Lemma concerned_iff F : F ∈ m_functions (r_source r) →
  concerned st F ↔ (fn_name F ∉ ignored) ∧ fn_intrinsic F = false.
Proof using Hr.
  intros HF. unfold concerned, isIgnoredFunction. pose proof (an_ignored _ _ _ _ _ _ _ (cp_analysed _ _ Hr)) as Hi.
  fold st in Hi. rewrite Hi, bool_decide_eq_false. done.
Qed.

(** The code of a function of the module, its linkage apart. *)
Lemma map_source f cf : _FunctionMap st !! f = Some cf → ∃ F G,
  getFunction (_M st) f = Some F ∧ G ∈ m_functions (r_source r) ∧ fn_name G = f ∧ fn_blocks F = fn_blocks G ∧
  fn_name F = f ∧ f ∉ ignored.
Proof using Hr.
  intros Hf. destruct Hr as [Henv Hsup Han _ _].
  destruct (an_map _ _ _ _ _ _ _ Han f cf Hf) as (G & HG & HGf & Hc & _).
  exists (expose_in (list_to_set (r_ctors r) ∪ list_to_set (r_dtors r)) G), G.
  rewrite (analysed_getFunction _ _ _ _ _ _ _ Han), <- HGf, (getFunction_name _ G) by (apply Hsup || done).
  rewrite expose_in_name, expose_in_blocks. apply concerned_iff in Hc as [Hc _]; [|done]. done.
Qed.

Lemma defined_map f : f ∈ defined r → ∃ cf F, _FunctionMap st !! f = Some cf ∧
  getFunction (_M st) f = Some F ∧ isDeclaration F = false.
Proof using Hr.
  intros (Hi & G & HG & HGf & Hd)%defined_elem. destruct Hr as [Henv Hsup Han _ _].
  assert (Hint : fn_intrinsic G = false).
  { destruct (fn_intrinsic G) eqn:E; [|done]. destruct (sup_wf _ _ _ _ Hsup) as [_ Hwf].
    destruct (Hwf G HG) as [_ Hb]. unfold isDeclaration in Hd. by rewrite Hb in Hd. }
  destruct (an_all _ _ _ _ _ _ _ Han G HG) as [cf Hcf].
  { apply concerned_iff; [done|]. by rewrite HGf. }
  rewrite HGf in Hcf. exists cf, (expose_in (list_to_set (r_ctors r) ∪ list_to_set (r_dtors r)) G).
  rewrite (analysed_getFunction _ _ _ _ _ _ _ Han), <- HGf, (getFunction_name _ G) by (apply Hsup || done).
  split; [by rewrite HGf|]. split; [done|]. unfold isDeclaration. by rewrite expose_in_blocks.
Qed.

Lemma map_defined f cf F : _FunctionMap st !! f = Some cf → getFunction (_M st) f = Some F →
  isDeclaration F = false → f ∈ defined r.
Proof using Hr.
  intros Hf HF Hd. destruct (map_source f cf Hf) as (F' & G & HF' & HG & HGf & Hb & _ & Hi).
  rewrite HF in HF'. injection HF' as <-. apply defined_elem. split; [done|]. exists G.
  split; [done|]. split; [done|]. unfold isDeclaration in *. by rewrite <- Hb.
Qed.

Lemma defined_NoDup : NoDup (defined r).
Proof using Hr.
  unfold defined. destruct (sup_wf _ _ _ _ (cp_supported _ _ Hr)) as [Hnd _].
  eapply sublist_NoDup; [exact Hnd|]. apply fmap_sublist, sublist_filter.
Qed.

End Compiled.

(** Every function is defined in one module. *)
Definition one_definition (rs : list compiled) : Prop := NoDup (rs ≫= defined).

End Build.
