(* ===== verification/BuildSpec.v ===== *)
(** * What the files of a binary say of it

    The flags of the table, and the rows of the graphs: each function has the
    flag of the role it has in the whole binary, and at most one row. *)

From S2P Require Import Prelude CSem Wire MonitorData Dot Text Ir Pass Injector.
From S2P Require Import PassTable PassAnalysis PassFiles InjectSpec PassRun Prelink Build.
From Stdlib Require Import Strings.Byte.
From Stdlib Require Strings.String.
Import Strings.String.StringSyntax.
#[local] Open Scope string_scope.
#[local] Open Scope Z_scope.
#[local] Open Scope list_scope.

Section Spec.
Context (prefix : text) (level : Z) (ignored : gset name).

Abbreviation defined := (defined ignored).
Abbreviation compiled_from := (compiled_from prefix level ignored).
Abbreviation builds := (builds prefix level ignored).

(** ** Roles *)

(** The constructors and destructors of a module are defined in it, and [main]
    is none of them. *)
Definition proper_roles (r : compiled) : Prop :=
  (∀ f, f ∈ r_ctors r ∨ f ∈ r_dtors r → f ∈ defined r ∧ f ≠ lit "main").

(** What a function is in the binary made of [rs]. *)
Definition role (rs : list compiled) (f : name) : Z :=
  if decide (f ∈ rs ≫= r_ctors) then FCT_INIT
  else if decide (f ∈ rs ≫= r_dtors) then FCT_FINI
  else if decide (f = lit "main") then FCT_MAIN
  else if decide (f ∈ rs ≫= defined) then FCT_INTERNAL
  else FCT_EXTERNAL.

(** The path of the table is no keyword. *)
Lemma path_flag (p : text) : flag_to_int (p ++ lit ".fctid") = FCT_INTERNAL.
Proof.
  unfold flag_to_int.
  assert (H : ∀ w c, list.last w = Some c → c ≠ x64 → p ++ lit ".fctid" ≠ w).
  { intros w c Hw Hc E. rewrite <- E, list.last_app in Hw. cbn in Hw. congruence. }
  rewrite !bool_decide_false; [done|..]; by eapply H.
Qed.

Lemma proper_defined rs f : Forall proper_roles rs →
  f ∈ rs ≫= r_ctors ∨ f ∈ rs ≫= r_dtors → f ∈ rs ≫= defined ∧ f ≠ lit "main".
Proof.
  rewrite Forall_forall. intros Hp H. setoid_rewrite list_elem_of_bind.
  destruct H as [(r & Hf & Hr)%list_elem_of_bind|(r & Hf & Hr)%list_elem_of_bind];
    destruct (Hp r (proj1 (list_elem_of_In _ _) Hr) f) as [Hd Hm]; auto; (split; [by exists r|done]).
Qed.

(** [main] has its own role, a function that is not defined is external. *)
Lemma role_main rs f : Forall proper_roles rs → f = lit "main" → role rs f = FCT_MAIN.
Proof.
  intros Hp Hf. unfold role. repeat case_decide; try done;
    exfalso; destruct (proper_defined rs f Hp) as [_ Hm]; auto.
Qed.

Lemma role_unknown rs f : Forall proper_roles rs → (f ∉ rs ≫= defined) → f ≠ lit "main" →
  role rs f = FCT_EXTERNAL.
Proof.
  intros Hp Hd Hf. unfold role. repeat case_decide; try done;
    exfalso; destruct (proper_defined rs f Hp) as [Hm _]; auto.
Qed.

(** The entries say the roles, and what is defined has an entry. *)
Definition table_roles (rs : list compiled) (es : list entry) : Prop :=
  (∀ f id fl, (f, (id, fl)) ∈ es → flag_to_int fl = role rs f) ∧
  (∀ f, f ∈ rs ≫= defined → f ∈ es.*1).

Lemma bind_snoc {A B} (g : A → list B) (l : list A) a : (l ++ [a]) ≫= g = (l ≫= g) ++ g a.
Proof. rewrite bind_app. cbn. by rewrite app_nil_r. Qed.

(** What a function that [r] does not define was before. *)
Lemma role_snoc_other rs r f : proper_roles r → f ∉ defined r → role (rs ++ [r]) f = role rs f.
Proof.
  intros Hp Hf. unfold role. rewrite !bind_snoc.
  assert (Hc : f ∉ r_ctors r) by (intros H; by apply Hf, (Hp f); left).
  assert (Hd : f ∉ r_dtors r) by (intros H; by apply Hf, (Hp f); right).
  repeat case_decide; try done; exfalso;
    repeat match goal with
    | H : f ∈ _ ++ _ |- _ => apply elem_of_app in H as [H|H]
    | H : f ∉ _ ++ _ |- _ => apply not_elem_of_app in H as [? ?]
    end; done.
Qed.

Section Step.
Context (rs : list compiled) (es : list entry) (n : Z) (r : compiled).
Context (Htab : table es n) (Hr : compiled_from es r).
Context (Hp : Forall proper_roles (rs ++ [r])) (Hone : one_definition ignored (rs ++ [r])).
Context (Hroles : table_roles rs es).

Let st := r_st r.

Lemma proper_new : proper_roles r.
Proof using Hp. clear -Hp. apply Forall_app in Hp as [_ H]. by apply Forall_cons_1 in H as [? _]. Qed.

(** What [r] defines was no constructor, destructor or definition before. *)
Lemma new_definition f : f ∈ defined r → (f ∉ rs ≫= r_ctors) ∧ (f ∉ rs ≫= r_dtors) ∧ (f ∉ rs ≫= defined).
Proof using Hone Hp.
  clear -Hone Hp. intros Hf. unfold one_definition in Hone. rewrite bind_snoc in Hone.
  apply list.NoDup_app in Hone as (_ & Hd & _). apply Forall_app in Hp as [Hp' _].
  assert (H : f ∉ rs ≫= defined) by (intros H; by apply (Hd f)).
  split_and!; [| |done]; intros Hin; apply H, (proper_defined rs f Hp'); auto.
Qed.

Lemma role_snoc_new f : f ∈ defined r → role (rs ++ [r]) f =
  if decide (f ∈ r_ctors r) then FCT_INIT else if decide (f ∈ r_dtors r) then FCT_FINI
  else if decide (f = lit "main") then FCT_MAIN else FCT_INTERNAL.
Proof using Hone Hp.
  intros Hf. destruct (new_definition f Hf) as (H1 & H2 & H3). unfold role.
  rewrite !bind_snoc. repeat case_decide; try done; exfalso;
    repeat match goal with
    | H : f ∈ _ ++ _ |- _ => apply elem_of_app in H as [H|H]
    | H : f ∉ _ ++ _ |- _ => apply not_elem_of_app in H as [? ?]
    end; done.
Qed.

(** The flags written for a function of the module. *)
Lemma written_role f F : getFunction (_M st) f = Some F → is_Some (_FunctionMap st !! f) →
  flag_to_int (flags_of st ((list_to_map es : gmap name (Z * text)) !! f) F) = role (rs ++ [r]) f.
Proof using Htab Hr Hp Hone Hroles.
  intros HF [cf Hcf]. destruct (map_source prefix level ignored es r Hr f cf Hcf)
    as (F' & G & HF' & HG & HGf & Hb & Hn & Hi).
  fold st in HF'. rewrite HF in HF'. injection HF' as <-.
  destruct Hr as [Henv Hsup Han Hfile _]. fold st in Han, Hfile.
  pose proof proper_new as Hpn.
  assert (Hdef : isDeclaration F = false ↔ f ∈ defined r).
  { split; intros H.
    - apply defined_elem. split; [done|]. exists G. split; [done|]. split; [done|].
      unfold isDeclaration in *. by rewrite <- Hb.
    - apply (defined_map prefix level ignored es r Hr) in H as (cf' & F' & _ & HF' & Hd).
      fold st in HF'. rewrite HF in HF'. by injection HF' as <-. }
  unfold flags_of, isIgnoredFunction, isInitFunction, isFiniFunction. rewrite Hn.
  rewrite (an_ignored _ _ _ _ _ _ _ Han), (an_inits _ _ _ _ _ _ _ Han), (an_finis _ _ _ _ _ _ _ Han), Hfile.
  rewrite (bool_decide_false (f ∈ ignored)) by done.
  destruct (decide (f ∈ defined r)) as [Hin|Hout].
  - rewrite (role_snoc_new f Hin). rewrite (proj2 Hdef Hin).
    repeat case_bool_decide; repeat case_decide; rewrite ?elem_of_list_to_set in *; try done; apply path_flag.
  - rewrite (role_snoc_other rs r f Hpn Hout). assert (Hdecl : isDeclaration F = true).
    { destruct (isDeclaration F); [done|]. destruct Hout. by apply Hdef. }
    rewrite Hdecl, !bool_decide_false by (rewrite elem_of_list_to_set; intros H; apply Hout, (Hpn f); auto).
    case_bool_decide as Hm.
    + rewrite (role_main rs f); [done|by apply Forall_app in Hp as [? _]|done].
    + destruct (list_to_map es !! f) as [[id fl]|] eqn:Hold; cbn [snd].
      * by apply (old_lookup (lines_file es) es n (lines_file_table es n Htab)), (proj1 Hroles) in Hold.
      * symmetry. apply role_unknown; [by apply Forall_app in Hp as [? _]| |done].
        intros (e & -> & He)%(proj2 Hroles)%list_elem_of_fmap. apply not_elem_of_list_to_map in Hold.
        apply Hold, list_elem_of_fmap. by exists e.
Qed.

Lemma step_roles : table_roles (rs ++ [r]) (written (r_env r) es st).
Proof using Htab Hr Hp Hone Hroles.
  pose proof (cp_env _ _ _ _ _ Hr) as Henv. pose proof (lines_file_table es n Htab) as Hfile.
  pose proof (written_elem (r_env r) Henv (lines_file es) es n st Hfile) as Hw. split.
  - intros f id fl [(cf & Hcf & Heq)|[Hnone Hin]]%Hw.
    + destruct (map_source prefix level ignored es r Hr f cf Hcf) as (F & G & HF & _). fold st in HF.
      unfold new_entry in Heq. cbn [fst snd] in Heq. rewrite HF in Heq. injection Heq as -> ->.
      by apply written_role.
    + rewrite (role_snoc_other rs r f proper_new); [by apply (proj1 Hroles) in Hin|].
      intros (cf & F & Hcf & _)%(defined_map prefix level ignored es r Hr). fold st in Hcf. congruence.
  - intros f Hf. rewrite bind_snoc in Hf. apply elem_of_app in Hf.
    assert (Hold : f ∈ es.*1 → f ∈ (written (r_env r) es st).*1).
    { intros ([f' v] & -> & He)%list_elem_of_fmap. cbn [fst]. destruct (_FunctionMap st !! f') as [cf|] eqn:Hcf.
      - apply list_elem_of_fmap. eexists (f', _). split; [done|]. apply Hw. left. by exists cf.
      - apply list_elem_of_fmap. exists (f', v). split; [done|]. apply Hw. by right. }
    destruct Hf as [Hf|Hf]; [by apply Hold, (proj2 Hroles)|].
    destruct (defined_map prefix level ignored es r Hr f Hf) as (cf & F & Hcf & _).
    apply list_elem_of_fmap. eexists (f, _). split; [done|]. apply Hw. left. by exists cf.
Qed.

End Step.

(** The flags of the final table are the roles in the whole binary. *)
Lemma builds_roles es rs es' : builds es rs es' → ∀ rs0 n, table es n →
  Forall proper_roles (rs0 ++ rs) → one_definition ignored (rs0 ++ rs) → table_roles rs0 es →
  table_roles (rs0 ++ rs) es'.
Proof.
  induction 1 as [es|es r rs es' Hr Hb IH]; intros rs0 n Htab Hp Hone Hroles; [by rewrite app_nil_r|].
  replace (rs0 ++ r :: rs) with ((rs0 ++ [r]) ++ rs) in * by (by rewrite <- app_assoc).
  destruct (compiled_table prefix level ignored es n r Htab Hr) as (Ht & _).
  eapply (IH _ _ Ht); [done|done|]. apply (step_roles rs0 es n r); [done|done| | |done].
  - by apply Forall_app in Hp as [? _].
  - unfold one_definition in *. rewrite bind_app in Hone. by apply list.NoDup_app in Hone as [? _].
Qed.

(** An entry is of a function of one of the modules. *)
Lemma builds_names es rs es' : builds es rs es' → ∀ n, table es n → ∀ e, e ∈ es' →
  e ∈ es ∨ ∃ r F, r ∈ rs ∧ F ∈ m_functions (r_source r) ∧ fn_name F = e.1.
Proof.
  induction 1 as [es|es r rs es' Hr Hb IH]; intros n Htab e He; [by left|].
  destruct (compiled_table prefix level ignored es n r Htab Hr) as (Ht & _).
  destruct (IH _ Ht e He) as [Hin|(r' & F & Hr' & HF & Hn)].
  - destruct e as [f v].
    apply (written_elem (r_env r) (cp_env _ _ _ _ _ Hr) (lines_file es) es n _ (lines_file_table es n Htab)) in Hin
      as [(cf & Hcf & _)|[_ Hin]]; [right|by left].
    destruct (map_source prefix level ignored es r Hr f cf Hcf) as (F & G & _ & HG & HGf & _).
    exists r, G. split; [by left|done].
  - right. exists r', F. split; [by right|done].
Qed.

(** ** Rows *)

Lemma fmap_bind {A B C} (h : B → C) (g : A → list B) (l : list A) : h <$> (l ≫= g) = l ≫= λ a, h <$> g a.
Proof. induction l as [|a l IH]; [done|]. cbn. by rewrite fmap_app, <- IH. Qed.

(** Keys that come from distinct names are distinct. *)
Lemma NoDup_bind_keys {A} (keys : A → list Z) (names : A → list name) (ids : gmap name Z) (l : list A) :
  (∀ f g id, ids !! f = Some id → ids !! g = Some id → f = g) →
  (∀ a, a ∈ l → NoDup (keys a)) →
  (∀ a k, a ∈ l → k ∈ keys a → ∃ f, f ∈ names a ∧ ids !! f = Some k) →
  NoDup (l ≫= names) → NoDup (l ≫= keys).
Proof.
  intros Hinj. induction l as [|a l IH]; intros Hk Hn Hnd; [constructor|]. cbn in *.
  apply list.NoDup_app in Hnd as (_ & Hd & Hnd). apply list.NoDup_app. split; [apply Hk; by left|]. split.
  - intros k Hka (b & Hkb & Hb)%list_elem_of_bind.
    destruct (Hn a k) as (f & Hf & Hfk); [by left|done|].
    destruct (Hn b k) as (g & Hg & Hgk); [by right|done|].
    assert (f = g) as <- by (by eapply Hinj). apply (Hd f Hf), list_elem_of_bind. by exists b.
  - apply IH; [|by intros b k ?; apply Hn; right|done]. intros b Hb. apply Hk. by right.
Qed.

Section Rows.
Context (rs : list compiled) (es : list entry) (n : Z) (Htab : table es n).
Context (Hrs : ∀ r, r ∈ rs → _IdentifiedFunctions (r_st r) ⊆ ids_of es ∧ ∃ es0, compiled_from es0 r).
Context (Hone : one_definition ignored rs).

(** What is known of a module. *)
Lemma build_sound r : r ∈ rs → env_ok (r_env r) ∧ sound_map (r_st r) ∧
  (∀ f id, _IdentifiedFunctions (r_st r) !! f = Some id → ids_of es !! f = Some id ∧ 0 <= id < n).
Proof using Htab Hrs.
  intros (Hsub & es0 & [Henv Hsup Han _ _])%Hrs. split; [done|]. split; [by eapply analysed_sound|].
  intros f id Hf. assert (Hid : ids_of es !! f = Some id) by (by eapply lookup_weaken). split; [done|].
  destruct Htab as (_ & _ & [Hnum _] & _). by eapply Hnum.
Qed.

Lemma ids_small : n <= 2 ^ 31.
Proof using Htab. destruct Htab as (_ & _ & _ & H). lia. Qed.

Lemma ids_injective f g id : ids_of es !! f = Some id → ids_of es !! g = Some id → f = g.
Proof using Htab. destruct Htab as (_ & _ & (_ & Hinj & _) & _). apply Hinj. Qed.

(** The function that calls, its body, and its number in the table. *)
Lemma calls_id_defined r i j : r ∈ rs → calls_id (r_st r) i j →
  (∃ f, f ∈ defined r ∧ ids_of es !! f = Some i) ∧ 0 <= i < n ∧ 0 <= j < n.
Proof using Htab Hrs.
  intros Hin (f & cf & F & g & Hf & <- & HF & (B & args & HB & _) & Hig & Hj).
  destruct (build_sound r Hin) as (_ & Hsound & Hids). destruct (Hrs r Hin) as (_ & es0 & Hr).
  destruct (Hsound f cf Hf) as (_ & _ & Hid & _). split; [|split; [by eapply Hids|by eapply Hids]].
  exists f. split; [|by eapply Hids]. eapply map_defined; [done..|].
  unfold isDeclaration. destruct (fn_blocks F); [by apply elem_of_nil in HB|done].
Qed.

Lemma calls_of_rows r : r ∈ rs → NoDup (calls_of (r_env r) (r_st r)).*1 ∧
  (∀ i j, row_lists (calls_of (r_env r) (r_st r)) i j ↔ calls_id (r_st r) i j) ∧
  ∀ x, x ∈ calls_of (r_env r) (r_st r) → x.2 ≠ [] ∧ NoDup x.2.
Proof using Htab Hrs.
  intros Hin. destruct (build_sound r Hin) as (Henv & Hsound & Hids).
  destruct (calls_of_spec (r_env r) Henv (r_st r) Hsound) as (Hnd & Hl & Hrow).
  { intros f id Hf%Hids. pose proof ids_small. lia. }
  split; [done|]. split; [done|]. intros x Hx. by destruct (Hrow x Hx) as (? & ? & _).
Qed.

(** The rows of the call graph. *)
Lemma build_calls_spec :
  NoDup (build_calls rs).*1 ∧
  (∀ i j, row_lists (build_calls rs) i j ↔ ∃ r, r ∈ rs ∧ calls_id (r_st r) i j) ∧
  ∀ x, x ∈ build_calls rs → 0 <= x.1 < n ∧ NoDup x.2 ∧ Forall (λ j, 0 <= j < n) x.2.
Proof using Htab Hrs Hone.
  assert (Hlists : ∀ i j, row_lists (build_calls rs) i j ↔ ∃ r, r ∈ rs ∧ calls_id (r_st r) i j).
  { intros i j. unfold row_lists, build_calls. setoid_rewrite list_elem_of_bind. split.
    - intros (js & (r & Hx & Hin) & Hj). exists r. split; [done|].
      destruct (calls_of_rows r Hin) as (_ & Hl & _). apply Hl. by exists js.
    - intros (r & Hin & Hc). destruct (calls_of_rows r Hin) as (_ & Hl & _).
      apply Hl in Hc as (js & Hx & Hj). exists js. split; [by exists r|done]. }
  assert (Hrow : ∀ x, x ∈ build_calls rs → x.2 ≠ [] ∧ NoDup x.2).
  { intros x (r & Hx & Hin)%list_elem_of_bind. by eapply (calls_of_rows r). }
  split; [|split; [done|]].
  - unfold build_calls. rewrite fmap_bind.
    eapply (NoDup_bind_keys _ defined (ids_of es)); [apply ids_injective| | |exact Hone].
    + intros r Hin. by apply (calls_of_rows r Hin).
    + intros r k Hin ([i js] & -> & Hx)%list_elem_of_fmap. cbn.
      destruct (calls_of_rows r Hin) as (_ & Hl & Hne). destruct js as [|j js]; [by destruct (Hne _ Hx)|].
      eapply (calls_id_defined r i j Hin), Hl. exists (j :: js). split; [done|by left].
  - intros [i js] Hx. destruct (Hrow _ Hx) as [Hne Hnd]. cbn in *.
    assert (Hall : ∀ j, j ∈ js → 0 <= i < n ∧ 0 <= j < n).
    { intros j Hj. destruct (proj1 (Hlists i j)) as (r & Hin & Hc); [by exists js|].
      by apply (calls_id_defined r i j Hin) in Hc as (_ & ? & ?). }
    split; [|split; [done|]].
    + destruct js as [|j js]; [done|]. apply (Hall j). by left.
    + apply Forall_forall. intros j Hj%list_elem_of_In. by apply Hall.
Qed.

(** ** Control-flow graphs *)

(** The blocks of function [f] of [r] are checked. *)
Definition checked_in (r : compiled) (f : name) (cf : CFIFct) (F : function) : Prop :=
  _FunctionMap (r_st r) !! f = Some cf ∧ getFunction (_M (r_st r)) f = Some F ∧
  checked_blocks (r_st r) F = true.

Lemma checked_facts r f cf F : r ∈ rs → checked_in r f cf F →
  f ∈ defined r ∧ ids_of es !! f = Some (cf_id cf) ∧ 0 <= cf_id cf < n ∧ cf_bb_map cf = numbers_of F ∧
  small_function F ∧ closed_function F ∧ 1 <= fn_size F < 2 ^ 31.
Proof using Htab Hrs.
  intros Hin (Hf & HF & Hch). destruct (build_sound r Hin) as (_ & Hsound & Hids).
  destruct (Hrs r Hin) as (_ & es0 & Hr).
  destruct (Hsound f cf Hf) as (_ & _ & Hid & F' & HF' & _ & _ & _ & Hbb & _).
  rewrite HF in HF'. injection HF' as <-.
  assert (Hd : isDeclaration F = false).
  { unfold checked_blocks in Hch. rewrite !andb_true_iff, !negb_true_iff in Hch. apply Hch. }
  destruct (analysed_small _ _ _ _ _ _ _ (cp_supported _ _ _ _ _ Hr) (cp_analysed _ _ _ _ _ Hr) f F HF) as [Hsm Hcl].
  destruct (Hids _ _ Hid) as [Hid' Hrange].
  split; [by eapply map_defined|]. split; [done|]. split; [done|]. split; [done|]. split; [done|]. split; [done|].
  destruct Hsm as [_ Hlt]. unfold fn_size. unfold isDeclaration in Hd. destruct (fn_blocks F); [done|].
  cbn [length] in *. lia.
Qed.

Lemma order_checked r it : r ∈ rs →
  it ∈ order (r_env r) _ (_FunctionMap (r_st r)) ↔ _FunctionMap (r_st r) !! it.1 = Some it.2.
Proof using Htab Hrs.
  intros Hin. destruct (build_sound r Hin) as (Henv & _). rewrite (proj1 Henv).
  destruct it. apply elem_of_map_to_list.
Qed.

Lemma build_sections_elem s : s ∈ build_sections rs ↔
  ∃ r f cf F, r ∈ rs ∧ checked_in r f cf F ∧ s = section_of F cf.
Proof using Htab Hrs.
  unfold build_sections, sections_of. rewrite list_elem_of_bind. split.
  - intros (r & ([f cf] & Hs & Hit)%list_elem_of_bind & Hin). cbn [fst snd] in Hs.
    apply order_checked in Hit; [|done]. destruct (getFunction (_M (r_st r)) f) as [F|] eqn:HF; [|by apply elem_of_nil in Hs].
    destruct (checked_blocks (r_st r) F) eqn:Hch; [|by apply elem_of_nil in Hs].
    apply list_elem_of_singleton in Hs as ->. by exists r, f, cf, F.
  - intros (r & f & cf & F & Hin & (Hf & HF & Hch) & ->). exists r. split; [|done].
    apply list_elem_of_bind. exists (f, cf). cbn [fst snd]. rewrite HF, Hch. split; [by apply list_elem_of_singleton|].
    by apply order_checked.
Qed.

Lemma sections_of_NoDup r : r ∈ rs → NoDup (sec_fct <$> sections_of (r_env r) (r_st r)).
Proof using Htab Hrs.
  intros Hin. unfold sections_of. rewrite fmap_bind.
  eapply (NoDup_bind_keys _ (λ it, [it.1]) (ids_of es)); [apply ids_injective| | |].
  - intros [f cf] _. cbn [fst snd]. destruct (getFunction _ _) as [F|]; [|constructor].
    destruct (checked_blocks _ _); [apply NoDup_singleton|constructor].
  - intros [f cf] k Hit Hk. apply order_checked in Hit; [|done]. cbn [fst snd] in *.
    destruct (build_sound r Hin) as (_ & Hsound & Hids). destruct (Hsound f cf Hit) as (_ & _ & Hid & _).
    exists f. split; [by left|]. destruct (getFunction _ _) as [F|]; [|by apply elem_of_nil in Hk].
    destruct (checked_blocks _ _); [|by apply elem_of_nil in Hk].
    apply list_elem_of_singleton in Hk as ->. by eapply Hids.
  - destruct (build_sound r Hin) as (Henv & _).
    replace (order (r_env r) CFIFct (_FunctionMap (r_st r)) ≫= λ it, [it.1])
      with (order (r_env r) CFIFct (_FunctionMap (r_st r))).*1.
    + rewrite (proj1 Henv). apply NoDup_fst_map_to_list.
    + induction (order (r_env r) CFIFct (_FunctionMap (r_st r))) as [|it l IH]; [done|]. cbn. by rewrite <- IH.
Qed.

Lemma build_sections_NoDup : NoDup (sec_fct <$> build_sections rs).
Proof using Htab Hrs Hone.
  unfold build_sections. rewrite fmap_bind.
  eapply (NoDup_bind_keys _ defined (ids_of es)); [apply ids_injective|apply sections_of_NoDup| |exact Hone].
  intros r k Hin (s & -> & Hs)%list_elem_of_fmap. unfold sections_of in Hs.
  apply list_elem_of_bind in Hs as ([f cf] & Hs & Hit). cbn [fst snd] in Hs.
  apply order_checked in Hit; [|done]. cbn [fst snd] in Hit.
  destruct (getFunction (_M (r_st r)) f) as [F|] eqn:HF; [|by apply elem_of_nil in Hs].
  destruct (checked_blocks (r_st r) F) eqn:Hch; [|by apply elem_of_nil in Hs].
  apply list_elem_of_singleton in Hs as ->. exists f.
  destruct (checked_facts r f cf F Hin) as (? & ? & _); done.
Qed.

(** The rows of a function. *)
Lemma section_facts r f cf F : r ∈ rs → checked_in r f cf F →
  let s := section_of F cf in
  sec_num s = fn_size F ∧ NoDup (sec_rows s).*1 ∧
  (∀ i j, row_lists (sec_rows s) i j ↔ jumps F i j) ∧ (sec_num s = 1 → sec_rows s = []) ∧
  ∀ x, x ∈ sec_rows s → 0 <= x.1 < fn_size F ∧ Forall (λ j, 0 <= j < fn_size F) x.2.
Proof using Htab Hrs.
  intros Hin Hch. destruct (checked_facts r f cf F Hin Hch) as (_ & _ & _ & Hbb & Hsm & Hcl & _).
  cbn zeta. rewrite (section_rows F Hsm Hcl cf Hbb).
  destruct (rows_wf F Hsm Hcl) as [Hnd Hrow]. split; [done|]. split; [done|].
  split; [by apply rows_lists|]. split; [by apply rows_single|].
  intros x Hx. destruct (Hrow x Hx) as (Hi & _ & Hj). split; [done|]. eapply Forall_impl; [|exact Hj]. cbn. lia.
Qed.

(** The post-dominators. *)
Lemma build_ipds_elem p : p ∈ build_ipds rs →
  ∃ r f cf F BB, r ∈ rs ∧ checked_in r f cf F ∧ BB ∈ fn_blocks F ∧ p = ipd_of (r_env r) F cf BB.
Proof using Htab Hrs.
  unfold build_ipds, ipds_of. intros (r & ([f cf] & Hp & Hit)%list_elem_of_bind & Hin)%list_elem_of_bind.
  cbn [fst snd] in Hp. apply order_checked in Hit; [|done].
  destruct (getFunction (_M (r_st r)) f) as [F|] eqn:HF; [|by apply elem_of_nil in Hp].
  destruct (checked_blocks (r_st r) F) eqn:Hch; [|by apply elem_of_nil in Hp].
  apply list_elem_of_fmap in Hp as (BB & -> & HB). by exists r, f, cf, F, BB.
Qed.

End Rows.
End Spec.
