(* ===== verification/BuildPack.v ===== *)
(** * The sections of a binary

    The prelink script accepts the files that the compilations of a binary
    leave, and the packets of the code it generates carry a well-formed table
    of functions, call graph and control-flow graphs. *)

From S2P Require Import Prelude CSem Wire MonitorData LoadSections LoadSpec.
From S2P Require Import LoadPackets Dot Text Ir Pass Injector PassTable PassAnalysis PassFiles InjectSpec PassRun.
From S2P Require Import Prelink PrelinkSpec LoadModule Build BuildSpec.
From Stdlib Require Import Strings.Byte.
From Stdlib Require Strings.String.
Import Strings.String.StringSyntax.
#[local] Open Scope string_scope.
#[local] Open Scope Z_scope.
#[local] Open Scope list_scope.

(** What the fields of the sections need: no name has a null character, and
    the counts fit 32 bits. *)
Record packable (rs : list compiled) : Prop := {
  pk_names : ∀ r F, r ∈ rs → F ∈ m_functions (r_source r) → x00 ∉ fn_name F;
  pk_rows : ∀ s x, s ∈ build_sections rs → x ∈ sec_rows s → Z.of_nat (length x.2) < 2 ^ 32;
  pk_ipds : Z.of_nat (length (build_ipds rs)) < 2 ^ 32;
}.

Section Pack.
Context (pe : py_env) (Hpe : py_env_ok pe).

(** The dictionaries of [parse_bb]. *)
Definition bb_dict (secs : list section) : gmap Z (gmap Z (list Z)) :=
  list_to_map ((λ s, (sec_fct s, list_to_map (sec_rows s))) <$> secs).
Definition num_dict (secs : list section) : gmap Z Z := list_to_map ((λ s, (sec_fct s, sec_num s)) <$> secs).

Definition blocks_entries (secs : list section) : list blocks_of :=
  (λ it : Z * gmap Z (list Z), BlocksOf it.1 (default 0 (num_dict secs !! it.1)) (trans_entries pe it.2)) <$>
    items_id pe _ (bb_dict secs).

Definition block_bytes (b : blocks_of) : list byte := block_trans_l_bytes (bo_fct b) (bo_num b) (bo_rows b).

(** The tables of a binary. *)
Definition tables_of (level : Z) (es : list entry) (rs : list compiled) : tables :=
  Tables (fct_entries pe (list_to_map es)) (trans_entries pe (list_to_map (build_calls rs)))
    (if decide (level = BASICBLOCK) then Some (blocks_entries (build_sections rs), build_ipds rs) else None).

Lemma dict_keys {A} (f : section → A) secs : ((λ s, (sec_fct s, f s)) <$> secs).*1 = sec_fct <$> secs.
Proof. rewrite <- list_fmap_compose. by apply list_fmap_ext. Qed.

Lemma dict_lookup {A} (f : section → A) secs k a : NoDup (sec_fct <$> secs) →
  (list_to_map ((λ s, (sec_fct s, f s)) <$> secs) : gmap Z A) !! k = Some a ↔
  ∃ s, s ∈ secs ∧ k = sec_fct s ∧ a = f s.
Proof.
  intros Hnd. rewrite <- elem_of_list_to_map by (by rewrite dict_keys). rewrite list_elem_of_fmap. split.
  - intros (s & [= -> ->] & Hs). by exists s.
  - intros (s & Hs & -> & ->). by exists s.
Qed.

Lemma blocks_entries_elem secs b : NoDup (sec_fct <$> secs) →
  b ∈ blocks_entries secs ↔ ∃ s, s ∈ secs ∧
    b = BlocksOf (sec_fct s) (sec_num s) (trans_entries pe (list_to_map (sec_rows s))).
Proof using Hpe.
  intros Hnd. unfold blocks_entries. rewrite list_elem_of_fmap. split.
  - intros ([k m] & -> & Hit). apply (items_id_elem pe Hpe) in Hit. cbn [fst snd] in *. unfold bb_dict in Hit.
    apply dict_lookup in Hit as (s & Hs & -> & ->); [|done]. exists s. split; [done|].
    unfold num_dict. rewrite (proj2 (dict_lookup sec_num secs (sec_fct s) (sec_num s) Hnd)) by (by exists s). done.
  - intros (s & Hs & ->). exists (sec_fct s, list_to_map (sec_rows s)). cbn [fst snd]. split.
    + unfold num_dict. rewrite (proj2 (dict_lookup sec_num secs (sec_fct s) (sec_num s) Hnd)) by (by exists s). done.
    + apply (items_id_elem pe Hpe). cbn [fst snd]. unfold bb_dict. apply dict_lookup; [done|]. by exists s.
Qed.

Lemma blocks_entries_ids secs : NoDup (bo_fct <$> blocks_entries secs).
Proof using Hpe.
  unfold blocks_entries. rewrite <- list_fmap_compose.
  replace (_ <$> items_id pe _ (bb_dict secs)) with (items_id pe _ (bb_dict secs)).*1 by (by apply list_fmap_ext).
  rewrite (proj2 Hpe). apply NoDup_fst_map_to_list.
Qed.

(** The rows of a function are those of its section. *)
Lemma section_rows_listed s i j : NoDup (sec_rows s).*1 →
  listed (trans_entries pe (list_to_map (sec_rows s))) i j ↔ row_lists (sec_rows s) i j.
Proof using Hpe.
  intros Hnd. rewrite (trans_entries_listed pe Hpe). unfold row_lists.
  by setoid_rewrite <- (elem_of_list_to_map (M := gmap Z) (sec_rows s)).
Qed.

(** ** A binary *)

Context (prefix : text) (level : Z) (ignored : gset name).
Context (rs : list compiled) (es : list entry) (n : Z) (Htab : table es n).
Context (Hrs : ∀ r, r ∈ rs → _IdentifiedFunctions (r_st r) ⊆ ids_of es ∧
  ∃ es0, compiled_from prefix level ignored es0 r).
Context (Hone : one_definition ignored rs) (Hpk : packable rs).
Context (Hnames : ∀ e, e ∈ es → ∃ r F, r ∈ rs ∧ F ∈ m_functions (r_source r) ∧ fn_name F = e.1).

Let fcts : gmap name (Z * text) := list_to_map es.

Lemma fcts_elem f v : fcts !! f = Some v ↔ (f, v) ∈ es.
Proof using Htab. unfold fcts. symmetry. apply elem_of_list_to_map. apply Htab. Qed.

Lemma fcts_ids f id fl : (f, (id, fl)) ∈ es → ids_of es !! f = Some id ∧ 0 <= id < n.
Proof using Htab.
  intros He. destruct Htab as (_ & Hnd & (Hnum & _) & _).
  assert (Hid : ids_of es !! f = Some id) by (apply ids_of_elem; [done|by exists fl]).
  split; [done|by eapply Hnum].
Qed.

Lemma fcts_size : Z.of_nat (size fcts) = n.
Proof using Htab.
  rewrite <- (table_length es n Htab). f_equal. rewrite <- length_map_to_list. unfold fcts.
  rewrite (map_to_list_to_map es) by apply Htab. done.
Qed.

Lemma tables_num : tb_num (tables_of level es rs) = n.
Proof using Hpe Htab. unfold tb_num, tables_of. cbn [tb_fcts]. rewrite (fct_entries_length pe Hpe). apply fcts_size. Qed.

Lemma n_u : in_u 32 n.
Proof using Htab. destruct Htab as (_ & _ & _ & H). unfold in_u. lia. Qed.

Lemma below_u z : 0 <= z < n → in_u 32 z.
Proof using Htab. pose proof n_u. unfold in_u in *. lia. Qed.

(** The table of functions. *)
Lemma tables_fcts : Forall (wf_fct n) (fct_entries pe fcts) ∧ NoDup (fe_id <$> fct_entries pe fcts).
Proof using Hpe Htab Hpk Hnames.
  split.
  - apply Forall_forall. intros e (fl & He & Hfl)%list_elem_of_In%(fct_entries_elem pe Hpe).
    apply fcts_elem in He. destruct (fcts_ids _ _ _ He) as [_ Hid]. split; [done|].
    split; [rewrite Hfl; pose proof (flag_to_int_range fl); unfold in_u; lia|].
    destruct (Hnames _ He) as (r & F & Hr & HF & Hn). cbn [fst] in Hn. rewrite <- Hn. by eapply pk_names.
  - apply (fct_entries_ids pe Hpe), NoDup_fmap_2_strong; [|apply NoDup_map_to_list].
    intros [f [i fl]] [g [j gl]] Hf%elem_of_map_to_list%fcts_elem Hg%elem_of_map_to_list%fcts_elem. cbn.
    intros <-. destruct (fcts_ids _ _ _ Hf) as [Hf' _]. destruct (fcts_ids _ _ _ Hg) as [Hg' _].
    assert (f = g) as <- by (by eapply (ids_injective es n Htab)).
    assert (Heq : fcts !! f = Some (i, fl)) by (by apply fcts_elem). apply fcts_elem in Hg. congruence.
Qed.

Let calls := build_calls rs.
Let callgraph : gmap Z (list Z) := list_to_map calls.

Lemma callgraph_row i js : callgraph !! i = Some js ↔ (i, js) ∈ calls.
Proof using Hrs Hone Htab.
  unfold callgraph. symmetry. apply elem_of_list_to_map.
  by apply (build_calls_spec prefix level ignored rs es n Htab Hrs Hone).
Qed.

Lemma row_bounds i js : (i, js) ∈ calls → 0 <= i < n ∧ Forall (λ j, 0 <= j < n) js ∧
  in_u 32 (Z.of_nat (length js)).
Proof using Hrs Hone Htab.
  intros Hx. destruct (build_calls_spec prefix level ignored rs es n Htab Hrs Hone) as (_ & _ & H).
  destruct (H _ Hx) as (Hi & Hnd & Hjs). cbn [fst snd] in *. split; [done|]. split; [done|].
  assert (Hle : (length js <= length (seqZ 0 n))%nat).
  { apply submseteq_length, NoDup_submseteq; [done|]. intros j Hj. apply elem_of_seqZ.
    rewrite Forall_forall in Hjs. destruct (Hjs j); [by apply list_elem_of_In|lia]. }
  rewrite length_seqZ in Hle. pose proof n_u. unfold in_u in *. lia.
Qed.

(** The call graph. *)
Lemma tables_calls : Forall (wf_trans n) (trans_entries pe callgraph) ∧
  NoDup (te_id <$> trans_entries pe callgraph) ∧ in_u 32 (Z.of_nat (length (trans_entries pe callgraph))).
Proof using Hpe Hrs Hone Htab.
  destruct (trans_entries_ids pe Hpe callgraph) as [Hnd Hids].
  assert (Hwf : Forall (wf_trans n) (trans_entries pe callgraph)).
  { apply Forall_forall. intros t ([i js] & -> & Ht)%list_elem_of_In%list_elem_of_fmap.
    apply (items_id_elem pe Hpe), callgraph_row, row_bounds in Ht as (? & ? & ?). done. }
  split; [done|]. split; [done|].
  assert (Hle : (length (te_id <$> trans_entries pe callgraph) <= length (seqZ 0 n))%nat).
  { apply submseteq_length, NoDup_submseteq; [done|]. intros i (t & -> & Ht)%list_elem_of_fmap.
    rewrite Forall_forall in Hwf. destruct (Hwf t) as [? _]; [by apply list_elem_of_In|]. apply elem_of_seqZ. lia. }
  rewrite length_fmap, length_seqZ in Hle. pose proof n_u. unfold in_u in *. lia.
Qed.

(** ** Blocks *)

Let secs := build_sections rs.

Lemma secs_NoDup : NoDup (sec_fct <$> secs).
Proof using Hrs Hone Htab. by apply (build_sections_NoDup prefix level ignored rs es n). Qed.

(** A section of the file. *)
Lemma secs_facts s : s ∈ secs → 0 <= sec_fct s < n ∧ 1 <= sec_num s < 2 ^ 31 ∧ NoDup (sec_rows s).*1 ∧
  (sec_num s = 1 → sec_rows s = []) ∧
  ∀ x, x ∈ sec_rows s → 0 <= x.1 < sec_num s ∧ Forall (λ j, 0 <= j < sec_num s) x.2 ∧
    Z.of_nat (length x.2) < 2 ^ 32.
Proof using Hrs Htab Hpk.
  intros Hs. pose proof Hs as (r & f & cf & F & Hin & Hch & Hsec)%(build_sections_elem prefix level ignored rs es n Htab Hrs).
  destruct (checked_facts prefix level ignored rs es n Htab Hrs r f cf F Hin Hch) as (_ & _ & Hid & _ & _ & _ & Hsize).
  destruct (section_facts prefix level ignored rs es n Htab Hrs r f cf F Hin Hch) as (Hnum & Hnd & _ & Hone1 & Hrow).
  cbn zeta in *. rewrite <- Hsec, ?Hnum in *. split; [by rewrite Hsec|]. split; [lia|]. split; [done|]. split; [done|].
  intros x Hx. destruct (Hrow x Hx). split; [done|]. split; [done|]. by eapply (pk_rows rs Hpk s).
Qed.

Lemma secs_wf : Forall wf_section secs.
Proof using Hrs Htab Hpk.
  apply Forall_forall. intros s Hs%list_elem_of_In. destruct (secs_facts s Hs) as (Hf & Hn & Hnd & H1 & Hrow).
  split; [lia|]. split; [lia|]. split; [|done]. apply Forall_forall. intros x Hx%list_elem_of_In.
  destruct (Hrow x Hx) as (? & Hj & _). split; [lia|]. eapply Forall_impl; [|exact Hj]. cbn. lia.
Qed.

(** The rows of a section, once they are in a dictionary. *)
Lemma section_dict s i js : s ∈ secs → (list_to_map (sec_rows s) : gmap Z (list Z)) !! i = Some js →
  (i, js) ∈ sec_rows s.
Proof using Hrs Htab Hpk.
  intros Hs Hi. destruct (secs_facts s Hs) as (_ & _ & Hnd & _). by apply elem_of_list_to_map in Hi.
Qed.

Lemma section_small s : s ∈ secs → small_rows (list_to_map (sec_rows s)) ∧
  Z.of_nat (length (trans_entries pe (list_to_map (sec_rows s)))) <= sec_num s ∧
  Forall (wf_trans (sec_num s)) (trans_entries pe (list_to_map (sec_rows s))).
Proof using Hpe Hrs Htab Hpk.
  intros Hs. destruct (secs_facts s Hs) as (_ & Hn & _ & _ & Hrow).
  set (m := list_to_map (sec_rows s) : gmap Z (list Z)).
  assert (Hm : ∀ i js, m !! i = Some js → 0 <= i < sec_num s ∧ in_u 32 (Z.of_nat (length js)) ∧
    Forall (λ j, 0 <= j < sec_num s) js).
  { intros i js Hi%(section_dict s _ _ Hs). destruct (Hrow _ Hi) as (? & ? & ?). cbn [fst snd] in *.
    split; [done|]. split; [unfold in_u; lia|done]. }
  assert (Hwf : Forall (wf_trans (sec_num s)) (trans_entries pe m)).
  { apply Forall_forall. intros t ([i js] & -> & Ht)%list_elem_of_In%list_elem_of_fmap.
    apply (items_id_elem pe Hpe), Hm in Ht as (? & ? & ?). done. }
  split; [|split; [|done]].
  - intros i js (Hi & Hl & Hjs)%Hm. split; [unfold in_u; lia|]. split; [done|].
    eapply Forall_impl; [|exact Hjs]. cbn. unfold in_u. lia.
  - destruct (trans_entries_ids pe Hpe m) as [Hnd _].
    assert (Hle : (length (te_id <$> trans_entries pe m) <= length (seqZ 0 (sec_num s)))%nat).
    { apply submseteq_length, NoDup_submseteq; [done|]. intros i (t & -> & Ht)%list_elem_of_fmap.
      rewrite Forall_forall in Hwf. destruct (Hwf t) as [? _]; [by apply list_elem_of_In|]. apply elem_of_seqZ. lia. }
    rewrite length_fmap, length_seqZ in Hle. lia.
Qed.

Lemma tables_blocks : Forall (wf_blocks n) (blocks_entries secs).
Proof using Hpe Hrs Hone Htab Hpk.
  apply Forall_forall. intros b (s & Hs & ->)%list_elem_of_In%blocks_entries_elem; [|apply secs_NoDup].
  destruct (secs_facts s Hs) as (Hf & Hn & _). destruct (section_small s Hs) as (_ & Hlen & Hwf).
  unfold wf_blocks. cbn [bo_fct bo_num bo_rows]. split; [done|]. unfold in_u. split; [lia|]. split; [lia|].
  split; [lia|done].
Qed.

Lemma tables_ipds : Forall (wf_ipd (blocks_entries secs)) (build_ipds rs).
Proof using Hpe Hrs Hone Htab Hpk.
  apply Forall_forall. intros p Hp%list_elem_of_In.
  apply (build_ipds_elem prefix level ignored rs es n Htab Hrs) in Hp as (r & f & cf & F & BB & Hin & Hch & HB & ->).
  destruct (checked_facts prefix level ignored rs es n Htab Hrs r f cf F Hin Hch)
    as (_ & _ & Hid & Hbb & Hsm & _ & Hsize).
  assert (HF : fn_blocks F ≠ []) by (by intros E; rewrite E in HB; apply elem_of_nil in HB).
  assert (Hbid : ∀ l, 0 <= bb_id (cf_bb_map cf) l < fn_size F).
  { intros l. rewrite Hbb. destruct (bb_id_range F l Hsm) as [H1 H2]. split; [done|by apply H2]. }
  split.
  - destruct (last_block_id_range F Hsm) as [Hl1 Hl2]. rewrite <- Hbb in Hl1, Hl2. specialize (Hl2 HF).
    fold (fn_size F) in Hl2. pose proof (Hbid (bb_label BB)). pose proof n_u as [_ Hn].
    unfold ipd_list, ipd_of. cbn [ipd_fct ipd_bb ipd_ipd ipd_last].
    constructor; [unfold in_u; lia|]. constructor; [unfold in_u; lia|].
    constructor; [|constructor; [unfold in_u; lia|constructor]].
    destruct (block_ipd (r_env r) F BB) as [l|]; [pose proof (Hbid l)|]; unfold in_u; lia.
  - exists (BlocksOf (cf_id cf) (fn_size F) (trans_entries pe (list_to_map (sec_rows (section_of F cf))))).
    split; [|split; [done|by apply Hbid]]. apply blocks_entries_elem; [apply secs_NoDup|].
    exists (section_of F cf). split; [|done].
    apply (build_sections_elem prefix level ignored rs es n Htab Hrs). by exists r, f, cf, F.
Qed.

(** What is packed is well-formed. *)
Lemma tables_wf : 0 < n → wf_tables (tables_of level es rs).
Proof using Hpe Hrs Hone Htab Hpk Hnames.
  intros Hpos. pose proof tables_num as Hnum. destruct tables_fcts as [Hf1 Hf2].
  destruct tables_calls as (Hc1 & Hc2 & Hc3).
  assert (Hsec : ∀ b, b ∈ tb_sections (tables_of level es rs) → b ∈ blocks_entries secs).
  { intros b. unfold tb_sections, tables_of. cbn [tb_blocks]. case_decide; [done|by intros Hb%elem_of_nil]. }
  split; rewrite ?Hnum; try done.
  - pose proof n_u. unfold in_u in *. lia.
  - pose proof tables_blocks as Hb. rewrite Forall_forall in Hb |- *.
    intros b Hin%list_elem_of_In%Hsec. by apply Hb, list_elem_of_In.
  - unfold tb_sections, tables_of. cbn [tb_blocks]. case_decide; [by apply blocks_entries_ids|constructor].
  - intros bs ps. unfold tables_of. cbn [tb_blocks]. case_decide; [|done]. intros [= <- <-].
    split; [apply tables_ipds|]. pose proof (pk_ipds rs Hpk). unfold in_u. lia.
Qed.

(** ** The script *)

Lemma packed_blocks : packed_bb pe (bb_dict secs) (num_dict secs) =
  PyOk (block_bytes <$> blocks_entries secs).
Proof using Hpe Hrs Hone Htab Hpk.
  unfold packed_bb, blocks_entries. rewrite <- list_fmap_compose. apply py_map_ok, Forall_forall.
  intros [k m] Hit%list_elem_of_In. apply (items_id_elem pe Hpe) in Hit. cbn [fst snd] in Hit. unfold bb_dict in Hit.
  apply dict_lookup in Hit as (s & Hs & -> & ->); [|apply secs_NoDup].
  assert (Hnum : num_dict secs !! sec_fct s = Some (sec_num s)).
  { unfold num_dict. apply dict_lookup; [apply secs_NoDup|by exists s]. }
  unfold compose, block_bytes. cbn [fst snd bo_fct bo_num bo_rows]. rewrite Hnum. cbn [default from_option id].
  destruct (secs_facts s Hs) as (Hf & Hn & _). destruct (section_small s Hs) as (Hsm & Hlen & _).
  unfold trans_entries in Hlen. rewrite length_fmap, (items_id_length pe Hpe) in Hlen.
  apply (packed_bb_entry_ok pe Hpe (num_dict secs) (sec_fct s) (sec_num s)); try done; [|unfold in_u; lia..].
  pose proof n_u. unfold in_u in *. lia.
Qed.

(** The outcome of the script. *)
Definition prelinked_of : prelinked :=
  Prelinked (le_bytes 4 n) (fct_l_bytes (tb_fcts (tables_of level es rs)))
    (fct_trans_l_bytes (tb_calls (tables_of level es rs)))
    ((λ b : list blocks_of * list ipd_row, (block_bytes <$> b.1, block_ipd_l_bytes b.2)) <$>
       tb_blocks (tables_of level es rs))
    (bool_decide (lit "main" ∈ es.*1))
    (flagged_names pe (lit "Init") (list_to_map es)) (flagged_names pe (lit "Fini") (list_to_map es)).

Lemma has_main_eq : bool_decide (is_Some (fcts !! lit "main")) = bool_decide (lit "main" ∈ es.*1).
Proof using Htab.
  apply bool_decide_ext. rewrite list_elem_of_fmap. split.
  - intros [v Hv%fcts_elem]. by exists (lit "main", v).
  - intros ([f v] & Hf & He). cbn in Hf. subst f. exists v. by apply fcts_elem.
Qed.

Lemma prelink_build : prelink pe (build_files level no_files rs es) = PyOk prelinked_of.
Proof using Hpe Hrs Hone Htab Hpk Hnames.
  pose proof n_u as Hnu. pose proof fcts_size as Hsize. pose proof Htab as (Hwf & Hnd & _ & _).
  destruct (build_calls_spec prefix level ignored rs es n Htab Hrs Hone) as (Hcnd & _ & _).
  unfold prelink, build_files, no_files. cbn [f_fctid f_trans f_bbtrans f_ipdom default from_option id app].
  rewrite (parse_fctids_spec es Hwf Hnd), py_bind_ok, parse_callgraph_spec, py_bind_ok; [|..|exact Hcnd].
  2: { apply Forall_forall. intros [i js] Hx%list_elem_of_In%row_bounds. destruct Hx as (? & Hjs & _).
       split; [cbn; lia|]. eapply Forall_impl; [|exact Hjs]. cbn. lia. }
  fold fcts calls callgraph.
  assert (Hblocks : (match (if decide (level = BASICBLOCK)
        then Some (concat (section_text <$> build_sections rs)) else None) with
      | None => PyOk None
      | Some bbtrans =>
          '(bb, nums) ← parse_bb bbtrans;
          ipd ← parse_bb_ipd (concat (ipd_text <$> build_ipds rs)); PyOk (Some (bb, nums, ipd))
      end) = PyOk (if decide (level = BASICBLOCK)
                   then Some (bb_dict secs, num_dict secs, ipd_list <$> build_ipds rs) else None)).
  { destruct (decide (level = BASICBLOCK)); [|done].
    rewrite (parse_bb_spec (build_sections rs) secs_wf secs_NoDup), py_bind_ok. cbn beta iota.
    rewrite parse_bb_ipd_spec, py_bind_ok; [done|].
    pose proof tables_ipds as Hi. eapply Forall_impl; [|exact Hi]. cbn. intros p [Hp _].
    eapply Forall_impl; [|exact Hp]. cbn. unfold in_u. lia. }
  rewrite Hblocks, py_bind_ok. clear Hblocks.
  rewrite (packed_cfi_ok fcts), py_bind_ok by (by rewrite Hsize).
  rewrite (packed_fctids_ok pe Hpe fcts), py_bind_ok; [|by rewrite Hsize|].
  2: { intros f id fl Hf%fcts_elem%fcts_ids. apply below_u, Hf. }
  destruct tables_calls as (_ & _ & Hc3).
  rewrite (packed_callgraph_ok pe Hpe callgraph), py_bind_ok.
  2: { unfold trans_entries in Hc3. by rewrite length_fmap, (items_id_length pe Hpe) in Hc3. }
  2: { intros i js Hi%callgraph_row%row_bounds. destruct Hi as (? & Hjs & ?). split; [by apply below_u|].
       split; [done|]. eapply Forall_impl; [|exact Hjs]. intros j. apply below_u. }
  unfold prelinked_of. rewrite Hsize, has_main_eq. unfold tables_of. cbn [tb_fcts tb_calls tb_blocks].
  fold fcts calls callgraph secs.
  destruct (decide (level = BASICBLOCK)); cbn beta iota; [|by rewrite py_bind_ok].
  rewrite packed_blocks, py_bind_ok, packed_bb_ipd_ok, py_bind_ok; [done| |].
  - pose proof (pk_ipds rs Hpk). unfold in_u. lia.
  - pose proof tables_ipds as Hi. eapply Forall_impl; [|exact Hi]. cbn. by intros p [Hp _].
Qed.

(** The packets it sends: those of the tables. *)
Lemma packets_build : init_packets prelinked_of =
  module_packets (char_array (le_bytes 4 n)) (tables_of level es rs) ++
  (if decide (lit "main" ∈ es.*1) then [(CFI_LOADING_TERMINATED, [])] else []).
Proof using Type.
  unfold init_packets, module_packets, section_packets, prelinked_of. cbn [s_cfi s_fctids s_callgraph s_bb has_main].
  destruct (tb_blocks (tables_of level es rs)) as [[bs ps]|]; cbn [fmap option_fmap option_map fst snd];
    case_bool_decide; case_decide; try done; cbn [app];
    rewrite <- ?list_fmap_compose, <- ?app_assoc; cbn [app]; rewrite <- ?app_assoc; done.
Qed.

End Pack.
