(* ===== verification/Program.v ===== *)
(** * A program whose binaries were compiled with the pass

    What the monitor knows of a loaded binary is what its source says: the
    roles of its functions, its direct calls, its jumps.  The executions of the
    instrumented code, across the binaries of a process, send the signals of
    activations. *)

From S2P Require Import Prelude CSem Wire Client LoadSections RunSpec LoadSpec.
From S2P Require Import Dot Text Ir Pass Injector PassTable PassAnalysis PassFiles InjectSpec PassRun Exec.
From S2P Require Import Prelink PrelinkSpec LoadModule Build BuildSpec BuildPack.
From S2P Require Import MonitorData.
From Stdlib Require Import Strings.Byte.
From Stdlib Require Strings.String.
Import Strings.String.StringSyntax.
#[local] Open Scope string_scope.
#[local] Open Scope Z_scope.
#[local] Open Scope list_scope.

Section Binary.
Context (prefix : text) (level : Z) (ignored : gset (list byte)).

(** A binary: the compilations [rs] of its modules left the table [es]. *)
Record built (rs : list compiled) (es : list entry) : Prop := {
  bt_table : table es (Z.of_nat (length es));
  bt_modules : ∀ r, r ∈ rs → _IdentifiedFunctions (r_st r) ⊆ ids_of es ∧
    ∃ es0, compiled_from prefix level ignored es0 r;
  bt_one : one_definition ignored rs;
  bt_proper : Forall (proper_roles ignored) rs;
  bt_roles : table_roles ignored rs es;
  bt_names : ∀ e, e ∈ es → ∃ r F, r ∈ rs ∧ F ∈ m_functions (r_source r) ∧ fn_name F = e.1;
  bt_packable : packable rs;
}.

Lemma builds_built rs es : builds prefix level ignored [] rs es →
  one_definition ignored rs → Forall (proper_roles ignored) rs → packable rs → built rs es.
Proof.
  intros Hb Hone Hp Hpk. destruct (builds_table _ _ _ _ _ _ Hb 0 table_nil) as ([n Hn] & _ & Hrs).
  assert (Htab : table es (Z.of_nat (length es))) by (by rewrite (table_length es n Hn)).
  split; try done.
  - apply (builds_roles prefix level ignored [] rs es Hb [] 0 table_nil Hp Hone).
    split; [by intros f id fl He%elem_of_nil|by intros f Hf%elem_of_nil].
  - intros e He. by destruct (builds_names prefix level ignored [] rs es Hb 0 table_nil e He) as [Hin%elem_of_nil|?].
Qed.

(** ** What the monitor knows of it *)

(** [md] is the binary: its functions by their identifiers, the direct calls of
    its code, the jumps of the functions whose blocks are checked. *)
Record agrees (rs : list compiled) (es : list entry) (md : module_data) : Prop := {
  ag_num : nb_functions md = Z.of_nat (length es);
  ag_functions : ∀ f id, ids_of es !! f = Some id → ∃ fd, function_at md id = Val fd ∧
    MonitorData.name fd = Live f ∧ flags fd = role ignored rs f;
  ag_calls : ∀ i j, edge (call_graph md) i j ↔ ∃ r, r ∈ rs ∧ calls_id (r_st r) i j;
  ag_jumps : level = BASICBLOCK → ∀ r f cf F, r ∈ rs → checked_in r f cf F →
    ∃ fd, function_at md (cf_id cf) = Val fd ∧ nb_blocks fd = fn_size F ∧
      ∀ i j, edge (control_flow_graph fd) i j ↔ jumps F i j;
}.

Section Agrees.
Context (pe : py_env) (Hpe : py_env_ok pe) (rs : list compiled) (es : list entry) (Hb : built rs es).

Let n := Z.of_nat (length es).

Lemma fct_entry_of f id : ids_of es !! f = Some id → ∃ fl,
  FctEntry id (role ignored rs f) f ∈ fct_entries pe (list_to_map es) ∧ (f, (id, fl)) ∈ es.
Proof using Hpe Hb.
  intros (fl & He)%ids_of_elem; [|apply Hb]. exists fl. split; [|done]. apply (fct_entries_elem pe Hpe).
  exists fl. split; [by apply (fcts_elem es n (bt_table _ _ Hb))|]. cbn. symmetry. by apply (bt_roles _ _ Hb) in He.
Qed.

(** A module loaded from the tables of the binary. *)
Lemma loaded_agrees md : loaded (tables_of pe level es rs) true (tb_sections (tables_of pe level es rs)) md →
  agrees rs es md.
Proof using Hpe Hb.
  intros [Hn _ _ Hcalls Hfcts]. pose proof (bt_table _ _ Hb) as Htab.
  destruct (build_calls_spec prefix level ignored rs es n Htab (bt_modules _ _ Hb) (bt_one _ _ Hb)) as (Hnd & Hrows & _).
  split.
  - rewrite Hn. by apply tables_num.
  - intros f id Hid. destruct (fct_entry_of f id Hid) as (fl & He & _).
    destruct (Hfcts _ He) as (fd & Hfd & Hname & Hflags & _). by exists fd.
  - intros i j. rewrite Hcalls, <- Hrows. unfold tables_of. cbn [tb_calls].
    rewrite (trans_entries_listed pe Hpe). unfold row_lists.
    by setoid_rewrite <- (elem_of_list_to_map (M := gmap Z) (build_calls rs)).
  - intros Hlevel r f cf F Hin Hch.
    destruct (checked_facts prefix level ignored rs es n Htab (bt_modules _ _ Hb) r f cf F Hin Hch)
      as (_ & Hid & _).
    destruct (fct_entry_of f (cf_id cf) Hid) as (fl & He & _).
    destruct (Hfcts _ He) as (fd & Hfd & _ & _ & Hblocks & _). cbn [fe_id] in *. exists fd. split; [done|].
    set (s := section_of F cf).
    assert (Hs : s ∈ build_sections rs).
    { apply (build_sections_elem prefix level ignored rs es n Htab (bt_modules _ _ Hb)). by exists r, f, cf, F. }
    pose proof (build_sections_NoDup prefix level ignored rs es n Htab (bt_modules _ _ Hb) (bt_one _ _ Hb)) as Hsnd.
    destruct (section_facts prefix level ignored rs es n Htab (bt_modules _ _ Hb) r f cf F Hin Hch)
      as (Hnum & Hrnd & Hl & _). fold s in Hnum, Hrnd, Hl.
    destruct (Hblocks (BlocksOf (cf_id cf) (fn_size F) (trans_entries pe (list_to_map (sec_rows s)))))
      as (Hnb & He' & _); [|done|].
    + unfold tb_sections, tables_of. cbn [tb_blocks]. rewrite decide_True by done.
      apply blocks_entries_elem; [done|done|]. exists s. split; [done|]. done.
    + split; [done|]. intros i j. rewrite He'. cbn [bo_rows]. rewrite (section_rows_listed pe Hpe) by done. apply Hl.
Qed.

End Agrees.

End Binary.

(** ** The graphs, as the monitor consults them *)

Section Allowed.
Context (prefix : text) (level : Z) (ignored : gset (list byte)).
Context (rs : list compiled) (es : list entry) (Hb : built prefix level ignored rs es).
Context (data : monitor_data) (m : Z) (md : module_data).
Context (Hmd : module_at data m = Val md) (Hag : agrees level ignored rs es md).

Lemma truth_val z : truth (Val z) = true ↔ z ≠ 0.
Proof using Type. unfold truth. by rewrite bool_decide_eq_true. Qed.

(** A call is allowed exactly when a direct call in the source makes it. *)
Lemma may_call_iff i j : may_call data m i j = true ↔ ∃ r, r ∈ rs ∧ calls_id (r_st r) i j.
Proof using Hb Hmd Hag.
  rewrite <- (ag_calls _ _ _ _ _ Hag). unfold may_call, edge. rewrite Hmd. cbn [mbind res_bind].
  case_decide as Hj; [|done]. split; [by intros H%truth_val|].
  intros H. exfalso. apply (ag_calls _ _ _ _ _ Hag) in H as (r & Hin & Hc).
  apply (calls_id_defined prefix level ignored rs es _ (bt_table _ _ _ _ _ Hb) (bt_modules _ _ _ _ _ Hb) r i j Hin)
    in Hc as (_ & _ & Hrange).
  rewrite (ag_num _ _ _ _ _ Hag) in Hj. lia.
Qed.

(** A jump is allowed exactly when it is one of the function. *)
Lemma may_jump_iff r f cf F i j : level = BASICBLOCK → r ∈ rs → checked_in r f cf F →
  may_jump data m (cf_id cf) i j = true ↔ jumps F i j.
Proof using Hb Hmd Hag.
  intros Hlevel Hin Hch. destruct (ag_jumps _ _ _ _ _ Hag Hlevel r f cf F Hin Hch) as (fd & Hfd & Hnb & He).
  rewrite <- He. unfold may_jump, edge. rewrite Hmd. cbn [mbind res_bind]. rewrite Hfd. cbn [mbind res_bind].
  case_decide as Hj; [|done]. split; [by intros H%truth_val|].
  intros (a & b & B & B' & _ & -> & _ & HB' & _)%He. apply lookup_lt_Some in HB'.
  rewrite Hnb in Hj. unfold fn_size in Hj. lia.
Qed.

End Allowed.

(** ** Executions *)

(** The code of [f] in the binary, if it has any. *)
Definition code_in (r : compiled) (f : list byte) : option function :=
  match getFunction (r_code r) f with
  | Some F => if isDeclaration F then None else Some F
  | None => None
  end.

Definition code_of (rs : list compiled) (f : list byte) : option function := head (omap (λ r, code_in r f) rs).

Section Code.
Context (prefix : text) (level : Z) (ignored : gset (list byte)).

(** What the pass needs of a source: a function returns from its last block
    only; ignored functions are not compiled. *)
Definition disciplined (r : compiled) : Prop :=
  ∀ F, F ∈ m_functions (r_source r) → isDeclaration F = false → (fn_name F ∉ ignored) ∧ single_exit F.

(** Function [g] is called from the code of [rs]. *)
Definition called (rs : list compiled) (g : list byte) : Prop :=
  ∃ r F, r ∈ rs ∧ F ∈ m_functions (r_source r) ∧ calls F g ∧ g ∉ ignored.

(** The instrumented code of a function that the binary defines. *)
Lemma code_in_defined r es0 f F' : compiled_from prefix level ignored es0 r → disciplined r →
  f ≠ n_returnaddress → code_in r f = Some F' → f ∈ defined ignored r ∧
  ∃ cf F, _FunctionMap (r_st r) !! f = Some cf ∧ getFunction (_M (r_st r)) f = Some F ∧
    isDeclaration F = false ∧ F' = instrument (r_st r) level (cf_id cf) F ∧ fn_name F = f ∧
    single_exit F ∧ ∃ G, G ∈ m_functions (r_source r) ∧ fn_name G = f ∧ fn_blocks F = fn_blocks G.
Proof using Type.
  intros Hr Hdis Hne Hcode. pose proof Hr as [Henv Hsup Han Hfile Hagree].
  unfold code_in in Hcode. rewrite (Hagree f Hne) in Hcode.
  assert (Hproto : f ∉ prototypes).
  { intros Hin. unfold instrumented, instrumented_in in Hcode. by rewrite decide_True in Hcode. }
  assert (Hsource : ∀ F, getFunction (_M (r_st r)) f = Some F → isDeclaration F = false →
    fn_name F = f ∧ f ∈ defined ignored r ∧ single_exit F ∧
    ∃ G, G ∈ m_functions (r_source r) ∧ fn_name G = f ∧ fn_blocks F = fn_blocks G).
  { intros F [HF Hn]%getFunction_elem Hd.
    destruct (analysed_function _ _ _ _ _ _ _ Han F HF) as (G & HG & HGn & HGb & _).
    assert (HdG : isDeclaration G = false) by (unfold isDeclaration in *; by rewrite <- HGb).
    destruct (Hdis G HG HdG) as [Hi Hse]. split; [done|]. split.
    - apply defined_elem. split; [by rewrite <- Hn, HGn|]. exists G. by rewrite <- HGn.
    - split; [unfold single_exit in *; by rewrite HGb|]. exists G. by rewrite <- HGn. }
  destruct (getFunction (_M (r_st r)) f) as [F|] eqn:HF.
  2: { unfold instrumented, instrumented_in in Hcode. rewrite decide_False, HF in Hcode by done. done. }
  destruct (_FunctionMap (r_st r) !! f) as [cf|] eqn:Hcf.
  - rewrite (instrumented_defined (r_st r) level (analysed_free _ _ _ _ _ _ _ Hsup Han) f cf F Hcf HF) in Hcode.
    destruct (isDeclaration F) eqn:Hd; [by rewrite Hd in Hcode|].
    destruct (Hsource F eq_refl Hd) as (Hn & Hdef & Hse & HG). split; [done|]. exists cf, F.
    case_match; [done|]. injection Hcode as <-. done.
  - unfold instrumented, instrumented_in in Hcode. rewrite decide_False, HF, Hcf in Hcode by done.
    destruct (isDeclaration F) eqn:Hd; [done|]. destruct (Hsource F eq_refl Hd) as (_ & Hdef & _).
    apply (defined_map prefix level ignored es0 r Hr) in Hdef as (cf & F2 & Hcf' & _). congruence.
Qed.

Lemma map_last_nil {A} (g : A → A) l : map_last g l = [] → l = [].
Proof. by destruct l as [|? [|]]. Qed.

Lemma defined_code r es0 f : compiled_from prefix level ignored es0 r → f ∈ defined ignored r → is_Some (code_in r f).
Proof using Type.
  intros Hr Hf. pose proof Hr as [Henv Hsup Han Hfile Hagree].
  destruct (defined_map prefix level ignored es0 r Hr f Hf) as (cf & F & Hcf & HF & Hd).
  assert (Hne : f ≠ n_returnaddress).
  { intros ->. by rewrite (analysed_returnaddress _ _ _ _ _ _ _ Hsup Han) in Hcf. }
  unfold code_in. rewrite (Hagree f Hne).
  rewrite (instrumented_defined (r_st r) level (analysed_free _ _ _ _ _ _ _ Hsup Han) f cf F Hcf HF), Hd.
  assert (Hb : fn_blocks (instrument (r_st r) level (cf_id cf) F) ≠ []).
  { unfold isDeclaration in Hd. unfold instrument. cbn [fn_blocks set_blocks_of].
    intros E%map_last_nil%entry_blocks_nil. destruct (announces _ _ _); [apply jump_blocks_nil in E|];
      by apply fmap_nil_inv in E; rewrite E in Hd. }
  unfold isDeclaration. by destruct (fn_blocks (instrument _ _ _ _)).
Qed.

(** A function called in the code of a binary. *)
Lemma call_facts rs es r es0 f cf F g : built prefix level ignored rs es → r ∈ rs →
  compiled_from prefix level ignored es0 r →
  _FunctionMap (r_st r) !! f = Some cf → getFunction (_M (r_st r)) f = Some F →
  (∃ G, G ∈ m_functions (r_source r) ∧ fn_name G = f ∧ fn_blocks F = fn_blocks G) → calls F g →
  (g ∉ prototypes) ∧ g ≠ n_returnaddress ∧
  (isIgnoredFunction (r_st r) g = true ↔ g ∈ ignored) ∧
  ((g ∉ ignored) → ids_of es !! g = Some (ident (r_st r) g) ∧ in_u 32 (ident (r_st r) g) ∧
     calls_id (r_st r) (cf_id cf) (ident (r_st r) g) ∧ called rs g).
Proof using Type.
  intros Hb Hin Hr Hcf HF (G & HG & HGn & HGb) Hcalls. pose proof Hcalls as (B & args & HB & Hi).
  pose proof Hr as [Henv Hsup Han Hfile Hagree]. rewrite HGb in HB.
  destruct (sup_wf _ _ _ _ Hsup) as [_ Hwf]. destruct (Hwf G HG) as [[_ Hbl] _]. destruct (Hbl B HB) as [Hinst _].
  rewrite Forall_forall in Hinst. destruct (Hinst _ (proj1 (list_elem_of_In _ _) Hi)) as (C & HC & Hint).
  assert (Hig : isIgnoredFunction (r_st r) g = true ↔ g ∈ ignored).
  { unfold isIgnoredFunction. by rewrite (an_ignored _ _ _ _ _ _ _ Han), bool_decide_eq_true. }
  split; [intros Hp; by rewrite (sup_free _ _ _ _ Hsup g Hp) in HC|].
  split; [intros ->; by rewrite (sup_returnaddress _ _ _ _ Hsup C HC) in Hint|]. split; [done|]. intros Hni.
  assert (Hnot : isIgnoredFunction (r_st r) g = false).
  { destruct (isIgnoredFunction (r_st r) g); [|done]. destruct Hni. by apply Hig. }
  destruct (analysed_call _ _ _ _ _ _ _ Hsup Han G B g args HG HB Hi) as [H|Hmap]; [congruence|].
  destruct (analysed_identified _ _ _ _ _ _ _ Han g Hmap) as [id Hid].
  assert (Hident : ident (r_st r) g = id) by (unfold ident; by rewrite Hid).
  destruct (bt_modules _ _ _ _ _ Hb r Hin) as [Hsub _]. rewrite Hident.
  split; [by eapply lookup_weaken|]. split.
  { destruct (analysed_ids _ _ _ _ _ _ _ Han g id Hid). unfold in_u. lia. }
  split.
  - by exists f, cf, F, g.
  - exists r, G. split; [done|]. split; [done|]. split; [|done]. exists B, args. done.
Qed.

(** The code of a function, and the function it was made of. *)
Lemma code_of_elem rs f F : code_of rs f = Some F → ∃ r, r ∈ rs ∧ code_in r f = Some F.
Proof using Type.
  unfold code_of. intros Hcode. destruct (omap (λ r, code_in r f) rs) as [|x l] eqn:E; [done|].
  injection Hcode as ->. assert (Hx : F ∈ omap (λ r, code_in r f) rs) by (rewrite E; by left).
  apply list_elem_of_omap in Hx as (r & ? & ?). by exists r.
Qed.

Lemma code_of_is_Some rs f r F : r ∈ rs → code_in r f = Some F → is_Some (code_of rs f).
Proof using Type.
  intros Hr HF. unfold code_of. destruct (omap (λ r, code_in r f) rs) as [|x l] eqn:E; [|done].
  assert (Hx : F ∈ omap (λ r, code_in r f) rs) by (apply list_elem_of_omap; by exists r).
  rewrite E in Hx. by apply elem_of_nil in Hx.
Qed.

Lemma code_of_defined rs es f F' : built prefix level ignored rs es → Forall disciplined rs →
  f ≠ n_returnaddress → code_of rs f = Some F' →
  ∃ r es0 cf F, r ∈ rs ∧ compiled_from prefix level ignored es0 r ∧ f ∈ defined ignored r ∧
    _FunctionMap (r_st r) !! f = Some cf ∧ getFunction (_M (r_st r)) f = Some F ∧ isDeclaration F = false ∧
    F' = instrument (r_st r) level (cf_id cf) F ∧ fn_name F = f ∧ single_exit F ∧
    ids_of es !! f = Some (cf_id cf) ∧ 0 <= cf_id cf < 2 ^ 31 ∧
    ∃ G, G ∈ m_functions (r_source r) ∧ fn_name G = f ∧ fn_blocks F = fn_blocks G.
Proof using Type.
  intros Hb Hdis Hne (r & Hin & HF')%code_of_elem. rewrite Forall_elem_iff in Hdis.
  destruct (bt_modules _ _ _ _ _ Hb r Hin) as (Hsub & es0 & Hr).
  destruct (code_in_defined r es0 f F' Hr (Hdis r Hin) Hne HF') as (Hdef & cf & F & Hcf & HF & Hd & Heq & Hn & Hse & HG).
  destruct (analysed_sound _ _ _ _ _ _ _ (cp_supported _ _ _ _ _ Hr) (cp_analysed _ _ _ _ _ Hr) f cf Hcf)
    as (_ & Hrange & Hidf & _).
  exists r, es0, cf, F. split_and!; try done; [by eapply lookup_weaken|lia|lia].
Qed.

Lemma defined_not_intrinsic rs es f : built prefix level ignored rs es → f ∈ rs ≫= defined ignored →
  f ≠ n_returnaddress ∧ is_Some (code_of rs f).
Proof using Type.
  intros Hb (r & Hf & Hr)%list_elem_of_bind. destruct (bt_modules _ _ _ _ _ Hb r Hr) as (_ & es0 & Hc).
  destruct (defined_code r es0 f Hc Hf) as [F HF]. split; [|by eapply code_of_is_Some].
  intros ->. destruct (defined_map prefix level ignored es0 r Hc _ Hf) as (cf & F' & Hcf & _).
  by rewrite (analysed_returnaddress _ _ _ _ _ _ _ (cp_supported _ _ _ _ _ Hc) (cp_analysed _ _ _ _ _ Hc)) in Hcf.
Qed.

End Code.

(** ** Processes *)

Section Process.
Context (level : Z) (ignored : gset (list byte)).

(** The binaries of the process by their module number, and the module that
    the dynamic linker chooses for a call of a function from a module. *)
Context (binary : Z → option (list compiled * list entry)) (resolve : Z → list byte → Z).

(** Signals of a call of [f] of module [m], with at most [k] nested calls.
    What has no instrumented code sends no signal. *)
Fixpoint runs (k : nat) (m : Z) (f : list byte) (tr : list client_signal) : Prop :=
  match k with
  | O => False
  | S k =>
      match binary m ≫= λ b, code_of b.1 f with
      | Some F => exec_function m (λ g, runs k (resolve m g) g) F tr
      | None => tr = []
      end
  end.

(** The binaries were compiled with the pass. *)
Definition compiled_binaries : Prop := ∀ m rs es, binary m = Some (rs, es) →
  (∃ prefix, built prefix level ignored rs es) ∧ Forall (disciplined ignored) rs.

(** The monitor has loaded the modules [there]; calls from them land in them,
    where the dynamic linker lands them. *)
Record process (there : Z → Prop) (data : monitor_data) : Prop := {
  pr_compiled : compiled_binaries;
  pr_loaded : ∀ m rs es, there m → binary m = Some (rs, es) →
    ∃ md, module_at data m = Val md ∧ agrees level ignored rs es md;
  pr_link : ∀ m rs es g id, there m → binary m = Some (rs, es) → ids_of es !! g = Some id → called ignored rs g →
    there (resolve m g) ∧ ∃ rs' es' id', binary (resolve m g) = Some (rs', es') ∧ g ∈ rs' ≫= defined ignored ∧
      ids_of es' !! g = Some id' ∧ target data m id = Val (resolve m g, id');
}.

(** What is ignored has no code in a binary. *)
Lemma ignored_silent k m g tr : compiled_binaries → g ∈ ignored → g ≠ n_returnaddress → runs k m g tr → tr = [].
Proof using Type.
  intros Hcb Hig Hne Hrun. destruct k as [|k]; [done|]. cbn [runs] in Hrun.
  destruct (binary m) as [[rs es]|] eqn:Hm; [|done]. cbn [mbind option_bind fst] in Hrun.
  destruct (code_of rs g) as [G|] eqn:Hcg; [|done]. destruct (Hcb m rs es Hm) as ((prefix & Hb) & Hdis).
  destruct (code_of_defined prefix level ignored rs es g G Hb Hdis Hne Hcg) as (r & _ & _ & _ & _ & _ & Hdg & _).
  by apply defined_elem in Hdg as [? _].
Qed.

(** Executions of the functions of the binaries are activations. *)
Lemma runs_activation there data k : process there data → ∀ m rs es f id tr, there m → binary m = Some (rs, es) →
  f ∈ rs ≫= defined ignored → ids_of es !! f = Some id → runs k m f tr → activation data m id tr.
Proof using Type.
  intros Hpr. induction k as [|k IH]; intros m rs es f id tr Hthere Hm Hf Hid Hrun; [done|]. cbn [runs] in Hrun.
  rewrite Hm in Hrun. cbn [mbind option_bind fst] in Hrun.
  destruct (pr_compiled _ _ Hpr m rs es Hm) as ((prefix & Hb) & Hdis).
  destruct (pr_loaded _ _ Hpr m rs es Hthere Hm) as (md & Hmd & Hag).
  destruct (defined_not_intrinsic prefix level ignored rs es f Hb Hf) as [Hne [F' Hcode]]. rewrite Hcode in Hrun.
  destruct (code_of_defined prefix level ignored rs es f F' Hb Hdis Hne Hcode)
    as (r & es1 & cf & F & Hin & Hr & Hdef & Hcf & HF & Hd & -> & Hn & Hse & Hidf & Hrange & HG).
  assert (id = cf_id cf) as -> by congruence.
  destruct (analysed_small _ _ _ _ _ _ _ (cp_supported _ _ _ _ _ Hr) (cp_analysed _ _ _ _ _ Hr) f F HF) as [Hsm Hcl].
  pose proof (λ g, call_facts prefix level ignored rs es r es1 f cf F g Hb Hin Hr Hcf HF HG) as Hcall.
  refine (exec_activation data m (λ g, runs k (resolve m g) g) (r_st r) level F (cf_id cf) Hsm Hcl Hse _ _ _ _ _ tr Hrun).
  - unfold in_u. lia.
  - intros (Hlevel & Hib)%andb_true_iff i j Hj. apply bool_decide_eq_true in Hlevel.
    apply (may_jump_iff prefix level ignored rs es Hb data m md Hmd Hag r f cf F i j Hlevel Hin); [|done].
    split; [done|]. split; [done|]. unfold checked_blocks. rewrite Hib, Hd, Hn. apply defined_elem in Hdef as [Hni _].
    pose proof (an_ignored _ _ _ _ _ _ _ (cp_analysed _ _ _ _ _ Hr)) as Hi. unfold isIgnoredFunction.
    by rewrite Hi, bool_decide_false.
  - intros g Hg. by destruct (Hcall g Hg) as [? _].
  - intros g t Hg Hig Hrt. destruct (Hcall g Hg) as (_ & Hne' & Hiff & _).
    by apply (ignored_silent k (resolve m g) g); [apply Hpr|apply Hiff| |].
  - intros g t Hg Hig Hrt. destruct (Hcall g Hg) as (_ & _ & Hiff & Hrest).
    assert (Hni : g ∉ ignored) by (intros Hin'; apply Hiff in Hin'; congruence).
    destruct (Hrest Hni) as (Hidg & Hu & Hcid & Hcld). split; [done|]. split.
    + apply (may_call_iff prefix level ignored rs es Hb data m md Hmd Hag). by exists r.
    + destruct (pr_link _ _ Hpr m rs es g _ Hthere Hm Hidg Hcld) as (Hth & rs' & es' & id' & Hm' & Hdg & Hid' & Ht).
      exists (resolve m g), id'. split; [done|]. by eapply IH.
Qed.

End Process.
