(* ===== verification/RelocTotal.v ===== *)
(** * Relocations always end

    On well-formed data whose functions have their names, the computation of
    the relocations of a module has an outcome; it fails only when a relocation
    is required of a function that no other module defines. *)

From S2P Require Import Prelude CSem Wire RunRefine LoadSections Relocate MonitorLoad LoadWf LoadTotal LoadRuns.
From S2P Require Import MonitorData.
From Stdlib Require Import Strings.Byte.

(** Every function of the module has its name. *)
Definition named (md : module_data) : Prop := ∀ i, 0 <= i < nb_functions md →
  ∃ fd f, function_at md i = Val fd ∧ name fd = Live f.

Definition named_data (data : monitor_data) : Prop := ∀ k md, module_at data k = Val md → named md.

Lemma same_code_named md md' : same_code md md' → named md → named md'.
Proof.
  intros Hs Hn i Hi. rewrite (proj1 Hs) in Hi. destruct (Hn i Hi) as (fd & f & ? & ?). exists fd, f.
  by rewrite (same_code_function_at _ _ _ Hs).
Qed.

Lemma search_functions_total n : ∀ l fd f mk, name fd = Live f → 0 <= l → l + Z.of_nat n <= nb_functions mk →
  named mk → ∃ r, search_functions n l fd mk = Val r.
Proof.
  induction n as [|n IH]; intros l fd f mk Hf Hl Hn Hmk; cbn [search_functions]; [by eexists|].
  destruct (Hmk l ltac:(lia)) as (g & s & -> & Hs). cbn [mbind res_bind].
  assert (Hd : ∃ b, defines fd g = Val b).
  { unfold defines, strcmp_eq. rewrite Hf, Hs. cbn. destruct (FUNCTION_IS_EXTERNAL g); by eexists. }
  destruct Hd as [[] ->]; cbn [mbind res_bind]; [by eexists|]. apply (IH _ _ f); [done|lia|lia|done].
Qed.

Lemma search_modules_total n : ∀ mid fd f data, name fd = Live f → Z.of_nat n <= nb_modules data →
  wf_data data → named_data data → ∃ r, search_modules n mid fd data = Val r.
Proof.
  induction n as [|n IH]; intros mid fd f data Hf Hn Hwf Hnd; cbn [search_modules]; [by eexists|].
  destruct (module_at_in_range data (Z.of_nat n) Hwf ltac:(lia)) as [mk Hmk]. rewrite Hmk. cbn [mbind res_bind].
  assert (Hs : ∃ r, (if decide (mid ≠ Z.of_nat n) then search_functions (Z.to_nat (nb_functions mk)) 0 fd mk
    else Val None) = Val r).
  { case_decide; [|by eexists]. apply (search_functions_total _ _ _ f); [done|lia| |by eapply Hnd].
    destruct (module_at_wf _ _ _ Hwf Hmk) as [[[? _] _] _]. lia. }
  destruct Hs as [[l|] ->]; cbn [mbind res_bind]; [by eexists|]. apply (IH _ _ f); [done|lia|done|done].
Qed.

Section Total.
Context (data : monitor_data) (Hwf : wf_data data) (Hfew : few_modules data) (Hnd : named_data data).

Lemma search_total mid fd f : name fd = Live f → ∃ r, search data mid fd = Val r.
Proof using Hwf Hfew Hnd.
  intros Hf. rewrite search_all by done. apply (search_modules_total _ _ _ f); [done| |done|done].
  destruct Hfew. lia.
Qed.

(** What the search finds is the best definer; it finds one when there is one. *)
Lemma search_definer mid fd f : name fd = Live f → (∃ k l, definer data mid fd k l) →
  ∃ k l, search data mid fd = Val (Some (k, l)) ∧ best_definer data mid fd (nb_modules data) k l.
Proof using Hwf Hfew Hnd.
  intros Hf (k & l & Hd). destruct (search_total mid fd f Hf) as [r Hr]. pose proof Hr as Hr'.
  rewrite search_all in Hr' by done. destruct r as [[k' l']|].
  - exists k', l'. split; [done|]. apply search_modules_Some in Hr'. destruct Hfew.
    by rewrite Z2Nat.id in Hr' by done.
  - exfalso. eapply search_modules_None; [exact Hr'| |exact Hd]. destruct Hd as (_ & mk & _ & _ & Hk & _).
    apply (module_at_wf _ _ _ Hwf) in Hk as [_ ?]. lia.
Qed.

Lemma relocation_loop_total n : ∀ j mid fatal md, 0 <= j → j + Z.of_nat n <= nb_functions md →
  named md → wf_module md → ∃ err md', relocation_loop n j mid fatal data md = Val (err, md') ∧
    (err = 0 ∨ fatal = true ∧ ∃ i fd, function_at md i = Val fd ∧ FUNCTION_IS_EXTERNAL fd = true ∧
       ∀ k l, ¬ definer data mid fd k l).
Proof using Hwf Hfew Hnd.
  induction n as [|n IH]; intros j mid fatal md Hj Hn Hnm Hmd; cbn [relocation_loop]; [by eauto|].
  destruct (Hnm j ltac:(lia)) as (fd & f & Hfd & Hf). rewrite Hfd. cbn [mbind res_bind].
  destruct (FUNCTION_IS_EXTERNAL fd) eqn:Hx; [|by apply IH; try lia]. fold (search data mid fd).
  destruct (search_total mid fd f Hf) as [r Hr]. rewrite Hr. cbn [mbind res_bind]. destruct r as [[k l]|].
  - pose proof (wf_filled md Hmd ltac:(lia)) as (Hnf & Hg & (rs & Hrs & Hlen) & Hfs). rewrite Hrs. cbn [deref mbind res_bind].
    rewrite arr_set_in_range by lia. cbn [mbind res_bind].
    set (md1 := set_relocations (Live (<[Z.to_nat j:=MODULE_FUNCTION k l]> rs)) md).
    assert (Hsc : same_code md md1) by done.
    destruct (IH (j + 1) mid fatal md1 ltac:(lia) ltac:(cbn; lia) (same_code_named _ _ Hsc Hnm)) as (err & md' & Hl & Herr).
    { apply filled_wf. split; [done|]. split; [done|]. split; [|done]. eexists. split; [reflexivity|].
      by rewrite length_insert. }
    exists err, md'. split; [done|]. destruct Herr as [?|(? & i & fd' & Hi & Hrest)]; [by left|right].
    split; [done|]. exists i, fd'. by rewrite <- (same_code_function_at _ _ _ Hsc).
  - destruct fatal; [|by apply IH; try lia]. exists 1, md. split; [done|]. right. split; [done|].
    exists j, fd. split; [done|]. split; [done|]. intros k l Hd.
    destruct (search_definer mid fd f Hf) as (k' & l' & Hr' & _); [by exists k, l|congruence].
Qed.

Lemma compute_relocations_total m fatal : 0 <= m < nb_modules data → ∃ err data',
  compute_relocations_of_module data m fatal = Val (err, data') ∧
  (err = 0 ∨ fatal = true ∧ ∃ md i fd, module_at data m = Val md ∧ function_at md i = Val fd ∧
     FUNCTION_IS_EXTERNAL fd = true ∧ ∀ k l, ¬ definer data m fd k l).
Proof using Hwf Hfew Hnd.
  intros Hm. unfold compute_relocations_of_module.
  assert (u16 m = m) as -> by (apply Z.mod_small; unfold few_modules in Hfew; lia). cbn zeta.
  destruct (module_at_in_range data m Hwf Hm) as [md Hmd]. rewrite Hmd. cbn [mbind res_bind].
  destruct (module_at_wf _ _ _ Hwf Hmd) as [Hwm _].
  destruct (relocation_loop_total (Z.to_nat (nb_functions md)) 0 m fatal md) as (err & md' & -> & Herr);
    [lia|destruct Hwm as [[? _] _]; lia|by eapply Hnd|done|].
  cbn [mbind res_bind]. unfold put_module. unfold module_at in Hmd. destruct (modules data) as [|ms|]; [done| |done].
  cbn [deref mbind res_bind] in *. apply arr_get_lt in Hmd as Hlt. rewrite arr_set_in_range by done.
  cbn [mbind res_bind]. eexists _, _. split; [done|]. destruct Herr as [?|(? & i & fd & ?)]; [by left|right].
  split; [done|]. by exists md, i, fd.
Qed.

End Total.
