(* ===== verification/Binary.v ===== *)
(** * A binary, and a module loaded from it

    The functions that are run when a binary is started and when it ends; the
    entries of its table; and, for a module of the monitor loaded from its
    packets, which functions there are, which have blocks, which are external
    and how many start. *)

From S2P Require Import Prelude CSem Wire LoadSections RunSpec LoadSpec LoadWf Relocate Dot LoadRuns LoadPackets.
From S2P Require Import Text Ir Pass Injector PassTable PassAnalysis PassFiles InjectSpec PassRun.
From S2P Require Import Prelink PrelinkSpec LoadModule Build BuildSpec BuildPack Program.
From S2P Require Import MonitorData.
From Stdlib Require Import Strings.Byte.
From Stdlib Require Strings.String.
Import Strings.String.StringSyntax.
#[local] Open Scope string_scope.
#[local] Open Scope Z_scope.
#[local] Open Scope list_scope.

(** The functions run at start-up, and at exit. *)
Definition startup_functions (rs : list compiled) : list (list byte) := remove_dups (rs ≫= r_ctors).
Definition exit_functions (rs : list compiled) : list (list byte) :=
  remove_dups (filter (λ f, f ∉ rs ≫= r_ctors) (rs ≫= r_dtors)).

(** What may differ between the modules loaded from the same packets. *)
Lemma loaded_same_code t cg bs md md' : same_code md md' → loaded t cg bs md → loaded t cg bs md'.
Proof.
  intros Hs [Hn Hi Hf Hc Hfs]. pose proof Hs as (Hn' & Hi' & Hf' & Hc' & _). split.
  - by rewrite Hn'.
  - by rewrite Hi'.
  - by rewrite Hf'.
  - destruct cg; [intros i j; rewrite Hc'; apply Hc|by rewrite Hc'].
  - intros e (fd & Hfd & Hrest)%Hfs. exists fd. by rewrite (same_code_function_at _ _ _ Hs).
Qed.

Section Binary.
Context (prefix : text) (level : Z) (ignored : gset (list byte)) (pe : py_env) (Hpe : py_env_ok pe).
Context (rs : list compiled) (es : list entry) (Hb : built prefix level ignored rs es).

Let t := tables_of pe level es rs.

(** A function that is run at start-up, at exit, or is [main]. *)
Definition starting (f : list byte) : Prop :=
  f ∈ startup_functions rs ∨ f ∈ exit_functions rs ∨ f = lit "main".

(** ** The table *)

Lemma ids_of_keys f : f ∈ es.*1 ↔ is_Some (ids_of es !! f).
Proof using Hb.
  pose proof (bt_table _ _ _ _ _ Hb) as (_ & Hnd & _). rewrite list_elem_of_fmap. split.
  - intros ([g [id fl]] & -> & He). exists id. apply ids_of_elem; [done|]. by exists fl.
  - intros [id (fl & He)%ids_of_elem]; [|done]. by exists (f, (id, fl)).
Qed.

Lemma defined_id f : f ∈ rs ≫= defined ignored → ∃ id, ids_of es !! f = Some id.
Proof using Hb. intros Hf%(proj2 (bt_roles _ _ _ _ _ Hb))%ids_of_keys. exact Hf. Qed.

Lemma id_bounds f id : ids_of es !! f = Some id → 0 <= id < Z.of_nat (length es).
Proof using Hb. intros Hid. destruct (bt_table _ _ _ _ _ Hb) as (_ & _ & (Hnum & _) & _). by apply Hnum in Hid. Qed.

Lemma id_name i : 0 <= i < Z.of_nat (length es) → ∃ f, ids_of es !! f = Some i.
Proof using Hb. intros Hi. destruct (bt_table _ _ _ _ _ Hb) as (_ & _ & (_ & _ & Hall) & _). by apply Hall. Qed.

Lemma id_inj f g id : ids_of es !! f = Some id → ids_of es !! g = Some id → f = g.
Proof using Hb. destruct (bt_table _ _ _ _ _ Hb) as (_ & _ & (_ & Hinj & _) & _). apply Hinj. Qed.

(** What is in no module of the binary is external, what is in one is not. *)
Lemma role_external f : f ≠ lit "main" → role ignored rs f = FCT_EXTERNAL ↔ f ∉ rs ≫= defined ignored.
Proof using Hb.
  intros Hm. split; [|by intros Hn; apply (role_unknown ignored rs f (bt_proper _ _ _ _ _ Hb))].
  unfold role. by repeat case_decide.
Qed.

(** An entry of the table, by its name. *)
Lemma entry_of_name e : e ∈ tb_fcts t ↔
  ids_of es !! fe_name e = Some (fe_id e) ∧ fe_flags e = role ignored rs (fe_name e).
Proof using Hpe Hb.
  split.
  - intros (fl & He & Hfl)%(fct_entries_elem pe Hpe). apply (fcts_elem es _ (bt_table _ _ _ _ _ Hb)) in He.
    split; [by apply (fcts_ids es _ (bt_table _ _ _ _ _ Hb)) in He as [? _]|].
    rewrite Hfl. by apply (bt_roles _ _ _ _ _ Hb) in He.
  - intros [Hid Hfl]. destruct e as [id flags f]. cbn [fe_name fe_id fe_flags] in *. subst flags.
    by destruct (fct_entry_of prefix level ignored pe Hpe rs es Hb f id Hid) as (fl & He & _).
Qed.

(** The functions that start, by their role. *)
Lemma starting_iff f : starting f ↔
  role ignored rs f = FCT_INIT ∨ role ignored rs f = FCT_FINI ∨ role ignored rs f = FCT_MAIN.
Proof using Hb.
  pose proof (bt_proper _ _ _ _ _ Hb) as Hp. unfold starting, startup_functions, exit_functions.
  rewrite !elem_of_remove_dups, list_elem_of_filter. split.
  - intros [Hf|[[Hc Hf]|Hf]].
    + left. unfold role. by rewrite decide_True.
    + right; left. unfold role. by rewrite decide_False, decide_True.
    + right; right. by apply (role_main ignored).
  - unfold role. repeat case_decide; intros [E|[E|E]]; try done; auto.
Qed.

(** A constructor or a destructor is defined. *)
Lemma starting_defined f : f ∈ startup_functions rs ∨ f ∈ exit_functions rs → f ∈ rs ≫= defined ignored.
Proof using Hb.
  intros [Hf|Hf]; unfold startup_functions, exit_functions in Hf;
    rewrite elem_of_remove_dups in Hf; apply (proper_defined ignored rs f (bt_proper _ _ _ _ _ Hb)); [by left|].
  apply list_elem_of_filter in Hf as [_ ?]. by right.
Qed.

(** The roles of the functions that are run at start-up and at exit. *)
Lemma startup_role f : f ∈ startup_functions rs ↔ f ∈ es.*1 ∧ role ignored rs f = FCT_INIT.
Proof using Hb.
  unfold startup_functions. rewrite elem_of_remove_dups. split.
  - intros Hf. split; [|unfold role; by rewrite decide_True].
    apply (bt_roles _ _ _ _ _ Hb), starting_defined; left. unfold startup_functions. by rewrite elem_of_remove_dups.
  - intros [_ Hr]. unfold role in Hr. by repeat case_decide.
Qed.

Lemma exit_role f : f ∈ exit_functions rs ↔ f ∈ es.*1 ∧ role ignored rs f = FCT_FINI.
Proof using Hb.
  split.
  - intros Hf. split; [by apply (bt_roles _ _ _ _ _ Hb), starting_defined; right|].
    unfold exit_functions in Hf. rewrite elem_of_remove_dups, list_elem_of_filter in Hf. destruct Hf.
    unfold role. by rewrite decide_False, decide_True.
  - intros [_ Hr]. unfold exit_functions. rewrite elem_of_remove_dups, list_elem_of_filter.
    unfold role in Hr. by repeat case_decide.
Qed.

(** ** Its packets *)

Section Packets.
Context (Hne : es ≠ []).

Lemma binary_tables : wf_tables t.
Proof using Hpe Hb Hne.
  apply (tables_wf pe Hpe prefix level ignored rs es (Z.of_nat (length es))); try apply Hb.
  destruct es; [done|cbn; lia].
Qed.

(** The number of functions that have a role. *)
Lemma flagged_role flag l : NoDup l → (∀ f, f ∈ l ↔ f ∈ es.*1 ∧ role ignored rs f = flag) →
  flagged flag (tb_fcts t) = Z.of_nat (length l).
Proof using Hpe Hb Hne.
  intros Hnd Hl. unfold flagged. f_equal.
  rewrite <- (length_fmap fe_name). apply Permutation_length, NoDup_Permutation; [|done|].
  - apply NoDup_fmap_2_strong.
    + intros [i1 f1 n1] [i2 f2 n2] [_ [H1 H1']%entry_of_name]%list_elem_of_filter
        [_ [H2 H2']%entry_of_name]%list_elem_of_filter. cbn. intros <-. cbn in *. congruence.
    + apply list.NoDup_filter, (NoDup_fmap_1 fe_id), (wt_ids t binary_tables).
  - intros f. rewrite Hl, list_elem_of_fmap. setoid_rewrite list_elem_of_filter.
    setoid_rewrite entry_of_name. rewrite ids_of_keys. split.
    + intros (e & -> & <- & Hid & Hfl). split; [by eexists|done].
    + intros [[id Hid] Hr]. by exists (FctEntry id (role ignored rs f) f).
Qed.

Lemma startup_count : flagged FCT_INIT (tb_fcts t) = Z.of_nat (length (startup_functions rs)).
Proof using Hpe Hb Hne. apply flagged_role; [apply NoDup_remove_dups|apply startup_role]. Qed.

Lemma exit_count : flagged FCT_FINI (tb_fcts t) = Z.of_nat (length (exit_functions rs)).
Proof using Hpe Hb Hne. apply flagged_role; [apply NoDup_remove_dups|apply exit_role]. Qed.

End Packets.

(** ** A module loaded from them *)

Section Loaded.
Context (md : module_data) (Hld : loaded t true (tb_sections t) md) (Hwf : wf_module md).

Let Hag : agrees level ignored rs es md := loaded_agrees prefix level ignored pe Hpe rs es Hb md Hld.

(** A function that the module has is one of the table. *)
Lemma function_known id fd : function_at md id = Val fd → ∃ f, ids_of es !! f = Some id ∧
  name fd = Live f ∧ flags fd = role ignored rs f.
Proof using Hwf Hag.
  intros Hfd. destruct (function_at_bounds md id fd Hwf Hfd) as [Hid _]. rewrite (ag_num _ _ _ _ _ Hag) in Hid.
  destruct (id_name id Hid) as [f Hf]. exists f. split; [done|].
  destruct (ag_functions _ _ _ _ _ Hag f id Hf) as (fd' & Hfd' & Hn & Hfl). by replace fd with fd' by congruence.
Qed.

(** A function has no blocks, or they are checked. *)
Lemma function_blocks f id : ids_of es !! f = Some id → ∃ fd, function_at md id = Val fd ∧
  (nb_blocks fd = 0 ∨ level = BASICBLOCK ∧ ∃ r g cf F, r ∈ rs ∧ checked_in r g cf F ∧ cf_id cf = id).
Proof using Hpe Hld Hb.
  intros Hid. destruct (fct_entry_of prefix level ignored pe Hpe rs es Hb f id Hid) as (fl & He & _).
  destruct (ld_fcts _ _ _ _ Hld _ He) as (fd & Hfd & _ & _ & _ & Hnone). cbn [fe_id] in *.
  exists fd. split; [done|]. destruct (decide (id ∈ bo_fct <$> tb_sections t)) as [Hin|Hout]; [right|left; by apply Hnone].
  apply list_elem_of_fmap in Hin as (b & -> & Hin). unfold t, tb_sections, tables_of in Hin. cbn [tb_blocks] in Hin.
  destruct (decide (level = BASICBLOCK)) as [Hlevel|]; [|by apply elem_of_nil in Hin]. split; [done|].
  pose proof (bt_table _ _ _ _ _ Hb) as Htab. pose proof (bt_modules _ _ _ _ _ Hb) as Hrs.
  apply (blocks_entries_elem pe Hpe) in Hin as (s & Hs & ->);
    [|apply (build_sections_NoDup prefix level ignored rs es _ Htab Hrs (bt_one _ _ _ _ _ Hb))].
  apply (build_sections_elem prefix level ignored rs es _ Htab Hrs) in Hs as (r & g & cf & F & Hr & Hch & ->).
  by exists r, g, cf, F.
Qed.

(** The functions the monitor may be started in. *)
Lemma entrypoint_binary data m id : module_at data m = Val md →
  entrypoint data m id = true ↔ ∃ f, starting f ∧ ids_of es !! f = Some id.
Proof using Hwf Hag.
  intros Hmd. unfold entrypoint. rewrite Hmd. cbn [mbind res_bind]. split.
  - intros He. case_decide; [done|]. destruct (function_at md id) as [fd| |] eqn:Hfd; [|done|done].
    cbn [mbind res_bind] in He. destruct (function_known id fd Hfd) as (f & Hf & _ & Hfl). exists f. split; [|done].
    apply starting_iff. unfold FUNCTION_IS_ENTRYPOINT, FUNCTION_IS_ENTRYPOINT_MAIN, FUNCTION_IS_ENTRYPOINT_INIT,
      FUNCTION_IS_ENTRYPOINT_FINI in He. rewrite Hfl in He.
    rewrite !orb_true_iff, !bool_decide_eq_true in He. tauto.
  - intros (f & Hs%starting_iff & Hid). destruct (ag_functions _ _ _ _ _ Hag f id Hid) as (fd & Hfd & _ & Hfl).
    pose proof (id_bounds f id Hid). rewrite decide_False by (rewrite (ag_num _ _ _ _ _ Hag); lia).
    rewrite Hfd. cbn [mbind res_bind]. unfold FUNCTION_IS_ENTRYPOINT, FUNCTION_IS_ENTRYPOINT_MAIN,
      FUNCTION_IS_ENTRYPOINT_INIT, FUNCTION_IS_ENTRYPOINT_FINI. rewrite Hfl.
    rewrite !orb_true_iff, !bool_decide_eq_true. tauto.
Qed.

(** A function of the table is external when no module defines it. *)
Lemma function_external f id : ids_of es !! f = Some id → f ≠ lit "main" ∨ f ∈ rs ≫= defined ignored → ∃ fd, function_at md id = Val fd ∧ name fd = Live f ∧
  FUNCTION_IS_EXTERNAL fd = bool_decide (f ∉ rs ≫= defined ignored).
Proof using Hb Hag.
  intros Hid Hm. destruct (ag_functions _ _ _ _ _ Hag f id Hid) as (fd & Hfd & Hn & Hfl). exists fd.
  split; [done|]. split; [done|]. unfold FUNCTION_IS_EXTERNAL. rewrite Hfl. apply bool_decide_ext.
  destruct (decide (f = lit "main")) as [->|Hne]; [|by apply role_external]. destruct Hm as [?|Hm]; [done|].
  rewrite (role_main ignored rs _ (bt_proper _ _ _ _ _ Hb)) by done. by split.
Qed.

End Loaded.

End Binary.
