(* ===== verification/Linking.v ===== *)
(** * A program of several binaries

    The binaries of a process in the order in which they are loaded, where the
    dynamic linker lands their calls, and the data of the monitor when it has
    loaded the first ones: its relocations land external calls at the same
    place, and every execution of the binaries that are there is an activation. *)

From S2P Require Import Prelude CSem Wire Client RunSpec RunRefine LoadSections Relocate MonitorLoad LoadWf LoadSpec LoadRuns.
From S2P Require Import Dot LoadPackets Text Ir Pass Injector PassTable PassAnalysis PassFiles InjectSpec PassRun.
From S2P Require Import Prelink PrelinkSpec LoadModule Build BuildSpec BuildPack Program RelocTotal Binary.
From S2P Require Import MonitorData.
From Stdlib Require Import Strings.Byte.
From Stdlib Require Strings.String.
Import Strings.String.StringSyntax.
#[local] Open Scope string_scope.
#[local] Open Scope Z_scope.
#[local] Open Scope list_scope.

(** A binary: the compilations of its modules, and the table they left. *)
Abbreviation binary := (list compiled * list entry)%type (only parsing).

(** The binary that is loaded as module [m]. *)
Definition binary_at (L : list binary) (m : Z) : option binary := if decide (0 <= m) then L !! Z.to_nat m else None.

Lemma binary_at_elem L m b : binary_at L m = Some b → b ∈ L.
Proof. unfold binary_at. case_decide; [|done]. apply list_elem_of_lookup_2. Qed.

Lemma binary_at_bounds L m b : binary_at L m = Some b → 0 <= m < Z.of_nat (length L).
Proof. unfold binary_at. case_decide; [|done]. intros Hm%lookup_lt_Some. lia. Qed.

Lemma binary_at_exists L m : 0 <= m < Z.of_nat (length L) → ∃ b, binary_at L m = Some b.
Proof.
  intros Hm. unfold binary_at. rewrite decide_True by lia.
  destruct (L !! Z.to_nat m) as [b|] eqn:E; [by exists b|]. apply lookup_ge_None in E. lia.
Qed.

Section Linking.
Context (level : Z) (ignored : gset (list byte)).

(** What the dynamic linker makes of them: a function that a binary defines is
    called there; another one is in exactly one binary, loaded before. *)
Record linked_program (L : list binary) (resolve : Z → list byte → Z) : Prop := {
  lp_built : ∀ b, b ∈ L → ∃ prefix, built prefix level ignored b.1 b.2;
  lp_disciplined : ∀ b, b ∈ L → Forall (disciplined ignored) b.1;
  lp_nonempty : ∀ b, b ∈ L → b.2 ≠ [];
  lp_few : Z.of_nat (length L) <= 2 ^ 16;
  lp_main : ∀ b, b ∈ L → lit "main" ∈ b.2.*1 → lit "main" ∈ b.1 ≫= defined ignored;
  lp_own : ∀ m b f, binary_at L m = Some b → f ∈ b.1 ≫= defined ignored → resolve m f = m;
  lp_external : ∀ m b f, binary_at L m = Some b → f ∈ b.2.*1 → (f ∉ b.1 ≫= defined ignored) →
    0 <= resolve m f < m ∧
    ∀ m' b', binary_at L m' = Some b' → f ∈ b'.1 ≫= defined ignored ↔ m' = resolve m f;
}.

Context (pe : py_env) (Hpe : py_env_ok pe).
Context (L : list binary) (resolve : Z → list byte → Z) (Hlp : linked_program L resolve).

Definition binary_tables_of (b : binary) : tables := tables_of pe level b.2 b.1.

(** The module is the binary. *)
Definition loaded_from (b : binary) (md : module_data) : Prop :=
  loaded (binary_tables_of b) true (tb_sections (binary_tables_of b)) md.

(** The first [k] binaries are loaded. *)
Record loaded_upto (k : Z) (data : monitor_data) : Prop := {
  lu_inv : load_inv data;
  lu_nb : nb_modules data = k;
  lu_modules : ∀ m, 0 <= m < k → ∃ b md, binary_at L m = Some b ∧ module_at data m = Val md ∧ loaded_from b md;
}.

(** The relocations of module [m] are those of the dynamic linker. *)
Definition resolved (data : monitor_data) (m : Z) : Prop := ∀ b md f id,
  binary_at L m = Some b → module_at data m = Val md → ids_of b.2 !! f = Some id → (f ∉ b.1 ≫= defined ignored) →
  ∃ b' id', binary_at L (resolve m f) = Some b' ∧ ids_of b'.2 !! f = Some id' ∧
    reloc_at md id = Val (MODULE_FUNCTION (resolve m f) id').

(** Ready for the runs of the modules there. *)
Definition linked_upto (k : Z) (data : monitor_data) : Prop :=
  loaded_upto k data ∧ ∀ m, 0 <= m < k → resolved data m.

(** Where a call from a binary lands. *)
Lemma resolve_lands m b f : binary_at L m = Some b → f ∈ b.2.*1 →
  0 <= resolve m f <= m ∧ ∃ b', binary_at L (resolve m f) = Some b' ∧ f ∈ b'.1 ≫= defined ignored.
Proof using Hlp.
  intros Hm Hf. pose proof (binary_at_bounds _ _ _ Hm). destruct (decide (f ∈ b.1 ≫= defined ignored)) as [Hd|Hd].
  - rewrite (lp_own _ _ Hlp m b f Hm Hd). split; [lia|]. by exists b.
  - destruct (lp_external _ _ Hlp m b f Hm Hf Hd) as [Hr Hdef]. split; [lia|].
    destruct (binary_at_exists L (resolve m f)) as [b' Hb']; [lia|]. exists b'. split; [done|]. by apply (Hdef _ _ Hb').
Qed.

(** ** The modules that are loaded *)

Section Upto.
Context (k : Z) (data : monitor_data) (Hk : loaded_upto k data).

Lemma upto_wf : wf_data data.
Proof using Hk. apply Hk. Qed.

Lemma upto_module m : 0 <= m < k → ∃ b prefix md, binary_at L m = Some b ∧ module_at data m = Val md ∧
  built prefix level ignored b.1 b.2 ∧ loaded_from b md ∧ wf_module md.
Proof using Hlp Hk.
  intros Hm. destruct (lu_modules _ _ Hk m Hm) as (b & md & Hb & Hmd & Hld).
  destruct (lp_built _ _ Hlp b (binary_at_elem _ _ _ Hb)) as [prefix Hp]. exists b, prefix, md.
  split_and!; try done. by destruct (module_at_wf _ _ _ upto_wf Hmd).
Qed.

Lemma upto_range m md : module_at data m = Val md → 0 <= m < k.
Proof using Hk. intros [_ Hm]%(module_at_wf _ _ _ upto_wf). by rewrite (lu_nb _ _ Hk) in Hm. Qed.

Lemma upto_few : few_modules data.
Proof using Hlp Hk.
  unfold few_modules. pose proof (lp_few _ _ Hlp) as Hf. destruct (lu_inv _ _ Hk) as [_ Hu]. unfold in_u in Hu.
  rewrite (lu_nb _ _ Hk) in *. destruct (decide (k = 0)) as [->|]; [lia|].
  destruct (lu_modules _ _ Hk (k - 1)) as (b & _ & Hb%binary_at_bounds & _); lia.
Qed.

Lemma upto_named : named_data data.
Proof using Hpe Hlp Hk.
  intros m md Hmd i Hi. destruct (upto_module m (upto_range m md Hmd)) as (b & prefix & md' & Hb & Hmd' & Hp & Hld & Hwf).
  assert (md' = md) as -> by congruence.
  pose proof (loaded_agrees prefix level ignored pe Hpe b.1 b.2 Hp md Hld) as Hag.
  rewrite (ag_num _ _ _ _ _ Hag) in Hi. destruct (id_name prefix level ignored b.1 b.2 Hp i Hi) as [f Hf].
  destruct (ag_functions _ _ _ _ _ Hag f i Hf) as (fd & Hfd & Hn & _). by exists fd, f.
Qed.

(** A function of the table of a binary, in its module. *)
Lemma upto_function m b md f id : binary_at L m = Some b → module_at data m = Val md → ids_of b.2 !! f = Some id →
  ∃ fd, function_at md id = Val fd ∧ name fd = Live f ∧
    FUNCTION_IS_EXTERNAL fd = bool_decide (f ∉ b.1 ≫= defined ignored) ∧ 0 <= id < nb_functions md.
Proof using Hpe Hlp Hk.
  intros Hb Hmd Hid. destruct (upto_module m (upto_range m md Hmd)) as (b' & prefix & md' & Hb' & Hmd' & Hp & Hld & Hwf).
  assert (md' = md) as -> by congruence. assert (b' = b) as -> by congruence.
  destruct (function_external prefix level ignored pe Hpe b.1 b.2 Hp md Hld f id Hid) as (fd & Hfd & Hn & Hx).
  - destruct (decide (f = lit "main")) as [->|]; [right|by left]. apply (lp_main _ _ Hlp b (binary_at_elem _ _ _ Hb)).
    apply (ids_of_keys prefix level ignored b.1 b.2 Hp). by exists id.
  - exists fd. do 3 (split; [done|]). exact (proj1 (function_at_bounds md id fd Hwf Hfd)).
Qed.

(** The definers of an external function are in the module where it lands. *)
Lemma upto_definer m b md f id fd k' l : binary_at L m = Some b → module_at data m = Val md →
  ids_of b.2 !! f = Some id → (f ∉ b.1 ≫= defined ignored) → name fd = Live f →
  definer data m fd k' l ↔ k' = resolve m f ∧ ∃ b', binary_at L k' = Some b' ∧ ids_of b'.2 !! f = Some l.
Proof using Hpe Hlp Hk.
  intros Hb Hmd Hid Hd Hname. pose proof (upto_range m md Hmd) as Hm.
  destruct (lp_built _ _ Hlp b (binary_at_elem _ _ _ Hb)) as [prefix Hp].
  assert (Hf : f ∈ b.2.*1) by (apply (ids_of_keys prefix level ignored b.1 b.2 Hp); by exists id).
  destruct (lp_external _ _ Hlp m b f Hb Hf Hd) as [Hr Hdef]. split.
  - intros (Hne & mk & g & s & Hmk & Hl & Hg & Hx & Hs & Hs'). assert (s = f) as -> by congruence.
    destruct (upto_module k' (upto_range k' mk Hmk)) as (b' & prefix' & mk' & Hb' & Hmk' & Hp' & Hld' & Hwf').
    assert (mk' = mk) as -> by congruence.
    destruct (function_known prefix' level ignored pe Hpe b'.1 b'.2 Hp' mk Hld' Hwf' l g Hg) as (f' & Hf' & Hn' & _).
    assert (f' = f) as -> by congruence. destruct (upto_function k' b' mk f l Hb' Hmk Hf') as (g' & Hg' & _ & Hx' & _).
    assert (g' = g) as -> by congruence. rewrite Hx in Hx'. symmetry in Hx'. apply bool_decide_eq_false in Hx'.
    apply dec_stable in Hx'. split; [by apply (Hdef _ _ Hb')|]. by exists b'.
  - intros (-> & b' & Hb' & Hl). destruct (upto_module (resolve m f) ltac:(lia)) as (b2 & prefix' & mk & Hb2 & Hmk & _).
    assert (b2 = b') as -> by congruence. destruct (upto_function _ b' mk f l Hb' Hmk Hl) as (g & Hg & Hn & Hx & Hb'l).
    split; [lia|]. exists mk, g, f. split_and!; try done; try lia. rewrite Hx. apply bool_decide_eq_false.
    intros Hn'. apply Hn'. by apply (Hdef _ _ Hb').
Qed.

(** There is one. *)
Lemma upto_definer_exists m b md f id fd : binary_at L m = Some b → module_at data m = Val md →
  ids_of b.2 !! f = Some id → (f ∉ b.1 ≫= defined ignored) → name fd = Live f →
  ∃ b' id', binary_at L (resolve m f) = Some b' ∧ ids_of b'.2 !! f = Some id' ∧ definer data m fd (resolve m f) id'.
Proof using Hpe Hlp Hk.
  intros Hb Hmd Hid Hd Hn. destruct (lp_built _ _ Hlp b (binary_at_elem _ _ _ Hb)) as [prefix Hp].
  destruct (resolve_lands m b f Hb) as (_ & b' & Hb' & Hf').
  { apply (ids_of_keys prefix level ignored b.1 b.2 Hp). by exists id. }
  destruct (lp_built _ _ Hlp b' (binary_at_elem _ _ _ Hb')) as [prefix' Hp'].
  destruct (defined_id prefix' level ignored b'.1 b'.2 Hp' f Hf') as [id' Hid']. exists b', id'.
  split; [done|]. split; [done|]. apply (upto_definer m b md f id fd); try done. split; [done|]. by exists b'.
Qed.

(** An external function of a module, by its name. *)
Lemma upto_external m b md i fd : binary_at L m = Some b → module_at data m = Val md → function_at md i = Val fd →
  FUNCTION_IS_EXTERNAL fd = true → ∃ f, ids_of b.2 !! f = Some i ∧ name fd = Live f ∧ f ∉ b.1 ≫= defined ignored.
Proof using Hpe Hlp Hk.
  intros Hb Hmd Hfd Hx. destruct (upto_module m (upto_range m md Hmd)) as (b' & prefix & md' & Hb' & Hmd' & Hp & Hld & Hwf).
  assert (md' = md) as -> by congruence. assert (b' = b) as -> by congruence.
  destruct (function_known prefix level ignored pe Hpe b.1 b.2 Hp md Hld Hwf i fd Hfd) as (f & Hid & Hn & _).
  destruct (upto_function m b md f i Hb Hmd Hid) as (fd' & Hfd' & _ & Hx' & _).
  assert (fd' = fd) as -> by congruence. rewrite Hx in Hx'. symmetry in Hx'. apply bool_decide_eq_true in Hx'.
  by exists f.
Qed.

End Upto.

(** ** Relocations *)

Lemma upto_same_code k data data' : loaded_upto k data → wf_data data' → data_same_code data data' → loaded_upto k data'.
Proof using Type.
  intros [[Hwf Hu] Hnb Hmods] Hwf' Hsc. split.
  - split; [done|]. by rewrite (proj1 Hsc).
  - by rewrite (proj1 Hsc).
  - intros m Hm. destruct (Hmods m Hm) as (b & md & Hb & Hmd & Hld).
    destruct (data_same_code_at _ _ _ _ Hsc Hmd) as (md' & Hmd' & Hs). exists b, md'. split; [done|]. split; [done|].
    by eapply loaded_same_code.
Qed.

(** The relocations of a loaded module are computed, required or not. *)
Lemma compute_resolved k data m fatal : loaded_upto k data → 0 <= m < k → ∃ data',
  compute_relocations_of_module data m fatal = Val (0, data') ∧ loaded_upto k data' ∧ resolved data' m ∧
  ∀ m', m' ≠ m → module_at data' m' = module_at data m'.
Proof using Hpe Hlp.
  intros Hk Hm. pose proof (upto_few k data Hk) as Hfew. pose proof (upto_named k data Hk) as Hnd.
  pose proof (upto_wf k data Hk) as Hwf.
  destruct (upto_module k data Hk m Hm) as (b & prefix & md & Hb & Hmd & _).
  destruct (compute_relocations_total data Hwf Hfew Hnd m fatal) as (err & data' & Hrun & Herr);
    [by rewrite (lu_nb _ _ Hk)|].
  assert (err = 0) as ->.
  { destruct Herr as [?|(_ & md' & i & fd & Hmd' & Hfd & Hx & Hno)]; [done|exfalso].
    assert (md' = md) as -> by congruence. destruct (upto_external k data Hk m b md i fd) as (f & Hid & Hn & Hd); [done..|].
    destruct (upto_definer_exists k data Hk m b md f i fd) as (_ & id' & _ & _ & Hdef); [done..|]. by eapply Hno. }
  exists data'. split; [done|].
  apply compute_relocations_inv in Hrun as (Hwf' & Hsc & _ & Hoth & md0 & md' & Hmd0 & Hmd' & Hrel); [|done].
  assert (Hu : u16 m = m) by (apply Z.mod_small; unfold few_modules in Hfew; rewrite (lu_nb _ _ Hk) in Hfew; lia).
  rewrite Hu in *. assert (md0 = md) as -> by congruence. specialize (Hrel eq_refl).
  split; [by eapply upto_same_code|]. split; [|done]. intros b0 md1 f id Hb0 Hmd1 Hid Hd.
  assert (b0 = b) as -> by congruence. assert (md1 = md') as -> by congruence.
  destruct (upto_function k data Hk m b md f id Hb Hmd Hid) as (fd & Hfd & Hn & Hx & Hi).
  rewrite bool_decide_true in Hx by done.
  destruct (upto_definer_exists k data Hk m b md f id fd) as (b' & id' & Hb' & Hid' & Hdf); [done..|].
  destruct (Hrel id fd Hi Hfd Hx) as (found & Hfound & Hr).
  destruct (search_definer data Hwf Hfew Hnd m fd f Hn) as (k' & l' & Hs & Hbest); [by eexists _, _|].
  assert (found = Some (k', l')) as -> by congruence. exists b', id'. split; [done|]. split; [done|].
  destruct Hbest as (_ & (-> & b2 & Hb2 & Hl')%(upto_definer k data Hk m b md f id fd _ _ Hb Hmd Hid Hd Hn) & _).
  assert (b2 = b') as -> by congruence. assert (l' = id') as -> by congruence. done.
Qed.

(** All of them, when the load ends. *)
Lemma relocate_all_resolved n : ∀ k data i, loaded_upto k data → 0 <= i → i + Z.of_nat n = k →
  (∀ m, 0 <= m < i → resolved data m) → ∃ data', relocate_all n i data = Val (0, data') ∧ linked_upto k data'.
Proof using Hpe Hlp.
  induction n as [|n IH]; intros k data i Hk Hi Hn Hres; cbn [relocate_all].
  { exists data. split; [done|]. split; [done|]. intros m Hm. apply Hres. lia. }
  destruct (compute_resolved k data i true Hk) as (data' & Hrun & Hk' & Hri & Hoth); [lia|].
  rewrite Hrun. cbn [mbind res_bind]. rewrite decide_False by (by intros []).
  apply IH; [done|lia|lia|]. intros m Hm. destruct (decide (m = i)) as [->|Hne]; [done|].
  intros b md f id Hb Hmd. rewrite Hoth in Hmd by done. apply (Hres m); [lia|done|done].
Qed.

(** ** The modules that are linked *)

Section Linked.
Context (k : Z) (data : monitor_data) (Hk : linked_upto k data).

(** The module and the function that a relocation names. *)
Lemma relocation_fields m b f b' id' : binary_at L m = Some b → f ∈ b.2.*1 → binary_at L (resolve m f) = Some b' →
  ids_of b'.2 !! f = Some id' → MODULE_FUNCTION_GET_MODULE (MODULE_FUNCTION (resolve m f) id') = resolve m f ∧
  MODULE_FUNCTION_GET_FUNCTION (MODULE_FUNCTION (resolve m f) id') = id'.
Proof using Hpe Hlp.
  intros Hb Hf Hb' Hid'. destruct (resolve_lands m b f Hb Hf) as [Hr _]. pose proof (lp_few _ _ Hlp).
  pose proof (binary_at_bounds _ _ _ Hb). destruct (lp_built _ _ Hlp b' (binary_at_elem _ _ _ Hb')) as [prefix' Hp'].
  pose proof (id_bounds prefix' level ignored b'.1 b'.2 Hp' f id' Hid') as Hid.
  pose proof (wt_num _ (binary_tables prefix' level ignored pe Hpe b'.1 b'.2 Hp' (lp_nonempty _ _ Hlp b' (binary_at_elem _ _ _ Hb')))) as Hn.
  rewrite (tables_num pe Hpe level b'.1 b'.2 _ (bt_table _ _ _ _ _ Hp')) in Hn.
  rewrite MODULE_FUNCTION_GET_MODULE_eq, MODULE_FUNCTION_GET_FUNCTION_eq. unfold u16, u32.
  by rewrite !Z.mod_small by lia.
Qed.

Lemma linked_run_ready : run_ready data.
Proof using Hpe Hlp Hk.
  destruct Hk as [Hup Hres]. split; [apply Hup|]. intros m md i fd rs r Hmd Hfd Hx Hrs Hr.
  pose proof (upto_range k data Hup m md Hmd) as Hm.
  destruct (upto_module k data Hup m Hm) as (b & prefix & md' & Hb & Hmd' & Hp & _).
  destruct (upto_external k data Hup m b md i fd) as (f & Hid & Hn & Hd); [done..|].
  destruct (Hres m Hm b md f i Hb Hmd Hid Hd) as (b' & id' & Hb' & Hid' & Hreloc).
  assert (Hf : f ∈ b.2.*1) by (apply (ids_of_keys prefix level ignored b.1 b.2 Hp); by exists i).
  unfold reloc_at in Hreloc. rewrite Hrs in Hreloc. cbn [deref mbind res_bind] in Hreloc.
  assert (r = MODULE_FUNCTION (resolve m f) id') as -> by congruence.
  destruct (relocation_fields m b f b' id') as [-> ->]; [done..|].
  destruct (resolve_lands m b f Hb Hf) as [Hr' _].
  destruct (upto_module k data Hup (resolve m f) ltac:(lia)) as (b2 & _ & md2 & Hb2 & Hmd2 & _).
  assert (b2 = b') as -> by congruence. exists md2. split; [done|].
  by destruct (upto_function k data Hup _ b' md2 f id' Hb' Hmd2 Hid') as (_ & _ & _ & _ & ?).
Qed.

(** A call lands where the dynamic linker says. *)
Lemma linked_target m b f id : 0 <= m < k → binary_at L m = Some b → ids_of b.2 !! f = Some id →
  ∃ b' id', binary_at L (resolve m f) = Some b' ∧ f ∈ b'.1 ≫= defined ignored ∧ ids_of b'.2 !! f = Some id' ∧
    0 <= resolve m f < k ∧ target data m id = Val (resolve m f, id').
Proof using Hpe Hlp Hk.
  intros Hm Hb Hid. destruct Hk as [Hup Hres].
  destruct (upto_module k data Hup m Hm) as (b0 & prefix & md & Hb0 & Hmd & Hp & _).
  assert (b0 = b) as -> by congruence.
  assert (Hf : f ∈ b.2.*1) by (apply (ids_of_keys prefix level ignored b.1 b.2 Hp); by exists id).
  destruct (resolve_lands m b f Hb Hf) as (Hr & b' & Hb' & Hf').
  destruct (lp_built _ _ Hlp b' (binary_at_elem _ _ _ Hb')) as [prefix' Hp'].
  destruct (defined_id prefix' level ignored b'.1 b'.2 Hp' f Hf') as [id' Hid'].
  exists b', id'. do 3 (split; [done|]). split; [lia|].
  destruct (upto_function k data Hup m b md f id Hb Hmd Hid) as (fd & Hfd & _ & Hx & _).
  destruct (upto_module k data Hup (resolve m f) ltac:(lia)) as (b2 & _ & md2 & Hb2 & Hmd2 & _ & _ & _).
  assert (b2 = b') as -> by congruence.
  destruct (upto_function k data Hup _ b' md2 f id' Hb' Hmd2 Hid') as (fd2 & Hfd2 & _).
  assert (Hfs : ∃ fs, deref (functions md2) = Val fs).
  { unfold function_at in Hfd2. destruct (functions md2); [done|by eexists|done]. }
  destruct Hfs as [fs Hfs]. unfold target. rewrite Hmd. cbn [mbind res_bind]. rewrite Hfd. cbn [mbind res_bind].
  rewrite Hx. case_bool_decide as Hd.
  - destruct (Hres m Hm b md f id Hb Hmd Hid Hd) as (b3 & id3 & Hb3 & Hid3 & Hreloc).
    assert (b3 = b') as -> by congruence. assert (id3 = id') as -> by congruence. unfold reloc_at in Hreloc.
    destruct (deref (relocations md)); [|done|done]. cbn [mbind res_bind] in *. rewrite Hreloc. cbn [mbind res_bind].
    destruct (relocation_fields m b f b' id') as [-> ->]; [done..|]. rewrite Hmd2. cbn [mbind res_bind].
    by rewrite Hfs.
  - rewrite (lp_own _ _ Hlp m b f Hb Hd) in *. assert (b' = b) as -> by congruence.
    assert (id' = id) as -> by congruence. cbn [mbind res_bind]. rewrite Hmd2. cbn [mbind res_bind]. by rewrite Hfs.
Qed.

(** The process, as far as it is loaded. *)
Lemma linked_process : process level ignored (binary_at L) resolve (λ m, 0 <= m < k) data.
Proof using Hpe Hlp Hk.
  destruct Hk as [Hup Hres]. split.
  - intros m rs es Hb%binary_at_elem. split; [by apply (lp_built _ _ Hlp _ Hb)|by apply (lp_disciplined _ _ Hlp _ Hb)].
  - intros m rs es Hm Hb. destruct (upto_module k data Hup m Hm) as (b & prefix & md & Hb' & Hmd & Hp & Hld & _).
    assert (b = (rs, es)) as -> by congruence. exists md. split; [done|].
    exact (loaded_agrees prefix level ignored pe Hpe rs es Hp md Hld).
  - intros m rs es g id Hm Hb Hid _. destruct (linked_target m _ g id Hm Hb Hid) as ([rs' es'] & id' & Hb' & Hg & Hid' & Hr & Ht).
    split; [lia|]. by exists rs', es', id'.
Qed.

End Linked.

End Linking.
