(* ===== verification/Source.v ===== *)
(** * What the monitor enforces, in terms of the source

    The calls and the branches that the sources of the binaries have, the traces
    they allow across the binaries of a program, and the runs of the monitor in
    these terms: when the first modules are loaded, it accepts exactly the runs
    of their constructors, destructors and [main] along the edges of the source. *)

From S2P Require Import Prelude CSem Wire RunSpec LoadSections Main Sessions LoadRuns LoadSpec LoadPackets.
From S2P Require Import RunRefine MonitorLoad LoadWf Text Ir Pass Injector PassTable PassAnalysis PassFiles InjectSpec PassRun.
From S2P Require Import Prelink PrelinkSpec LoadModule Build BuildSpec BuildPack Program Binary Linking.
From S2P Require Import MonitorData.
From Stdlib Require Import Strings.Byte.
From Stdlib Require Strings.String.
Import Strings.String.StringSyntax.
#[local] Open Scope string_scope.
#[local] Open Scope Z_scope.
#[local] Open Scope list_scope.

(** ** Edges of the source *)

Section Edges.
Context (level : Z) (ignored : gset (list byte)).

(** The code of the function numbered [i] of the binary has a direct call of
    [g], which is not ignored. *)
Definition source_call (B : binary) (i : Z) (g : list byte) : Prop := ∃ r F,
  r ∈ B.1 ∧ F ∈ m_functions (r_source r) ∧ (fn_name F ∉ ignored) ∧ ids_of B.2 !! fn_name F = Some i ∧
  calls F g ∧ g ∉ ignored.

(** The function numbered [id] branches from block [i] to block [j]; its blocks
    are to be checked. *)
Definition source_jump (B : binary) (id i j : Z) : Prop := level = BASICBLOCK ∧ ∃ r F,
  r ∈ B.1 ∧ F ∈ m_functions (r_source r) ∧ (fn_name F ∉ ignored) ∧ (fn_name F ∉ unchecked (r_annotations r)) ∧
  ids_of B.2 !! fn_name F = Some id ∧ jumps F i j.

(** ** Traces of the source *)

Context (L : list binary) (resolve : Z → list byte → Z).

(** Signals of an activation of a function of a binary, of a part of its body.
    A call names the function by its number in the binary that calls; it lands
    where the dynamic linker says. *)
Inductive source_activation : Z → Z → list client_signal → Prop :=
| source_activation_intro m f b s1 tr s2 :
    carries s1 CFI_ENTER → names s1 m f = true → source_body m f FUNCTION_ENTRY_BLOCK_ID b tr →
    carries s2 CFI_EXIT → names s2 m f = true → source_activation m f (s1 :: tr ++ [s2])
with source_body : Z → Z → Z → Z → list client_signal → Prop :=
| source_body_nil m f b : source_body m f b b []
| source_body_jump m f b b' B s1 s2 tr :
    carries s1 CFI_BEFORE_JUMP → names s1 m f = true → sig_block s1 = b →
    carries s2 CFI_AFTER_JUMP → names s2 m f = true →
    binary_at L m = Some B → source_jump B f b (sig_block s2) →
    source_body m f (sig_block s2) b' tr → source_body m f b b' (s1 :: s2 :: tr)
| source_body_call m f b b' B g B' g' h s1 tr1 s2 tr2 :
    carries s1 CFI_CALL → binary_at L m = Some B →
    source_call B f g → ids_of B.2 !! g = Some (sig_function s1) →
    binary_at L (resolve m g) = Some B' → ids_of B'.2 !! g = Some g' → source_activation (resolve m g) g' tr1 →
    carries s2 CFI_RETURNED → source_call B f h → ids_of B.2 !! h = Some (sig_function s2) →
    source_body m f b b' tr2 → source_body m f b b' (s1 :: tr1 ++ s2 :: tr2).

(** A run: an activation of a constructor, of [main] or of a destructor of one
    of the first [k] binaries. *)
Definition source_run (k : Z) (tr : list client_signal) : Prop := ∃ m B f id,
  0 <= m < k ∧ binary_at L m = Some B ∧ starting B.1 f ∧ ids_of B.2 !! f = Some id ∧ source_activation m id tr.

End Edges.

Scheme source_activation_mut := Minimality for source_activation Sort Prop
  with source_body_mut := Minimality for source_body Sort Prop.
Combined Scheme source_ind from source_activation_mut, source_body_mut.

(** ** The pass knows them *)

Section Known.
Context (prefix : text) (level : Z) (ignored : gset (list byte)).
Context (rs : list compiled) (es : list entry) (Hb : built prefix level ignored rs es).

Lemma has_code F B : B ∈ fn_blocks F → isDeclaration F = false.
Proof. unfold isDeclaration. destruct (fn_blocks F); [by intros []%elem_of_nil|done]. Qed.

Lemma jumps_code F i j : jumps F i j → isDeclaration F = false.
Proof. intros (a & b & B & B' & _ & _ & HB & _). eapply has_code, list_elem_of_lookup. by exists a. Qed.

Lemma jumps_blocks F G i j : fn_blocks F = fn_blocks G → jumps F i j → jumps G i j.
Proof. unfold jumps. by intros ->. Qed.

(** The function of the map that a function of the source with code became. *)
Lemma source_known r F : r ∈ rs → F ∈ m_functions (r_source r) → fn_name F ∉ ignored → isDeclaration F = false →
  ∃ es0 cf F', compiled_from prefix level ignored es0 r ∧ _FunctionMap (r_st r) !! fn_name F = Some cf ∧
    getFunction (_M (r_st r)) (fn_name F) = Some F' ∧ fn_blocks F' = fn_blocks F ∧ fn_name F' = fn_name F ∧
    ids_of es !! fn_name F = Some (cf_id cf).
Proof using Hb.
  intros Hin HF Hni Hd. destruct (bt_modules _ _ _ _ _ Hb r Hin) as (Hsub & es0 & Hr).
  destruct (defined_map prefix level ignored es0 r Hr (fn_name F)) as (cf & F' & Hcf & HF' & _).
  { apply defined_elem. split; [done|]. by exists F. }
  destruct (map_source prefix level ignored es0 r Hr _ _ Hcf) as (F2 & G & HF2 & HG & HGn & Hbl & Hn & _).
  assert (F2 = F') as -> by congruence. assert (G = F) as ->.
  { destruct (sup_wf _ _ _ _ (cp_supported _ _ _ _ _ Hr)) as [Hnd _].
    pose proof (getFunction_name _ G Hnd HG) as E1. pose proof (getFunction_name _ F Hnd HF) as E2. congruence. }
  exists es0, cf, F'. split_and!; try done. eapply lookup_weaken; [|exact Hsub].
  by apply (tw_map _ _ (an_write _ _ _ _ _ _ _ (cp_analysed _ _ _ _ _ Hr))) in Hcf as (_ & ? & _).
Qed.

(** A function of the map, in the source. *)
Lemma known_source r f cf : r ∈ rs → _FunctionMap (r_st r) !! f = Some cf → ∃ F F' es0,
  compiled_from prefix level ignored es0 r ∧
  getFunction (_M (r_st r)) f = Some F' ∧ F ∈ m_functions (r_source r) ∧ fn_name F = f ∧ (f ∉ ignored) ∧
  fn_blocks F' = fn_blocks F ∧ fn_name F' = f ∧ ids_of es !! f = Some (cf_id cf).
Proof using Hb.
  intros Hin Hcf. destruct (bt_modules _ _ _ _ _ Hb r Hin) as (Hsub & es0 & Hr).
  destruct (map_source prefix level ignored es0 r Hr f cf Hcf) as (F' & F & HF' & HF & Hn & Hbl & Hn' & Hni).
  exists F, F', es0. split_and!; try done. eapply lookup_weaken; [|exact Hsub].
  by apply (tw_map _ _ (an_write _ _ _ _ _ _ _ (cp_analysed _ _ _ _ _ Hr))) in Hcf as (_ & ? & _).
Qed.

Lemma source_call_iff i j : (∃ g, source_call ignored (rs, es) i g ∧ ids_of es !! g = Some j) ↔
  ∃ r, r ∈ rs ∧ calls_id (r_st r) i j.
Proof using Hb.
  split.
  - intros (g & (r & F & Hin & HF & Hni & Hi & Hc & Hgi) & Hg). exists r. split; [done|].
    destruct (source_known r F Hin HF Hni) as (es0 & cf & F' & Hr & Hcf & HF' & Hbl & _ & Hid).
    { destruct Hc as (B & ? & HB & _). by eapply has_code. }
    assert (Hc' : calls F' g) by (unfold calls in *; by rewrite Hbl).
    destruct (call_facts prefix level ignored rs es r es0 (fn_name F) cf F' g Hb Hin Hr Hcf HF') as (_ & _ & _ & Hcall);
      [by exists F|done|]. destruct (Hcall Hgi) as (Hid' & _ & Hcid & _).
    cbn [snd] in *. assert (cf_id cf = i) as <- by congruence. by assert (ident (r_st r) g = j) as <- by congruence.
  - intros (r & Hin & f & cf & F' & g & Hcf & <- & HF' & Hc & Hgi & Hg).
    destruct (known_source r f cf Hin Hcf) as (F & F2 & es0 & Hr & HF2 & HF & <- & Hni & Hbl & _ & Hid).
    assert (F2 = F') as -> by congruence. exists g. split.
    + exists r, F. split_and!; try done; [unfold calls in *; by rewrite <- Hbl|].
      unfold isIgnoredFunction in Hgi. rewrite (an_ignored _ _ _ _ _ _ _ (cp_analysed _ _ _ _ _ Hr)) in Hgi.
      by apply bool_decide_eq_false in Hgi.
    + destruct (bt_modules _ _ _ _ _ Hb r Hin) as (Hsub & _). by eapply lookup_weaken.
Qed.

Lemma source_jump_iff id i j : source_jump level ignored (rs, es) id i j ↔
  level = BASICBLOCK ∧ ∃ r f cf F, r ∈ rs ∧ checked_in r f cf F ∧ cf_id cf = id ∧ jumps F i j.
Proof using Hb.
  split; (intros [Hlevel H]; split; [done|]).
  - destruct H as (r & F & Hin & HF & Hni & Hu & Hid & Hj). cbn [fst snd] in *.
    destruct (source_known r F Hin HF Hni (jumps_code _ _ _ Hj)) as (es0 & cf & F' & Hr & Hcf & HF' & Hbl & Hn & Hid').
    exists r, (fn_name F), cf, F'. split; [done|]. split; [|split; [congruence|by eapply jumps_blocks]].
    split; [done|]. split; [done|]. unfold checked_blocks, isIgnoredFunction, isIgnoredBlocksFunction.
    rewrite Hn, (an_ignored _ _ _ _ _ _ _ (cp_analysed _ _ _ _ _ Hr)), (an_unchecked _ _ _ _ _ _ _ (cp_analysed _ _ _ _ _ Hr)).
    rewrite !bool_decide_false by done. pose proof (jumps_code _ _ _ Hj) as Hd. unfold isDeclaration in *. by rewrite Hbl, Hd.
  - destruct H as (r & f & cf & F' & Hin & (Hcf & HF' & Hch) & <- & Hj).
    destruct (known_source r f cf Hin Hcf) as (F & F2 & es0 & Hr & HF2 & HF & <- & Hni & Hbl & Hn & Hid).
    assert (F2 = F') as -> by congruence. exists r, F. split_and!; try done; [|by eapply jumps_blocks].
    unfold checked_blocks, isIgnoredBlocksFunction in Hch.
    rewrite !andb_true_iff, !negb_true_iff, Hn, (an_unchecked _ _ _ _ _ _ _ (cp_analysed _ _ _ _ _ Hr)) in Hch.
    destruct Hch as [[_ Hu] _]. by apply bool_decide_eq_false in Hu.
Qed.

End Known.

(** ** The monitor knows them *)

Lemma graph_at_nonneg g i j x : graph_at g i j = Val x → 0 <= j.
Proof.
  unfold graph_at. destruct (deref g) as [rows| |]; [|done|done]. cbn [mbind res_bind].
  destruct (arr_get rows i) as [row| |]; [|done|done]. cbn [mbind res_bind].
  destruct (deref row) as [l| |]; [|done|done]. cbn [mbind res_bind]. intros [H _]%arr_get_Val. lia.
Qed.

(** In a module loaded from a binary. *)
Section Module.
Context (prefix : text) (level : Z) (ignored : gset (list byte)) (pe : py_env) (Hpe : py_env_ok pe).
Context (rs : list compiled) (es : list entry) (Hb : built prefix level ignored rs es).
Context (md : module_data) (Hwf : wf_module md).
Context (Hld : loaded (tables_of pe level es rs) true (tb_sections (tables_of pe level es rs)) md).
Context (data : monitor_data) (m : Z) (Hmd : module_at data m = Val md).

Let Hag : agrees level ignored rs es md := loaded_agrees prefix level ignored pe Hpe rs es Hb md Hld.

Lemma may_call_source i j : may_call data m i j = true ↔
  ∃ g, source_call ignored (rs, es) i g ∧ ids_of es !! g = Some j.
Proof using Hag Hmd.
  rewrite (source_call_iff prefix level ignored rs es Hb).
  by apply (may_call_iff prefix level ignored rs es Hb data m md).
Qed.

Lemma may_jump_source id i j : may_jump data m id i j = true ↔ source_jump level ignored (rs, es) id i j.
Proof using Hwf Hag Hpe Hld Hmd.
  rewrite (source_jump_iff prefix level ignored rs es Hb). split.
  - intros Hj. assert (Hid : ∃ f, ids_of es !! f = Some id).
    { unfold may_jump in Hj. rewrite Hmd in Hj. cbn [mbind res_bind] in Hj.
      destruct (function_at md id) as [fd| |] eqn:Hfd; [|done|done].
      destruct (function_known prefix level ignored pe Hpe rs es Hb md Hld Hwf id fd Hfd) as (f & Hf & _). by exists f. }
    destruct Hid as [f Hf].
    destruct (function_blocks prefix level ignored pe Hpe rs es Hb md Hld f id Hf)
      as (fd & Hfd & [Hz|[Hlevel (r & g & cf & F & Hr & Hch & Hid)]]).
    + exfalso. unfold may_jump in Hj. rewrite Hmd in Hj.
      cbn [mbind res_bind] in Hj. rewrite Hfd in Hj. cbn [mbind res_bind] in Hj. rewrite Hz in Hj.
      case_decide as Hneg; [done|]. destruct (graph_at _ i j) as [x| |] eqn:Hx; [|done|done].
      apply graph_at_nonneg in Hx. lia.
    + split; [done|]. exists r, g, cf, F. subst id. split_and!; try done.
      by apply (may_jump_iff prefix level ignored rs es Hb data m md Hmd Hag r g cf F i j Hlevel Hr Hch).
  - intros (Hlevel & r & g & cf & F & Hr & Hch & <- & Hj).
    by apply (may_jump_iff prefix level ignored rs es Hb data m md Hmd Hag r g cf F i j Hlevel Hr Hch).
Qed.

End Module.

Section Verdict.
Context (level : Z) (ignored : gset (list byte)) (pe : py_env) (Hpe : py_env_ok pe).
Context (L : list binary) (resolve : Z → list byte → Z) (Hlp : linked_program level ignored L resolve).
Context (k : Z) (data : monitor_data) (Hk : linked_upto level ignored pe L resolve k data).

(** The module loaded from a binary. *)
Lemma known_module m B : 0 <= m < k → binary_at L m = Some B → ∃ prefix md, module_at data m = Val md ∧
  built prefix level ignored B.1 B.2 ∧ loaded_from level pe B md ∧ wf_module md.
Proof using Hlp Hk.
  intros Hm HB. destruct (upto_module level ignored pe L resolve Hlp k data (proj1 Hk) m Hm)
    as (B' & prefix & md & HB' & Hmd & Hp & Hld & Hwf). assert (B' = B) as -> by congruence. by exists prefix, md.
Qed.

Lemma known_binary m : 0 <= m < k → ∃ B, binary_at L m = Some B.
Proof using Hlp Hk.
  intros Hm. destruct (upto_module level ignored pe L resolve Hlp k data (proj1 Hk) m Hm) as (B & _ & _ & HB & _).
  by exists B.
Qed.

Lemma linked_call m B i j : 0 <= m < k → binary_at L m = Some B →
  may_call data m i j = true ↔ ∃ g, source_call ignored B i g ∧ ids_of B.2 !! g = Some j.
Proof using Hpe Hlp Hk.
  intros Hm HB. destruct (known_module m B Hm HB) as (prefix & md & Hmd & Hp & Hld & Hwf). destruct B as [rs es].
  by apply (may_call_source prefix level ignored pe Hpe rs es Hp md Hld data m Hmd).
Qed.

Lemma linked_jump m B id i j : 0 <= m < k → binary_at L m = Some B →
  may_jump data m id i j = true ↔ source_jump level ignored B id i j.
Proof using Hpe Hlp Hk.
  intros Hm HB. destruct (known_module m B Hm HB) as (prefix & md & Hmd & Hp & Hld & Hwf). destruct B as [rs es].
  by apply (may_jump_source prefix level ignored pe Hpe rs es Hp md Hwf Hld data m Hmd).
Qed.

(** The traces are those of the source. *)
Lemma activation_source :
  (∀ m f tr, activation data m f tr → 0 <= m < k → source_activation level ignored L resolve m f tr) ∧
  (∀ m f b b' tr, body data m f b b' tr → 0 <= m < k → source_body level ignored L resolve m f b b' tr).
Proof using Hpe Hlp Hk.
  apply activation_body_ind.
  - intros m f b s1 tr s2 H1 H2 _ IH H3 H4 Hm. by econstructor; [| |apply IH| |].
  - intros. constructor.
  - intros m f b b' s1 s2 tr H1 H2 H3 H4 H5 Hj _ IH Hm. destruct (known_binary m Hm) as [B HB].
    apply (linked_jump m B) in Hj; [|done..]. by eapply source_body_jump; [..|apply IH].
  - intros m f b b' s1 tr1 s2 tr2 m' g' H1 Hc Ht _ IH1 H2 Hr _ IH2 Hm. destruct (known_binary m Hm) as [B HB].
    apply (linked_call m B) in Hc as (g & Hg & Hid); [|done..]. apply (linked_call m B) in Hr as (h & Hh & Hidh); [|done..].
    destruct (linked_target level ignored pe Hpe L resolve Hlp k data Hk m B g _ Hm HB Hid)
      as (B' & id' & HB' & _ & Hid' & Hr & Ht'). rewrite Ht in Ht'. injection Ht' as -> ->.
    eapply source_body_call; [done|exact HB|exact Hg|done|exact HB'|exact Hid'|by apply IH1|done|exact Hh|done|by apply IH2].
Qed.

Lemma source_activates :
  (∀ m f tr, source_activation level ignored L resolve m f tr → 0 <= m < k → activation data m f tr) ∧
  (∀ m f b b' tr, source_body level ignored L resolve m f b b' tr → 0 <= m < k → body data m f b b' tr).
Proof using Hpe Hlp Hk.
  apply source_ind.
  - intros m f b s1 tr s2 H1 H2 _ IH H3 H4 Hm. by econstructor; [| |apply IH| |].
  - constructor.
  - intros m f b b' B s1 s2 tr H1 H2 H3 H4 H5 HB Hj _ IH Hm. apply (linked_jump m B) in Hj; [|done..].
    by apply body_jump; [..|apply IH].
  - intros m f b b' B g B' g' h s1 tr1 s2 tr2 H1 HB Hg Hid HB' Hid' _ IH1 H2 Hh Hidh _ IH2 Hm.
    destruct (linked_target level ignored pe Hpe L resolve Hlp k data Hk m B g _ Hm HB Hid)
      as (B2 & id2 & HB2 & _ & Hid2 & Hr & Ht). assert (B2 = B') as -> by congruence. assert (id2 = g') as -> by congruence.
    eapply body_call; [done| |exact Ht|by apply IH1|done| |by apply IH2]; apply (linked_call m B); try done; eauto.
Qed.

(** The runs of the monitor are those of the source. *)
Lemma run_source tr : run_trace data tr ↔ source_run level ignored L resolve k tr.
Proof using Hpe Hlp Hk.
  split.
  - intros (m & f & He & Ha). destruct (module_at data m) as [md| |] eqn:Hmd;
      [|unfold entrypoint in He; by rewrite Hmd in He..].
    pose proof (upto_range level pe L k data (proj1 Hk) m md Hmd) as Hm. destruct (known_binary m Hm) as [B HB].
    destruct (known_module m B Hm HB) as (prefix & md' & Hmd' & Hp & Hld & Hwf). assert (md' = md) as -> by congruence.
    apply (entrypoint_binary prefix level ignored pe Hpe B.1 B.2 Hp md Hld Hwf data m f Hmd) in He as (g & Hs & Hg).
    exists m, B, g, f. do 4 (split; [done|]). by apply activation_source.
  - intros (m & B & g & f & Hm & HB & Hs & Hg & Ha). exists m, f. split; [|by apply source_activates].
    destruct (known_module m B Hm HB) as (prefix & md & Hmd & Hp & Hld & Hwf).
    apply (entrypoint_binary prefix level ignored pe Hpe B.1 B.2 Hp md Hld Hwf data m f Hmd). by exists g.
Qed.

End Verdict.
