(* ===== verification/Processes.v ===== *)
(** * From the sources of a program to the verdict

    The binaries of a program are compiled, their files are prelinked, their
    packets are loaded in order, each one followed by the runs of its
    constructors, and the process goes on with [main] and the destructors: the
    monitor accepts it exactly when its signals follow the sources. *)

From S2P Require Import Prelude CSem Wire CStack BlockStack CallStack.
From S2P Require Import MonitorRun RunSpec RunRefine RunTotal LoadSections Relocate Dot.
From S2P Require Import MonitorLoad LoadWf LoadTotal LoadFree LoadSpec Main Sessions LoadRuns LoadAnswers Failures LoadFailures LoadPackets Client Network MonitorLog.
From S2P Require Import Text Ir Pass Injector PassTable PassAnalysis PassFiles InjectSpec PassRun Exec.
From S2P Require Import Prelink PrelinkSpec LoadModule Build BuildSpec BuildPack Program RelocTotal Binary Linking Source.
From S2P Require Import MonitorData.
From Stdlib Require Import Strings.Byte.
From Stdlib Require Strings.String.
Import Strings.String.StringSyntax.
#[local] Open Scope string_scope.
#[local] Open Scope Z_scope.
#[local] Open Scope list_scope.

(** A session is traces in a row. *)
Lemma session_iff data n : ∀ sigs rest, session data n sigs rest ↔
  ∃ trs, length trs = n ∧ Forall (run_trace data) trs ∧ sigs = concat trs ++ rest.
Proof.
  induction n as [|n IH]; intros sigs rest; split.
  - intros H. inversion H; subst. by exists [].
  - intros ([|? ?] & Hn & _ & ->); [constructor|done].
  - intros H. inversion H as [|? tr sigs' ? Htr Hs]; subst. apply IH in Hs as (trs & <- & Htrs & ->).
    exists (tr :: trs). cbn. rewrite app_assoc. split; [done|]. split; [by constructor|done].
  - intros ([|tr trs] & Hn & Htrs & ->); [done|]. apply Forall_cons_1 in Htrs as [Htr Htrs]. cbn [concat].
    rewrite <- app_assoc. constructor; [done|]. apply IH. exists trs. cbn in Hn. split; [lia|done].
Qed.

(** The binaries with the numbers of their modules, from [m]. *)
Fixpoint numbered {A} (m : Z) (L : list A) : list (Z * A) :=
  match L with [] => [] | b :: L => (m, b) :: numbered (m + 1) L end.

Lemma binary_at_app L0 b L1 : binary_at (L0 ++ b :: L1) (Z.of_nat (length L0)) = Some b.
Proof. unfold binary_at. rewrite decide_True, Nat2Z.id by lia. by apply list_lookup_middle. Qed.

(** How many functions are run at exit, in all. *)
Definition nb_exits (L : list binary) : nat := sum_list ((λ b : binary, length (exit_functions b.1)) <$> L).

Section Processes.
Context (level : Z) (ignored : gset (list byte)) (pe : py_env) (Hpe : py_env_ok pe).

(** What is generated for a binary, and the packets of all of them. *)
Definition binary_prelinked (b : binary) : prelinked := prelinked_of pe level b.1 b.2 (Z.of_nat (length b.2)).
Definition program_packets (L : list binary) : list packet := concat ((λ b, init_packets (binary_prelinked b)) <$> L).

(** A program: [main] is in the last binary, the others do not know it; the
    functions that are run at exit can be counted. *)
Record whole_program (L : list binary) (resolve : Z → list byte → Z) : Prop := {
  wp_linked : linked_program level ignored L resolve;
  wp_main : ∃ L0 b, L = L0 ++ [b] ∧ lit "main" ∈ b.1 ≫= defined ignored ∧
    Forall (λ b' : binary, lit "main" ∉ b'.2.*1) L0;
  wp_exits : Z.of_nat (nb_exits L) < 2 ^ 32;
}.

Context (L : list binary) (resolve : Z → list byte → Z) (Hwp : whole_program L resolve).
Context (Hsmall : Forall small_packet (program_packets L)).

Let Hlp : linked_program level ignored L resolve := wp_linked _ _ Hwp.
Abbreviation linked := (linked_upto level ignored pe L resolve).
Abbreviation run := (source_run level ignored L resolve).

(** ** Packets *)

Definition module_of (b : binary) : list packet :=
  module_packets (char_array (le_bytes 4 (Z.of_nat (length b.2)))) (binary_tables_of level pe b).

Lemma packets_without_main (L0 : list binary) : Forall (λ b' : binary, lit "main" ∉ b'.2.*1) L0 →
  program_packets L0 = concat (module_of <$> L0).
Proof using Type.
  unfold program_packets. induction 1 as [|b L0 Hb _ IH]; [done|]. cbn [fmap list_fmap concat]. rewrite IH. f_equal.
  unfold binary_prelinked. by rewrite packets_build, decide_False, app_nil_r by done.
Qed.

Lemma whole_packets : program_packets L = concat (module_of <$> L) ++ [(CFI_LOADING_TERMINATED, [])].
Proof using Hwp.
  destruct (wp_main _ _ Hwp) as (L0 & b & HL & Hm & Hn).
  assert (Hb : lit "main" ∈ b.2.*1).
  { destruct (lp_built _ _ _ _ Hlp b) as [prefix Hp]; [rewrite HL; apply elem_of_app; right; by left|].
    by apply (bt_roles _ _ _ _ _ Hp). }
  unfold program_packets. rewrite HL, !fmap_app, !concat_app. fold (program_packets L0).
  rewrite packets_without_main by done. cbn [fmap list_fmap concat]. rewrite !app_nil_r.
  unfold binary_prelinked. rewrite packets_build, decide_True by done. by rewrite app_assoc.
Qed.

Lemma module_small b : b ∈ L → Forall small_packet (module_of b).
Proof using Hwp Hsmall.
  intros Hb. rewrite whole_packets in Hsmall. apply Forall_app in Hsmall as [Hs _].
  apply Forall_concat in Hs. rewrite Forall_fmap, Forall_elem_iff in Hs. by apply Hs.
Qed.

(** ** One more module *)

Section Load.
Context (opts : options) (Hdump : OPTION_sm_dump opts = false).

Lemma load_step k data b w rest : linked k data → binary_at L k = Some b → favourable w →
  w_load w = writes_of (module_of b) ++ rest → ∃ mon md w1 data',
    monitor_load_module opts data w = Val ((0, mon), w1) ∧
    compute_relocations_of_module mon (nb_modules mon - 1) false = Val (0, data') ∧ linked (k + 1) data' ∧
    module_at data' (nb_modules data' - 1) = Val md ∧
    nb_entrypoint_inits md = Z.of_nat (length (startup_functions b.1)) ∧
    w_load w1 = rest ∧ w_sig w1 = w_sig w ∧ favourable w1.
Proof using Hpe Hwp Hsmall Hdump.
  intros [Hk Hres] Hb Hw Hl. pose proof (binary_at_elem _ _ _ Hb) as Hin. pose proof (binary_at_bounds _ _ _ Hb) as Hkr.
  destruct (lp_built _ _ _ _ Hlp b Hin) as [prefix Hp]. pose proof (lp_nonempty _ _ _ _ Hlp b Hin) as Hne.
  pose proof (lp_few _ _ _ _ Hlp) as Hfew. pose proof (lu_nb _ _ _ _ _ Hk) as Hnb.
  destruct (load_module_spec opts data _ (binary_tables_of level pe b) rest w
    (binary_tables prefix level ignored pe Hpe b.1 b.2 Hp Hne) Hdump (lu_inv _ _ _ _ _ Hk) ltac:(lia) Hw (module_small b Hin) Hl)
    as (mon & md & w1 & Hrun & Hnb' & Hat & Hold & Hinv' & _ & _ & Hld & Hl1 & Hs1 & Hw1).
  assert (Hk' : loaded_upto level pe L (k + 1) mon).
  { split; [done|lia|]. intros m Hm. destruct (decide (m = k)) as [->|Hne'].
    - exists b, md. rewrite Hnb in Hat. done.
    - rewrite Hold by lia. apply (lu_modules _ _ _ _ _ Hk). lia. }
  destruct (compute_resolved level ignored pe Hpe L resolve Hlp (k + 1) mon k false Hk') as (data' & Hrel & Hk2 & Hr & Hoth); [lia|].
  destruct (lu_modules _ _ _ _ _ Hk2 k) as (b' & md' & Hb' & Hmd' & Hld'); [lia|]. assert (b' = b) as -> by congruence.
  exists mon, md', w1, data'. split; [done|]. rewrite Hnb', Hnb, Z.add_simpl_r. split; [done|]. split.
  - split; [done|]. intros m Hm. destruct (decide (m = k)) as [->|Hne']; [done|].
    intros b0 md0 f id Hb0 Hmd0. rewrite Hoth, Hold in Hmd0 by lia. apply (Hres m); [lia|done|done].
  - rewrite (lu_nb _ _ _ _ _ Hk2), Z.add_simpl_r. split; [done|]. split; [|done].
    rewrite (ld_inits _ _ _ _ Hld'). by apply (startup_count prefix level ignored pe Hpe b.1 b.2 Hp Hne).
Qed.

(** The log of a module: its packets, and its number before the fourth of their writes. *)
Definition module_logged (k : Z) (b : binary) (w w' : world) : Prop := ∃ begin rest,
  w_log w' = w_log w ++ module_log k begin rest ∧ begin ++ rest = writes_of (module_of b) ∧ (length begin <= 3)%nat.

(** After it, its constructors. *)
Lemma load_next k data b w rest : linked k data → binary_at L k = Some b → favourable w →
  w_load w = writes_of (module_of b) ++ rest → ∃ data' w1, linked (k + 1) data' ∧
    w_load w1 = rest ∧ w_sig w1 = w_sig w ∧ favourable w1 ∧ answered w w1 ∧ module_logged k b w w1 ∧
    ∀ fuel, modules_loop (S fuel) opts data w =
      (e ← run_times (length (startup_functions b.1)) opts data';
       if decide (e ≠ 0) then mret (e, data') else modules_loop fuel opts data') w1.
Proof using Hpe Hwp Hsmall Hdump.
  intros Hk Hb Hw Hl. destruct (load_step k data b w rest Hk Hb Hw Hl)
    as (mon & md & w1 & data' & Hrun & Hrel & Hk' & Hmd & Hn & Hl1 & Hs1 & Hw1).
  assert (Han : answered w w1) by (apply quiet_answered; [by eapply mute_load_module|done]).
  assert (Hlog : module_logged k b w w1).
  { destruct (load_module_log _ _ _ _ _ (lu_inv _ _ _ _ _ (proj1 Hk)) Hrun) as (begin & rest' & Hlog & Hload & Hlen).
    rewrite (lu_nb _ _ _ _ _ (proj1 Hk)) in Hlog. exists begin, rest'. split; [done|]. split; [|done].
    rewrite Hl, Hl1, app_assoc in Hload. by apply app_inv_tail in Hload. }
  exists data', w1. do 6 (split; [done|]). intros fuel. cbn [modules_loop].
  rewrite C_bind_eq, Hrun. cbn beta iota. rewrite decide_False by lia. rewrite decide_False by (by intros []).
  assert (Hstart : start_module opts mon w1 =
    (e ← run_times (length (startup_functions b.1)) opts data'; mret (e, data')) w1).
  { unfold start_module. rewrite C_bind_eq, Hrel, lift_Val. cbn beta iota. rewrite decide_False by (by intros []).
    rewrite C_bind_eq, Hmd, lift_Val. by rewrite Hn, Nat2Z.id. }
  rewrite C_bind_eq, Hstart, !C_bind_eq.
  destruct (run_times _ opts data' w1) as [[e w2]| |]; [|done|done]. by rewrite C_ret_eq.
Qed.

(** The end of the load. *)
Lemma load_last data w fuel : favourable w → w_load w = writes_of [(CFI_LOADING_TERMINATED, [])] →
  ∃ w', modules_loop (S fuel) opts data w = Val ((0, data), w') ∧ w_sig w' = w_sig w ∧ favourable w' ∧
    answered w w' ∧ w_log w' = w_log w ++ (Got PLoad <$> writes_of [(CFI_LOADING_TERMINATED, [])]).
Proof using Type.
  intros Hw Hl. destruct (read_packet CFI_LOADING_TERMINATED [] fresh_packet [] w) as (w' & Hread & Hl' & Hr);
    [done|by rewrite Hl; unfold writes_of; cbn|by apply favourable_in_place|done|].
  pose proof (reads_favourable _ _ Hr Hw) as Hw'. destruct Hr as (_ & _ & _ & Hs & _).
  destruct (FREE_packet_of CFI_LOADING_TERMINATED []) as (pkt & Hfree & _). exists w'.
  assert (Hterm : monitor_load_module opts data w = Val ((1, data), w')).
  { unfold monitor_load_module. rewrite C_bind_eq, Hread. cbn beta iota. rewrite decide_False by (by intros []).
    rewrite C_bind_eq, packet_of_event, lift_Val, loading_event_case_code. by rewrite C_bind_eq, Hfree, lift_Val. }
  assert (Han : answered w w') by (apply quiet_answered; [by eapply mute_load_module|done]).
  assert (Hlog : w_log w' = w_log w ++ (Got PLoad <$> writes_of [(CFI_LOADING_TERMINATED, [])])).
  { destruct (load_end_log _ _ _ _ _ Hterm) as (ps & Hlog & Hps & _). rewrite Hl, Hl', app_nil_r in Hps. by rewrite Hps. }
  split; [|done].
  cbn [modules_loop]. rewrite C_bind_eq, Hterm. cbn beta iota. by rewrite decide_True by lia.
Qed.

(** ** All the modules *)

(** Traces of the constructors of each binary: runs of the binaries loaded so far. *)
Definition startup_runs (m : Z) (L1 : list binary) (trs : list (list (list client_signal))) : Prop :=
  Forall2 (λ (x : Z * binary) ts, length ts = length (startup_functions x.2.1) ∧ Forall (run (x.1 + 1)) ts)
    (numbered m L1) trs.

(** The traces of the constructors of one binary. *)
Lemma run_times_source k data n w : linked k data → favourable w → Forall full_packet (w_sig w) →
  (∀ w', run_times n opts data w = Val (0, w') → ∃ ts, length ts = n ∧ Forall (run k) ts ∧
     signals w = concat ts ++ signals w') ∧
  (∀ ts rest, length ts = n → Forall (run k) ts → signals w = concat ts ++ rest → ∃ w',
     run_times n opts data w = Val (0, w') ∧ signals w' = rest ∧ favourable w' ∧ Forall full_packet (w_sig w') ∧
     w_load w' = w_load w ∧ answered w w' ∧ exchanged w w').
Proof using Hpe Hwp.
  intros Hk Hw Hps. pose proof (linked_run_ready level ignored pe Hpe L resolve Hlp k data Hk) as Hready.
  pose proof (run_source level ignored pe Hpe L resolve Hlp k data Hk) as Hrun. split.
  - intros w' Hr. assert (Hses : session data n (signals w) (signals w')).
    { apply (run_times_iff opts data Hready n w Hw Hps). by exists w'. }
    apply session_iff in Hses as (ts & Hn & Hts & Hsig). exists ts. split; [done|]. split; [|done].
    eapply Forall_impl; [|exact Hts]. intros tr. by apply Hrun.
  - intros ts rest Hn Hts Hsig. destruct (run_times_session_ok opts data Hready n w Hw Hps rest) as (w' & Hr & Hrest).
    { apply session_iff. exists ts. split; [done|]. split; [|done]. eapply Forall_impl; [|exact Hts]. intros tr. by apply Hrun. }
    destruct (run_times_exchanged opts data Hready n w w' Hw Hps Hr) as [Hx _]. exists w'. tauto.
Qed.

(** The log of a load, with the signals of each module. *)
Inductive load_log : Z → list binary → list (list (list byte)) → list action → Prop :=
| load_log_end m : load_log m [] [] (Got PLoad <$> writes_of [(CFI_LOADING_TERMINATED, [])])
| load_log_next m b L1 ps pss begin rest l :
    begin ++ rest = writes_of (module_of b) → (length begin <= 3)%nat → load_log (m + 1) L1 pss l →
    load_log m (b :: L1) (ps :: pss) (module_log m begin rest ++ (ps ≫= monitor_exchange) ++ l).

(** The modules of [L1], whose constructors have the traces [trs], were loaded between [w] and [w']. *)
Definition load_logged (m : Z) (L1 : list binary) (trs : list (list (list client_signal))) (w w' : world) : Prop := ∃ pss l,
  load_log m L1 pss l ∧ Forall2 (λ ps ts, signal_of_packet <$> ps = concat ts) pss trs ∧
  w_sig w = concat pss ++ w_sig w' ∧ w_log w' = w_log w ++ l.

Lemma load_logged_next m b L1 ts trs w1 w2 w3 w4 : module_logged m b w1 w2 → w_sig w2 = w_sig w1 → exchanged w2 w3 →
  signals w2 = concat ts ++ signals w3 → load_logged (m + 1) L1 trs w3 w4 → load_logged m (b :: L1) (ts :: trs) w1 w4.
Proof using Type.
  intros (begin & rest & Hl1 & Hb & Hn) Hs (ps & Hl2 & Hs2 & _) Hsig (pss & l & Hlog & Hall & Hs3 & Hl3).
  exists (ps :: pss), (module_log m begin rest ++ (ps ≫= monitor_exchange) ++ l). split_and!.
  - by constructor.
  - constructor; [|done]. unfold signals in Hsig. rewrite Hs2, fmap_app in Hsig. by apply app_inv_tail in Hsig.
  - cbn [concat]. by rewrite <- Hs, Hs2, Hs3, app_assoc.
  - by rewrite Hl3, Hl2, Hl1, <- !app_assoc.
Qed.

Lemma load_all L1 : ∀ L0 data w fuel, L = L0 ++ L1 → linked (Z.of_nat (length L0)) data → favourable w →
  Forall full_packet (w_sig w) →
  w_load w = writes_of (concat (module_of <$> L1) ++ [(CFI_LOADING_TERMINATED, [])]) → (length L1 < fuel)%nat →
  (∀ d w', modules_loop fuel opts data w = Val ((0, d), w') → ∃ trs,
     startup_runs (Z.of_nat (length L0)) L1 trs ∧ signals w = concat (concat trs) ++ signals w') ∧
  (∀ trs rest, startup_runs (Z.of_nat (length L0)) L1 trs → signals w = concat (concat trs) ++ rest → ∃ d w',
     modules_loop fuel opts data w = Val ((0, d), w') ∧ signals w' = rest ∧ linked (Z.of_nat (length L)) d ∧
     favourable w' ∧ Forall full_packet (w_sig w') ∧ answered w w' ∧ load_logged (Z.of_nat (length L0)) L1 trs w w').
Proof using Hpe Hwp Hsmall Hdump.
  induction L1 as [|b L1 IH]; intros L0 data w [|fuel] HL Hk Hw Hps Hl Hfuel; try (cbn in Hfuel; lia).
  - destruct (load_last data w fuel Hw Hl) as (w' & Hrun & Hs & Hw' & Han & Hlog). rewrite app_nil_r in HL. subst L0. split.
    + intros d w2 Hrun2. rewrite Hrun in Hrun2. injection Hrun2 as <- <-. exists []. split; [constructor|].
      unfold signals. by rewrite Hs.
    + intros trs rest Htrs Hsig. inversion Htrs; subst trs. exists data, w'. split; [done|].
      split; [unfold signals in *; by rewrite Hs|]. rewrite Hs. do 4 (split; [done|]). exists [], (Got PLoad <$> writes_of [(CFI_LOADING_TERMINATED, [])]). split; [constructor|].
      by rewrite Hs.
  - assert (Hb : binary_at L (Z.of_nat (length L0)) = Some b) by (rewrite HL; apply binary_at_app).
    cbn [fmap list_fmap concat] in Hl. rewrite <- app_assoc, writes_of_app in Hl.
    destruct (load_next _ data b w _ Hk Hb Hw Hl) as (data' & w1 & Hk' & Hl1 & Hs1 & Hw1 & Han1 & Hlog1 & Hloop).
    rewrite <- Hs1 in Hps. assert (Hsig1 : signals w = signals w1) by (unfold signals; by rewrite Hs1).
    destruct (run_times_source _ data' (length (startup_functions b.1)) w1 Hk' Hw1 Hps) as [Hback Hforth].
    rewrite Hloop, C_bind_eq, Hsig1. clear Hloop.
    specialize (IH (L0 ++ [b]) data'). rewrite length_app, Nat2Z.inj_add, <- app_assoc in IH. cbn [length app] in IH.
    split.
    + intros d w' Hrun. destruct (run_times _ opts data' w1) as [[e w2]| |] eqn:Hr; [|done|done].
      case_decide as He; [by injection Hrun|]. assert (e = 0) as -> by lia.
      destruct (Hback w2 eq_refl) as (ts & Hn & Hts & Hsig).
      destruct (Hforth ts (signals w2) Hn Hts Hsig) as (w3 & Hr3 & _ & Hw3 & Hps3 & Hl3 & _).
      injection Hr3 as <-. destruct (IH w2 fuel HL Hk' Hw3 Hps3 ltac:(congruence) ltac:(cbn in Hfuel; lia)) as [IH1 _].
      destruct (IH1 d w' Hrun) as (trs & Htrs & Hsig2). exists (ts :: trs). split; [by constructor|].
      cbn [concat]. by rewrite concat_app, Hsig, Hsig2, app_assoc.
    + intros trs rest Htrs Hsig. inversion Htrs as [|? ts ? trs' [Hn Hts] Htrs' Heq]; subst trs. cbn [fst snd] in *.
      cbn [concat] in Hsig. rewrite concat_app, <- app_assoc in Hsig.
      destruct (Hforth ts _ Hn Hts Hsig) as (w2 & Hr2 & Hsig2 & Hw2 & Hps2 & Hl2 & Han2 & Hx2). rewrite Hr2.
      rewrite decide_False by (by intros []).
      destruct (IH w2 fuel HL Hk' Hw2 Hps2 ltac:(congruence) ltac:(cbn in Hfuel; lia)) as [_ IH2].
      destruct (IH2 trs' rest Htrs' Hsig2) as (d & w' & Hrun & Hrest & Hd & Hw' & Hps' & Han' & Hlog'). exists d, w'.
      split_and!; try done; [by do 2 (etrans; [eassumption|])|]. eapply load_logged_next; [done..| |done]. congruence.
Qed.

(** The whole load. *)
Lemma load_whole w : favourable w → Forall full_packet (w_sig w) → w_load w = writes_of (program_packets L) →
  (∀ d w', monitor_load opts w = Val ((0, d), w') → ∃ trs, startup_runs 0 L trs ∧
     signals w = concat (concat trs) ++ signals w') ∧
  (∀ trs rest, startup_runs 0 L trs → signals w = concat (concat trs) ++ rest → ∃ d w',
     monitor_load opts w = Val ((0, d), w') ∧ signals w' = rest ∧ linked (Z.of_nat (length L)) d ∧
     favourable w' ∧ Forall full_packet (w_sig w') ∧ answered w w' ∧ load_logged 0 L trs w w').
Proof using Hpe Hwp Hsmall Hdump.
  intros Hw Hps Hl. rewrite whole_packets in Hl.
  assert (Hfuel : (length L < load_fuel w)%nat).
  { unfold load_fuel. rewrite Hl, writes_of_app, length_app. pose proof (writes_of_length (concat (module_of <$> L))).
    assert (length L <= length (concat (module_of <$> L)))%nat; [|lia].
    clear. induction L as [|b L' IH]; [done|]. cbn [fmap list_fmap concat length]. rewrite length_app.
    unfold module_of at 1, module_packets. cbn [length]. lia. }
  assert (Hempty : linked 0 (MonitorData 0 Null)).
  { split; [split; [split; [by left|done]|done|intros; lia]|intros; lia]. }
  destruct (load_all L [] (MonitorData 0 Null) w (load_fuel w) eq_refl Hempty Hw Hps Hl Hfuel) as [Hback Hforth].
  unfold monitor_load. rewrite C_bind_eq. split.
  - intros d w' Hrun. destruct (modules_loop _ opts _ w) as [[[e data] w1]| |] eqn:Hm; [|done|done]. cbn beta iota in Hrun.
    case_decide as He; [by injection Hrun|]. assert (e = 0) as -> by lia.
    destruct (relocate_all _ 0 data) as [[e2 d2]| |]; [|done|done]. rewrite lift_Val in Hrun. injection Hrun as _ _ <-.
    by eapply Hback.
  - intros trs rest Htrs Hsig. destruct (Hforth trs rest Htrs Hsig) as (data & w1 & Hm & Hsig1 & Hk & Hw1 & Hps1 & Han1 & Hlog1).
    rewrite Hm. cbn beta iota. rewrite decide_False by (by intros []). pose proof (lu_nb _ _ _ _ _ (proj1 Hk)) as Hnb.
    destruct (relocate_all_resolved level ignored pe Hpe L resolve Hlp (Z.to_nat (nb_modules data)) _ data 0 (proj1 Hk))
      as (data' & Hr & Hk'); [lia|lia|intros; lia|]. rewrite Hr, lift_Val. by exists data', w1.
Qed.

(** ** After the load *)

Lemma count_finis_linked data L1 : linked (Z.of_nat (length L)) data → ∀ L0 nb, L = L0 ++ L1 → 0 <= nb →
  nb + Z.of_nat (nb_exits L1) < 2 ^ 32 →
  count_finis (length L1) (Z.of_nat (length L0)) data nb = Val (nb + Z.of_nat (nb_exits L1)).
Proof using Hpe Hwp.
  intros Hk. induction L1 as [|b L1 IH]; intros L0 nb HL Hnb Hlt; cbn [count_finis length].
  { by rewrite Z.add_0_r. }
  assert (Hb : binary_at L (Z.of_nat (length L0)) = Some b) by (rewrite HL; apply binary_at_app).
  pose proof (binary_at_bounds _ _ _ Hb) as Hm.
  destruct (lp_built _ _ _ _ Hlp b (binary_at_elem _ _ _ Hb)) as [prefix Hp].
  destruct (known_module level ignored pe L resolve Hlp _ data Hk _ b Hm Hb) as (_ & md & Hmd & _ & Hld & _).
  assert (Hfin : nb_entrypoint_finis md = Z.of_nat (length (exit_functions b.1))).
  { rewrite (ld_finis _ _ _ _ Hld). apply (exit_count prefix level ignored pe Hpe b.1 b.2 Hp).
    by apply (lp_nonempty _ _ _ _ Hlp), (binary_at_elem _ _ _ Hb). }
  assert (Hcons : nb_exits (b :: L1) = (length (exit_functions b.1) + nb_exits L1)%nat) by done.
  rewrite Hcons in *. rewrite Hmd. cbn [mbind res_bind]. rewrite Hfin. unfold u32. rewrite Z.mod_small by lia.
  replace (Z.of_nat (length L0) + 1) with (Z.of_nat (length (L0 ++ [b]))) by (rewrite length_app; cbn; lia).
  rewrite IH; [f_equal; lia|by rewrite <- app_assoc|lia|lia].
Qed.

Lemma finis_linked data : linked (Z.of_nat (length L)) data →
  count_finis (Z.to_nat (nb_modules data)) 0 data 0 = Val (Z.of_nat (nb_exits L)).
Proof using Hpe Hwp.
  intros Hk. pose proof (count_finis_linked data L Hk [] 0 eq_refl ltac:(lia) (wp_exits _ _ Hwp)) as Hcount.
  rewrite (lu_nb _ _ _ _ _ (proj1 Hk)), Nat2Z.id. exact Hcount.
Qed.

(** [main] and the destructors, when everything is linked. *)
Lemma main_runs_source data w rest : linked (Z.of_nat (length L)) data → favourable w → Forall full_packet (w_sig w) →
  (∃ w', main_runs opts data w = Val (0, w') ∧ signals w' = rest) ↔ ∃ trs, length trs = S (nb_exits L) ∧
    Forall (run (Z.of_nat (length L))) trs ∧ signals w = concat trs ++ rest.
Proof using Hpe Hwp.
  intros Hk Hw Hps. pose proof (linked_run_ready level ignored pe Hpe L resolve Hlp _ data Hk) as Hready.
  pose proof (run_source level ignored pe Hpe L resolve Hlp _ data Hk) as Hrun.
  rewrite (main_runs_iff opts data Hready w _ _ Hw Hps (finis_linked data Hk)), Nat2Z.id, session_iff.
  assert (Hall : ∀ trs, Forall (run_trace data) trs ↔ Forall (run (Z.of_nat (length L))) trs).
  { intros trs. split; apply Forall_impl; intros tr; by apply Hrun. }
  by setoid_rewrite Hall.
Qed.

(** The verdict on a program. *)
Lemma whole_verdict w rest : favourable w → Forall full_packet (w_sig w) → w_load w = writes_of (program_packets L) →
  (∃ w', monitor_process opts 0 w = Val (0, w') ∧ signals w' = rest) ↔
  ∃ inits trs, startup_runs 0 L inits ∧ length trs = S (nb_exits L) ∧
    Forall (run (Z.of_nat (length L))) trs ∧ signals w = concat (concat inits) ++ concat trs ++ rest.
Proof using Hpe Hwp Hsmall Hdump.
  intros Hw Hps Hl. destruct (load_whole w Hw Hps Hl) as [Hback Hforth].
  assert (Hgo : ∀ d w1 w', linked (Z.of_nat (length L)) d → monitor_load opts w = Val ((0, d), w1) →
    monitor_process opts 0 w = Val (0, w') ↔ main_runs opts d w1 = Val (0, w')).
  { intros d w1 w' Hk Hload. apply (process_runs_iff opts w d w1 w' Hload); [apply Hk|].
    rewrite (lu_nb _ _ _ _ _ (proj1 Hk)). destruct (wp_main _ _ Hwp) as (L0 & b & -> & _). rewrite length_app. cbn. lia. }
  split.
  - intros (w' & Hproc & Hrest). pose proof Hproc as (d & w1 & Hload & _)%monitor_process_inv.
    destruct (Hback d w1 Hload) as (inits & Hi & Hsig).
    destruct (Hforth inits (signals w1) Hi Hsig) as (d2 & w2 & Hload2 & _ & Hk & Hw2 & Hps2 & _).
    rewrite Hload in Hload2. injection Hload2 as <- <-. apply (Hgo d w1 w' Hk Hload) in Hproc.
    destruct (proj1 (main_runs_source d w1 rest Hk Hw2 Hps2)) as (trs & Hn & Htrs & Hsig1); [by exists w'|].
    exists inits, trs. do 3 (split; [done|]). by rewrite <- Hsig1.
  - intros (inits & trs & Hi & Hn & Htrs & Hsig).
    destruct (Hforth inits (concat trs ++ rest) Hi Hsig) as (d & w1 & Hload & Hsig1 & Hk & Hw1 & Hps1 & _).
    setoid_rewrite (λ w', Hgo d w1 w' Hk Hload). apply (main_runs_source d w1 rest Hk Hw1 Hps1). by exists trs.
Qed.

(** What is accepted follows the sources, whatever fails. *)
Lemma whole_sound w w' : Forall full_packet (w_sig w) → w_load w = writes_of (program_packets L) →
  monitor_process opts 0 w = Val (0, w') →
  ∃ inits trs, startup_runs 0 L inits ∧ length trs = S (nb_exits L) ∧
    Forall (run (Z.of_nat (length L))) trs ∧ signals w = concat (concat inits) ++ concat trs ++ signals w'.
Proof using Hpe Hwp Hsmall Hdump.
  intros Hps Hl (d0 & w1 & Hload & Hruns)%monitor_process_inv.
  destruct (load_whole (settled w) (settled_favourable w) Hps Hl) as [Hback Hforth].
  apply (monitor_load_settled opts _ _ _ Hdump) in Hload as (d & Hload & Hd). apply (main_runs_le _ _ _ _ _ Hd) in Hruns.
  destruct (Hback d (settled w1) Hload) as (inits & Hi & Hsig).
  destruct (Hforth inits (signals w1) Hi Hsig) as (d2 & w2 & Hload2 & _ & Hk & Hw2 & Hps2 & _).
  rewrite Hload in Hload2. injection Hload2 as <- <-.
  pose proof (linked_run_ready level ignored pe Hpe L resolve Hlp _ d Hk) as Hready.
  pose proof (main_runs_sound opts d w1 _ w' Hready Hps2 (finis_linked d Hk) Hruns) as Hses.
  rewrite Nat2Z.id in Hses. apply session_iff in Hses as (trs & Hn & Htrs & Hsig1). exists inits, trs.
  split; [done|]. split; [done|]. split; [|by rewrite <- Hsig1].
  eapply Forall_impl; [|exact Htrs]. intros tr. by apply (run_source level ignored pe Hpe L resolve Hlp _ d Hk).
Qed.

(** What it answers: the numbers of the modules, in order, and to each signal it
    has taken. *)
Lemma whole_answers w w' : favourable w → Forall full_packet (w_sig w) → w_load w = writes_of (program_packets L) →
  monitor_process opts 0 w = Val (0, w') → answered w w' ∧
  load_answers (w_out w') = load_answers (w_out w) ++ (module_number <$> seqZ 0 (Z.of_nat (length L))).
Proof using Hpe Hwp Hsmall Hdump.
  intros Hw Hps Hl Hproc. pose proof Hproc as (d & w1 & Hload & Hruns)%monitor_process_inv.
  destruct (monitor_process_answers _ _ _ _ Hproc) as (d0 & w0 & Hload0 & Ha).
  rewrite Hload in Hload0. injection Hload0 as <- <-.
  destruct (load_whole w Hw Hps Hl) as [Hback Hforth]. destruct (Hback d w1 Hload) as (inits & Hi & Hsig).
  destruct (Hforth inits (signals w1) Hi Hsig) as (d2 & w2 & Hload2 & _ & Hk & Hw2 & Hps2 & Han & _).
  rewrite Hload in Hload2. injection Hload2 as <- <-. rewrite <- (lu_nb _ _ _ _ _ (proj1 Hk)). split; [|done].
  pose proof (linked_run_ready level ignored pe Hpe L resolve Hlp _ d Hk) as Hready.
  destruct (main_runs_accepted opts d Hready w1 _ w' Hw2 Hps2 (finis_linked d Hk) Hruns) as [_ Han2]. by etrans.
Qed.

(** What it does on the pipes, in order. *)
Lemma whole_log w inits rest w' : favourable w → Forall full_packet (w_sig w) → w_load w = writes_of (program_packets L) →
  startup_runs 0 L inits → signals w = concat (concat inits) ++ rest → monitor_process opts 0 w = Val (0, w') → ∃ pss l ps,
    load_log 0 L pss l ∧ Forall2 (λ ps ts, signal_of_packet <$> ps = concat ts) pss inits ∧
    w_sig w = concat pss ++ ps ++ w_sig w' ∧
    w_log w' = w_log w ++ l ++ (Sent PSig <$> replicate (nb_preloaded opts) ok_bytes) ++ (ps ≫= monitor_exchange).
Proof using Hpe Hwp Hsmall Hdump.
  intros Hw Hps Hl Hi Hsig Hproc. pose proof Hproc as (d & w1 & Hload & Hruns)%monitor_process_inv.
  destruct (load_whole w Hw Hps Hl) as [_ Hforth].
  destruct (Hforth inits rest Hi Hsig) as (d2 & w2 & Hload2 & _ & Hk & Hw2 & Hps2 & _ & pss & l & Hlog & Hall & Hs & Hl1).
  rewrite Hload in Hload2. injection Hload2 as <- <-.
  pose proof (linked_run_ready level ignored pe Hpe L resolve Hlp _ d Hk) as Hready.
  destruct (main_runs_log opts d Hready w1 w' Hw2 Hps2 Hruns) as (ps & Hl2 & Hs2). exists pss, l, ps.
  split_and!; [done..|by rewrite Hs, Hs2|]. by rewrite Hl2, Hl1, <- !app_assoc.
Qed.

End Load.

(** ** Executions *)

(** Each of the functions [fs], given with its module, was run once, with the
    signals given. *)
Definition executions (fs : list (Z * list byte)) (xs : list (Z * list byte * list client_signal)) : Prop :=
  xs.*1 ≡ₚ fs ∧ Forall (λ x, ∃ d, runs (binary_at L) resolve d x.1.1 x.1.2 x.2) xs.

(** Functions of the binaries, with their modules. *)
Definition in_module (fs : list compiled → list (list byte)) (x : Z * binary) : list (Z * list byte) :=
  (λ f, (x.1, f)) <$> fs x.2.1.

Lemma numbered_elem L1 : ∀ L0 x, L = L0 ++ L1 → x ∈ numbered (Z.of_nat (length L0)) L1 → binary_at L x.1 = Some x.2.
Proof using Type.
  induction L1 as [|b L1 IH]; intros L0 x HL; cbn [numbered]; [by intros []%elem_of_nil|].
  intros [->|Hx]%elem_of_cons; [cbn; rewrite HL; apply binary_at_app|]. apply (IH (L0 ++ [b])).
  - by rewrite <- app_assoc.
  - rewrite length_app. cbn [length]. by rewrite Nat2Z.inj_add.
Qed.

(** Monitors that have loaded the first binaries exist. *)
Lemma linked_exists (k : nat) : (k <= length L)%nat → ∃ data, linked (Z.of_nat k) data.
Proof using Hpe Hwp Hsmall.
  induction k as [|k IH]; intros Hk.
  { exists (MonitorData 0 Null). split; [split; [split; [by left|done]|done|intros; lia]|intros; lia]. }
  destruct IH as [data Hd]; [lia|]. destruct (binary_at_exists L (Z.of_nat k)) as [b Hb]; [lia|].
  destruct (load_step (Options false false 0 false) eq_refl (Z.of_nat k) data b
    (World [] [] [] [] (writes_of (module_of b) ++ []) []) [] Hd Hb) as (_ & _ & _ & data' & _ & _ & Hd' & _).
  - by repeat split; constructor.
  - done.
  - exists data'. by rewrite Nat2Z.inj_succ.
Qed.

(** An execution of a function that starts is a run. *)
Lemma runs_source d m B f tr : binary_at L m = Some B → starting B.1 f → f ∈ B.1 ≫= defined ignored →
  runs (binary_at L) resolve d m f tr → run (m + 1) tr.
Proof using Hpe Hwp Hsmall.
  intros HB Hs Hf Hrun. pose proof (binary_at_bounds _ _ _ HB) as Hm. destruct (linked_exists (length L)) as [data Hk]; [done|].
  destruct (lp_built _ _ _ _ Hlp B (binary_at_elem _ _ _ HB)) as [prefix Hp].
  destruct (defined_id prefix level ignored B.1 B.2 Hp f Hf) as [id Hid].
  exists m, B, f, id. split; [lia|]. do 3 (split; [done|]). destruct B as [rs es].
  apply (activation_source level ignored pe Hpe L resolve Hlp _ data Hk); [|lia].
  by apply (runs_activation level ignored (binary_at L) resolve _ data d
    (linked_process level ignored pe Hpe L resolve Hlp _ data Hk) m rs es f id tr).
Qed.

Lemma run_mono k k' tr : k <= k' → run k tr → run k' tr.
Proof using Type. intros Hk (m & B & f & id & Hm & Hrest). exists m, B, f, id. split; [lia|done]. Qed.

(** Executions of functions that start, in modules up to [k]. *)
Lemma executions_runs k fs xs : executions fs xs →
  (∀ m f, (m, f) ∈ fs → m < k ∧ ∃ B, binary_at L m = Some B ∧ starting B.1 f ∧ f ∈ B.1 ≫= defined ignored) →
  length xs.*2 = length fs ∧ Forall (run k) xs.*2.
Proof using Hpe Hwp Hsmall.
  intros [Hp Hx] Hs. rewrite Forall_elem_iff in Hx. split; [rewrite <- Hp; by rewrite !length_fmap|].
  apply Forall_fmap, Forall_elem_iff. intros [[m f] tr] Hin. destruct (Hx _ Hin) as [d Hd]. cbn [fst snd] in *.
  destruct (Hs m f) as (Hm & B & HB & Hst & Hf).
  { rewrite <- Hp. apply list_elem_of_fmap. by exists (m, f, tr). }
  apply (run_mono (m + 1)); [lia|]. by eapply runs_source.
Qed.

Lemma in_module_starting x m f (fs : list compiled → list (list byte)) : binary_at L x.1 = Some x.2 →
  (∀ rs g, g ∈ fs rs → g ∈ startup_functions rs ∨ g ∈ exit_functions rs) → (m, f) ∈ in_module fs x →
  m = x.1 ∧ binary_at L m = Some x.2 ∧ starting x.2.1 f ∧ f ∈ x.2.1 ≫= defined ignored.
Proof using Hwp.
  intros HB Hfs (g & [= -> ->] & Hg%Hfs)%list_elem_of_fmap. split; [done|]. split; [done|].
  destruct (lp_built _ _ _ _ Hlp x.2 (binary_at_elem _ _ _ HB)) as [prefix Hp].
  split; [destruct Hg; [by left|by right; left]|by apply (starting_defined prefix level ignored x.2.1 x.2.2 Hp)].
Qed.

(** The program ran: the constructors of each binary in turn, [main], the
    destructors of all the binaries. *)
Record execution (inits : list (list (Z * list byte * list client_signal)))
    (xs_main finis : list (Z * list byte * list client_signal)) : Prop := {
  ex_inits : Forall2 (λ x xs, executions (in_module startup_functions x) xs) (numbered 0 L) inits;
  ex_main : executions [(Z.of_nat (length L) - 1, lit "main")] xs_main;
  ex_finis : executions (numbered 0 L ≫= in_module exit_functions) finis;
}.

Lemma inits_runs L1 : ∀ L0 inits, L = L0 ++ L1 →
  Forall2 (λ x xs, executions (in_module startup_functions x) xs) (numbered (Z.of_nat (length L0)) L1) inits →
  startup_runs (Z.of_nat (length L0)) L1 ((λ xs, xs.*2) <$> inits).
Proof using Hpe Hwp Hsmall.
  induction L1 as [|b L1 IH]; intros L0 inits HL Hi; inversion Hi as [|? xs ? inits' Hx Hi' Heq]; subst inits; [constructor|].
  assert (Hb : binary_at L (Z.of_nat (length L0)) = Some b) by (rewrite HL; apply binary_at_app).
  specialize (IH (L0 ++ [b]) inits'). rewrite length_app, Nat2Z.inj_add, <- app_assoc in IH. cbn [length app] in IH.
  apply Forall2_cons; [|by apply IH].
  destruct (executions_runs (Z.of_nat (length L0) + 1) _ _ Hx) as [Hn Hruns].
  - intros m f (-> & Hm & Hs & Hf)%(in_module_starting (Z.of_nat (length L0), b) _ _ startup_functions Hb); [|by left].
    cbn [fst]. split; [lia|]. by exists b.
  - rewrite Hn. unfold in_module. by rewrite length_fmap.
Qed.

Lemma exits_length L1 : ∀ m, length (numbered m L1 ≫= in_module exit_functions) = nb_exits L1.
Proof using Type.
  induction L1 as [|b L1 IH]; intros m; [done|]. cbn [numbered]. rewrite bind_cons, length_app, IH.
  unfold in_module. by rewrite length_fmap.
Qed.

(** The binary of [main]. *)
Lemma whole_main : ∃ b, binary_at L (Z.of_nat (length L) - 1) = Some b ∧ lit "main" ∈ b.1 ≫= defined ignored.
Proof using Hwp.
  destruct (wp_main _ _ Hwp) as (L0 & b & HL & Hmain & _). exists b. split; [|done]. rewrite HL at 1.
  replace (Z.of_nat (length L) - 1) with (Z.of_nat (length L0)); [apply binary_at_app|].
  rewrite HL, length_app. cbn [length]. lia.
Qed.

(** The signals of an execution of the program are accepted. *)
Lemma whole_accepted opts w inits xs_main finis : OPTION_sm_dump opts = false →
  favourable w → Forall full_packet (w_sig w) → w_load w = writes_of (program_packets L) →
  execution inits xs_main finis → signals w = concat (concat inits ++ xs_main ++ finis).*2 →
  ∃ w', monitor_process opts 0 w = Val (0, w') ∧ signals w' = [].
Proof using Hpe Hwp Hsmall.
  intros Hdump Hw Hps Hl [Hi Hm Hf] Hsig. apply (whole_verdict opts Hdump w [] Hw Hps Hl).
  destruct whole_main as (b & Hb & Hmain).
  destruct (executions_runs (Z.of_nat (length L)) _ _ Hm) as [Hnm Hrm].
  { intros m f [= -> ->]%list_elem_of_singleton. split; [lia|]. exists b. split; [done|]. split; [by right; right|done]. }
  destruct (executions_runs (Z.of_nat (length L)) _ _ Hf) as [Hnf Hrf].
  { intros m f (x & Hin & Hx)%list_elem_of_bind. apply (numbered_elem L [] x eq_refl) in Hx.
    destruct (in_module_starting x m f exit_functions Hx) as (-> & HB & Hs & Hd); [by right|done|].
    split; [apply binary_at_bounds in HB; lia|]. by exists x.2. }
  exists ((λ xs, xs.*2) <$> inits), (xs_main ++ finis).*2. split; [by apply (inits_runs L [])|].
  rewrite fmap_app, length_app, Hnm, Hnf, exits_length. split; [done|]. split; [by apply Forall_app|].
  rewrite Hsig, !fmap_app, !concat_app, app_nil_r. f_equal. clear. induction inits as [|xs inits IH]; [done|].
  cbn [concat fmap list_fmap]. by rewrite fmap_app, !concat_app, IH.
Qed.

End Processes.

(** ** One binary *)

(** A binary that is a program of its own: [main] is there, and every function
    that is not ignored is defined. *)
Lemma single_program prefix level ignored rs es : built prefix level ignored rs es →
  Forall (disciplined ignored) rs → (∀ f, f ∈ es.*1 → f ∈ rs ≫= defined ignored) →
  lit "main" ∈ rs ≫= defined ignored → Z.of_nat (length (exit_functions rs)) < 2 ^ 32 →
  whole_program level ignored [(rs, es)] (λ _ _, 0).
Proof.
  intros Hb Hdis Hclosed Hmain Hexits.
  assert (Hat : ∀ m b, binary_at [(rs, es)] m = Some b → m = 0 ∧ b = (rs, es)).
  { intros m b Hm. pose proof (binary_at_bounds _ _ _ Hm) as Hr. cbn in Hr. assert (m = 0) as -> by lia. split; [done|].
    unfold binary_at in Hm. rewrite decide_True in Hm by lia. by injection Hm. }
  split; [split| |].
  - intros b ->%list_elem_of_singleton. by exists prefix.
  - by intros b ->%list_elem_of_singleton.
  - intros b ->%list_elem_of_singleton. cbn [snd]. intros ->. by apply (proj2 (bt_roles _ _ _ _ _ Hb)), elem_of_nil in Hmain.
  - done.
  - intros b ->%list_elem_of_singleton. by intros _.
  - by intros m b f [-> ->]%Hat.
  - intros m b f [-> ->]%Hat Hf Hn. by destruct Hn; apply Hclosed.
  - exists [], (rs, es). by repeat split.
  - unfold nb_exits. cbn [fmap list_fmap sum_list]. cbn. rewrite Nat.add_0_r. exact Hexits.
Qed.
