(* ===== verification/StartupSpec.v ===== *)
(** * What the startup code does

    The constructor of a binary, in any world: either it connects, sends all
    its packets, takes its module number and goes on with the constructors of
    the program, or it aborts before any code of the program is run.  The
    wrappers call the constructors and the destructors of the binary, each
    once. *)

From S2P Require Import Prelude CSem Wire Client Dot Text Ir Pass PassTable PassFiles Prelink PrelinkSpec Startup.
From S2P Require Import LoadPackets LoadModule Build BuildSpec BuildPack Program Binary LoadAnswers.
From Stdlib Require Import Strings.Byte.
From Stdlib Require Strings.String.
Import Strings.String.StringSyntax.
#[local] Open Scope string_scope.
#[local] Open Scope Z_scope.
#[local] Open Scope list_scope.

(** ** The environment *)

Lemma strtol_percent_u z : 0 <= z < 2 ^ 63 → strtol (percent_u z) = z.
Proof.
  intros Hz. destruct (percent_u_head z) as (b & s & E & H1 & H2 & Hb). unfold strtol.
  pose proof (skip_word (percent_u z) [] (percent_u_word z)) as Hs. rewrite app_nil_r in Hs. rewrite Hs.
  assert (Hd : span is_digit (percent_u z) = (percent_u z, [])).
  { rewrite <- (app_nil_r (percent_u z)) at 1. by apply span_stop; [apply percent_u_digits|]. }
  rewrite E in *. rewrite !bool_decide_false by done. rewrite Hd. cbn [fst]. rewrite <- E, digits_value_percent_u by lia.
  cbn [default from_option id]. lia.
Qed.

(** The descriptors of the client process. *)
Definition wf_descriptors (fds : descriptors) : Prop :=
  0 <= fd_client_to_monitor fds < 2 ^ 31 ∧ 0 <= fd_monitor_to_client fds < 2 ^ 31 ∧
  0 <= fd_loading_to_monitor fds < 2 ^ 31 ∧ 0 <= fd_monitor_to_loading fds < 2 ^ 31.

Lemma get_fd_printed env n fd : 0 <= fd < 2 ^ 31 → env !! n = Some (percent_u (u32 fd)) → get_fd env n = Some fd.
Proof.
  intros Hfd Hn. unfold get_fd. rewrite Hn. cbn [mbind option_bind].
  assert (Hu : u32 fd = fd) by (unfold u32; apply Z.mod_small; lia).
  rewrite Hu, strtol_percent_u by lia.
  assert (Hs : s32 fd = fd) by (unfold s32; rewrite Hu; by rewrite decide_True by lia).
  rewrite Hs. by rewrite decide_False by lia.
Qed.

Section Support.
Context {S : Type} (assign : (client_state → client_state) → S → S).

(** The constructor finds the descriptors that the monitor program left. *)
Lemma connect_environment fds env st w : wf_descriptors fds →
  connect (client_environment fds env) assign st w =
    Val ((Returned, assign (__CFI_SET_FDS (fd_client_to_monitor fds) (fd_monitor_to_client fds)) st), w).
Proof using Type.
  intros (H1 & H2 & H3 & H4). unfold connect.
  rewrite (get_fd_printed _ ENV_FD_LOADING_TO_MONITOR (fd_loading_to_monitor fds)); [|done|].
  2: { unfold client_environment. rewrite lookup_insert_ne by done. by rewrite lookup_insert_eq. }
  rewrite (get_fd_printed _ ENV_FD_MONITOR_TO_LOADING (fd_monitor_to_loading fds)); [|done|].
  2: { unfold client_environment. by rewrite lookup_insert_eq. }
  rewrite (get_fd_printed _ ENV_FD_CLIENT_TO_MONITOR (fd_client_to_monitor fds)); [|done|].
  2: { unfold client_environment. rewrite !lookup_insert_ne by done. by rewrite lookup_insert_eq. }
  rewrite (get_fd_printed _ ENV_FD_MONITOR_TO_CLIENT (fd_monitor_to_client fds)); [done|done|].
  unfold client_environment. rewrite !lookup_insert_ne by done. by rewrite lookup_insert_eq.
Qed.

Lemma connect_cases env st w : (∃ c2m m2c, 0 <= c2m ∧ 0 <= m2c ∧
    connect env assign st w = Val ((Returned, assign (__CFI_SET_FDS c2m m2c) st), w)) ∨
  connect env assign st w = Val ((Aborted, st), w).
Proof using Type.
  assert (Hpos : ∀ n fd, get_fd env n = Some fd → 0 <= fd).
  { intros n fd. unfold get_fd. destruct (env !! n); [|done]. cbn. case_decide; [done|]. intros [= <-]. lia. }
  unfold connect.
  destruct (get_fd env ENV_FD_LOADING_TO_MONITOR); [|by right].
  destruct (get_fd env ENV_FD_MONITOR_TO_LOADING); [|by right].
  destruct (get_fd env ENV_FD_CLIENT_TO_MONITOR) as [c2m|] eqn:E1; [|by right].
  destruct (get_fd env ENV_FD_MONITOR_TO_CLIENT) as [m2c|] eqn:E2; [|by right].
  left. exists c2m, m2c. split; [by eapply Hpos|]. split; [by eapply Hpos|done].
Qed.

End Support.

(** ** Sequences *)

Section Sequences.
Context {S : Type}.
Implicit Types (c : client_code S) (cs : list (client_code S)).

Lemma and_then_eq c1 c2 st w : and_then c1 c2 st w =
  match c1 st w with
  | Val ((Returned, st'), w') => c2 st' w'
  | Val ((Aborted, st'), w') => Val ((Aborted, st'), w')
  | Undef u => Undef u
  | NoFuel => NoFuel
  end.
Proof using Type. unfold and_then. rewrite C_bind_eq. by destruct (c1 st w) as [[[[] ?] ?]| |]. Qed.

Lemma in_sequence_app cs1 cs2 : ∀ st w, in_sequence (cs1 ++ cs2) st w = and_then (in_sequence cs1) (in_sequence cs2) st w.
Proof using Type.
  induction cs1 as [|c cs1 IH]; intros st w; cbn [app in_sequence]; rewrite !and_then_eq; [done|].
  destruct (c st w) as [[[[] st'] w']| |]; [|done..]. by rewrite IH, and_then_eq.
Qed.

Lemma in_sequence_one c st w : in_sequence [c] st w = c st w.
Proof using Type. cbn [in_sequence]. rewrite and_then_eq. by destruct (c st w) as [[[[] ?] ?]| |]. Qed.

(** The constructor, step by step. *)
Definition sends (ps : list packet) : list (client_code S) := (λ x : packet, send_packet x.1 x.2) <$> ps.

End Sequences.

Section Steps.
Context (env : environment) (p : prelinked) {S : Type} (assign : (client_state → client_state) → S → S).
Context (call : name → client_code S).

Definition template_steps (t : template) : list (client_code S) :=
  match t with
  | TEMPLATE_MAIN =>
      [connect env assign; send_packet CFI_LOADING_MODULE_BEGIN (char_array (s_cfi p)); receive_module_id assign] ++
      sends [(CFI_LOADING_SECTION_FUNCTION_ID, char_array (s_fctids p));
             (CFI_LOADING_SECTION_FUNCTION_TRANSITION, char_array (s_callgraph p))]
  | TEMPLATE_SEND_BB => sends ((λ d, (CFI_LOADING_SECTION_BLOCK_TRANSITION, d)) <$> default [] (fst <$> s_bb p))
  | TEMPLATE_SEND_BB_IPD => sends [(CFI_LOADING_SECTION_BLOCK_IPD, char_array (default [] (snd <$> s_bb p)))]
  | TEMPLATE_MAIN_END => sends [(CFI_LOADING_MODULE_END, [])]
  | TEMPLATE_MAIN_TERMINATED => sends [(CFI_LOADING_TERMINATED, [])]
  | CALL_INIT_WRAPPER => [_init_wrapper p call]
  end.

Lemma template_steps_eq t st w : run_template env p assign call t st w = in_sequence (template_steps t) st w.
Proof using Type.
  destruct t; cbn [run_template template_steps sends fmap list_fmap app fst snd]; rewrite ?in_sequence_one; try done.
  unfold sends. by rewrite <- list_fmap_compose.
Qed.

Lemma templates_steps_eq ts : ∀ st w,
  in_sequence (run_template env p assign call <$> ts) st w = in_sequence (concat (template_steps <$> ts)) st w.
Proof using Type.
  induction ts as [|t ts IH]; intros st w; [done|]. cbn [fmap list_fmap concat in_sequence].
  rewrite in_sequence_app, !and_then_eq, template_steps_eq.
  by destruct (in_sequence (template_steps t) st w) as [[[[] st'] w']| |]; [apply IH|..].
Qed.

Lemma init_cfi_steps st w : _init_cfi env p assign call st w =
  in_sequence ([connect env assign; send_packet CFI_LOADING_MODULE_BEGIN (char_array (s_cfi p)); receive_module_id assign] ++
    sends (tail (init_packets p)) ++ [_init_wrapper p call]) st w.
Proof using Type.
  unfold _init_cfi. rewrite templates_steps_eq.
  match goal with |- in_sequence ?l1 st w = in_sequence ?l2 st w => enough (l1 = l2) as -> by done end.
  unfold gen_ctor, init_packets. destruct (s_bb p) as [[bb ipd]|] eqn:Ebb;
    [rewrite bool_decide_true by done|rewrite bool_decide_false by (by intros [])];
    destruct (has_main p); cbn [app fmap list_fmap concat template_steps tail]; rewrite ?Ebb;
    cbn [fmap option_fmap option_map fst snd default from_option id]; unfold sends;
    rewrite ?fmap_app; cbn [fmap list_fmap app]; rewrite ?fmap_app;
    rewrite <- ?app_assoc; done.
Qed.

End Steps.

(** ** Packets *)

(** Between [w] and [w'] nothing was read: the log is that of the effects. *)
Definition spoke (w w' : world) : Prop := ∃ es, w_out w' = w_out w ++ es ∧ w_log w' = w_log w ++ (es ≫= sent_of).

#[export] Instance spoke_preorder : PreOrder spoke.
Proof.
  split; [intros w; exists []; by rewrite !app_nil_r|]. intros w1 w2 w3 (es1 & O1 & L1) (es2 & O2 & L2).
  exists (es1 ++ es2). by rewrite O2, O1, L2, L1, bind_app, !app_assoc.
Qed.

(** The packets that were written are in the log. *)
Lemma spoke_load w w' bs : spoke w w' → w_out w' = w_out w ++ (OLoad <$> bs) → w_log w' = w_log w ++ (Sent PLoad <$> bs).
Proof.
  intros (es & Ho & ->) Hb. rewrite Ho in Hb. apply (inj (app _)) in Hb. subst es. f_equal.
  clear. induction bs as [|b bs IH]; [done|]. cbn. by f_equal.
Qed.

(** A computation that uses the answers to writes only. *)
Definition kept (w w' : world) : Prop :=
  w_load w' = w_load w ∧ w_sig w' = w_sig w ∧ w_write w' `suffix_of` w_write w ∧ spoke w w'.

#[export] Instance kept_preorder : PreOrder kept.
Proof.
  split; [by intros w|]. intros w1 w2 w3 (? & ? & ? & ?) (? & ? & ? & ?). unfold kept.
  split_and!; [congruence..|by etrans|by etrans].
Qed.

Definition writes_complete (w : world) : Prop := Forall (λ b, b = true) (w_write w).

Lemma kept_complete w w' : kept w w' → writes_complete w → writes_complete w'.
Proof. intros (_ & _ & [k Hk] & _). unfold writes_complete. rewrite Hk. by intros [_ ?]%Forall_app. Qed.

Lemma load_log es : (OLoad <$> es) ≫= sent_of = Sent PLoad <$> es.
Proof. induction es as [|b es IH]; [done|]. cbn. by f_equal. Qed.

Lemma write_load_cases bs w : ∃ w', kept w w' ∧
  (write_load bs w = Val (true, w') ∧ w_out w' = w_out w ++ (OLoad <$> pipe_packets bs) ∨
   write_load bs w = Val (false, w') ∧ w_out w' = w_out w ∧ ¬ writes_complete w).
Proof.
  unfold write_load, writes_complete, kept. destruct (w_write w) as [|[] l]; eexists; cbn [list.tail].
  - split; [|left; split; reflexivity]. split_and!; [done..|]. by exists (OLoad <$> pipe_packets bs).
  - split; [|left; split; reflexivity]. split_and!; [done..|by apply suffix_cons_r|]. by exists (OLoad <$> pipe_packets bs).
  - split; [|right; split; [reflexivity|]; split; [reflexivity|]; by intros [? _]%Forall_cons_1].
    split_and!; [done..|by apply suffix_cons_r|]. exists []. cbn. by rewrite !app_nil_r.
Qed.

(** Some writes of a list of writes, as the pipe splits them. *)
Definition first_writes (k : nat) (ws : list (list byte)) : list (list byte) := take k ws ≫= pipe_packets.

(** Of [ws1 ++ ws2], a part of [ws1]; all [ws1], then a part of [ws2]. *)
Lemma first_writes_left k ws1 ws2 : first_writes (min k (length ws1)) (ws1 ++ ws2) = first_writes k ws1.
Proof.
  unfold first_writes. rewrite take_app_le by lia. destruct (decide (k <= length ws1)%nat); [by rewrite Nat.min_l|].
  by rewrite Nat.min_r, !take_ge by lia.
Qed.

Lemma first_writes_right k ws1 ws2 : first_writes (length ws1 + k) (ws1 ++ ws2) = (ws1 ≫= pipe_packets) ++ first_writes k ws2.
Proof. unfold first_writes. by rewrite take_app_add, bind_app. Qed.

(** The packet is sent, or a write fails and the program aborts. *)
Lemma send_packet_cases {S} e v (st : S) w : ∃ w', kept w w' ∧
  (send_packet e v st w = Val ((Returned, st), w') ∧ w_out w' = w_out w ++ (OLoad <$> (packet_writes e v ≫= pipe_packets)) ∨
   send_packet e v st w = Val ((Aborted, st), w') ∧ ¬ writes_complete w ∧
     ∃ k, w_out w' = w_out w ++ (OLoad <$> first_writes k (packet_writes e v))).
Proof.
  unfold send_packet, WRITE_LOADING_PACKET. rewrite C_bind_eq, C_bind_eq.
  destruct (write_load_cases (le_bytes 4 (loading_event_code e)) w) as (w1 & K1 & [[H1 O1]|(H1 & O1 & N1)]); rewrite H1.
  2: { exists w1. split; [done|]. right. split; [done|]. split; [done|]. exists 0%nat. by rewrite O1, app_nil_r. }
  rewrite C_bind_eq.
  destruct (write_load_cases (le_bytes 4 (Z.of_nat (length v))) w1) as (w2 & K2 & [[H2 O2]|(H2 & O2 & N2)]); rewrite H2.
  2: { exists w2. split; [by etrans|]. right. split; [done|]. split; [by intros ?%(kept_complete _ _ K1)|]. exists 1%nat.
       rewrite O2, O1. unfold first_writes, packet_writes. cbn [app take mbind list_bind]. by rewrite app_nil_r. }
  assert (Hp : packet_writes e v ≫= pipe_packets =
    pipe_packets (le_bytes 4 (loading_event_code e)) ++ pipe_packets (le_bytes 4 (Z.of_nat (length v))) ++ pipe_packets v).
  { unfold packet_writes. rewrite bind_app. cbn [mbind list_bind]. rewrite app_nil_r, <- app_assoc. do 2 f_equal.
    case_decide as Hv; [by rewrite Hv|]. apply app_nil_r. }
  destruct (decide (v = [])) as [->|Hv].
  { exists w2. split; [by etrans|]. left. split; [done|]. rewrite O2, O1, Hp, !fmap_app. by rewrite app_nil_r, <- app_assoc. }
  rewrite decide_True by (destruct v; [done|cbn; lia]). rewrite C_bind_eq.
  destruct (write_load_cases v w2) as (w3 & K3 & [[H3 O3]|(H3 & O3 & N3)]); rewrite H3.
  - exists w3. split; [by do 2 etrans|]. left. split; [done|]. by rewrite O3, O2, O1, Hp, !fmap_app, <- !app_assoc.
  - exists w3. split; [by do 2 etrans|]. right. split; [done|].
    split; [by intros ?%(kept_complete _ _ K1)%(kept_complete _ _ K2)|]. exists 2%nat. rewrite O3, O2, O1.
    unfold first_writes, packet_writes. cbn [app take mbind list_bind]. by rewrite app_nil_r, fmap_app, app_assoc.
Qed.

Lemma sends_cases {S} ps (rest : list (client_code S)) st : ∀ w, ∃ w', kept w w' ∧
  (in_sequence (sends ps ++ rest) st w = in_sequence rest st w' ∧ w_out w' = w_out w ++ (OLoad <$> wire ps) ∨
   in_sequence (sends ps ++ rest) st w = Val ((Aborted, st), w') ∧ ¬ writes_complete w ∧
     ∃ k, w_out w' = w_out w ++ (OLoad <$> first_writes k (writes_of ps))).
Proof.
  induction ps as [|[e v] ps IH]; intros w.
  { exists w. split; [done|]. left. split; [done|]. by rewrite app_nil_r. }
  cbn [sends fmap list_fmap app in_sequence]. fold (@sends S ps). setoid_rewrite and_then_eq.
  change (wire ((e, v) :: ps)) with ((packet_writes e v ++ writes_of ps) ≫= pipe_packets). rewrite bind_app.
  change (writes_of ((e, v) :: ps)) with (packet_writes e v ++ writes_of ps).
  destruct (send_packet_cases e v st w) as (w1 & K1 & [[H1 O1]|(H1 & N1 & k & O1)]); cbn [fst snd]; rewrite H1.
  - destruct (IH w1) as (w2 & K2 & [[H2 O2]|(H2 & N2 & k & O2)]); exists w2; (split; [by etrans|]).
    + left. split; [done|]. by rewrite O2, O1, fmap_app, app_assoc.
    + right. split; [done|]. split; [by intros ?%(kept_complete _ _ K1)|]. exists (length (packet_writes e v) + k)%nat.
      by rewrite O2, O1, first_writes_right, fmap_app, app_assoc.
  - exists w1. split; [done|]. right. split; [done|]. split; [done|].
    exists (min k (length (packet_writes e v))). by rewrite first_writes_left.
Qed.

(** The number of the module is read, or the program aborts. *)
Section Constructor.
Context {S : Type} (assign : (client_state → client_state) → S → S).

Lemma receive_cases st w : ∃ w',
  (w_out w' = w_out w ∧ w_sig w' = w_sig w ∧ w_write w' = w_write w) ∧
  ((∃ id q, receive_module_id assign st w = Val ((Returned, assign (__CFI_SET_MODULE_ID id) st), w') ∧ in_u 16 id ∧
      w_load w = q :: w_load w' ∧ take 2 q = le_bytes 2 id ∧ w_log w' = w_log w ++ [Got PLoad q]) ∨
   receive_module_id assign st w = Val ((Aborted, st), w') ∧ ∀ q ps, w_load w = q :: ps → (length q < 2)%nat).
Proof using Type.
  unfold receive_module_id, READ_MONITOR_TO_LOADING_PACKET, read_load. rewrite C_bind_eq, C_bind_eq.
  destruct (w_load w) as [|q ps] eqn:Hl.
  { exists (log w (Eof PLoad)). split; [done|]. by right. }
  rewrite C_ret_eq. cbn beta iota. set (w' := MkWorld _ _ _ _ _ _ _). exists w'. split; [done|].
  destruct (decide (length (take 2 q) = 2%nat)) as [H2|H2].
  - left. exists (le_value (take 2 q)), q. rewrite (decide_False (P := length (take 2 q) ≠ 2%nat)) by tauto.
    rewrite decide_False by (by intros []).
    assert (Hf : obj_field (overlay (Some <$> take 2 q) (uninit 2)) 0 2 = Val (le_value (take 2 q))).
    { destruct q as [|b0 [|b1 q]]; [done|done|]. reflexivity. }
    rewrite C_bind_eq, Hf, lift_Val. split; [done|]. pose proof (le_value_range (take 2 q)) as Hr. rewrite H2 in Hr.
    split; [exact Hr|]. split; [done|]. pose proof (le_bytes_value (take 2 q)) as E.
    rewrite H2 in E. by split.
  - right. rewrite (decide_True (P := length (take 2 q) ≠ 2%nat)) by done. rewrite decide_True by done. split; [done|].
    intros q' ps' [= <- <-]. rewrite length_take in H2. lia.
Qed.

(** ** The constructor *)

(** The support knows the pipes and the number of its module. *)
Definition started (id : Z) (st st1 : S) : Prop := ∃ c2m m2c, 0 <= c2m ∧ 0 <= m2c ∧
  st1 = assign (__CFI_SET_MODULE_ID id) (assign (__CFI_SET_FDS c2m m2c) st).

(** In any world the constructor comes to the functions of the program with all
    its packets sent and its module number received, or it aborts. *)
Lemma startup_cases env p call st w :
  (∃ id q st1 w1, _init_cfi env p assign call st w = _init_wrapper p call st1 w1 ∧ started id st st1 ∧ in_u 16 id ∧
     w_load w = q :: w_load w1 ∧ take 2 q = le_bytes 2 id ∧
     w_out w1 = w_out w ++ (OLoad <$> wire (init_packets p)) ∧ w_sig w1 = w_sig w ∧
     w_write w1 `suffix_of` w_write w ∧
     w_log w1 = w_log w ++ (Sent PLoad <$> wire [(CFI_LOADING_MODULE_BEGIN, char_array (s_cfi p))]) ++
       Got PLoad q :: (Sent PLoad <$> wire (tail (init_packets p)))) ∨
  (∃ st1 w1 k, _init_cfi env p assign call st w = Val ((Aborted, st1), w1) ∧
     w_out w1 = w_out w ++ (OLoad <$> first_writes k (writes_of (init_packets p))) ∧
     (connect env assign st w = Val ((Aborted, st), w) ∨ ¬ writes_complete w ∨
      ∀ q ps, w_load w = q :: ps → (length q < 2)%nat)).
Proof using Type.
  setoid_rewrite init_cfi_steps. cbn [app in_sequence]. setoid_rewrite and_then_eq.
  assert (Hp : writes_of (init_packets p) = packet_writes CFI_LOADING_MODULE_BEGIN (char_array (s_cfi p)) ++
    writes_of (tail (init_packets p))) by done.
  assert (Hp1 : wire [(CFI_LOADING_MODULE_BEGIN, char_array (s_cfi p))] =
    packet_writes CFI_LOADING_MODULE_BEGIN (char_array (s_cfi p)) ≫= pipe_packets).
  { unfold wire, writes_of. cbn [fmap list_fmap concat fst snd]. by rewrite app_nil_r. }
  destruct (connect_cases assign env st w) as [(c2m & m2c & Hc & Hm & ->)|Habort].
  2: { right. rewrite Habort. exists st, w, 0%nat. split; [done|]. split; [by rewrite app_nil_r|]. by left. }
  set (st1 := assign (__CFI_SET_FDS c2m m2c) st). setoid_rewrite and_then_eq.
  destruct (send_packet_cases CFI_LOADING_MODULE_BEGIN (char_array (s_cfi p)) st1 w)
    as (w1 & K1 & [[-> O1]|(-> & N1 & k & O1)]).
  2: { right. exists st1, w1, (min k (length (packet_writes CFI_LOADING_MODULE_BEGIN (char_array (s_cfi p))))).
       split; [done|]. split; [|by right; left]. by rewrite Hp, first_writes_left. }
  setoid_rewrite and_then_eq. destruct K1 as (L1 & S1 & W1 & P1).
  destruct (receive_cases st1 w1) as (w2 & (O2 & S2 & W2) & [(id & q & -> & Hid & Hl & Hq & P2)|[-> Hno]]).
  2: { right. exists st1, w2, (length (packet_writes CFI_LOADING_MODULE_BEGIN (char_array (s_cfi p))) + 0)%nat. split; [done|].
       split; [by rewrite Hp, first_writes_right, app_nil_r, O2, O1|]. right; right. by rewrite L1 in Hno. }
  set (st2 := assign (__CFI_SET_MODULE_ID id) st1).
  destruct (sends_cases (tail (init_packets p)) [_init_wrapper p call] st2 w2)
    as (w3 & (L3 & S3 & W3 & P3) & [[-> O3]|(-> & N3 & k & O3)]).
  - left. exists id, q, st2, w3. rewrite in_sequence_one. split; [done|]. split; [by exists c2m, m2c|].
    split; [done|]. split; [congruence|]. split; [done|]. split.
    { unfold wire at 1. by rewrite Hp, bind_app, fmap_app, app_assoc, O3, O2, O1. }
    split; [congruence|]. split; [etrans; [exact W3|]; by rewrite W2|].
    rewrite Hp1, (spoke_load _ _ _ P3 O3), P2, (spoke_load _ _ _ P1 O1). by rewrite <- !app_assoc.
  - right. exists st2, w3, (length (packet_writes CFI_LOADING_MODULE_BEGIN (char_array (s_cfi p))) + k)%nat.
    split; [done|]. split; [by rewrite Hp, first_writes_right, fmap_app, app_assoc, O3, O2, O1|].
    right; left. intros Hc'. apply N3. unfold writes_complete in *. rewrite W2. destruct W1 as [l Hl'].
    rewrite Hl' in Hc'. by apply Forall_app in Hc' as [_ ?].
Qed.

(** What a constructor does on the pipes: the first packet, the number, the others. *)
Definition startup_log (p : prelinked) (number : list byte) : list action :=
  (Sent PLoad <$> wire [(CFI_LOADING_MODULE_BEGIN, char_array (s_cfi p))]) ++
  Got PLoad number :: (Sent PLoad <$> wire (tail (init_packets p))).

(** When the environment is that of the monitor program, writes complete and
    the monitor answers, the functions of the program are run. *)
Lemma startup_sends fds env p call st w id rest : wf_descriptors fds → writes_complete w → in_u 16 id →
  w_load w = le_bytes 2 id :: rest → ∃ st1 w1,
    _init_cfi (client_environment fds env) p assign call st w = _init_wrapper p call st1 w1 ∧ started id st st1 ∧
    w_load w1 = rest ∧ w_out w1 = w_out w ++ (OLoad <$> wire (init_packets p)) ∧ w_sig w1 = w_sig w ∧
    writes_complete w1 ∧ w_log w1 = w_log w ++ startup_log p (le_bytes 2 id).
Proof using Type.
  intros Hfds Hw Hid Hl. destruct (startup_cases (client_environment fds env) p call st w)
    as [(id' & q & st1 & w1 & Heq & Hst & Hid' & Hq & Hq2 & Hout & Hsig & Hwr & Hlog)|(st1 & w1 & k & _ & _ & [H|[H|H]])].
  - rewrite Hl in Hq. injection Hq as <- Hrest. rewrite take_ge in Hq2 by (by rewrite le_bytes_length).
    assert (id' = id) as ->.
    { rewrite <- (le_value_small 2 id), <- (le_value_small 2 id') by done. by rewrite Hq2. }
    exists st1, w1. split_and!; try done. destruct Hwr as [l Hwr]. unfold writes_complete in *. rewrite Hwr in Hw.
    by apply Forall_app in Hw as [_ ?].
  - by rewrite connect_environment in H.
  - done.
  - specialize (H _ _ Hl). rewrite le_bytes_length in H. lia.
Qed.

End Constructor.
