(* ===== verification/Wrappers.v ===== *)
(** * The wrappers of the startup code

    The functions that the generated wrappers call, read back from their text,
    are the names given to them that C can call; for a binary, the constructors
    and the destructors of its modules, each once. *)

From S2P Require Import Prelude CSem Wire Dot Text Ir Pass Injector PassTable PassAnalysis PassFiles PassRun.
From S2P Require Import Prelink PrelinkSpec Startup LoadModule Build BuildSpec BuildPack Program Binary.
From Stdlib Require Import Strings.Byte.
From Stdlib Require Strings.String.
Import Strings.String.StringSyntax.
#[local] Open Scope string_scope.
#[local] Open Scope Z_scope.
#[local] Open Scope list_scope.

(** ** The text *)

Abbreviation identifier_part b := (identifier_start b || is_digit b).

(** The line that calls [f]. *)
Definition call_line (f : name) : text := lit "  (void)" ++ f ++ lit "();".

Lemma span_head p s l c rest : span p s = (l, c :: rest) → p c = false.
Proof.
  revert l. induction s as [|b s IH]; intros l; cbn; [done|]. destruct (p b) eqn:Hb; [|by intros [= _ <- _]].
  destruct (span p s) as [l' rest']. intros [= _ E]. subst rest'. by eapply IH.
Qed.

(** C reads the call of an identifier, and of nothing else. *)
Lemma called_call_line f : called_by_line (call_line f) = if identifier f then Some f else None.
Proof.
  unfold called_by_line, call_line. rewrite (take_app_length' (lit "  (void)")), decide_True by done.
  rewrite (drop_app_length' (lit "  (void)")) by done.
  destruct (span_parts (λ b, identifier_part b) f) as [Hf Hp].
  destruct (span (λ b, identifier_part b) f) as [g rest] eqn:Hs. cbn [fst snd] in *. subst f.
  destruct rest as [|c rest].
  - rewrite app_nil_r in *. rewrite (span_stop _ g (lit "();")) by done.
    destruct (identifier g); [by rewrite decide_True|by rewrite decide_False by naive_solver].
  - assert (Hc : identifier_part c = false) by (exact (span_head (λ b, identifier_part b) _ _ _ _ Hs)).
    rewrite <- app_assoc. rewrite (span_stop _ g ((c :: rest) ++ lit "();")) by done.
    rewrite decide_False by (intros [H%(f_equal length) _]; rewrite length_app in H; cbn in H; lia).
    replace (identifier (g ++ c :: rest)) with false; [done|]. symmetry. unfold identifier.
    destruct g as [|b g]; cbn [app]; [by apply orb_false_iff in Hc as [-> _]|].
    rewrite forallb_app. cbn [forallb]. by rewrite Hc, !andb_false_r.
Qed.

(** A name that is not on several lines: so are the words of the table. *)
Lemma gen_wrapper_one_line w fs : one_line w → Forall one_line fs → Forall one_line (gen_wrapper w fs).
Proof.
  assert (Hl : ∀ s : text, bool_decide (newline ∈ s) = false → one_line s) by (by intros s ?%bool_decide_eq_false).
  intros Hw Hfs. unfold gen_wrapper. rewrite !Forall_app, !Forall_fmap. split_and!.
  - eapply Forall_impl; [|exact Hfs]. intros f Hf. apply one_line_app; [by apply Hl|]. apply one_line_app; [done|by apply Hl].
  - constructor; [|constructor]. repeat apply one_line_app; try done; by apply Hl.
  - eapply Forall_impl; [|exact Hfs]. intros f Hf. apply one_line_app; [by apply Hl|]. apply one_line_app; [done|by apply Hl].
  - constructor; [by apply Hl|constructor].
Qed.

Lemma omap_none {A B} (f : A → option B) l : Forall (λ a, f a = None) l → omap f l = [].
Proof. induction 1 as [|a l Ha _ IH]; [done|]. cbn. by rewrite Ha. Qed.

Lemma filter_all {A} (P : A → Prop) `{∀ x, Decision (P x)} l : Forall P l → filter P l = l.
Proof. induction 1 as [|a l Ha _ IH]; [done|]. by rewrite filter_cons_True, IH. Qed.

(** The other lines call nothing. *)
Lemma extern_line s : called_by_line (lit "extern void " ++ s) = None.
Proof. unfold called_by_line. rewrite decide_False; [done|]. intros H. vm_compute in H. discriminate. Qed.

Lemma head_line s : called_by_line (lit "void __attribute__((visibility(" ++ s) = None.
Proof. unfold called_by_line. rewrite decide_False; [done|]. intros H. vm_compute in H. discriminate. Qed.

(** The wrapper calls the names that are identifiers, in order. *)
Lemma wrapper_calls_printed w fs : one_line w → Forall one_line fs →
  wrapper_calls (printed (gen_wrapper w fs)) = filter (λ f, identifier f = true) fs.
Proof.
  intros Hw Hfs. unfold wrapper_calls, printed. rewrite lines_concat by (by apply gen_wrapper_one_line).
  unfold gen_wrapper. rewrite !omap_app. rewrite omap_none; [|by apply Forall_fmap, Forall_true; intros f; apply extern_line].
  cbn [omap list_omap app]. rewrite head_line. cbn [app].
  replace (called_by_line (lit "}")) with (@None name) by (by vm_compute). rewrite app_nil_r. clear.
  induction fs as [|f fs IH]; [done|]. cbn [fmap list_fmap omap list_omap]. fold (call_line f).
  rewrite called_call_line, filter_cons, IH. by destruct (identifier f).
Qed.

(** ** The functions of a binary *)

Section Binary.
Context (prefix : text) (level : Z) (ignored : gset name) (pe : py_env) (Hpe : py_env_ok pe).
Context (rs : list compiled) (es : list entry) (Hb : built prefix level ignored rs es).

Lemma flagged_elem flag f : f ∈ flagged_names pe flag (list_to_map es) ↔ ∃ id, (f, (id, flag)) ∈ es.
Proof using Hpe Hb.
  unfold flagged_names. rewrite list_elem_of_fmap. split.
  - intros ([g [id fl]] & -> & Hg). apply (items_name_elem pe Hpe), map_lookup_filter_Some in Hg as [Hg Hfl].
    cbn in *. subst fl. exists id. by apply (fcts_elem es _ (bt_table _ _ _ _ _ Hb)).
  - intros [id He]. exists (f, (id, flag)). split; [done|]. apply (items_name_elem pe Hpe), map_lookup_filter_Some.
    split; [|done]. by apply (fcts_elem es _ (bt_table _ _ _ _ _ Hb)).
Qed.

Lemma flagged_NoDup flag : NoDup (flagged_names pe flag (list_to_map es)).
Proof using Hpe. unfold flagged_names. rewrite (proj1 Hpe). apply NoDup_fst_map_to_list. Qed.

(** The names with a flag are those with the role. *)
Lemma flagged_roles flag z l : (∀ fl, flag_to_int fl = z ↔ fl = flag) → NoDup l →
  (∀ f, f ∈ l ↔ f ∈ es.*1 ∧ role ignored rs f = z) → flagged_names pe flag (list_to_map es) ≡ₚ l.
Proof using Hpe Hb.
  intros Hfl Hnd Hl. apply NoDup_Permutation; [apply flagged_NoDup|done|]. intros f.
  rewrite flagged_elem, Hl, list_elem_of_fmap. destruct (bt_roles _ _ _ _ _ Hb) as [Hrole _]. split.
  - intros [id He]. split; [by exists (f, (id, flag))|]. rewrite <- (Hrole _ _ _ He). by apply Hfl.
  - intros [([g [id fl]] & -> & He) Hr]. exists id. cbn [fst] in *. rewrite <- (Hrole _ _ _ He) in Hr.
    apply Hfl in Hr. by subst fl.
Qed.

Lemma init_flag fl : flag_to_int fl = FCT_INIT ↔ fl = lit "Init".
Proof using Type. unfold flag_to_int. repeat case_bool_decide; subst; split; done. Qed.
Lemma fini_flag fl : flag_to_int fl = FCT_FINI ↔ fl = lit "Fini".
Proof using Type. unfold flag_to_int. repeat case_bool_decide; subst; split; done. Qed.

(** What the wrappers call: the constructors and the destructors, each once. *)
Lemma init_startup : flagged_names pe (lit "Init") (list_to_map es) ≡ₚ startup_functions rs.
Proof using Hpe Hb.
  apply (flagged_roles _ FCT_INIT _ init_flag); [apply NoDup_remove_dups|].
  apply (startup_role prefix level ignored rs es Hb).
Qed.

Lemma fini_exit : flagged_names pe (lit "Fini") (list_to_map es) ≡ₚ exit_functions rs.
Proof using Hpe Hb.
  apply (flagged_roles _ FCT_FINI _ fini_flag); [apply NoDup_remove_dups|].
  apply (exit_role prefix level ignored rs es Hb).
Qed.

(** The names of the table are words. *)
Lemma flagged_one_line flag : Forall one_line (flagged_names pe flag (list_to_map es)).
Proof using Hpe Hb.
  apply Forall_elem_iff. intros f [id He]%flagged_elem. destruct (bt_table _ _ _ _ _ Hb) as [Hwf _].
  rewrite Forall_elem_iff in Hwf. apply word_one_line, (Hwf _ He).
Qed.

(** What C reads of a wrapper for names that it can call. *)
Lemma wrapper_permutation flag w l : flagged_names pe flag (list_to_map es) ≡ₚ l → one_line w →
  Forall (λ f, identifier f = true) l →
  wrapper_calls (printed (gen_wrapper w (flagged_names pe flag (list_to_map es)))) ≡ₚ l.
Proof using Hpe Hb.
  intros Hp Hw Hl. rewrite wrapper_calls_printed by (done || apply flagged_one_line).
  rewrite filter_all; [done|]. by rewrite Hp.
Qed.

End Binary.
