(* ===== verification/ClientProcess.v ===== *)
(** * The client process

    All the binaries of a program together: the dynamic linker runs the
    constructor [_init_cfi] of each binary, in the order of the dependencies,
    then [main], then the destructors in the opposite order.  Each binary has
    its own copy of the support, and the code of the program calls the copy of
    the binary that it is in. *)

From S2P Require Import Prelude CSem Wire Client Dot Text Ir Pass PassTable PassFiles Prelink Startup StartupSpec.
From S2P Require Import Network RunRefine Sessions LoadAnswers LoadPackets LoadModule Build BuildSpec BuildPack Program Binary Linking Source Processes.
From Stdlib Require Import Strings.Byte.
From Stdlib Require Strings.String.
Import Strings.String.StringSyntax.
#[local] Open Scope string_scope.
#[local] Open Scope Z_scope.
#[local] Open Scope list_scope.

(** ** The process *)

(** The copies of the support, by binary. *)
Abbreviation copies := (list client_state) (only parsing).

Definition assign_copy (m : Z) (f : client_state → client_state) (sts : copies) : copies := alter f (Z.to_nat m) sts.

(** The code of binary [x.1] calls the support. *)
Definition copy_call (x : Z * client_call) : client_code copies := λ sts,
  match sts !! Z.to_nat x.1 with
  | Some st => '(o, st) ← do_call x.2 st; mret (o, <[Z.to_nat x.1 := st]> sts)
  | None => undef OutOfBounds
  end.

Section Process.
Context (env : environment).

(** The calls of the support that the execution of a function of a binary
    makes, in that binary and in those it calls. *)
Context (code : Z → name → list (Z * client_call)).

Definition call_function (m : Z) (f : name) : client_code copies := in_sequence (copy_call <$> code m f).

Definition init_binary (x : Z * prelinked) : client_code copies :=
  _init_cfi env x.2 (assign_copy x.1) (call_function x.1).
Definition fini_binary (x : Z * prelinked) : client_code copies := _fini_cfi x.2 (call_function x.1).

Definition client_program (ps : list prelinked) : client_code copies :=
  in_sequence ((init_binary <$> numbered 0 ps) ++ [call_function (Z.of_nat (length ps) - 1) (lit "main")] ++
               rev (fini_binary <$> numbered 0 ps)).

End Process.

(** What a call sends. *)
Definition sent (xs : list (Z * client_call)) : list client_signal := (λ x, call_signal x.1 x.2) <$> xs.

(** ** Calls *)

(** The first [k] binaries have started: their copies know their module. *)
Definition copies_started (k : Z) (sts : copies) : Prop := ∀ m, 0 <= m < k → ∃ st,
  sts !! Z.to_nat m = Some st ∧ connected st ∧ sig_module (_cs st) = m.

(** What the calls do on the pipes. *)
Definition calls_log (xs : list (Z * client_call)) : list action := (client_signal_bytes <$> sent xs) ≫= client_exchange.

Lemma calls_log_app xs1 xs2 : calls_log (xs1 ++ xs2) = calls_log xs1 ++ calls_log xs2.
Proof. unfold calls_log, sent. by rewrite !fmap_app, bind_app. Qed.

(** A code that returns, sends the signals of [xs], and reads as many answers. *)
Definition sends_calls (k : Z) (xs : list (Z * client_call)) (c : client_code copies) : Prop := ∀ sts w rest,
  copies_started k sts → writes_complete w → w_sig w = replicate (length xs) (le_bytes 1 CFI_OK) ++ rest →
  ∃ sts' w', c sts w = Val ((Returned, sts'), w') ∧ copies_started k sts' ∧ length sts' = length sts ∧
    w_out w' = w_out w ++ (OSig <$> (client_signal_bytes <$> sent xs)) ∧ w_sig w' = rest ∧ w_load w' = w_load w ∧
    writes_complete w' ∧ w_log w' = w_log w ++ calls_log xs.

Lemma sends_none k : sends_calls k [] skip.
Proof. intros sts w rest Hk Hw Hs. exists sts, w. split_and!; try done; by rewrite app_nil_r. Qed.

Lemma sends_and_then k xs1 xs2 c1 c2 : sends_calls k xs1 c1 → sends_calls k xs2 c2 →
  sends_calls k (xs1 ++ xs2) (and_then c1 c2).
Proof.
  intros H1 H2 sts w rest Hk Hw Hs. rewrite length_app, replicate_add, <- app_assoc in Hs.
  destruct (H1 sts w _ Hk Hw Hs) as (sts1 & w1 & E1 & Hk1 & Hl1 & O1 & S1 & L1 & W1 & P1).
  destruct (H2 sts1 w1 rest Hk1 W1 S1) as (sts2 & w2 & E2 & Hk2 & Hl2 & O2 & S2 & L2 & W2 & P2).
  exists sts2, w2. rewrite and_then_eq, E1. split_and!; try done; [congruence| |congruence|].
  - unfold sent. by rewrite O2, O1, !fmap_app, app_assoc.
  - by rewrite P2, P1, calls_log_app, app_assoc.
Qed.

Lemma sends_in_sequence k xss cs : Forall2 (sends_calls k) xss cs → sends_calls k (concat xss) (in_sequence cs).
Proof. induction 1; [apply sends_none|by apply sends_and_then]. Qed.

Lemma copy_call_sends k x : 0 <= x.1 < k → sends_calls k [x] (copy_call x).
Proof.
  intros Hx sts w rest Hk Hw Hs. destruct (Hk x.1 Hx) as (st & Hst & Hc & Hm). unfold copy_call. rewrite Hst.
  destruct (do_call_signal x.2 st) as (st1 & Hcall & Hcs & Hf1 & Hf2).
  assert (Hc1 : connected st1) by (unfold connected; by rewrite Hf1, Hf2).
  destruct (send_monitor_eq st1 (_cs st1) w Hc1 Hw) as (w1 & Hsend & Hout & Hsig & Hw1 & Hl1 & Hlog).
  exists (<[Z.to_nat x.1 := st1]> sts), w1. rewrite C_bind_eq, Hcall. unfold send_cs. rewrite C_bind_eq, Hsend, Hs.
  cbn [length replicate app]. split; [done|]. split.
  - intros m Hm'. destruct (decide (m = x.1)) as [->|Hne].
    + exists st1. rewrite list_lookup_insert_eq by (by eapply lookup_lt_Some). split; [done|]. split; [done|].
      rewrite Hcs, Hm. by destruct x.2.
    + rewrite list_lookup_insert_ne by lia. by apply Hk.
  - split; [apply length_insert|]. split; [by rewrite Hout, Hcs, Hm|]. split; [by rewrite Hsig, Hs|]. split; [done|]. split; [done|].
    by rewrite Hlog, Hs, Hcs, Hm.
Qed.

Lemma call_function_sends code k m f : Forall (λ x, 0 <= x.1 < k) (code m f) →
  sends_calls k (code m f) (call_function code m f).
Proof.
  intros Hx. unfold call_function. rewrite <- (list_fmap_id (code m f)) at 1.
  replace (id <$> code m f) with (concat ((λ x, [x]) <$> code m f)) by (clear; by induction (code m f); cbn; f_equal).
  apply sends_in_sequence. induction Hx as [|x xs Hx _ IH]; constructor; [by apply copy_call_sends|done].
Qed.

Lemma wrapper_sends code k m fs : Forall (λ f, Forall (λ x, 0 <= x.1 < k) (code m f)) fs →
  sends_calls k (concat (code m <$> fs)) (in_sequence (call_function code m <$> fs)).
Proof.
  intros Hx. apply sends_in_sequence. induction Hx as [|f fs Hf _ IH]; constructor; [by apply call_function_sends|done].
Qed.

(** ** Start-up *)

Lemma output_load_events p ws : output p (OLoad <$> ws) = match p with PLoad => ws | PSig => [] end.
Proof. unfold output. destruct p; (induction ws as [|b ws IH]; [done|]); cbn; rewrite IH; done. Qed.

Lemma output_sig_events p ws : output p (OSig <$> ws) = match p with PSig => ws | PLoad => [] end.
Proof. unfold output. destruct p; (induction ws as [|b ws IH]; [done|]); cbn; rewrite IH; done. Qed.

(** A copy that starts. *)
Lemma assign_started k sts sts1 : in_u 16 k → copies_started k sts → (Z.to_nat k < length sts)%nat →
  started (assign_copy k) k sts sts1 → copies_started (k + 1) sts1 ∧ length sts1 = length sts.
Proof.
  intros Hk Hst Hlen (c2m & m2c & H1 & H2 & ->). unfold assign_copy. rewrite !length_alter. split; [|done].
  intros m Hm. destruct (decide (m = k)) as [->|Hne].
  - destruct (lookup_lt_is_Some_2 _ _ Hlen) as [st Hk']. rewrite !list_lookup_alter_eq, Hk'.
    eexists. split; [reflexivity|]. split; [done|]. by apply Z.mod_small.
  - rewrite !list_lookup_alter_ne by lia. apply Hst. lia.
Qed.

Section Start.
Context (fds : descriptors) (Hfds : wf_descriptors fds) (env0 : environment).
Context (code : Z → name → list (Z * client_call)).
Abbreviation env := (client_environment fds env0).

(** The calls of the constructors of a binary. *)
Definition init_calls (x : Z * prelinked) : list (Z * client_call) := concat (code x.1 <$> fcts_init x.2).
Definition fini_calls (x : Z * prelinked) : list (Z * client_call) := concat (code x.1 <$> fcts_fini x.2).

(** What the start of a binary does on the pipes. *)
Definition binary_log (x : Z * prelinked) : list action := startup_log x.2 (module_number x.1) ++ calls_log (init_calls x).

(** Between [w] and [w'] the process has written [ps] and the signals of [xs]. *)
Definition wrote (ps : list packet) (xs : list (Z * client_call)) (w w' : world) : Prop :=
  output PLoad (w_out w') = output PLoad (w_out w) ++ wire ps ∧
  output PSig (w_out w') = output PSig (w_out w) ++ (client_signal_bytes <$> sent xs).

Lemma wrote_app ps1 ps2 xs1 xs2 w1 w2 w3 : wrote ps1 xs1 w1 w2 → wrote ps2 xs2 w2 w3 → wrote (ps1 ++ ps2) (xs1 ++ xs2) w1 w3.
Proof using Type.
  intros [O1 S1] [O2 S2]. split; [by rewrite O2, O1, wire_app, app_assoc|].
  unfold sent. by rewrite S2, S1, !fmap_app, app_assoc.
Qed.

Lemma sends_wrote xs w w' : w_out w' = w_out w ++ (OSig <$> (client_signal_bytes <$> sent xs)) → wrote [] xs w w'.
Proof using Type. intros Ho. split; by rewrite Ho, output_app, output_sig_events. Qed.

Lemma init_binary_sends k p sts w rest nums :
  in_u 16 k → copies_started k sts → (Z.to_nat k < length sts)%nat → writes_complete w →
  Forall (λ f, Forall (λ x, 0 <= x.1 < k + 1) (code k f)) (fcts_init p) →
  w_sig w = replicate (length (init_calls (k, p))) (le_bytes 1 CFI_OK) ++ rest →
  w_load w = module_number k :: nums →
  ∃ sts' w', init_binary env code (k, p) sts w = Val ((Returned, sts'), w') ∧ copies_started (k + 1) sts' ∧
    length sts' = length sts ∧ wrote (init_packets p) (init_calls (k, p)) w w' ∧ w_sig w' = rest ∧
    w_load w' = nums ∧ writes_complete w' ∧ w_log w' = w_log w ++ binary_log (k, p).
Proof using Hfds.
  intros Hk Hst Hlen Hw Hcode Hs Hl. unfold module_number in Hl.
  assert (Hu : u16 k = k) by by apply Z.mod_small. rewrite Hu in Hl.
  destruct (startup_sends (assign_copy k) fds env0 p (call_function code k) sts w k nums Hfds Hw Hk Hl)
    as (sts1 & w1 & Heq & Hstart & Hl1 & Ho1 & Hs1 & Hw1 & P1).
  destruct (assign_started k sts sts1 Hk Hst Hlen Hstart) as [Hst1 Hlen1]. rewrite <- Hs1 in Hs.
  destruct (wrapper_sends code (k + 1) k (fcts_init p) Hcode sts1 w1 rest Hst1 Hw1 Hs)
    as (sts2 & w2 & Hrun & Hst2 & Hlen2 & Ho2 & Hs2 & Hl2 & Hw2 & P2).
  exists sts2, w2. unfold init_binary. cbn [fst snd]. rewrite Heq. split; [exact Hrun|]. split; [done|].
  split; [congruence|]. split.
  - rewrite <- (app_nil_r (init_packets p)). change (init_calls (k, p)) with ([] ++ init_calls (k, p)).
    apply (wrote_app _ _ _ _ _ w1); [|by apply sends_wrote].
    split; by rewrite Ho1, output_app, output_load_events.
  - split; [done|]. split; [congruence|]. split; [done|].
    unfold binary_log, module_number. cbn [fst snd]. by rewrite P2, P1, Hu, app_assoc.
Qed.

(** The constructors of the binaries, from number [k]. *)
Lemma init_binaries_send ps : ∀ k sts w rest nums,
  0 <= k → k + Z.of_nat (length ps) <= 2 ^ 16 → copies_started k sts → Z.of_nat (length sts) = k + Z.of_nat (length ps) →
  writes_complete w →
  Forall (λ x, Forall (λ f, Forall (λ c, 0 <= c.1 < x.1 + 1) (code x.1 f)) (fcts_init x.2)) (numbered k ps) →
  w_sig w = replicate (length (concat (init_calls <$> numbered k ps))) (le_bytes 1 CFI_OK) ++ rest →
  w_load w = (module_number <$> seqZ k (Z.of_nat (length ps))) ++ nums →
  ∃ sts' w', in_sequence (init_binary env code <$> numbered k ps) sts w = Val ((Returned, sts'), w') ∧
    copies_started (Z.of_nat (length sts)) sts' ∧ length sts' = length sts ∧
    wrote (concat (init_packets <$> ps)) (concat (init_calls <$> numbered k ps)) w w' ∧ w_sig w' = rest ∧
    w_load w' = nums ∧ writes_complete w' ∧ w_log w' = w_log w ++ (numbered k ps ≫= binary_log).
Proof using Hfds.
  induction ps as [|p ps IH]; intros k sts w rest nums H0 Hfew Hst Hlen Hw Hcode Hs Hl.
  { exists sts, w. cbn in Hlen. rewrite Hlen, Z.add_0_r. split_and!; try done; [split|]; by rewrite app_nil_r. }
  cbn [length numbered fmap list_fmap concat in_sequence] in *. apply Forall_cons_1 in Hcode as [Hp Hcode].
  rewrite length_app, replicate_add, <- app_assoc in Hs. rewrite Nat2Z.inj_succ in *.
  rewrite seqZ_cons, Z.pred_succ in Hl by lia. cbn [fmap list_fmap app] in Hl.
  destruct (init_binary_sends k p sts w _ _ ltac:(unfold in_u; lia) Hst ltac:(lia) Hw Hp Hs Hl)
    as (sts1 & w1 & E1 & Hst1 & Hlen1 & O1 & S1 & L1 & W1 & P1).
  destruct (IH (k + 1) sts1 w1 rest nums) as (sts2 & w2 & E2 & Hst2 & Hlen2 & O2 & S2 & L2 & W2 & P2); try done; try lia.
  exists sts2, w2. rewrite and_then_eq, E1. rewrite Hlen1 in *. split_and!; try done; [by apply (wrote_app _ _ _ _ _ w1)|].
  cbn [mbind list_bind]. by rewrite P2, P1, app_assoc.
Qed.

(** ** The whole program *)

Definition client_calls (ps : list prelinked) : list (Z * client_call) :=
  concat (init_calls <$> numbered 0 ps) ++ code (Z.of_nat (length ps) - 1) (lit "main") ++
  concat (rev (fini_calls <$> numbered 0 ps)).

(** All that the client does on the pipes. *)
Definition client_log (ps : list prelinked) : list action :=
  (numbered 0 ps ≫= binary_log) ++
  calls_log (code (Z.of_nat (length ps) - 1) (lit "main") ++ concat (rev (fini_calls <$> numbered 0 ps))).

Lemma numbered_bounds {A} (l : list A) : ∀ m x, x ∈ numbered m l → m <= x.1 < m + Z.of_nat (length l).
Proof using Type.
  induction l as [|a l IH]; intros m x; cbn [numbered length]; [by intros []%elem_of_nil|].
  intros [->|Hx]%elem_of_cons; [cbn; lia|]. apply IH in Hx. lia.
Qed.

(** The functions that start call copies that are there. *)
Record calls_in_place (ps : list prelinked) : Prop := {
  cp_init : Forall (λ x, Forall (λ f, Forall (λ c, 0 <= c.1 < x.1 + 1) (code x.1 f)) (fcts_init x.2)) (numbered 0 ps);
  cp_main : Forall (λ c, 0 <= c.1 < Z.of_nat (length ps)) (code (Z.of_nat (length ps) - 1) (lit "main"));
  cp_fini : Forall (λ x, Forall (λ f, Forall (λ c, 0 <= c.1 < Z.of_nat (length ps)) (code x.1 f)) (fcts_fini x.2))
    (numbered 0 ps);
}.

Lemma concat_calls_Forall {A} (P : A → Prop) (ls : list (Z * prelinked)) fs (f : Z → name → list A) :
  Forall (λ x, Forall (λ g, Forall P (f x.1 g)) (fs x.2)) ls → Forall P (concat ((λ x, concat (f x.1 <$> fs x.2)) <$> ls)).
Proof using Type.
  intros H. apply Forall_concat, Forall_fmap. eapply Forall_impl; [|exact H]. intros x Hx. cbn.
  by apply Forall_concat, Forall_fmap.
Qed.

(** Calls in place are in the binaries of the process. *)
Lemma client_calls_bounds ps : calls_in_place ps → Forall (λ c, 0 <= c.1 < Z.of_nat (length ps)) (client_calls ps).
Proof using Type.
  intros [Hi Hm Hf]. unfold client_calls. rewrite !Forall_app. split_and!; [|done|].
  - apply (concat_calls_Forall _ _ fcts_init). apply Forall_elem_iff. intros x Hx. rewrite Forall_elem_iff in Hi.
    specialize (Hi x Hx). pose proof (numbered_bounds ps 0 x Hx). eapply Forall_impl; [|exact Hi]. intros f Hff.
    eapply Forall_impl; [|exact Hff]. cbn. lia.
  - rewrite <- (Permutation_rev (fini_calls <$> numbered 0 ps)). by apply (concat_calls_Forall _ _ fcts_fini).
Qed.

Lemma fmap_rev {A B} (f : A → B) l : f <$> rev l = rev (f <$> l).
Proof using Type. induction l as [|a l IH]; [done|]. cbn [rev fmap list_fmap]. by rewrite fmap_app, IH. Qed.

Lemma fini_binaries_send ps k : Forall (λ x, Forall (λ f, Forall (λ c, 0 <= c.1 < k) (code x.1 f)) (fcts_fini x.2)) ps →
  sends_calls k (concat (rev (fini_calls <$> ps))) (in_sequence (rev (fini_binary code <$> ps))).
Proof using Type.
  intros Hps. apply sends_in_sequence. rewrite <- !fmap_rev. apply Forall_rev in Hps.
  induction Hps as [|x l Hx _ IH]; constructor; [by apply wrapper_sends|done].
Qed.

Lemma client_program_sends ps w rest : Z.of_nat (length ps) <= 2 ^ 16 → calls_in_place ps → writes_complete w →
  w_sig w = replicate (length (client_calls ps)) (le_bytes 1 CFI_OK) ++ rest →
  w_load w = module_number <$> seqZ 0 (Z.of_nat (length ps)) →
  ∃ sts' w', client_program env code ps (replicate (length ps) client_start) w = Val ((Returned, sts'), w') ∧
    copies_started (Z.of_nat (length ps)) sts' ∧ wrote (concat (init_packets <$> ps)) (client_calls ps) w w' ∧
    w_log w' = w_log w ++ client_log ps.
Proof using Hfds.
  intros Hfew [Hi Hm Hf] Hw Hs Hl. unfold client_calls, client_program in *.
  rewrite length_app, replicate_add, <- app_assoc in Hs. rewrite in_sequence_app, and_then_eq.
  destruct (init_binaries_send ps 0 (replicate (length ps) client_start) w _ [] ltac:(done) ltac:(lia)
    ltac:(intros ??; lia) ltac:(by rewrite length_replicate) Hw Hi Hs ltac:(by rewrite app_nil_r))
    as (sts1 & w1 & -> & Hst1 & _ & O1 & S1 & _ & W1 & P1). rewrite length_replicate in Hst1.
  assert (Hsend := sends_and_then _ _ _ _ _ (call_function_sends code _ _ _ Hm) (fini_binaries_send _ _ Hf)).
  destruct (Hsend sts1 w1 rest Hst1 W1 S1) as (sts2 & w2 & E2 & Hst2 & _ & O2 & _ & _ & _ & P2).
  exists sts2, w2. cbn [app in_sequence]. rewrite E2. split; [done|]. split; [done|].
  rewrite <- (app_nil_r (concat (init_packets <$> ps))). split; [apply (wrote_app _ _ _ _ _ w1); [done|by apply sends_wrote]|].
  unfold client_log. by rewrite P2, P1, app_assoc.
Qed.

End Start.
