(* ===== verification/Protocol.v ===== *)
(** * The client and the monitor together, at run time

    The calls of a program to the support and the runs of the monitor, each in
    any world, leave a log of what they did on the pipes; [Network] plays the
    two logs together.  Here: what the logs look like, what a state of the
    network says of them, and how far the client can be ahead of the monitor. *)

From S2P Require Import Prelude CSem Wire CStack BlockStack CallStack MonitorData Client.
From S2P Require Import MonitorRun RunSpec RunRefine RunTotal MonitorLoad Main Sessions LoadAnswers Network MonitorLog.
From S2P Require Import Text Startup StartupSpec ClientProcess.
From Stdlib Require Import Strings.Byte.

(** ** Logs *)

(** The packets written and read on a pipe. *)
Definition sent_on (p : pipe) (a : action) : option (list byte) :=
  match p, a with PSig, Sent PSig b | PLoad, Sent PLoad b => Some b | _, _ => None end.
Definition got_on (p : pipe) (a : action) : option (list byte) :=
  match p, a with PSig, Got PSig b | PLoad, Got PLoad b => Some b | _, _ => None end.
Definition sents (p : pipe) (l : list action) : list (list byte) := omap (sent_on p) l.
Definition gots (p : pipe) (l : list action) : list (list byte) := omap (got_on p) l.

(** No end of file was read. *)
Definition no_eof (l : list action) : Prop := ∀ p, Eof p ∉ l.

Lemma sents_app p l1 l2 : sents p (l1 ++ l2) = sents p l1 ++ sents p l2.
Proof. apply omap_app. Qed.
Lemma gots_app p l1 l2 : gots p (l1 ++ l2) = gots p l1 ++ gots p l2.
Proof. apply omap_app. Qed.

Lemma no_eof_app l1 l2 : no_eof (l1 ++ l2) ↔ no_eof l1 ∧ no_eof l2.
Proof. unfold no_eof. setoid_rewrite elem_of_app. naive_solver. Qed.

Lemma no_eof_cons a l : no_eof (a :: l) ↔ no_eof [a] ∧ no_eof l.
Proof. apply (no_eof_app [a]). Qed.

Lemma prefix_app_cases {A} (l l1 l2 : list A) : l `prefix_of` l1 ++ l2 →
  l `prefix_of` l1 ∨ ∃ l', l = l1 ++ l' ∧ l' `prefix_of` l2.
Proof.
  intros [k Hk]. apply app_eq_inv in Hk as [(l' & -> & Hk)|(l' & -> & Hk)].
  - left. by exists l'.
  - right. exists l'. split; [done|]. by exists k.
Qed.

(** ** A state of the network *)

(** What was done is the beginning of the logs; a pipe is a queue. *)
Definition played (lc lm : list action) (y : network) (dc dm : list action) : Prop :=
  lc = dc ++ client_todo y ∧ lm = dm ++ monitor_todo y ∧ no_eof dc ∧ no_eof dm ∧
  ∀ p, sents p dc = gots p dm ++ waiting_on p (to_monitor y) ∧ sents p dm = gots p dc ++ waiting_on p (to_client y).

(** An action moves a packet at one end of a queue. *)
Lemma act_queues cap a out inp out' inp' : act cap a (out, inp) (out', inp') →
  no_eof [a] ∧ ∀ p, waiting_on p out' = waiting_on p out ++ sents p [a] ∧ waiting_on p inp = gots p [a] ++ waiting_on p inp'.
Proof.
  inversion 1 as [q b ? ? Hc|q b qs ? ? Hq]; subst; (split; [intros p Hp; set_solver|]); intros p.
  - split; [|by destruct p, q]. destruct p, q, out; cbn; by rewrite ?app_nil_r.
  - split; [by destruct p, q, out'; cbn; rewrite ?app_nil_r|]. destruct p, q, inp; cbn in *; by rewrite ?Hq.
Qed.

Lemma advance_played cap lc lm y y' dc dm : played lc lm y dc dm → advance cap y y' → ∃ dc' dm', played lc lm y' dc' dm'.
Proof.
  intros (Hc & Hm & Nc & Nm & Hq) H. destruct H as [a lc' lm' cm mc cm' mc' A|a lc' lm' cm mc cm' mc' A];
    cbn in *; destruct (act_queues _ _ _ _ _ _ A) as [Na Ha].
  - exists (dc ++ [a]), dm. split_and!; cbn; [by rewrite <- app_assoc|done|by apply no_eof_app|done|].
    intros p. destruct (Hq p) as [H1 H2], (Ha p) as [H3 H4]. rewrite sents_app, gots_app, H1, H2, H3, H4.
    by rewrite !app_assoc.
  - exists dc, (dm ++ [a]). split_and!; cbn; [done|by rewrite <- app_assoc|done|by apply no_eof_app|].
    intros p. destruct (Hq p) as [H1 H2], (Ha p) as [H3 H4]. rewrite sents_app, gots_app, H1, H2, H3, H4.
    by rewrite !app_assoc.
Qed.

Lemma reached_played cap lc lm y : rtc (advance cap) (network_start lc lm) y → ∃ dc dm, played lc lm y dc dm.
Proof.
  intros H. assert (Hstart : ∃ dc dm, played lc lm (network_start lc lm) dc dm).
  { exists [], []. split_and!; try done; intros p; [by intros []%elem_of_nil..|by destruct p]. }
  induction H as [|x y z Hxy _ IH]; [done|]. apply IH. destruct Hstart as (dc & dm & Hp). by eapply advance_played.
Qed.

(** ** The log of the client *)

(** A signal written, then an answer read, or the end of the file. *)
Definition client_turn (s : client_signal) (r : option (list byte)) : list action :=
  [Sent PSig (client_signal_bytes s); read_action r].

Definition client_turns (ss : list client_signal) (rs : list (option (list byte))) : list action :=
  concat (zip_with client_turn ss rs).

Lemma prefix_turns s ss r rs l : l `prefix_of` client_turn s r → l `prefix_of` client_turns (s :: ss) (r :: rs).
Proof. intros H. by apply prefix_app_r. Qed.

(** A call that returns has made an exchange; one that aborts the program has
    made the beginning of it. *)
Lemma send_monitor_log st cs w o w' : send_monitor st cs w = Val (o, w') → ∃ l r,
  w_log w' = w_log w ++ l ∧ l `prefix_of` client_turn cs r ∧ (o = Returned → l = client_turn cs r).
Proof.
  unfold send_monitor. intros H. apply C_bind_inv in H as (err & w1 & H1 & H).
  assert (Hw : (err ≠ 0 ∧ w_log w1 = w_log w) ∨ w_log w1 = w_log w ++ [Sent PSig (client_signal_bytes cs)]).
  { clear H. case_decide; [inv_C; left; split; [lia|done]|]. unfold WRITE_CLIENT_SIGNAL, write_bytes in H1. inv_C.
    destruct (match w_write w with [] => true | b :: _ => b end); [by right|left; split; [lia|done]]. }
  case_decide as He.
  { inv_C. destruct Hw as [[_ Hl]|Hl]; eexists _, None.
    - split; [by rewrite app_nil_r|]. split; [apply prefix_nil|done].
    - split; [done|]. split; [by eexists|done]. }
  destruct Hw as [[? _]|Hl]; [done|]. apply C_bind_inv in H as ([ma err2] & w2 & H2 & H).
  assert (Hr : (err2 ≠ 0 ∧ w2 = w1) ∨ ∃ r, w_log w2 = w_log w1 ++ [read_action r]).
  { clear H. case_decide; [inv_C; left; split; [lia|done]|]. right. unfold READ_MONITOR_ANSWER, read_sig in H2. inv_C.
    destruct (w_sig w1) as [|p ps]; inv_C; [by exists None|by exists (Some p)]. }
  destruct Hr as [[He2 ->]|[r Hl2]].
  { rewrite decide_True in H by done. inv_C. eexists _, None. split; [done|]. split; [by eexists|done]. }
  assert (w' = w2) as -> by (case_decide; [by inv_C|]; apply C_bind_inv in H as (? & ? & [_ ->]%lift_inv & H); by inv_C).
  exists (client_turn cs r), r. split; [by rewrite Hl2, Hl, <- app_assoc|]. by split.
Qed.

Lemma copy_call_log k x sts w o sts' w' : copies_started k sts → 0 <= x.1 < k →
  copy_call x sts w = Val ((o, sts'), w') → copies_started k sts' ∧ ∃ l r,
  w_log w' = w_log w ++ l ∧ l `prefix_of` client_turn (call_signal x.1 x.2) r ∧
  (o = Returned → l = client_turn (call_signal x.1 x.2) r).
Proof.
  intros Hk Hx H. destruct (Hk x.1 Hx) as (st & Hst & Hc & Hm). unfold copy_call in H. rewrite Hst in H.
  destruct (do_call_signal x.2 st) as (st1 & Hcall & Hcs & Hf1 & Hf2). rewrite Hcall, Hm in *.
  apply C_bind_inv in H as ([o1 st2] & w1 & H1 & H). unfold send_cs in H1. inv_C.
  match goal with E : send_monitor _ _ _ = _ |- _ => apply send_monitor_log in E; rewrite Hcs in E end. split; [|done].
  intros m Hm'. destruct (decide (m = x.1)) as [->|Hne]; [|by rewrite list_lookup_insert_ne by lia; apply Hk].
  eexists. rewrite list_lookup_insert_eq by (by eapply lookup_lt_Some). split; [done|].
  unfold connected. rewrite Hf1, Hf2, Hcs. split; [done|by destruct x.2].
Qed.

(** Its calls, in any world. *)
Lemma calls_turns k xs : ∀ sts w r w', copies_started k sts → Forall (λ x, 0 <= x.1 < k) xs →
  in_sequence (copy_call <$> xs) sts w = Val (r, w') → ∃ l rs,
  w_log w' = w_log w ++ l ∧ l `prefix_of` client_turns (sent xs) rs.
Proof.
  induction xs as [|x xs IH]; intros sts w r w' Hk Hxs H; cbn [fmap list_fmap in_sequence] in H.
  { unfold skip in H. inv_C. exists [], []. rewrite app_nil_r. split; [done|]. apply prefix_nil. }
  apply Forall_cons_1 in Hxs as [Hx Hxs]. unfold and_then in H. apply C_bind_inv in H as ([o sts1] & w1 & H1 & H).
  apply (copy_call_log k) in H1 as (Hk1 & l1 & r1 & Hl1 & Hp1 & Ho); [|done..]. destruct o; cycle 1.
  { inv_C. exists l1, [r1]. split; [done|]. by apply prefix_turns. }
  destruct (IH _ _ _ _ Hk1 Hxs H) as (l2 & rs & Hl2 & Hp2). rewrite (Ho eq_refl) in Hl1. eexists _, (r1 :: rs).
  split; [by rewrite Hl2, Hl1, <- app_assoc|]. change (client_turns (sent (x :: xs)) (r1 :: rs))
    with (client_turn (call_signal x.1 x.2) r1 ++ client_turns (sent xs) rs). by apply prefix_app.
Qed.

(** What the client wrote are its signals, and it has read an answer to each but
    the last one at most. *)
Lemma turns_prefix ss : ∀ rs l, l `prefix_of` client_turns ss rs → no_eof l →
  sents PSig l = client_signal_bytes <$> take (length (sents PSig l)) ss ∧
  (length (gots PSig l) <= length (sents PSig l) <= S (length (gots PSig l)))%nat.
Proof.
  induction ss as [|s ss IH]; intros rs l Hl Hn.
  { apply prefix_nil_inv in Hl as ->. by split; [|cbn; lia]. }
  destruct rs as [|r rs]; [apply prefix_nil_inv in Hl as ->; by split; [|cbn; lia]|].
  change (client_turns (s :: ss) (r :: rs)) with (client_turn s r ++ client_turns ss rs) in Hl.
  apply prefix_app_cases in Hl as [Hl|(l' & -> & Hl)].
  - unfold client_turn in Hl. destruct l as [|a l]; [by split; [|cbn; lia]|]. apply prefix_cons_inv_1 in Hl as H1. subst a.
    apply prefix_cons_inv_2 in Hl. destruct l as [|a l]; [by split; [|cbn; lia]|]. apply prefix_cons_inv_1 in Hl as H1. subst a.
    apply prefix_cons_inv_2, prefix_nil_inv in Hl as ->. destruct r; cbn; by split; [|lia].
  - apply no_eof_app in Hn as [Hn1 Hn]. destruct (IH rs l' Hl Hn) as [Hs Hle]. rewrite sents_app, gots_app, !length_app.
    destruct r as [b|]; [|exfalso; apply (Hn1 PSig); set_solver]. cbn. rewrite <- Hs. split; [done|lia].
Qed.

(** ** The log of the monitor *)

(** A computation whose log tells what it read and wrote of the signals. *)
Definition told (l : list action) (w w' : world) : Prop :=
  w_log w' = w_log w ++ l ∧ w_sig w = gots PSig l ++ w_sig w' ∧
  output PSig (w_out w') = output PSig (w_out w) ++ sents PSig l.

Definition honest {A} (m : C A) : Prop := ∀ w a w', m w = Val (a, w') → ∃ l, told l w w'.

Lemma told_nil w w' : untouched w w' → told [] w w'.
Proof. intros (Hl & Hs & _ & Ho). by split_and!; rewrite ?app_nil_r. Qed.

Lemma told_trans l1 l2 w1 w2 w3 : told l1 w1 w2 → told l2 w2 w3 → told (l1 ++ l2) w1 w3.
Proof.
  intros (L1 & S1 & O1) (L2 & S2 & O2). unfold told. rewrite gots_app, sents_app, <- !app_assoc.
  split_and!; [by rewrite L2, L1, app_assoc|by rewrite S1, S2|by rewrite O2, O1, app_assoc].
Qed.

Lemma honest_mute {A} (m : C A) : mute None m → honest m.
Proof. intros Hm w a w' H%Hm. exists []. by apply told_nil. Qed.

Lemma honest_bind {A B} (m : C A) (f : A → C B) : honest m → (∀ a, honest (f a)) → honest (m ≫= f).
Proof.
  intros Hm Hf w b w' (a & w1 & [l1 H1]%Hm & [l2 H2]%Hf)%C_bind_inv. exists (l1 ++ l2). by eapply told_trans.
Qed.

Lemma honest_lift {A} (r : res A) : honest (lift r).
Proof. apply honest_mute, mute_lift. Qed.
Lemma honest_ret {A} (a : A) : honest (mret a).
Proof. apply honest_mute, mute_ret. Qed.
Lemma honest_nofuel {A} : honest (λ _, NoFuel : res (A * world)).
Proof. by intros w a w'. Qed.
Lemma honest_world {A} (f : world → C A) : (∀ w, honest (f w)) → honest (λ w, f w w).
Proof. intros Hf w a w'. apply Hf. Qed.

Lemma honest_WRITE_ANSWER a err : honest (WRITE_MONITOR_ANSWER a err).
Proof.
  intros w e w' H. unfold WRITE_MONITOR_ANSWER, write_bytes in H. inv_C.
  destruct (match w_write w with [] => true | b :: _ => b end).
  - exists [Sent PSig (le_bytes 1 a)]. split_and!; [done..|]. cbn [w_out]. by rewrite output_app.
  - exists []. by split_and!; cbn; rewrite ?app_nil_r.
Qed.

Lemma honest_READ_SIGNAL dst err : honest (READ_CLIENT_SIGNAL dst err).
Proof.
  intros w r w' (x & Hl & Hs & _ & Ho)%signal_log. exists [read_action x]. split; [done|].
  rewrite Ho. destruct x; cbn in *; by rewrite app_nil_r.
Qed.

Lemma honest_TIMEOUT opts err : honest (MONITOR_SIGNAL_TIMEOUT opts err).
Proof. apply honest_mute, mute_TIMEOUT. Qed.

Create HintDb honest discriminated.
#[export] Hint Resolve honest_ret honest_lift honest_nofuel honest_WRITE_ANSWER honest_READ_SIGNAL honest_TIMEOUT : honest.

Ltac honest_step :=
  match goal with
  | |- honest (_ ≫= _) => apply honest_bind; [|intros ?]
  | |- honest (if decide _ then _ else _) => case_decide
  | |- honest (match ?x with _ => _ end) => destruct x
  | |- _ => solve [eauto with honest]
  | |- _ => solve [apply honest_mute; unfold BLOCK_STACK_PUSH, CALL_STACK_PUSH; solve_mute]
  end.
Ltac solve_honest := repeat honest_step.

Lemma honest_dispatch opts data st : honest (dispatch opts data st).
Proof. unfold dispatch, on_after_jump, on_call, on_exit. solve_honest. Qed.
#[export] Hint Resolve honest_dispatch : honest.

Lemma honest_run_loop opts data fuel : ∀ st, honest (run_loop fuel opts data st).
Proof. induction fuel as [|fuel IH]; intros st; cbn [run_loop]; solve_honest. Qed.

Lemma mute_run_exit_all opts st : mute None (run_exit opts st).
Proof.
  unfold run_exit, exit_trace, BLOCK_STACK_PUSH, CALL_STACK_PUSH, call_stack_trace, block_stack_trace. solve_mute;
    by apply mute_stack_trace.
Qed.

Lemma honest_monitor_run opts data : honest (monitor_run opts data).
Proof.
  pose proof (λ st, honest_mute _ (mute_run_exit_all opts st)). pose proof honest_run_loop.
  unfold monitor_run, call_stack_init, block_stack_init. solve_honest.
  apply (honest_world (λ w, run_loop (run_fuel w) _ _ _)). solve_honest.
Qed.
#[export] Hint Resolve honest_monitor_run : honest.

Lemma honest_run_times n opts data : honest (run_times n opts data).
Proof. induction n as [|n IH]; cbn [run_times]; solve_honest. Qed.
#[export] Hint Resolve honest_run_times : honest.

Lemma honest_main_runs opts data : honest (main_runs opts data).
Proof.
  assert (H : ∀ n err, honest (preload_loop n err)); [|unfold main_runs; solve_honest].
  induction n as [|n IH]; intros err; cbn [preload_loop]; solve_honest.
Qed.

(** What a run does on the pipe of the signals is the beginning of turns: an
    answer comes after the read of its signal, in any world. *)
Definition answer_first (w w' : world) : Prop := ∃ l rs,
  w_log w' = w_log w ++ l ∧ l `prefix_of` Sent PSig ok_bytes :: (rs ≫= turn).

Lemma answer_first_none w w' : w_log w' = w_log w → answer_first w w'.
Proof. intros Hl. exists [], []. rewrite app_nil_r. split; [done|]. apply prefix_nil. Qed.

Lemma answer_first_one w w' : w_log w' = w_log w ++ [Sent PSig ok_bytes] → answer_first w w'.
Proof. intros Hl. by exists [Sent PSig ok_bytes], []. Qed.

Lemma answer_cases err w err' w' : WRITE_MONITOR_ANSWER CFI_OK err w = Val (err', w') →
  w_log w' = w_log w ∨ w_log w' = w_log w ++ [Sent PSig ok_bytes].
Proof.
  unfold WRITE_MONITOR_ANSWER, write_bytes. intros H. inv_C.
  destruct (match w_write w with [] => true | b :: _ => b end); [by right|by left].
Qed.

(** A case of the switch writes one answer at most. *)
Lemma dispatch_answers opts data st w c w' : dispatch opts data st w = Val (c, w') →
  w_log w' = w_log w ∨ w_log w' = w_log w ++ [Sent PSig ok_bytes].
Proof.
  unfold dispatch. intros H. apply C_bind_inv in H as (e & w1 & [_ ->]%lift_inv & H).
  destruct (client_event_case e) as [[]|]; try (by apply lift_inv in H as [_ ->]; left); [..|by inv_C; left].
  - assert (Hm : mute None (on_after_jump opts data st)) by (unfold on_after_jump, BLOCK_STACK_PUSH; solve_mute).
    left. apply Hm in H. apply H.
  - assert (Hm : mute None (on_call opts data st)) by (unfold on_call, BLOCK_STACK_PUSH, CALL_STACK_PUSH; solve_mute).
    left. apply Hm in H. apply H.
  - unfold on_exit in H. apply C_bind_inv in H as ([] & w2 & [_ ->]%lift_inv & H); [by inv_C; left|].
    apply C_bind_inv in H as ([] & w2 & [_ ->]%lift_inv & H); [|by apply lift_inv in H as [_ ->]; left].
    apply C_bind_inv in H as ([] & w2 & [_ ->]%lift_inv & H); [by inv_C; left|].
    apply C_bind_inv in H as (e2 & w2 & H2 & H). inv_C. by eapply answer_cases.
Qed.

Lemma run_loop_answers opts data fuel : ∀ st w st' w', run_loop fuel opts data st w = Val (st', w') → answer_first w w'.
Proof.
  induction fuel as [|fuel IH]; intros st w st' w' H; cbn [run_loop] in H; [done|].
  apply C_bind_inv in H as (c & w1 & Hd & H). destruct c as [st1|st1]; cycle 1.
  { inv_C. apply dispatch_answers in Hd as [Hl|Hl]; [by apply answer_first_none|by apply answer_first_one]. }
  apply dispatch_untouched in Hd as (Hl1 & _). apply C_bind_inv in H as (err & w2 & Ha & H).
  apply C_bind_inv in H as (err2 & w3 & Ht & H). pose proof (mute_TIMEOUT None _ _ _ _ _ Ht) as (Hl3 & _).
  assert (Hl2 : w_log w2 = w_log w ∨ w_log w2 = w_log w ++ [Sent PSig ok_bytes]) by (rewrite <- Hl1; by eapply answer_cases).
  case_decide as He; [inv_C; destruct Hl2; [apply answer_first_none|apply answer_first_one]; congruence|].
  assert (err2 = 0) as -> by lia. apply timeout_log in Ht as [-> _]; [|done]. apply answer_log in Ha as (_ & Hla & _); [|done].
  apply C_bind_inv in H as ([sg err] & w4 & Hr & H). apply signal_log in Hr as (x & Hl4 & _).
  destruct (IH _ _ _ _ H) as (l & rs & Hl & Hp). exists (Sent PSig ok_bytes :: read_action x :: l), (x :: rs).
  split; [by rewrite Hl, Hl4, Hl3, Hla, Hl1, <- !app_assoc|]. by do 2 apply prefix_cons.
Qed.

Lemma monitor_run_turns opts data w e w' : monitor_run opts data w = Val (e, w') → ∃ l rs,
  told l w w' ∧ l `prefix_of` (rs ≫= turn).
Proof.
  intros H. destruct (honest_monitor_run _ _ _ _ _ H) as [l Ht]. exists l. unfold monitor_run in H.
  assert (Hinit1 : ∀ s, mute None (call_stack_init s)) by (intros s; unfold call_stack_init; solve_mute).
  assert (Hinit2 : ∀ s, mute None (block_stack_init s)) by (intros s; unfold block_stack_init; solve_mute).
  assert (Hnone : ∀ w0, untouched w w0 → w' = w0 → ∃ rs, told l w w' ∧ l `prefix_of` (rs ≫= turn)).
  { intros w0 (Hl & _) ->. exists []. split; [done|]. rewrite (proj1 Ht) in Hl.
    rewrite <- (app_nil_r (w_log w)) in Hl at 2. apply app_inv_head in Hl as ->. apply prefix_nil. }
  apply C_bind_inv in H as ([e1 cs] & w1 & E1%Hinit1 & H). case_decide; [inv_C; by eapply Hnone|].
  apply C_bind_inv in H as ([e2 bs] & w2 & E2%Hinit2 & H). case_decide; [inv_C; eapply Hnone; [by etrans|done]|].
  apply C_bind_inv in H as (err & w3 & E3%(mute_TIMEOUT None) & H).
  assert (E : untouched w w3) by (by do 2 (etrans; [eassumption|])). clear E1 E2 E3.
  case_decide; [apply mute_run_exit_all in H; eapply Hnone; [by etrans|done]|].
  apply C_bind_inv in H as ([sg err2] & w4 & E4 & H). apply signal_log in E4 as (x & Hl4 & _).
  apply C_bind_inv in H as (st & w5 & (l5 & rs & Hl5 & Hp)%run_loop_answers & (Hl6 & _)%mute_run_exit_all).
  exists (x :: rs). split; [done|]. destruct Ht as [Hl _]. rewrite Hl6, Hl5, Hl4, (proj1 E), <- !app_assoc in Hl.
  apply app_inv_head in Hl as <-. cbn. by apply prefix_cons.
Qed.

Lemma answered_after_read rs : ∀ l, l `prefix_of` (rs ≫= turn) → no_eof l →
  (length (sents PSig l) <= length (gots PSig l))%nat.
Proof.
  induction rs as [|r rs IH]; intros l Hl Hn; cbn [mbind list_bind] in Hl.
  { apply prefix_nil_inv in Hl as ->. done. }
  apply prefix_app_cases in Hl as [Hl|(l' & -> & Hl)].
  - unfold turn in Hl. destruct l as [|a l]; [done|]. apply prefix_cons_inv_1 in Hl as H1. subst a.
    destruct r as [b|]; [|exfalso; apply (Hn PSig); set_solver].
    apply prefix_cons_inv_2 in Hl. destruct l as [|a l]; [cbn; lia|]. apply prefix_cons_inv_1 in Hl as H1. subst a.
    apply prefix_cons_inv_2, prefix_nil_inv in Hl as ->. cbn. lia.
  - apply no_eof_app in Hn as [Hn1 Hn]. specialize (IH l' Hl Hn). rewrite sents_app, gots_app, !length_app.
    destruct r as [b|]; [|exfalso; apply (Hn1 PSig); set_solver]. cbn. lia.
Qed.

(** ** What was answered was checked *)

(** Runs that are complete, then the beginning of one. *)
Definition followed (data : monitor_data) (sigs : list client_signal) : Prop := ∃ trs tr c,
  sigs = concat trs ++ tr ∧ Forall (run_trace data) trs ∧ asteps data Idle tr = Some c.

(** At each point of the log each answer comes after the read of its signal, and
    the signals that were answered are followed. *)
Definition checks (data : monitor_data) (sigs : list client_signal) (l : list action) : Prop :=
  ∀ l1, l1 `prefix_of` l → no_eof l1 →
    (length (sents PSig l1) <= length (gots PSig l1))%nat ∧ followed data (take (length (sents PSig l1)) sigs).

Lemma followed_nil data : followed data [].
Proof. exists [], [], Idle. by split_and!; [|constructor|]. Qed.

Lemma followed_run data tr sigs : run_trace data tr → followed data sigs → followed data (tr ++ sigs).
Proof.
  intros Htr (trs & tr' & c & -> & Htrs & Hc). exists (tr :: trs), tr', c.
  split; [cbn; by rewrite app_assoc|]. split; [by constructor|done].
Qed.

Lemma asteps_take data c tr c' : asteps data c tr = Some c' → ∀ n, ∃ c1, asteps data c (take n tr) = Some c1.
Proof.
  intros H n. rewrite <- (take_drop n tr), asteps_app in H. destruct (asteps data c (take n tr)) as [c1|]; [by exists c1|done].
Qed.

Lemma run_trace_asteps data tr : run_trace data tr → asteps data Idle tr = Some Finished.
Proof.
  intros (m & f & He & Hact). inversion Hact as [m0 f0 b s1 body_tr s2 H1 N1 Hb H2 N2]; subst.
  apply names_inv in N1 as [<- <-].
  assert (Hstart : astep data Idle s1 = Some
    (Active InFunction (sig_module s1) (sig_function s1) FUNCTION_ENTRY_BLOCK_ID [])).
  { unfold carries in H1. unfold astep. by rewrite H1, He. }
  rewrite (asteps_cons _ _ _ _ _ Hstart), asteps_app.
  rewrite (proj2 (follow_grammar data) _ _ _ _ _ Hb []). cbn.
  unfold carries in H2. unfold astep. by rewrite H2, N2, He.
Qed.

(** A verdict follows the signals that it counts. *)
Lemma reject_asteps data sigs : ∀ n c k, arun data n c sigs = Reject k →
  (n <= k)%nat ∧ ∃ c', asteps data c (take (k - n) sigs) = Some c'.
Proof.
  induction sigs as [|s sigs IH]; intros n c k H; cbn [arun] in H.
  { injection H as ->. rewrite take_nil. split; [lia|by exists c]. }
  assert (Hno : Reject n = Reject k → (n <= k)%nat ∧ ∃ c', asteps data c (take (k - n) (s :: sigs)) = Some c').
  { intros [= ->]. rewrite Nat.sub_diag. split; [lia|by exists c]. }
  destruct (astep data c s) as [c'|] eqn:Ea; [|by apply Hno].
  assert (Hgo : arun data (S n) c' sigs = Reject k →
    (n <= k)%nat ∧ ∃ c', asteps data c (take (k - n) (s :: sigs)) = Some c').
  { intros (Hle & c2 & H2)%IH. split; [lia|]. exists c2. replace (k - n)%nat with (S (k - S n)) by lia.
    cbn [take]. by rewrite (asteps_cons _ _ _ _ _ Ea). }
  destruct c'; [by apply Hgo..|done].
Qed.

Lemma output_answers n : output PSig (replicate n ok_answer) = replicate n ok_bytes.
Proof. induction n as [|n IH]; [done|]. exact (f_equal (cons ok_bytes) IH). Qed.

Lemma output_traces tr : Forall is_trace tr → output PSig tr = [].
Proof. induction 1 as [|e tr He _ IH]; [done|]. unfold output. cbn. destruct e; done || exact IH. Qed.

Section Runs.
Context (opts : options) (data : monitor_data) (Hready : run_ready data).

(** The signals that a run answers are followed, whatever its result. *)
Lemma run_answered w e w' l : favourable w → Forall full_packet (w_sig w) → monitor_run opts data w = Val (e, w') →
  told l w w' → ∃ c, asteps data Idle (take (length (sents PSig l)) (signals w)) = Some c.
Proof using Hready.
  intros Hw Hps Hrun (_ & _ & Ho). destruct (decide (w_sig w = [])) as [Hnil|Hne].
  { by rewrite monitor_run_no_signal in Hrun. }
  pose proof (monitor_run_verdict opts data Hready w Hw Hps Hne) as Hout. fold (signals w) in Hout.
  destruct (arun data 0 Idle (signals w)) as [k rest|k] eqn:Hv; cbn [run_outcome] in Hout.
  - destruct Hout as (w1 & Hr & (_ & Ho1 & _) & _). rewrite Hrun in Hr. injection Hr as _ <-.
    rewrite Ho1, output_app, output_answers in Ho. apply app_inv_head in Ho as <-. rewrite length_replicate.
    apply arun_accepts_iff in Hv as (tr & Htr & -> & ->). rewrite take_app_length. exists Finished.
    by apply run_trace_asteps.
  - destruct Hout as [(e1 & w1 & tr & Hr & _ & Ho1 & Htr)|[Hr _]]; [|congruence]. rewrite Hrun in Hr. injection Hr as _ <-.
    rewrite Ho1, !output_app, output_answers, (output_traces tr), app_nil_r in Ho by done.
    apply app_inv_head in Ho as <-. rewrite length_replicate. apply reject_asteps in Hv as [_ Hv].
    by rewrite Nat.sub_0_r in Hv.
Qed.

Lemma run_checks w e w' : favourable w → Forall full_packet (w_sig w) → monitor_run opts data w = Val (e, w') →
  ∃ l, told l w w' ∧ checks data (signals w) l.
Proof using Hready.
  intros Hw Hps Hrun. destruct (monitor_run_turns _ _ _ _ _ Hrun) as (l & rs & Ht & Hp). exists l. split; [done|].
  intros l1 Hl1 Hn. split; [apply (answered_after_read rs); [by etrans|done]|].
  destruct (run_answered w e w' l Hw Hps Hrun Ht) as [c Hc]. destruct Hl1 as [l2 ->].
  rewrite sents_app, length_app in Hc. apply (asteps_take _ _ _ _) with (n := length (sents PSig l1)) in Hc as [c1 Hc].
  rewrite take_take, Nat.min_l in Hc by lia. exists [], (take (length (sents PSig l1)) (signals w)), c1.
  split; [done|]. by split; [constructor|].
Qed.

(** After a run that is accepted. *)
Lemma checks_after ps sigs l : run_trace data (signal_of_packet <$> ps) → checks data ((signal_of_packet <$> ps) ++ sigs) (ps ≫= monitor_exchange) →
  checks data sigs l → checks data ((signal_of_packet <$> ps) ++ sigs) ((ps ≫= monitor_exchange) ++ l).
Proof using Type.
  intros Htr H1 H2 l1 Hl1 Hn. apply prefix_app_cases in Hl1 as [Hl1|(l2 & -> & Hl2)]; [by apply H1|].
  apply no_eof_app in Hn as [_ Hn]. destruct (H2 l2 Hl2 Hn) as [Hle Hf].
  assert (Hlen : length (sents PSig (ps ≫= monitor_exchange)) = length ps ∧ length (gots PSig (ps ≫= monitor_exchange)) = length ps).
  { clear. induction ps as [|p ps [IH1 IH2]]; [done|]. split; [exact (f_equal S IH1)|exact (f_equal S IH2)]. }
  rewrite sents_app, gots_app, !length_app, (proj1 Hlen), (proj2 Hlen). split; [lia|].
  rewrite take_app_ge by (rewrite length_fmap; lia). rewrite length_fmap, Nat.add_sub_swap, Nat.sub_diag by lia.
  by apply followed_run.
Qed.

Lemma checks_nil sigs : checks data sigs [].
Proof using Type. intros l1 ->%prefix_nil_inv _. split; [done|]. apply followed_nil. Qed.

(** A run that is accepted, then what comes after it. *)
Lemma accepted_checks w w1 l : favourable w → Forall full_packet (w_sig w) → monitor_run opts data w = Val (0, w1) →
  favourable w1 ∧ Forall full_packet (w_sig w1) ∧ ∃ ps,
    told (ps ≫= monitor_exchange) w w1 ∧ (checks data (signals w1) l → checks data (signals w) ((ps ≫= monitor_exchange) ++ l)).
Proof using Hready.
  intros Hw Hps Hrun. destruct (monitor_run_exchanged opts data Hready w w1 Hw Hps Hrun) as ((ps & Hl & Hs & _) & Hw1 & Hps1).
  destruct (monitor_run_accepts opts data Hready w w1 Hw Hps Hrun) as (tr & Htr & Hsig & _).
  destruct (run_checks w 0 w1 Hw Hps Hrun) as (l0 & Ht & Hc). pose proof (proj1 Ht) as Hl0.
  rewrite Hl in Hl0. apply app_inv_head in Hl0 as <-. split; [done|]. split; [done|]. exists ps. split; [done|].
  unfold signals in *. rewrite Hs, fmap_app in *. apply app_inv_tail in Hsig as Htr'. rewrite <- Htr' in Htr.
  intros H. by apply checks_after.
Qed.

Lemma run_times_checks n : ∀ w e w', favourable w → Forall full_packet (w_sig w) → run_times n opts data w = Val (e, w') →
  ∃ l, told l w w' ∧ checks data (signals w) l.
Proof using Hready.
  induction n as [|n IH]; intros w e w' Hw Hps H; cbn [run_times] in H.
  { inv_C. exists []. split; [by apply told_nil|apply checks_nil]. }
  apply C_bind_inv in H as (e1 & w1 & Hrun & H). case_decide as He; [inv_C; by eapply run_checks|].
  assert (e1 = 0) as -> by lia. destruct (accepted_checks w w1 [] Hw Hps Hrun) as (Hw1 & Hps1 & _).
  destruct (IH _ _ _ Hw1 Hps1 H) as (l2 & Ht2 & Hc2).
  destruct (accepted_checks w w1 l2 Hw Hps Hrun) as (_ & _ & ps & Ht & Hc). eexists. split; [by eapply told_trans|by apply Hc].
Qed.

(** The preloaded answers, then answers to signals that are followed. *)
Lemma main_runs_checks w e w' : favourable w → Forall full_packet (w_sig w) → main_runs opts data w = Val (e, w') → ∃ l,
  told ((Sent PSig <$> replicate (nb_preloaded opts) ok_bytes) ++ l) w w' ∧ checks data (signals w) l.
Proof using Hready.
  intros Hw Hps H. destruct (honest_main_runs _ _ _ _ _ H) as [l0 Ht0]. unfold main_runs in H.
  destruct (preload_ok opts w Hw) as (w1 & Hpre & Hw1 & Hs1 & _). rewrite C_bind_eq, Hpre in H.
  assert (Hk : w_log w1 = w_log w ++ (Sent PSig <$> replicate (nb_preloaded opts) ok_bytes)).
  { unfold nb_preloaded. case_decide; [by apply preload_loop_log in Hpre as [_ Hpre]|].
    rewrite Z2Nat.nonpos by lia. injection Hpre as <-. by rewrite app_nil_r. }
  assert (Hgo : ∀ l, told l w1 w' → checks data (signals w1) l → ∃ l,
    told ((Sent PSig <$> replicate (nb_preloaded opts) ok_bytes) ++ l) w w' ∧ checks data (signals w) l).
  { intros l (Hl & _) Hc. exists l. unfold signals in *. rewrite Hs1 in Hc. split; [|done]. pose proof (proj1 Ht0) as Hl0.
    rewrite Hl, Hk, <- app_assoc in Hl0. by apply app_inv_head in Hl0 as ->. }
  rewrite <- Hs1 in Hps. clear Hpre. apply C_bind_inv in H as (e1 & w2 & Hrun & H). case_decide as He.
  { inv_C. destruct (run_checks _ _ _ Hw1 Hps Hrun) as (l & Ht & Hc). by eapply Hgo. }
  assert (e1 = 0) as -> by (apply small_u32; [by eapply monitor_run_small|lia]).
  apply C_bind_inv in H as (nb & w3 & [_ ->]%lift_inv & H). apply C_bind_inv in H as (e2 & w3 & Hruns & H). inv_C.
  destruct (accepted_checks w1 w2 [] Hw1 Hps Hrun) as (Hw2 & Hps2 & _).
  destruct (run_times_checks _ _ _ _ Hw2 Hps2 Hruns) as (l2 & Ht2 & Hc2).
  destruct (accepted_checks w1 w2 l2 Hw1 Hps Hrun) as (_ & _ & ps & Ht & Hc).
  eapply Hgo; [by eapply told_trans|by apply Hc].
Qed.

End Runs.

(** ** The lag *)

Section Lag.
Context (opts : options) (data : monitor_data) (Hready : run_ready data).

(** At each point of an execution, where [dc] was done by the client, which makes
    the calls [xs], and [dm] by the monitor. *)
Lemma reached_lag k xs sts wc r wc' wm e wm' cap y :
  copies_started k sts → k <= 2 ^ 16 → Forall (λ x, 0 <= x.1 < k) xs → w_log wc = [] →
  in_sequence (copy_call <$> xs) sts wc = Val (r, wc') →
  favourable wm → Forall full_packet (w_sig wm) → w_log wm = [] → main_runs opts data wm = Val (e, wm') →
  rtc (advance cap) (network_start (w_log wc') (w_log wm')) y →
  ∃ dc dm, w_log wc' = dc ++ client_todo y ∧ w_log wm' = dm ++ monitor_todo y ∧
    sents PSig dc = client_signal_bytes <$> take (length (sents PSig dc)) (sent xs) ∧
    (length (gots PSig dc) <= length (sents PSig dc) <= S (length (gots PSig dc)))%nat ∧
    ∃ checked, (checked <= length (gots PSig dm) <= length (sents PSig dc))%nat ∧
      (length (gots PSig dc) <= nb_preloaded opts + checked)%nat ∧ followed data (take checked (sent xs)).
Proof using Hready.
  intros Hst Hk Hxs Hwc Hcalls Hw Hps Hwm Hruns (dc & dm & Hdc & Hdm & Nc & Nm & Hq)%reached_played.
  exists dc, dm. split; [done|]. split; [done|].
  destruct (calls_turns k xs _ _ _ _ Hst Hxs Hcalls) as (lc & rs & Hlc & Hpc). rewrite Hwc, app_nil_l in Hlc. subst lc.
  destruct (turns_prefix (sent xs) rs dc) as [Hsent Hle]; [etrans; [|exact Hpc]; by eexists|done|].
  destruct (Hq PSig) as [Hto Hback]. apply (f_equal length) in Hback as Hans. rewrite length_app in Hans.
  pose proof (f_equal length Hto) as Htol. rewrite length_app in Htol.
  split; [done|]. split; [done|].
  destruct (main_runs_checks opts data Hready wm e wm' Hw Hps Hruns) as (l & (Hlm & Hsm & _) & Hchk).
  rewrite Hwm, app_nil_l in Hlm. assert (Hpre : dm `prefix_of` (Sent PSig <$> replicate (nb_preloaded opts) ok_bytes) ++ l).
  { rewrite <- Hlm, Hdm. by eexists. }
  apply prefix_app_cases in Hpre as [Hpre|(l1 & -> & Hl1)].
  { exists 0%nat. split; [lia|]. split; [|apply followed_nil]. destruct Hpre as [l2 Hl2].
    apply (f_equal (λ l, length (sents PSig l))) in Hl2. rewrite sents_app, length_app in Hl2.
    assert (Hn : ∀ n, length (sents PSig (Sent PSig <$> replicate n ok_bytes)) = n).
    { clear. induction n as [|n IH]; [done|]. exact (f_equal S IH). }
    rewrite Hn in Hl2. lia. }
  assert (Hpl : ∀ n, length (sents PSig (Sent PSig <$> replicate n ok_bytes)) = n ∧
    gots PSig (Sent PSig <$> replicate n ok_bytes) = []).
  { clear. induction n as [|n [IH1 IH2]]; [done|]. split; [exact (f_equal S IH1)|exact IH2]. }
  apply no_eof_app in Nm as [_ Nm]. destruct (Hchk l1 Hl1 Nm) as [Hle1 Hf].
  rewrite sents_app, gots_app, ?length_app, (proj1 (Hpl _)), (proj2 (Hpl _)), app_nil_l in *.
  exists (length (sents PSig l1)). split; [lia|]. split; [lia|].
  destruct Hl1 as [l2 ->]. rewrite gots_app, <- app_assoc in Hsm. cbn [length] in *.
  assert (Hwf : Forall wf_signal (sent xs)).
  { unfold sent. apply Forall_fmap. eapply Forall_impl; [|exact Hxs]. intros x Hx. apply call_signal_wf. cbn in Hx. unfold in_u. lia. }
  assert (E : signal_of_packet <$> sents PSig dc = take (length (sents PSig dc)) (sent xs)).
  { rewrite Hsent at 1. by apply signals_of_bytes, Forall_take. }
  rewrite Hto in E at 1. rewrite fmap_app in E. apply (f_equal (take (length (sents PSig l1)))) in E.
  rewrite take_app_le, take_take, Nat.min_l in E by (rewrite ?length_fmap; lia).
  unfold signals in Hf. rewrite Hsm, fmap_app, take_app_le, E in Hf by (by rewrite length_fmap). done.
Qed.

(** ** The end *)

Lemma calls_send k xs : Forall (λ x, 0 <= x.1 < k) xs → sends_calls k xs (in_sequence (copy_call <$> xs)).
Proof using Type. intros Hxs. exact (call_function_sends (λ _ _, xs) k 0 [] Hxs). Qed.

Lemma log_answers n ps : sents PSig ((Sent PSig <$> replicate n ok_bytes) ++ (ps ≫= monitor_exchange)) =
  replicate (length ps + n) ok_bytes.
Proof using Type.
  rewrite sents_app. assert (H1 : sents PSig (Sent PSig <$> replicate n ok_bytes) = replicate n ok_bytes).
  { induction n as [|n IH]; [done|]. exact (f_equal (cons ok_bytes) IH). }
  assert (H2 : sents PSig (ps ≫= monitor_exchange) = replicate (length ps) ok_bytes).
  { induction ps as [|p ps IH]; [done|]. exact (f_equal (cons ok_bytes) IH). }
  by rewrite H1, H2, <- replicate_add, Nat.add_comm.
Qed.

(** Calls whose signals are a session come to the end, each process being fed
    with what the other one writes. *)
Lemma session_closes k xs sts nb :
  copies_started k sts → k <= 2 ^ 16 → Forall (λ x, 0 <= x.1 < k) xs →
  count_finis (Z.to_nat (nb_modules data)) 0 data 0 = Val nb → session data (S (Z.to_nat nb)) (sent xs) [] →
  ∃ sts' wc wm,
    in_sequence (copy_call <$> xs) sts (World [] [] [] (output PSig (w_out wm)) [] []) = Val ((Returned, sts'), wc) ∧
    main_runs opts data (World [] [] [] (output PSig (w_out wc)) [] []) = Val (0, wm) ∧ signals wm = [] ∧
    ∀ cap, (nb_preloaded opts < cap)%nat → never_blocks cap (network_start (w_log wc) (w_log wm)).
Proof using Hready.
  intros Hst Hk Hxs Hnb Hses. set (win := World [] [] [] (client_signal_bytes <$> sent xs) [] []).
  assert (Hfav : favourable win) by (by repeat split; constructor).
  assert (Hwf : Forall wf_signal (sent xs)).
  { unfold sent. apply Forall_fmap. eapply Forall_impl; [|exact Hxs]. intros x Hx. apply call_signal_wf. cbn in Hx. unfold in_u. lia. }
  assert (Hsigs : signals win = sent xs) by by apply signals_of_bytes.
  assert (Hfull : Forall full_packet (w_sig win)).
  { apply Forall_fmap, Forall_true. intros s. unfold full_packet. apply Nat.le_refl. }
  rewrite <- Hsigs in Hses. apply (main_runs_iff opts data Hready win nb [] Hfav Hfull Hnb) in Hses as (wm & Hrun & Hend).
  destruct (main_runs_log opts data Hready win wm Hfav Hfull Hrun) as (ps & Hlog & Hps).
  assert (Hw : w_sig wm = []) by (by apply fmap_nil_inv in Hend). rewrite Hw, app_nil_r in Hps. cbn in Hps, Hlog.
  destruct (honest_main_runs _ _ _ _ _ Hrun) as (l & Hl & _ & Ho). cbn in Hl, Ho. rewrite Hlog in Hl. subst l.
  rewrite log_answers in Ho. subst ps. rewrite length_fmap in Ho. unfold sent in Ho at 1. rewrite length_fmap, replicate_add in Ho.
  destruct (calls_send k xs Hxs sts (World [] [] [] (output PSig (w_out wm)) [] []) (replicate (nb_preloaded opts) ok_bytes))
    as (sts' & wc & Hcalls & _ & _ & Hout & _ & _ & _ & Hclog); [done|constructor|done|].
  exists sts', wc, wm. split; [done|]. cbn in Hout, Hclog. split; [|split; [done|]].
  - rewrite Hout, output_sig_events. exact Hrun.
  - intros cap Hcap. rewrite Hclog, Hlog. eapply finishes_never_blocks.
    + etrans; [apply monitor_sends; cbn; rewrite length_replicate; lia|].
      rewrite <- (app_nil_r (calls_log _)), <- (app_nil_r (_ ≫= monitor_exchange)). by apply exchanges.
    + done.
Qed.

End Lag.
