(* ===== verification/Closing.v ===== *)
(** * The client and the monitor, end to end

    The client process of a program and the monitor process, each fed with what
    the other writes: the client starts all its binaries and runs to its end,
    and the monitor accepts it. *)

From S2P Require Import Prelude CSem Wire Client RunRefine LoadSections MonitorLoad Dot Text Ir Pass PassTable PassFiles.
From S2P Require Import Network MonitorLog Main Sessions LoadAnswers LoadPackets Prelink PrelinkSpec Startup StartupSpec Wrappers LoadModule Build.
From S2P Require Import BuildSpec BuildPack Program Binary Linking Source Processes ClientProcess.
From Stdlib Require Import Strings.Byte.
From Stdlib Require Strings.String.
Import Strings.String.StringSyntax.
#[local] Open Scope string_scope.
#[local] Open Scope Z_scope.
#[local] Open Scope list_scope.

Lemma numbered_fmap {A B} (f : A → B) L : ∀ m, numbered m (f <$> L) = (λ x, (x.1, f x.2)) <$> numbered m L.
Proof. induction L as [|a L IH]; intros m; [done|]. cbn. f_equal. apply IH. Qed.

(** What was sent is what is read. *)
Lemma sent_signals xs : Forall (λ x, in_u 16 x.1) xs →
  signal_of_packet <$> (client_signal_bytes <$> sent xs) = sent xs ∧
  Forall full_packet (client_signal_bytes <$> sent xs).
Proof.
  intros Hx. split.
  - apply signals_of_bytes, Forall_fmap. eapply Forall_impl; [|exact Hx]. intros x. apply call_signal_wf.
  - apply Forall_fmap, Forall_true. intros s. unfold full_packet. apply Nat.le_refl.
Qed.

(** Lists in pieces of the same lengths. *)
Lemma concat_pieces {A} (xs ys : list (list A)) a b : Forall2 (λ x y, length x = length y) xs ys →
  concat xs ++ a = concat ys ++ b → xs = ys ∧ a = b.
Proof.
  induction 1 as [|x y xs ys Hxy _ IH]; [done|]. cbn [concat]. rewrite <- !app_assoc.
  intros [-> H]%app_inj_1; [|done]. destruct (IH H) as [-> ->]. done.
Qed.

Lemma concat_fmap_snd {A B} (xss : list (list (A * list B))) :
  concat (concat ((λ xs, xs.*2) <$> xss)) = concat (concat xss).*2.
Proof. induction xss as [|xs xss IH]; [done|]. cbn [fmap list_fmap concat]. by rewrite fmap_app, !concat_app, IH. Qed.

Section Closing.
Context (level : Z) (ignored : gset (list byte)) (pe : py_env) (Hpe : py_env_ok pe).
Context (L : list binary) (resolve : Z → list byte → Z) (Hwp : whole_program level ignored L resolve).
Context (Hsmall : Forall small_packet (program_packets level pe L)).

Let Hlp : linked_program level ignored L resolve := wp_linked _ _ _ _ Hwp.
Abbreviation generated := (binary_prelinked level pe <$> L).

(** The code of the program: the functions that start make the calls of an
    execution, in the binaries that are loaded when they do. *)
Definition program_code (code : Z → list byte → list (Z * client_call)) : Prop := ∀ m B f,
  binary_at L m = Some B → starting B.1 f → f ∈ B.1 ≫= defined ignored →
  (∃ d, runs (binary_at L) resolve d m f (sent (code m f))) ∧ Forall (λ x, 0 <= x.1 < m + 1) (code m f).

Context (code : Z → list byte → list (Z * client_call)) (Hcode : program_code code).

(** The executions of functions of a binary. *)
Definition ran (fs : prelinked → list (list byte)) (x : Z * binary) : list (Z * list byte * list client_signal) :=
  (λ f, (x.1, f, sent (code x.1 f))) <$> fs (binary_prelinked level pe x.2).

Lemma ran_signals fs x : concat (ran fs x).*2 = sent (concat (code x.1 <$> fs (binary_prelinked level pe x.2))).
Proof using Type.
  unfold ran. induction (fs _) as [|f l IH]; [done|]. cbn [fmap list_fmap concat]. unfold sent in *.
  rewrite fmap_app. cbn [snd]. f_equal. exact IH.
Qed.

Lemma sent_concat xss : sent (concat xss) = concat (sent <$> xss).
Proof using Type. induction xss as [|xs xss IH]; [done|]. cbn. unfold sent in *. by rewrite fmap_app, IH. Qed.

Lemma numbered_binaries x : x ∈ numbered 0 L → binary_at L x.1 = Some x.2.
Proof using Type. exact (numbered_elem L L [] x eq_refl). Qed.

(** The functions [fs] that a wrapper of a binary calls are [fs'], which start. *)
Definition wrapped (fs : prelinked → list (list byte)) (fs' : list compiled → list (list byte)) : Prop := ∀ x,
  binary_at L x.1 = Some x.2 → fs (binary_prelinked level pe x.2) ≡ₚ fs' x.2.1 ∧
  ∀ f, f ∈ fs' x.2.1 → starting x.2.1 f ∧ f ∈ x.2.1 ≫= defined ignored.

Lemma init_wrapped : wrapped fcts_init startup_functions.
Proof using Hpe Hwp.
  intros x Hx. destruct (lp_built _ _ _ _ Hlp x.2 (binary_at_elem _ _ _ Hx)) as [prefix Hb].
  split; [by eapply init_startup|]. intros f Hf. split; [by left|].
  apply (starting_defined prefix level ignored _ _ Hb). by left.
Qed.

Lemma fini_wrapped : wrapped fcts_fini exit_functions.
Proof using Hpe Hwp.
  intros x Hx. destruct (lp_built _ _ _ _ Hlp x.2 (binary_at_elem _ _ _ Hx)) as [prefix Hb].
  split; [by eapply fini_exit|]. intros f Hf. split; [by right; left|].
  apply (starting_defined prefix level ignored _ _ Hb). by right.
Qed.

Lemma ran_executions fs fs' x : wrapped fs fs' → x ∈ numbered 0 L →
  executions L resolve (in_module fs' x) (ran fs x).
Proof using Hcode.
  intros Hw Hx%numbered_binaries. destruct (Hw x Hx) as [Hfs Hs]. split.
  - unfold ran, in_module. rewrite <- list_fmap_compose, Hfs. done.
  - apply Forall_fmap, Forall_elem_iff. intros f Hf. cbn. rewrite Hfs in Hf. destruct (Hs f Hf).
    by apply (Hcode x.1 x.2).
Qed.

Lemma executions_concat fss xss : Forall2 (executions L resolve) fss xss → executions L resolve (concat fss) (concat xss).
Proof using Type.
  induction 1 as [|fs xs fss xss [Hp Hx] _ [IHp IHx]]; [by split|]. cbn [concat]. split.
  - by rewrite fmap_app, Hp, IHp.
  - by apply Forall_app.
Qed.

Lemma bind_concat {A B} (f : A → list B) l : l ≫= f = concat (f <$> l).
Proof using Type. induction l as [|a l IH]; [done|]. cbn. by rewrite <- IH. Qed.

(** The execution that the client makes. *)
Lemma client_execution : execution L resolve (ran fcts_init <$> numbered 0 L)
  [(Z.of_nat (length L) - 1, lit "main", sent (code (Z.of_nat (length L) - 1) (lit "main")))]
  (concat (rev (ran fcts_fini <$> numbered 0 L))).
Proof using Hpe Hwp Hcode.
  split.
  - apply Forall2_fmap_r, Forall_Forall2_diag, Forall_elem_iff. intros x Hx. by apply ran_executions; [apply init_wrapped|].
  - destruct (whole_main _ _ _ _ Hwp) as (b & Hb & Hmain). split; [done|]. constructor; [|constructor].
    apply (Hcode _ b); [done|by right; right|done].
  - rewrite <- fmap_rev, <- bind_concat.
    assert (Hx : executions L resolve (rev (numbered 0 L) ≫= in_module exit_functions) (rev (numbered 0 L) ≫= ran fcts_fini)).
    { rewrite !bind_concat. apply executions_concat, Forall2_fmap_l, Forall2_fmap_r, Forall_Forall2_diag, Forall_elem_iff.
      intros x Hx. rewrite <- Permutation_rev in Hx. by apply ran_executions; [apply fini_wrapped|]. }
    destruct Hx as [Hp Hx]. split; [|done]. by rewrite Hp, <- Permutation_rev.
Qed.

(** Its signals are those of the calls. *)
Lemma concat_ran fs l : concat (concat (ran fs <$> l)).*2 =
  sent (concat ((λ x : Z * binary, concat (code x.1 <$> fs (binary_prelinked level pe x.2))) <$> l)).
Proof using Type.
  induction l as [|x l IH]; [done|]. cbn [fmap list_fmap concat]. rewrite fmap_app, concat_app, ran_signals, IH.
  unfold sent. by rewrite fmap_app.
Qed.

Lemma calls_generated fs : (λ x, concat (code x.1 <$> fs x.2)) <$> numbered 0 generated =
  (λ x : Z * binary, concat (code x.1 <$> fs (binary_prelinked level pe x.2))) <$> numbered 0 L.
Proof using Type. by rewrite numbered_fmap, <- list_fmap_compose. Qed.

Lemma client_signals : sent (client_calls code generated) = concat (concat (ran fcts_init <$> numbered 0 L) ++
  [(Z.of_nat (length L) - 1, lit "main", sent (code (Z.of_nat (length L) - 1) (lit "main")))] ++
  concat (rev (ran fcts_fini <$> numbered 0 L))).*2.
Proof using Type.
  rewrite !fmap_app, !concat_app, concat_ran, <- fmap_rev, concat_ran. unfold client_calls, init_calls, fini_calls.
  rewrite !calls_generated, <- fmap_rev, length_fmap. unfold sent. rewrite !fmap_app. cbn. by rewrite app_nil_r.
Qed.

(** The calls are made in copies that have started. *)
Lemma functions_in_place fs fs' k x : wrapped fs fs' → x ∈ numbered 0 L → x.1 < k →
  Forall (λ f, Forall (λ c : Z * client_call, 0 <= c.1 < k) (code x.1 f)) (fs (binary_prelinked level pe x.2)).
Proof using Hcode.
  intros Hw Hx%numbered_binaries Hk. destruct (Hw x Hx) as [Hfs Hs]. apply Forall_elem_iff. intros f Hf.
  rewrite Hfs in Hf. destruct (Hs f Hf) as [Hst Hd].
  eapply Forall_impl; [|apply (Hcode x.1 x.2 f Hx Hst Hd)]. cbn. lia.
Qed.

Lemma code_in_place : calls_in_place code generated.
Proof using Hpe Hwp Hcode.
  split.
  - rewrite numbered_fmap. apply Forall_fmap, Forall_elem_iff. intros x Hx.
    apply (functions_in_place fcts_init startup_functions (x.1 + 1) x); [apply init_wrapped|done|lia].
  - rewrite length_fmap. destruct (whole_main _ _ _ _ Hwp) as (b & Hb & Hmain).
    destruct (Hcode _ b (lit "main") Hb) as [_ Hc]; [by right; right|done|].
    eapply Forall_impl; [|exact Hc]. cbn. lia.
  - rewrite numbered_fmap, length_fmap. apply Forall_fmap, Forall_elem_iff. intros x Hx.
    apply (functions_in_place fcts_fini exit_functions _ x); [apply fini_wrapped|done|].
    apply numbered_binaries, binary_at_bounds in Hx. lia.
Qed.

Lemma client_calls_wf : Forall (λ x : Z * client_call, in_u 16 x.1) (client_calls code generated).
Proof using Hpe Hwp Hcode.
  pose proof (client_calls_bounds code generated code_in_place) as Hb. rewrite length_fmap in Hb.
  pose proof (lp_few _ _ _ _ Hlp). eapply Forall_impl; [|exact Hb]. unfold in_u. cbn. lia.
Qed.

(** ** Their pipes *)

(** The start of a binary: three writes, the number, the other writes of the
    module, and the end of the load behind them where [main] is. *)
Definition small_binary (b : binary) : Prop := Forall small_packet (init_packets (binary_prelinked level pe b)).

Lemma small_binaries : Forall small_binary L.
Proof using Hsmall.
  pose proof Hsmall as Hs. unfold program_packets in Hs. apply Forall_concat in Hs. by rewrite Forall_fmap in Hs.
Qed.

Lemma startup_writes b num : small_binary b → ∃ b1 b2,
  startup_log (binary_prelinked level pe b) num = (Sent PLoad <$> b1) ++ Got PLoad num :: (Sent PLoad <$> b2 ++
    if decide (lit "main" ∈ b.2.*1) then writes_of [(CFI_LOADING_TERMINATED, [])] else []) ∧
  writes_of (module_of level pe b) = b1 ++ b2 ∧ length b1 = 3%nat.
Proof using Type.
  intros Hs. pose proof (packets_build pe level b.1 b.2 (Z.of_nat (length b.2))) as Hp. fold (binary_prelinked level pe b) in Hp.
  assert (Hw : startup_log (binary_prelinked level pe b) num =
    (Sent PLoad <$> writes_of [(CFI_LOADING_MODULE_BEGIN, char_array (s_cfi (binary_prelinked level pe b)))]) ++
    Got PLoad num :: (Sent PLoad <$> writes_of (tail (init_packets (binary_prelinked level pe b))))).
  { unfold startup_log. unfold small_binary, init_packets in Hs. apply Forall_cons_1 in Hs as [H1 H2].
    rewrite !wire_small; [done|exact H2|by constructor]. }
  exists (packet_writes CFI_LOADING_MODULE_BEGIN (char_array (le_bytes 4 (Z.of_nat (length b.2))))),
    (writes_of (tail (module_of level pe b))). split_and!.
  - rewrite Hw, Hp. f_equal. do 2 f_equal. unfold module_packets. cbn [app tail module_of].
    change (tail (module_of level pe b)) with (section_packets (binary_tables_of level pe b) ++ [(CFI_LOADING_MODULE_END, [])]).
    rewrite writes_of_app. case_decide; done.
  - done.
  - unfold packet_writes, char_array. by rewrite decide_False by (by intros []%app_eq_nil).
Qed.

Lemma terminated_writes : length (writes_of [(CFI_LOADING_TERMINATED, [])]) = 2%nat.
Proof using Type. reflexivity. Qed.

(** What the pipes must hold: three writes of a packet, an answer more than
    those that are preloaded. *)
Definition roomy (cap : nat) (opts : MonitorData.options) : Prop := (3 <= cap)%nat ∧ (nb_preloaded opts < cap)%nat.

Lemma load_schedule cap lc lm b L0 : (3 <= cap)%nat → lit "main" ∈ b.2.*1 → Forall (λ b' : binary, lit "main" ∉ b'.2.*1) L0 →
  Forall small_binary (L0 ++ [b]) → ∀ m l,
  load_log level pe m (L0 ++ [b]) ((λ x, client_signal_bytes <$> sent (init_calls code x)) <$>
    numbered m (binary_prelinked level pe <$> L0 ++ [b])) l →
  rtc (advance cap) (Network ((numbered m (binary_prelinked level pe <$> L0 ++ [b]) ≫= binary_log code) ++ lc) (l ++ lm) nothing nothing)
    (Network lc lm nothing nothing).
Proof using Type.
  intros Hcap Hb H0. induction H0 as [|b0 L0 Hb0 _ IH]; intros Hsm m l Hl; apply Forall_cons_1 in Hsm as [Hsb Hsm]; cbn [app fmap list_fmap numbered mbind list_bind] in *;
    inversion Hl as [|? ? ? ? ? begin rest l' Hbr Hlen Hl']; subst.
  - destruct (startup_writes b (module_number m) Hsb) as (b1 & b2 & Hs & Hw & Hn). rewrite decide_True in Hs by done.
    inversion Hl'; subst. unfold binary_log, module_log. cbn [fst snd]. rewrite Hs, app_nil_r, <- !app_assoc. cbn [app].
    rewrite <- ?app_assoc. cbn [app]. unfold calls_log at 1. etrans; [apply module_schedule; [by rewrite Hbr|first [lia|rewrite terminated_writes; lia|cbn [length]; lia]..]|].
    apply (monitor_gets cap lc lm nothing PLoad _ []). by rewrite app_nil_r.
  - destruct (startup_writes b0 (module_number m) Hsb) as (b1 & b2 & Hs & Hw & Hn). rewrite decide_False in Hs by done.
    unfold binary_log at 1, module_log. cbn [fst snd]. rewrite Hs, <- !app_assoc. cbn [app].
    rewrite <- ?app_assoc. cbn [app]. unfold calls_log at 1. etrans; [apply module_schedule; [by rewrite Hbr|first [lia|rewrite terminated_writes; lia|cbn [length]; lia]..]|]. by apply IH.
Qed.

(** What the monitor reads. *)
Definition monitor_input : world :=
  World [] [] [] (client_signal_bytes <$> sent (client_calls code generated)) (writes_of (program_packets level pe L)) [].

Definition main_calls : list (Z * client_call) :=
  code (Z.of_nat (length generated) - 1) (lit "main") ++ concat (rev (fini_calls code <$> numbered 0 generated)).
Abbreviation init_signals := ((λ x, client_signal_bytes <$> sent (init_calls code x)) <$> numbered 0 generated).

Lemma input_signals : w_sig monitor_input = concat init_signals ++ (client_signal_bytes <$> sent main_calls).
Proof using Type.
  cbn [monitor_input w_sig]. unfold client_calls. fold main_calls. unfold sent. rewrite !fmap_app. f_equal.
  induction (numbered 0 generated) as [|x xs IH]; [done|]. cbn [fmap list_fmap concat]. by rewrite !fmap_app, IH.
Qed.

Lemma init_pieces pss :
  Forall2 (λ ps ts, signal_of_packet <$> ps = concat ts) pss ((λ xs, xs.*2) <$> (ran fcts_init <$> numbered 0 L)) →
  Forall2 (λ ps qs, length ps = length qs) pss init_signals.
Proof using Type.
  rewrite numbered_fmap, <- !list_fmap_compose. rewrite !Forall2_fmap_r. apply Forall2_impl. intros ps x H.
  apply (f_equal length) in H. rewrite length_fmap in H. cbn [compose] in *. rewrite ran_signals in H. by rewrite length_fmap.
Qed.

(** What the monitor does on the pipes when it has read all that. *)
Lemma monitor_actions opts wm : MonitorData.OPTION_sm_dump opts = false → monitor_process opts 0 monitor_input = Val (0, wm) →
  signals wm = [] → ∃ l, load_log level pe 0 L init_signals l ∧
    w_log wm = l ++ (Sent PSig <$> replicate (nb_preloaded opts) ok_bytes) ++ ((client_signal_bytes <$> sent main_calls) ≫= monitor_exchange).
Proof using Hpe Hwp Hsmall Hcode.
  intros Hdump Hproc Hend. assert (Hfav : favourable monitor_input) by (by repeat split; constructor).
  destruct (sent_signals (client_calls code generated)) as [Hsigs Hfull]; [apply client_calls_wf|].
  destruct client_execution as [Hi _ _].
  pose proof (inits_runs level ignored pe Hpe L resolve Hwp Hsmall L [] _ eq_refl Hi) as Hstart.
  destruct (whole_log level ignored pe Hpe L resolve Hwp Hsmall opts Hdump monitor_input _
    (concat ([(Z.of_nat (length L) - 1, lit "main", sent (code (Z.of_nat (length L) - 1) (lit "main")))] ++
      concat (rev (ran fcts_fini <$> numbered 0 L))).*2) wm Hfav Hfull eq_refl Hstart)
    as (pss & l & ps & Hload & Hall & Hs & Hlog); [|done|].
  - unfold signals. cbn [monitor_input w_sig]. rewrite Hsigs, client_signals, fmap_app, concat_app. f_equal.
    by rewrite concat_fmap_snd.
  - assert (w_sig wm = []) as Hw by (by apply fmap_nil_inv in Hend). rewrite Hw, app_nil_r, input_signals in Hs.
    symmetry in Hs. apply concat_pieces in Hs as [-> ->]; [|by apply init_pieces]. by exists l.
Qed.

(** Both come to the end of what they do. *)
Lemma logs_schedule cap l k : (3 <= cap)%nat → (k < cap)%nat → load_log level pe 0 L init_signals l → ∃ f,
  rtc (advance cap) (network_start (client_log code generated)
    (l ++ (Sent PSig <$> replicate k ok_bytes) ++ ((client_signal_bytes <$> sent main_calls) ≫= monitor_exchange))) f ∧
  finished f.
Proof using Hwp Hsmall.
  intros Hcap Hk Hl. destruct (wp_main _ _ _ _ Hwp) as (L0 & b & HL & Hmain & H0).
  assert (Hb : lit "main" ∈ b.2.*1).
  { destruct (lp_built _ _ _ _ Hlp b) as [prefix Hp]; [rewrite HL; apply elem_of_app; right; by left|].
    by apply (bt_roles _ _ _ _ _ Hp). }
  eexists. split.
  - unfold network_start, client_log. fold main_calls. etrans.
    + rewrite HL in Hl |- * at 1. apply (load_schedule cap _ _ b L0 Hcap Hb H0); [rewrite <- HL; apply small_binaries|done].
    + etrans; [apply monitor_sends; cbn; rewrite length_replicate; lia|]. rewrite <- (app_nil_r (calls_log _)), <- (app_nil_r (_ ≫= monitor_exchange)).
      by apply exchanges.
  - done.
Qed.

(** ** Both *)

(** Each process, fed with what the other writes, ends well. *)
Lemma processes_close opts fds env : MonitorData.OPTION_sm_dump opts = false → wf_descriptors fds → ∃ sts wc wm,
  client_program (client_environment fds env) code generated (replicate (length L) client_start)
    (World [] [] [] (sig_answers (w_out wm)) (load_answers (w_out wm)) []) = Val ((Returned, sts), wc) ∧
  monitor_process opts 0 (World [] [] [] (output PSig (w_out wc)) (output PLoad (w_out wc)) []) = Val (0, wm) ∧
  copies_started (Z.of_nat (length L)) sts ∧
  ∀ cap, roomy cap opts → never_blocks cap (network_start (w_log wc) (w_log wm)).
Proof using Hpe Hwp Hsmall Hcode.
  intros Hdump Hfds. set (calls := client_calls code generated).
  set (win := monitor_input).
  assert (Hfav : favourable win) by (by repeat split; constructor).
  destruct (sent_signals calls) as [Hsigs Hfull].
  { apply client_calls_wf. }
  destruct (whole_accepted level ignored pe Hpe L resolve Hwp Hsmall opts win _ _ _ Hdump Hfav Hfull eq_refl client_execution)
    as (wm & Hproc & Hend); [unfold signals; cbn [w_sig win monitor_input]; fold calls; rewrite Hsigs; apply client_signals|].
  destruct (whole_answers level ignored pe Hpe L resolve Hwp Hsmall opts Hdump win wm Hfav Hfull eq_refl Hproc) as [(k & Hk & Hle) Ha].
  destruct (monitor_actions opts wm Hdump Hproc Hend) as (l & Hload & Hmlog).
  cbn [w_out w_sig win monitor_input] in *. fold calls in Hle. rewrite app_nil_l in *.
  apply (f_equal length) in Hend. unfold signals in Hend. rewrite length_fmap in Hend. rewrite Hend in Hle.
  unfold sent in Hle. rewrite !length_fmap in Hle. cbn [length] in Hle.
  destruct (client_program_sends fds Hfds env code generated
    (World [] [] [] (sig_answers (w_out wm)) (load_answers (w_out wm)) [])
    (replicate (k - length calls) (le_bytes 1 CFI_OK))) as (sts & wc & Hrun & Hst & (Hload' & Hsig) & Hclog).
  - rewrite length_fmap. apply (lp_few _ _ _ _ Hlp).
  - apply code_in_place.
  - constructor.
  - cbn [w_sig]. rewrite Hk, <- replicate_add. f_equal. fold calls. lia.
  - cbn [w_load]. by rewrite Ha, length_fmap.
  - rewrite length_fmap in Hrun, Hst. exists sts, wc, wm. split; [done|]. split; [|split; [done|]].
    + cbn [w_out] in Hload', Hsig. rewrite Hload', Hsig, !app_nil_l, <- list_fmap_compose.
      rewrite wire_small by exact Hsmall. exact Hproc.
    + intros cap [Hcap Hk']. cbn [w_log] in Hclog. rewrite app_nil_l in Hclog. rewrite Hclog, Hmlog.
      destruct (logs_schedule cap l _ Hcap Hk' Hload) as (f & Hf & Hfin). by eapply finishes_never_blocks.
Qed.

End Closing.
