(* ===== verification/PassRefusals.v ===== *)
(** * What the pass refuses

    Code that Picon does not support: a compilation that ends has found no
    indirect call and no invoke in the functions it protects. *)

From S2P Require Import Prelude CSem Dot Text Ir Pass Injector PassTable PassAnalysis PassFiles InjectSpec PassRun.
From Stdlib Require Import Strings.Byte.
From Stdlib Require Strings.String.
Import Strings.String.StringSyntax.
#[local] Open Scope string_scope.
#[local] Open Scope Z_scope.
#[local] Open Scope list_scope.

(** Every iteration of a loop that ends well ended well. *)
Lemma pass_fold_elem {A B} (f : B → A → pass B) l : ∀ b b', pass_fold f b l = Ok b' →
  ∀ a, a ∈ l → ∃ b1 b2, f b1 a = Ok b2.
Proof.
  induction l as [|a l IH]; intros b b' H x Hx; [by apply elem_of_nil in Hx|]. cbn in H. inv_pass.
  apply elem_of_cons in Hx as [->|Hx]; [by eexists _, _|by eapply IH].
Qed.

(** ** Fields that the analysis keeps *)

(** The code of the functions, the functions of the map, the ignored ones. *)
Definition keeps (st st' : ControlFlowIntegrity) : Prop :=
  _FunctionMap st' = _FunctionMap st ∧ _IgnoredFunctions st' = _IgnoredFunctions st ∧
  ∀ f, fn_blocks <$> getFunction (_M st') f = fn_blocks <$> getFunction (_M st) f.

#[export] Instance keeps_preorder : PreOrder keeps.
Proof.
  split; [done|]. intros st1 st2 st3 (H1 & H2 & H3) (K1 & K2 & K3).
  split; [congruence|]. split; [congruence|]. intros f. by rewrite K3.
Qed.

Lemma keeps_annotations ops : ∀ st st', parse_annotations ops st = Ok st' → keeps st st' ∧ _M st' = _M st.
Proof.
  induction ops as [|Op ops IH]; intros st st' H; cbn in H; [by inv_pass|]. inv_pass.
  case_match; inv_pass; [done|]. case_match; inv_pass; [done|].
  destruct (IH _ _ H) as [Hk HM]. split; [|by case_match]. etrans; [|exact Hk]. by case_match.
Qed.

Lemma keeps_ParseAnnotations st st' : ParseAnnotations st = Ok st' → keeps st st' ∧ _M st' = _M st.
Proof.
  unfold ParseAnnotations. destruct (m_annotations (_M st)) as [g|]; [|by intros [= ->]].
  case_match; [by intros [= ->]|]. intros Hp. inv_pass. case_decide; inv_pass. by eapply keeps_annotations.
Qed.

Lemma keeps_expose st f : keeps st (set_M (update_function f expose (_M st)) st).
Proof.
  split; [done|]. split; [done|]. intros g. unfold set_M. cbn [_M].
  rewrite getFunction_update by (intros F HF; by rewrite expose_name). case_decide; [|done].
  destruct (getFunction (_M st) g); [|done]. cbn [fmap option_fmap option_map]. by rewrite expose_blocks.
Qed.

Lemma keeps_patch insert ops : (∀ f st, keeps st (insert f st)) → ∀ st st',
  patch_functions insert ops st = Ok st' → keeps st st'.
Proof.
  intros Hins. induction ops as [|Op ops IH]; intros st st' H; cbn in H; [by inv_pass|]. inv_pass.
  case_match; inv_pass; [done|]. etrans; [|by eapply IH]. etrans; [apply keeps_expose|apply Hins].
Qed.

Lemma keeps_PatchCtorFunctions st st' : PatchCtorFunctions st = Ok st' → keeps st st'.
Proof.
  unfold PatchCtorFunctions. destruct (m_ctors (_M st)) as [g|]; [|by intros [= ->]].
  case_match; [by intros [= ->]|]. intros Hp. inv_pass. case_decide; inv_pass. by eapply keeps_patch in E0.
Qed.

Lemma keeps_PatchDtorFunctions st st' : PatchDtorFunctions st = Ok st' → keeps st st'.
Proof.
  unfold PatchDtorFunctions. destruct (m_dtors (_M st)) as [g|]; [|by intros [= ->]].
  case_match; [by intros [= ->]|]. intros Hp. inv_pass. case_decide; inv_pass. by eapply keeps_patch in E0.
Qed.

(** ** The map of the functions *)

Lemma identify_one_FunctionMap st F : concerned st F → ∃ id,
  _FunctionMap (identify_one st F) =
    <[fn_name F := MkCFIFct (fn_name F) id (number_blocks (fn_blocks F) 0 ∅)]> (_FunctionMap st).
Proof.
  intros Hc. rewrite identify_one_eq, decide_True by done. unfold IdentifyFunction.
  destruct (_IdentifiedFunctions st !! fn_name F); by eexists.
Qed.

Lemma identify_one_map st F f cf : _FunctionMap st !! f = Some cf → cf_fun cf = f →
  ∃ cf', _FunctionMap (identify_one st F) !! f = Some cf' ∧ cf_fun cf' = f.
Proof.
  intros Hf Hc. destruct (decide (concerned st F)) as [HF|HF].
  - destruct (identify_one_FunctionMap st F HF) as [id ->].
    destruct (decide (fn_name F = f)) as [<-|Hne]; [rewrite lookup_insert_eq; by eexists|].
    rewrite lookup_insert_ne by done. by exists cf.
  - rewrite identify_one_eq, decide_False by done. by exists cf.
Qed.

Lemma identify_one_same st F : _M (identify_one st F) = _M st ∧
  _IgnoredFunctions (identify_one st F) = _IgnoredFunctions st.
Proof.
  rewrite identify_one_eq. case_decide; [|done]. unfold IdentifyFunction.
  by destruct (_IdentifiedFunctions st !! fn_name F).
Qed.

Lemma identify_all_map Fs : ∀ st F, (F ∈ Fs ∧ concerned st F) ∨
    (∃ cf, _FunctionMap st !! fn_name F = Some cf ∧ cf_fun cf = fn_name F) →
  ∃ cf, _FunctionMap (foldl identify_one st Fs) !! fn_name F = Some cf ∧ cf_fun cf = fn_name F.
Proof.
  induction Fs as [|G Fs IH]; intros st F H; cbn [foldl].
  { destruct H as [[H _]|H]; [by apply elem_of_nil in H|done]. }
  apply IH. destruct H as [[[->|HF]%elem_of_cons Hc]|(cf & Hf & Hcf)].
  - right. destruct (identify_one_FunctionMap st G Hc) as [id ->]. rewrite lookup_insert_eq. by eexists.
  - left. split; [done|]. unfold concerned, isIgnoredFunction in *. by rewrite (proj2 (identify_one_same st G)).
  - right. by eapply identify_one_map.
Qed.

Lemma keeps_add env nm id st st' : AddIdentifiedFunction env nm id st = Ok st' → keeps st st' ∧ _M st' = _M st.
Proof.
  unfold AddIdentifiedFunction. intros H. inv_pass. destruct (_IdentifiedFunctions st !! nm); inv_pass; case_decide; done.
Qed.

Lemma IdentifyFunctions_map env files st st' F : IdentifyFunctions env files st = Ok st' →
  F ∈ m_functions (_M st) → concerned st F →
  _M st' = _M st ∧ _IgnoredFunctions st' = _IgnoredFunctions st ∧
  ∃ cf, _FunctionMap st' !! fn_name F = Some cf ∧ cf_fun cf = fn_name F.
Proof.
  unfold IdentifyFunctions. intros H HF Hc. inv_pass.
  assert (Hk : keeps st a ∧ _M a = _M st).
  { destruct (f_fctid files); [|by inv_pass]. eapply (pass_fold_inv (λ _ b, keeps st b ∧ _M b = _M st)); [exact E|done|].
    intros l1 e l2 b1 b2 _ [Hb HM] (Hk & HM')%keeps_add. split; [by trans b1|congruence]. }
  destruct Hk as [(_ & Hig & _) HM].
  assert (Hsame : ∀ Fs b, _M (foldl identify_one b Fs) = _M b ∧
    _IgnoredFunctions (foldl identify_one b Fs) = _IgnoredFunctions b).
  { induction Fs as [|G Fs IH]; intros b; [done|]. cbn [foldl]. destruct (IH (identify_one b G)) as [-> ->].
    apply identify_one_same. }
  destruct (Hsame (m_functions (_M a)) a) as [HM' Hig']. split; [by rewrite HM', HM|]. split; [by rewrite Hig', Hig|].
  apply identify_all_map. left. rewrite HM. split; [done|]. unfold concerned, isIgnoredFunction in *. by rewrite Hig.
Qed.

(** ** Indirect calls and invokes *)

Lemma callgraph_inst_plain st id m i m' : callgraph_inst st id m i = Ok m' → plain_instruction i.
Proof. by destruct i. Qed.

Lemma callgraph_block_plain st id m BB m' : callgraph_block st id m BB = Ok m' → plain_block BB.
Proof.
  unfold callgraph_block. intros H. inv_pass. split; [|by destruct (is_invoke (bb_term BB))].
  apply Forall_elem_iff. intros i Hi. destruct (pass_fold_elem _ _ _ _ E i Hi) as (b1 & b2 & Hb).
  by eapply callgraph_inst_plain.
Qed.

(** What [analysis] knows of a function of the module. *)
Lemma analysis_map env s_fctid ign ignored M files st F : ignored_are env ign ignored →
  analysis env s_fctid ign M files = Ok st → NoDup (fn_name <$> m_functions M) →
  F ∈ m_functions M → fn_name F ∉ ignored → fn_intrinsic F = false →
  ∃ cf F', _FunctionMap st !! fn_name F = Some cf ∧ fun_of st cf = Ok F' ∧ fn_blocks F' = fn_blocks F.
Proof.
  intros Hign Han Hnd HF Hni Hint. unfold analysis in Han. inv_pass.
  assert (Hnew : _M a = M ∧ _IgnoredFunctions a = ignored).
  { unfold newControlFlowIntegrity, ignored_are in *. destruct ign as [s|]; [|inv_pass; done].
    destruct Hign as (t & Hs & ->). rewrite Hs in E. by inv_pass. }
  destruct Hnew as [HM Hig]. apply keeps_ParseAnnotations in E0 as [(_ & Hig0 & _) HM0].
  destruct (IdentifyFunctions_map env files a0 a1 F E1) as (HM1 & _ & cf & Hcf & Hfun).
  { by rewrite HM0, HM. }
  { split; [|done]. unfold isIgnoredFunction. apply bool_decide_eq_false. by rewrite Hig0, Hig. }
  apply keeps_PatchCtorFunctions in E2. apply keeps_PatchDtorFunctions in Han.
  assert (Hk : keeps a1 st) by (by trans a2). destruct Hk as (Hmap & _ & Hcode).
  exists cf. rewrite Hmap. specialize (Hcode (fn_name F)). rewrite HM1, HM0, HM, (getFunction_name M F) in Hcode by done.
  unfold fun_of. rewrite Hfun. destruct (getFunction (_M st) (fn_name F)) as [F'|]; [|done].
  injection Hcode as Hcode. by exists F'.
Qed.

(** A compilation that ends has no unsupported code where it matters. *)
Lemma runOnModule_plain env prefix level ign lock ignored M files M' files' F : env_ok env →
  ignored_are env ign ignored → runOnModule env prefix level ign lock M files = Ok (M', files') →
  NoDup (fn_name <$> m_functions M) → F ∈ m_functions M → fn_name F ∉ ignored → fn_intrinsic F = false →
  Forall plain_block (fn_blocks F).
Proof.
  intros Henv Hign Hrun Hnd HF Hni Hint. rewrite runOnModule_steps in Hrun. inv_pass.
  destruct (analysis_map _ _ _ _ _ _ _ F Hign E Hnd HF Hni Hint) as (cf & F' & Hcf & Hfun & Hb).
  unfold writeTransToFile in E0. inv_pass. unfold writeCallgraph in E5. inv_pass.
  match goal with H : callgraph_map _ _ = Ok _ |- _ => rename H into Hmap end. unfold callgraph_map in Hmap.
  destruct (pass_fold_elem _ _ _ _ Hmap (fn_name F, cf)) as (b1 & b2 & Hone).
  { rewrite (proj1 Henv). by apply elem_of_map_to_list. }
  unfold callgraph_function in Hone. cbn [snd] in Hone. rewrite Hfun in Hone. cbn [mbind pass_bind] in Hone.
  unfold isDeclaration in Hone. rewrite <- Hb. apply Forall_elem_iff. intros BB HBB.
  destruct (fn_blocks F') as [|B0 Bs] eqn:Hbl; [by apply elem_of_nil in HBB|].
  destruct (pass_fold_elem _ _ _ _ Hone BB HBB) as (c1 & c2 & Hc). by eapply callgraph_block_plain.
Qed.
