(* ===== verification/PassType.v ===== *)
(** * Instrumented modules are well-formed

    What LLVM's verifier checks of a module holds of the module the pass
    leaves: names and labels are unique, calls are of functions of the module,
    branches stay in their function. *)

From S2P Require Import Prelude CSem Dot Text Ir Pass Injector.
From S2P Require Import PassTable PassAnalysis PassFiles InjectSpec PassRun.
From Stdlib Require Import Strings.Byte.
From Stdlib Require Strings.String.
Import Strings.String.StringSyntax.
#[local] Open Scope string_scope.
#[local] Open Scope Z_scope.
#[local] Open Scope list_scope.

(** ** Code that grows *)

(** An instruction that the pass inserts. *)
Definition support_inst (i : instruction) : Prop :=
  (∃ n args, i = CallInst n args ∧ n ∈ prototypes) ∨ ∃ args r, i = IntrinsicInst n_returnaddress args r.

(** [B'] is [B] with instructions inserted. *)
Definition grown (B' B : basic_block) : Prop :=
  bb_label B' = bb_label B ∧ bb_term B' = bb_term B ∧
  ∀ i, i ∈ bb_insts B' → i ∈ bb_insts B ∨ support_inst i.

#[export] Instance grown_preorder : PreOrder grown.
Proof.
  split; [by intros B; split_and!; auto|]. intros B1 B2 B3 (L1 & T1 & I1) (L2 & T2 & I2).
  split; [congruence|]. split; [congruence|]. intros i Hi. destruct (I1 i Hi) as [H|H]; [by apply I2|by right].
Qed.

Abbreviation grow := (Forall2 grown).

Lemma grow_refl bs : grow bs bs.
Proof. induction bs; constructor; done. Qed.

Lemma grow_trans bs1 bs2 bs3 : grow bs1 bs2 → grow bs2 bs3 → grow bs1 bs3.
Proof.
  intros H. revert bs3. induction H as [|B1 B2 bs1 bs2 HB _ IH]; intros bs3 H3; inversion H3; subst; constructor;
    [by etrans|by apply IH].
Qed.

(** A change of the instructions of a block. *)
Lemma grown_insts insts B : (∀ i, i ∈ insts → i ∈ bb_insts B ∨ support_inst i) → grown (set_insts insts B) B.
Proof. by intros H. Qed.

Lemma insert_after_elem p new l i : i ∈ insert_after p new l → i ∈ new ∨ i ∈ l.
Proof.
  induction l as [|x l IH]; cbn; [by left|]. destruct (p x).
  - intros [->|Hi]%elem_of_cons; [right; by left|]. destruct (IH Hi); [by left|right; by right].
  - intros [Hi|Hi]%elem_of_app; [by left|by right].
Qed.

Lemma grown_insert p new B : (∀ i, i ∈ new → support_inst i) → grown (set_insts (insert_after p new (bb_insts B)) B) B.
Proof. intros Hn. apply grown_insts. intros i [Hi|Hi]%insert_after_elem; [right; by apply Hn|by left]. Qed.

Lemma grown_append new B : (∀ i, i ∈ new → support_inst i) → grown (set_insts (bb_insts B ++ new) B) B.
Proof. intros Hn. apply grown_insts. intros i [Hi|Hi]%elem_of_app; [by left|right; by apply Hn]. Qed.

Lemma support_call_inst n args : n ∈ prototypes → support_inst (CallInst n args).
Proof. intros Hn. left. by exists n, args. Qed.

Ltac in_prototypes := unfold prototypes; repeat first [apply list_elem_of_here | apply list_elem_of_further].

Lemma grown_mark st B : grown (mark_block st B) B.
Proof.
  apply grown_insts. intros i (x & Hi & Hx)%list_elem_of_bind.
  destruct x; cbn in Hi; try (apply list_elem_of_singleton in Hi as ->; by left).
  destruct (isIgnoredFunction st f); [apply list_elem_of_singleton in Hi as ->; by left|].
  apply elem_of_cons in Hi as [->|Hi]; [right; apply support_call_inst; in_prototypes|].
  apply elem_of_cons in Hi as [->|Hi]; [by left|].
  apply list_elem_of_singleton in Hi as ->. right. apply support_call_inst. in_prototypes.
Qed.

Lemma grow_mark st bs : grow (mark_block st <$> bs) bs.
Proof. induction bs; constructor; [apply grown_mark|done]. Qed.

Lemma grow_enter id bs : ∀ k, grow (enter_blocks id k bs) bs.
Proof.
  induction bs as [|B bs IH]; intros k; [constructor|]. cbn. constructor; [|apply IH]. apply grown_insert.
  intros i ->%list_elem_of_singleton. apply support_call_inst. in_prototypes.
Qed.

Lemma grow_leave id bs : ∀ k, grow (leave_blocks id k bs) bs.
Proof.
  induction bs as [|B bs IH]; intros k; [constructor|]. cbn. destruct bs as [|B2 bs]; [apply grow_refl|].
  constructor; [|apply IH]. apply grown_append.
  intros i ->%list_elem_of_singleton. apply support_call_inst. in_prototypes.
Qed.

Lemma grow_jump id bs : grow (jump_blocks id bs) bs.
Proof.
  destruct bs as [|B [|B2 bs]]; [apply grow_refl..|]. unfold jump_blocks.
  eapply grow_trans; [apply grow_leave|]. constructor; [done|apply grow_enter].
Qed.

(** The two instructions that give the return address to the support. *)
Lemma support_retaddr n r id i : n ∈ prototypes →
  i ∈ [IntrinsicInst n_returnaddress [ConstInt 0] r; CallInst n [id_operand id; ResultOf r]] → support_inst i.
Proof.
  intros Hn [->|[->|[]%elem_of_nil]%elem_of_cons]%elem_of_cons; [right; by eexists _, _|by apply support_call_inst].
Qed.

Lemma grow_entry id bs : grow (entry_blocks id bs) bs.
Proof.
  destruct bs as [|B bs]; [constructor|]. constructor; [|apply grow_refl]. apply grown_insert.
  intros i. apply support_retaddr. in_prototypes.
Qed.

Lemma grow_exit id bs : grow (exit_blocks id bs) bs.
Proof.
  unfold exit_blocks. induction bs as [|B bs IH]; [constructor|]. cbn [map_last].
  destruct bs as [|B2 bs]; [|by constructor]. constructor; [|constructor]. apply grown_append.
  intros i. apply support_retaddr. in_prototypes.
Qed.

(** An instrumented function is its source, with instructions inserted. *)
Lemma grow_instrument st level id F : grow (fn_blocks (instrument st level id F)) (fn_blocks F).
Proof.
  unfold instrument. cbn [fn_blocks set_blocks_of].
  eapply grow_trans; [apply grow_exit|]. eapply grow_trans; [apply grow_entry|].
  destruct (announces st level (fn_name F)); [eapply grow_trans; [apply grow_jump|]|]; apply grow_mark.
Qed.

Lemma grow_labels bs' bs : grow bs' bs → bb_label <$> bs' = bb_label <$> bs.
Proof. induction 1 as [|B' B bs' bs (HL & _) _ IH]; [done|]. cbn. by rewrite HL, IH. Qed.

(** ** Well-formedness of a function in another module *)

(** The module declares what grown code calls. *)
Definition declares (M' M : ir_module) : Prop :=
  (∀ f F, getFunction M f = Some F → ∃ F', getFunction M' f = Some F' ∧ fn_intrinsic F' = fn_intrinsic F) ∧
  (∀ n, n ∈ prototypes → ∃ F', getFunction M' n = Some F' ∧ fn_intrinsic F' = false).

Definition has_returnaddress (M' : ir_module) : Prop :=
  ∃ F', getFunction M' n_returnaddress = Some F' ∧ fn_intrinsic F' = true.

Lemma wf_instruction_declares M' M i : declares M' M → wf_instruction M i → wf_instruction M' i.
Proof.
  intros [Hd _]. destruct i; cbn; try done; intros (F & HF & Hi); destruct (Hd _ _ HF) as (F' & HF' & E);
    exists F'; (split; [done|congruence]).
Qed.

Lemma wf_support_inst M' M i : declares M' M → has_returnaddress M' → support_inst i → wf_instruction M' i.
Proof.
  intros [_ Hp] Hr [(n & args & -> & Hn)|(args & r & ->)]; cbn; [by apply Hp|done].
Qed.

Lemma wf_grown M' M F' F : declares M' M → (fn_blocks F' ≠ fn_blocks F → has_returnaddress M') →
  grow (fn_blocks F') (fn_blocks F) → wf_function_ir M F → wf_function_ir M' F'.
Proof.
  intros Hd Hr Hg [Hnd Hb]. pose proof (grow_labels _ _ Hg) as Hlab. split; [by rewrite Hlab|].
  assert (Hcase : fn_blocks F' = fn_blocks F ∨ has_returnaddress M').
  { destruct (decide ((bb_insts <$> fn_blocks F') = (bb_insts <$> fn_blocks F))) as [E|E].
    - left. clear -Hg E. induction Hg as [|B' B bs' bs (HL & HT & _) _ IH]; [done|]. cbn in E.
      injection E as E1 E2. f_equal; [|by apply IH]. destruct B', B. cbn in *. congruence.
    - right. apply Hr. intros E'. by rewrite E' in E. }
  intros B' HB'. rewrite Hlab. apply list_elem_of_lookup in HB' as [k Hk].
  destruct (Forall2_lookup_l _ _ _ _ _ Hg Hk) as (B & HB & HL & HT & Hi).
  apply list_elem_of_lookup_2 in HB as HBin. destruct (Hb B HBin) as [Hins Hsucc]. split; [|by rewrite HT].
  rewrite Forall_elem_iff in Hins |- *. intros i Hin. destruct Hcase as [Heq|Hra].
  - rewrite Heq, HB in Hk. injection Hk as <-. by eapply wf_instruction_declares, Hins.
  - destruct (Hi i Hin) as [H|H]; [by eapply wf_instruction_declares, Hins|by eapply wf_support_inst].
Qed.

(** ** The names of the module *)

Definition names_of (M : ir_module) : list (list byte) := fn_name <$> m_functions M.

Definition returnaddress_declaration : function :=
  MkFunction n_returnaddress true [] ExternalLinkage DefaultVisibility.

Lemma inject_function_name env cfi level M F id F' :
  inject_function env cfi level M F id = Ok F' → fn_name F' = fn_name F.
Proof.
  unfold inject_function, injectMcall. intros Hi. inv_pass.
  assert (Ha : fn_name a = fn_name F).
  { destruct (isIgnoredFunction cfi (fn_name F)); inv_pass; done. }
  rewrite <- Ha. destruct (isDeclaration a); [by inv_pass|]. inv_pass.
  assert (Hb : fn_name a2 = fn_name a).
  { destruct (bool_decide (level = BASICBLOCK) && negb (isIgnoredBlocksFunction cfi (fn_name a))); [|by inv_pass].
    inv_pass. unfold injectBBEnter, injectBBLeave in *. inv_pass. repeat case_match; inv_pass; done. }
  rewrite <- Hb. unfold injectMentry, injectMexit in *. repeat case_match; inv_pass; done.
Qed.

Lemma update_names f F' M : fn_name F' = f → names_of (update_function f (λ _, F') M) = names_of M.
Proof.
  intros HF'. unfold names_of, update_function. cbn [m_functions set_functions_of]. rewrite <- list_fmap_compose.
  apply list_fmap_ext. intros _ F _. unfold compose. by case_decide; [congruence|].
Qed.

Lemma getFunction_names M f : f ∈ names_of M ↔ is_Some (getFunction M f).
Proof.
  pose proof (getFunction_None M f) as Hn. unfold names_of. split; intros H.
  - destruct (getFunction M f) eqn:E; [by eexists|]. by apply Hn in H.
  - destruct (decide (f ∈ fn_name <$> m_functions M)) as [Hin|Hin]; [done|]. apply Hn in Hin. by destruct H; congruence.
Qed.

(** What the injection does to the names and to the intrinsic. *)
Record injected (M0 : ir_module) (it_done : list (list byte * CFIFct)) (M : ir_module) : Prop := {
  ij_names : NoDup (names_of M);
  ij_returnaddress : getFunction M n_returnaddress = getFunction M0 n_returnaddress ∨
    (getFunction M0 n_returnaddress = None ∧ getFunction M n_returnaddress = Some returnaddress_declaration);
  ij_declared : ∀ it F, it ∈ it_done → getFunction M0 it.1 = Some F → isDeclaration F = false →
    is_Some (getFunction M n_returnaddress);
}.

Lemma declare_injected M0 l M : injected M0 l M → injected M0 l (declare_returnaddress M) ∧
  is_Some (getFunction (declare_returnaddress M) n_returnaddress).
Proof.
  intros HI. pose proof HI as [Hn Hr Hd]. unfold declare_returnaddress.
  destruct (getFunction M n_returnaddress) as [F|] eqn:E; [split; [done|by rewrite E]|].
  assert (Hget : getFunction (set_functions_of (m_functions M ++ [returnaddress_declaration]) M) n_returnaddress =
    Some returnaddress_declaration).
  { rewrite getFunction_app, E. vm_compute. reflexivity. }
  fold returnaddress_declaration. rewrite Hget. split; [|by eexists]. split; [| |by intros; rewrite Hget; eexists].
  - unfold names_of in *. cbn [m_functions set_functions_of]. rewrite fmap_app. apply list.NoDup_app.
    split; [done|]. split; [|apply NoDup_singleton]. intros f Hf ->%list_elem_of_singleton.
    apply (getFunction_None M n_returnaddress) in E. by apply E.
  - right. split; [|done]. destruct Hr as [Hr|[Hr _]]; congruence.
Qed.

Lemma inject_one_injected env cfi level M0 l M it M' : it.1 ≠ n_returnaddress → cf_fun it.2 = it.1 →
  (getFunction M it.1 = getFunction M0 it.1) →
  injected M0 l M → inject_one env cfi level M it = Ok M' → injected M0 (l ++ [it]) M'.
Proof.
  intros Hne Hfun Hsame HI. unfold inject_one. rewrite Hfun. destruct (getFunction M it.1) as [F|] eqn:HF; [|done].
  intros H. inv_pass. pose proof (inject_function_name _ _ _ _ _ _ _ E) as Hname.
  apply getFunction_elem in HF as HF2. destruct HF2 as [_ Hn].
  assert (HI' : injected M0 l (update_function it.1 (λ _, a) M)).
  { destruct HI as [H1 H2 H3].
    assert (Hg : getFunction (update_function it.1 (λ _, a) M) n_returnaddress = getFunction M n_returnaddress).
    { rewrite getFunction_update by (intros ? ?; congruence). by rewrite decide_False. }
    split; rewrite ?Hg; [rewrite update_names by congruence|..]; done. }
  assert (Hsnoc : ∀ M2, injected M0 l M2 → (isDeclaration F = false → is_Some (getFunction M2 n_returnaddress)) →
    injected M0 (l ++ [it]) M2).
  { intros M2 [H1 H2 H3] Hd. split; [done|done|]. intros x G [Hx|Hx%list_elem_of_singleton]%elem_of_app HG HdG;
      [by eapply H3|]. subst x. apply Hd. congruence. }
  destruct (isDeclaration F) eqn:HdF; apply Hsnoc; [done|done|by apply declare_injected|].
  intros _. by apply (declare_injected M0 l).
Qed.

Lemma inject_all_injected env cfi level M0 items : ∀ l M M', NoDup (l ++ items).*1 →
  (∀ it, it ∈ items → it.1 ≠ n_returnaddress ∧ cf_fun it.2 = it.1) →
  (∀ it, it ∈ items → getFunction M it.1 = getFunction M0 it.1) →
  injected M0 l M → pass_fold (inject_one env cfi level) M items = Ok M' → injected M0 (l ++ items) M'.
Proof.
  induction items as [|it items IH]; intros l M M' Hnd Hit Hget HI H; cbn in H; [inv_pass; by rewrite app_nil_r|].
  inv_pass. replace (l ++ it :: items) with ((l ++ [it]) ++ items) in * by (by rewrite <- app_assoc).
  apply (IH (l ++ [it]) a); [done| | | |done].
  - intros x Hx. apply Hit. by right.
  - intros x Hx. rewrite <- (Hget x) by (by right).
    assert (Hne : x.1 ≠ it.1).
    { rewrite fmap_app in Hnd. apply list.NoDup_app in Hnd as (_ & Hd & _). intros Heq.
      apply (Hd it.1); [rewrite fmap_app; apply elem_of_app; right; by left|]. rewrite <- Heq.
      apply list_elem_of_fmap. by exists x. }
    destruct (Hit it) as [Hra Hfun]; [by left|]. destruct (Hit x) as [Hxra _]; [by right|].
    unfold inject_one in E. rewrite Hfun in E. destruct (getFunction M it.1) as [F|] eqn:HF; [|done]. inv_pass.
    pose proof (inject_function_name _ _ _ _ _ _ _ E0) as Hname. apply getFunction_elem in HF as [_ Hn].
    assert (Hupd : getFunction (update_function it.1 (λ _, a0) M) x.1 = getFunction M x.1).
    { rewrite getFunction_update by (intros ? ?; congruence). by rewrite decide_False. }
    destruct (isDeclaration F); [done|]. unfold declare_returnaddress.
    destruct (getFunction (update_function it.1 (λ _, a0) M) n_returnaddress); [done|].
    rewrite getFunction_app, Hupd. destruct (getFunction M x.1) as [G|]; [done|]. cbn [find].
    by rewrite bool_decide_false by (intros E'; by apply Hxra).
  - eapply inject_one_injected; [apply Hit; by left|apply Hit; by left|apply Hget; by left|done|done].
Qed.

Lemma create_functions_names env ns : env_ok env → ∀ M, NoDup ns → (∀ n, n ∈ ns → n ∉ names_of M) →
  names_of (foldl (create_function env) M ns) = names_of M ++ ns.
Proof.
  intros [_ Hu]. induction ns as [|n ns IH]; intros M Hnd Hf; [by rewrite app_nil_r|]. cbn [foldl].
  apply list.NoDup_cons in Hnd as [Hn Hnd].
  assert (Hc : names_of (create_function env M n) = names_of M ++ [n]).
  { unfold create_function. rewrite Hu by (apply Hf; by left). unfold names_of. cbn. by rewrite fmap_app. }
  rewrite IH, Hc; [by rewrite <- app_assoc|done|].
  intros x Hx. rewrite Hc. intros [Hin|Hin%list_elem_of_singleton]%elem_of_app; [|congruence].
  apply (Hf x); [by right|done].
Qed.

(** ** The module the pass leaves *)

Section Wf.
Context (env : pass_env) (Henv : env_ok env) (level : Z).
Context (M : ir_module) (ignored : gset (list byte)) (annotations : list (list byte * text)).
Context (ctors dtors : list (list byte)) (es : list entry) (st : ControlFlowIntegrity).
Context (Hsup : supported M annotations ctors dtors).
Context (Hst : analysed M ignored annotations ctors dtors es st).
Context (M' : ir_module) (Hinj : InjectCode env st level = Ok M').

Let M0 := injectPrototype env (_M st).

Lemma source_names : names_of (_M st) = names_of M.
Proof using Hst.
  unfold names_of. rewrite (an_module _ _ _ _ _ _ _ Hst), <- list_fmap_compose. apply list_fmap_ext.
  intros _ F _. unfold compose. apply expose_in_name.
Qed.

Lemma code_agrees : agrees_but_intrinsic M' (instrumented st level).
Proof using Hinj Hst Hsup Henv.
  destruct (InjectCode_spec env Henv st level (analysed_sound _ _ _ _ _ _ _ Hsup Hst)
    (analysed_free _ _ _ _ _ _ _ Hsup Hst) (λ F HF _, analysed_known _ _ _ _ _ _ _ Hsup Hst F HF)
    (analysed_returnaddress _ _ _ _ _ _ _ Hsup Hst)) as (M2 & Hinj' & HM).
  rewrite Hinj in Hinj'. by injection Hinj' as <-.
Qed.

Lemma prototypes_no_returnaddress : n_returnaddress ∉ prototypes.
Proof using Type. apply (bool_decide_unpack _). vm_compute. exact I. Qed.

Lemma code_injected : injected M0 (order env _ (_FunctionMap st)) M'.
Proof using Hinj Hst Hsup Henv.
  unfold InjectCode in Hinj. apply (inject_all_injected env st level M0 (order env CFIFct (_FunctionMap st)) [] M0 M'); [| |done| |exact Hinj].
  - cbn [app]. rewrite (proj1 Henv). apply NoDup_fst_map_to_list.
  - intros [f cf] Hit. rewrite (proj1 Henv) in Hit. apply elem_of_map_to_list in Hit. cbn [fst snd]. split.
    + intros ->. by rewrite (analysed_returnaddress _ _ _ _ _ _ _ Hsup Hst) in Hit.
    + by apply (analysed_sound _ _ _ _ _ _ _ Hsup Hst) in Hit as [? _].
  - split; [|by left|by intros it F Hin%elem_of_nil]. unfold M0, injectPrototype.
    rewrite create_functions_names; [|done| |].
    + apply list.NoDup_app. destruct (sup_wf _ _ _ _ Hsup) as [Hnd _]. rewrite source_names. split; [exact Hnd|].
      split; [|apply (bool_decide_unpack _); vm_compute; exact I].
      intros n Hn Hp. apply getFunction_names in Hn. by rewrite (sup_free _ _ _ _ Hsup n Hp) in Hn; destruct Hn.
    + apply (bool_decide_unpack _). vm_compute. exact I.
    + intros n Hp Hn. rewrite source_names in Hn. apply getFunction_names in Hn.
      by rewrite (sup_free _ _ _ _ Hsup n Hp) in Hn; destruct Hn.
Qed.

(** The functions of the module after the prototypes are declared. *)
Lemma prototyped f : f ∉ prototypes → getFunction M0 f = expose_in (list_to_set ctors ∪ list_to_set dtors) <$> getFunction M f.
Proof using Hst Hsup Henv.
  intros Hp. unfold M0. rewrite (injectPrototype_spec env Henv st FUNCTION (analysed_free _ _ _ _ _ _ _ Hsup Hst)).
  unfold instrumented_in. rewrite decide_False by done. rewrite (analysed_getFunction _ _ _ _ _ _ _ Hst).
  destruct (getFunction M f) as [F|]; [|done]. cbn [fmap option_fmap option_map].
  destruct (_FunctionMap st !! f); [|done]. by rewrite decide_False by (by intros ?%elem_of_nil).
Qed.

(** A function of the source, once it is instrumented. *)
Lemma code_source f F : getFunction M f = Some F → f ≠ n_returnaddress → ∃ F', getFunction M' f = Some F' ∧
  fn_intrinsic F' = fn_intrinsic F ∧ grow (fn_blocks F') (fn_blocks F) ∧
  (fn_blocks F' ≠ fn_blocks F → has_returnaddress M').
Proof using Hinj Hst Hsup Henv.
  intros HF Hne. assert (Hp : f ∉ prototypes) by (intros Hp; by rewrite (sup_free _ _ _ _ Hsup f Hp) in HF).
  set (G := expose_in (list_to_set ctors ∪ list_to_set dtors) F).
  assert (HG : getFunction (_M st) f = Some G) by (by rewrite (analysed_getFunction _ _ _ _ _ _ _ Hst), HF).
  assert (HGb : fn_blocks G = fn_blocks F ∧ fn_intrinsic G = fn_intrinsic F)
    by (unfold G; by rewrite expose_in_blocks, expose_in_intrinsic). destruct HGb as [HGb HGi].
  rewrite (code_agrees f Hne). destruct (_FunctionMap st !! f) as [cf|] eqn:Hcf.
  - rewrite (instrumented_defined st level (analysed_free _ _ _ _ _ _ _ Hsup Hst) f cf G Hcf HG).
    destruct (isDeclaration G) eqn:Hd; eexists; (split; [done|]).
    + rewrite HGb. split; [done|]. split; [apply grow_refl|done].
    + split; [done|]. split; [rewrite <- HGb; apply grow_instrument|]. intros _.
      destruct code_injected as [_ Hra Hdecl].
      assert (HG0 : getFunction M0 f = Some G) by (by rewrite prototyped, HF).
      destruct (Hdecl (f, cf) G) as [R HR]; [|done|done|].
      { rewrite (proj1 Henv). by apply elem_of_map_to_list. }
      exists R. split; [done|]. destruct Hra as [Heq|[_ Heq]].
      * rewrite Heq, (prototyped _ prototypes_no_returnaddress) in HR.
        destruct (getFunction M n_returnaddress) as [R0|] eqn:HR0; [|done]. injection HR as <-.
        rewrite expose_in_intrinsic. by apply (sup_returnaddress _ _ _ _ Hsup).
      * rewrite Heq in HR. by injection HR as <-.
  - exists G. unfold instrumented, instrumented_in. rewrite decide_False, HG, Hcf by done.
    rewrite HGb. split; [done|]. split; [done|]. split; [apply grow_refl|done].
Qed.

Lemma code_declares : declares M' M.
Proof using Hinj Hst Hsup Henv.
  split.
  - intros f F HF. destruct (decide (f = n_returnaddress)) as [->|Hne].
    + destruct code_injected as [_ Hra _]. pose proof (prototyped _ prototypes_no_returnaddress) as H0.
      rewrite HF in H0. cbn [fmap option_fmap option_map] in H0. destruct Hra as [Heq|[Heq _]]; [|congruence].
      eexists. rewrite Heq. split; [exact H0|]. apply expose_in_intrinsic.
    + destruct (code_source f F HF Hne) as (F' & HF' & Hi & _). by exists F'.
  - intros n Hn. assert (Hne : n ≠ n_returnaddress) by (intros ->; by apply prototypes_no_returnaddress).
    rewrite (code_agrees n Hne). unfold instrumented, instrumented_in. rewrite decide_True by done. by eexists.
Qed.

Lemma code_wf : wf_ir M'.
Proof using Hinj Hst Hsup Henv.
  destruct code_injected as [Hnd Hra _]. split; [exact Hnd|]. intros F' HF'.
  pose proof (getFunction_name M' F' Hnd HF') as Hget. set (f := fn_name F') in *.
  destruct (sup_wf _ _ _ _ Hsup) as [HndM HwfM].
  assert (Hempty : fn_blocks F' = [] → wf_function_ir M' F' ∧ (fn_intrinsic F' = true → fn_blocks F' = [])).
  { intros E. unfold wf_function_ir. rewrite E. split; [|done]. split; [constructor|by intros B HB%elem_of_nil]. }
  destruct (getFunction M f) as [F|] eqn:HF.
  - apply getFunction_elem in HF as HF2. destruct HF2 as [HFin _]. destruct (HwfM F HFin) as [Hwf Hintr].
    destruct (decide (f = n_returnaddress)) as [Heq|Hne].
    + apply Hempty. destruct Hra as [Hra|[Hra _]];
        pose proof (prototyped _ prototypes_no_returnaddress) as H0; rewrite <- Heq, HF in H0; cbn [fmap option_fmap option_map] in H0.
      * rewrite <- Heq, Hget, H0 in Hra. injection Hra as ->. rewrite expose_in_blocks. apply Hintr.
        apply (sup_returnaddress _ _ _ _ Hsup). by rewrite <- Heq.
      * rewrite <- Heq in Hra. congruence.
    + destruct (code_source f F HF Hne) as (F2 & HF2 & Hi & Hg & Hr). assert (F2 = F') as -> by congruence.
      split; [by eapply wf_grown; [apply code_declares| | |]|]. rewrite Hi. intros Hit. apply Hintr in Hit.
      rewrite Hit in Hg. by inversion Hg.
  - apply Hempty. destruct (decide (f = n_returnaddress)) as [Heq|Hne].
    + destruct Hra as [Hra|[_ Hra]]; rewrite <- Heq in Hra.
      * rewrite Hget, prototyped, HF in Hra; [done|]. rewrite Heq. apply prototypes_no_returnaddress.
      * rewrite Hget in Hra. by injection Hra as ->.
    + rewrite (code_agrees f Hne) in Hget. unfold instrumented, instrumented_in in Hget. case_decide.
      * apply (f_equal (fmap fn_blocks)) in Hget. by injection Hget as <-.
      * by rewrite (analysed_getFunction _ _ _ _ _ _ _ Hst), HF in Hget.
Qed.

End Wf.
