(* ===== verification/PassLimits.v ===== *)
(** * Limits of the pass and of the prelink script

    A function that returns before its last block is instrumented so that the
    monitor refuses it; a table that is malformed is read up to the first
    entry that is not one, without an error; a function defined twice stops the
    prelink script. *)

From S2P Require Import Prelude CSem Wire Client MonitorData RunSpec Dot Text Ir Pass Injector.
From S2P Require Import PassTable PassAnalysis PassFiles InjectSpec PassRun Exec Prelink PrelinkSpec Build BuildSpec.
From Stdlib Require Import Strings.Byte.
From Stdlib Require Strings.String.
Import Strings.String.StringSyntax.
#[local] Open Scope string_scope.
#[local] Open Scope Z_scope.
#[local] Open Scope list_scope.

(** ** Early returns *)

Section EarlyReturn.
Context (m : Z) (callee : list byte → list client_signal → Prop).
Context (st : ControlFlowIntegrity) (level id : Z) (F : function).
Context (Hsize : Z.of_nat (length (fn_blocks F)) < 2 ^ 31).
Context (Han : announces st level (fn_name F) = true).

(** The last block does not return. *)
Context (Hlast : ∀ B, list.last (fn_blocks F) = Some B → bb_term B ≠ ReturnInst).

(** Every execution ends with the announcement of a jump. *)
Lemma early_return_from B tr : exec_from m callee (instrument st level id F) B tr →
  B ∈ fn_blocks (instrument st level id F) → ∃ t0 k, tr = t0 ++ [call_signal m (CallBefore (u32 id) (u32 k))].
Proof using Hsize Han Hlast.
  pose proof (instrument_wrapped m callee st level id F Hsize) as Hw. rewrite Han in Hw.
  induction 1 as [B tr Hret Hex|B B' tr1 tr2 Hex HB' Hsucc _ IH]; intros HB.
  - apply list_elem_of_lookup in HB as [k Hk]. destruct (Hw k B Hk) as (B0 & HB0 & _ & Hterm & Hwr).
    rewrite list_lookup_fmap in HB0. destruct (fn_blocks F !! k) as [B1|] eqn:HB1; [|done].
    cbn in HB0. injection HB0 as <-.
    destruct (Hwr tr Hex) as (tr0 & _ & ->). unfold departure. case_decide as Hk'.
    + exfalso. apply (Hlast B1); [|by rewrite <- Hret, Hterm].
      rewrite list.last_lookup, <- HB1. f_equal. lia.
    + cbn [fmap list_fmap]. eexists _, _. by rewrite app_assoc.
  - destruct (IH HB') as (t0 & k & ->). exists (tr1 ++ t0), k. by rewrite app_assoc.
Qed.

Lemma early_return_no_activation data m' f tr :
  exec_function m callee (instrument st level id F) tr → ¬ activation data m' f tr.
Proof using Hsize Han Hlast.
  intros (B & rest & HB & Hex) Hact. destruct (early_return_from B tr Hex) as (t0 & k & ->); [rewrite HB; by left|].
  inversion Hact as [? ? b s1 tr1 s2 _ _ _ Hs2 _ E1 E2 Heq]; subst.
  replace (s1 :: tr1 ++ [s2]) with ((s1 :: tr1) ++ [s2]) in Heq by done.
  apply app_inj_tail in Heq as [_ ->]. by unfold carries in Hs2.
Qed.

End EarlyReturn.

(** The code of a function whose blocks are checked. *)
Lemma checked_code prefix ignored es r f cf F F' : compiled_from prefix BASICBLOCK ignored es r →
  checked_in r f cf F → getFunction (r_code r) f = Some F' →
  F' = instrument (r_st r) BASICBLOCK (cf_id cf) F ∧ announces (r_st r) BASICBLOCK (fn_name F) = true ∧
  Z.of_nat (length (fn_blocks F)) < 2 ^ 31.
Proof.
  intros Hr (Hcf & HF & Hch) HF'. destruct Hr as [Henv Hsup Han _ Hcode].
  destruct (analysed_small _ _ _ _ _ _ _ Hsup Han f F HF) as [Hsm _].
  assert (Hne : f ≠ n_returnaddress).
  { intros ->. by rewrite (analysed_returnaddress _ _ _ _ _ _ _ Hsup Han) in Hcf. }
  assert (Hnp : f ∉ prototypes).
  { intros Hp. apply (analysed_free _ _ _ _ _ _ _ Hsup Han) in Hp. congruence. }
  assert (Hdone : f ∈ (map_to_list (_FunctionMap (r_st r))).*1).
  { apply list_elem_of_fmap. exists (f, cf). split; [done|]. by apply elem_of_map_to_list. }
  rewrite (Hcode f Hne) in HF'. unfold instrumented, instrumented_in in HF'.
  rewrite decide_False, HF, Hcf, decide_True in HF' by done.
  unfold checked_blocks in Hch. rewrite !andb_true_iff, !negb_true_iff in Hch. destruct Hch as [[_ Hib] Hd].
  rewrite Hd in HF'. injection HF' as <-. split; [done|]. split; [|apply Hsm].
  unfold announces. by rewrite Hib.
Qed.

(** ** Malformed tables *)

(** The files with another table. *)
Definition with_table (t : option text) (files : cfi_files) : cfi_files :=
  CfiFiles t (f_trans files) (f_bbtrans files) (f_ipdom files).

Lemma writeTrans_table env level t files st :
  writeTransToFile env level (with_table t files) st =
    files' ← writeTransToFile env level files st; Ok (with_table t files').
Proof.
  unfold writeTransToFile. destruct (cassert env (opens_trans env) _); [|done]. cbn [mbind pass_bind].
  destruct (writeCallgraph env st); [|done]. cbn [mbind pass_bind]. case_decide; [|done].
  destruct (cassert env (opens_bbtrans env) _); [|done]. cbn [mbind pass_bind].
  by destruct (writeAllowedBBTrans env st).
Qed.

Section Malformed.
Context (es : list entry) (Hes : Forall wf_entry es) (junk : text) (Hjunk : no_entry junk).

Let lines_of := concat (fctid_line <$> es).

Lemma IdentifyFunctions_junk env files st :
  IdentifyFunctions env (with_table (Some (lines_of ++ junk)) files) st =
  IdentifyFunctions env (with_table (Some lines_of) files) st.
Proof using Hes Hjunk.
  unfold IdentifyFunctions, with_table, lines_of. cbn [f_fctid].
  by rewrite fctid_entries_app, fctid_entries_lines.
Qed.

Lemma writeFunctionIDs_junk env files st : opens_fctid env = true →
  writeFunctionIDs env (with_table (Some (lines_of ++ junk)) files) st =
  writeFunctionIDs env (with_table (Some lines_of) files) st.
Proof using Hes Hjunk.
  intros Hopen. unfold writeFunctionIDs, new_entries, old_map, with_table, lines_of. cbn [f_fctid f_trans f_bbtrans f_ipdom].
  rewrite fctid_entries_app, fctid_entries_lines by done. by rewrite Hopen.
Qed.

(** The compilation is the same as without what is not read. *)
Lemma runOnModule_junk env prefix level ign lock M files : opens_fctid env = true →
  runOnModule env prefix level ign lock M (with_table (Some (lines_of ++ junk)) files) =
  runOnModule env prefix level ign lock M (with_table (Some lines_of) files).
Proof using Hes Hjunk.
  intros Hopen. rewrite !runOnModule_steps. unfold analysis.
  destruct (newControlFlowIntegrity _ _ _ _) as [st1|]; [|done]. cbn [mbind pass_bind].
  destruct (ParseAnnotations st1) as [st2|]; [|done]. cbn [mbind pass_bind].
  rewrite IdentifyFunctions_junk. destruct (IdentifyFunctions _ _ _) as [st3|]; [|done]. cbn [mbind pass_bind].
  destruct (PatchCtorFunctions st3) as [st4|]; [|done]. cbn [mbind pass_bind].
  destruct (PatchDtorFunctions st4) as [st5|]; [|done]. cbn [mbind pass_bind].
  rewrite !writeTrans_table. destruct (writeTransToFile _ _ _ _) as [files'|]; [|done]. cbn [mbind pass_bind].
  by rewrite writeFunctionIDs_junk.
Qed.

End Malformed.

(** ** Functions defined twice *)

(** The script stops at the second section of a function. *)
Lemma prelink_twice pe es rows secs1 s secs2 ipdom :
  Forall wf_entry es → NoDup es.*1 → Forall wf_row rows → NoDup rows.*1 →
  Forall wf_section (secs1 ++ s :: secs2) → NoDup (sec_fct <$> secs1) → sec_fct s ∈ sec_fct <$> secs1 →
  prelink pe (CfiFiles (Some (concat (fctid_line <$> es))) (Some (concat (row_line <$> rows)))
    (Some (concat (section_text <$> secs1 ++ s :: secs2))) ipdom) = PyErr (SysExit 255).
Proof.
  intros Hes Hnd Hrows Hrnd Hsecs Hsnd Hin. unfold prelink. cbn [f_fctid f_trans f_bbtrans f_ipdom].
  rewrite parse_fctids_spec, py_bind_ok, parse_callgraph_spec, py_bind_ok by done.
  by rewrite parse_bb_twice.
Qed.

(** A call graph whose rows are well formed is read, even when a function has two. *)
Lemma parse_callgraph_rows rows : Forall wf_row rows → ∃ m, parse_callgraph (concat (row_line <$> rows)) = PyOk m.
Proof.
  intros Hr. rewrite Forall_forall in Hr. unfold parse_callgraph.
  rewrite (file_lines_eq row_words row_line), py_fold_fmap
    by (intros e _; split; [apply row_line_words|apply row_words_one_line]).
  rewrite (py_fold_ok _ (λ m (e : row), <[e.1 := e.2]> m)); [by eexists|].
  apply Forall_forall. intros e He m. cbn zeta. by rewrite row_parse by by apply Hr.
Qed.

(** The first element whose key was seen before. *)
Lemma first_repeat {A} (key : A → Z) l : ¬ NoDup (key <$> l) →
  ∃ l1 x l2, l = l1 ++ x :: l2 ∧ NoDup (key <$> l1) ∧ key x ∈ key <$> l1.
Proof.
  induction l as [|x l IH] using rev_ind; intros Hnd; [destruct Hnd; constructor|].
  destruct (decide (NoDup (key <$> l))) as [Hl|Hl].
  - destruct (decide (key x ∈ key <$> l)) as [Hx|Hx]; [by exists l, x, []|]. exfalso. apply Hnd. rewrite fmap_app.
    apply list.NoDup_app. split; [done|]. split; [|apply NoDup_singleton]. intros y Hy ->%list_elem_of_singleton. done.
  - destruct (IH Hl) as (l1 & y & l2 & -> & H1 & Hy). exists l1, y, (l2 ++ [x]). by rewrite <- app_assoc.
Qed.

Section Twice.
Context (prefix : text) (ignored : gset name) (rs : list compiled) (es : list entry).
Context (Hb : builds prefix BASICBLOCK ignored [] rs es).

Lemma twice_table : table es (Z.of_nat (length es)) ∧ ∀ r, r ∈ rs →
  _IdentifiedFunctions (r_st r) ⊆ ids_of es ∧ ∃ es0, compiled_from prefix BASICBLOCK ignored es0 r.
Proof using Hb.
  destruct (builds_table _ _ _ _ _ _ Hb 0 table_nil) as ([n Hn] & _ & Hrs). split; [|done].
  by rewrite (table_length es n Hn).
Qed.

(** The files that the compilations leave can be read line by line. *)
Lemma twice_rows : Forall wf_row (build_calls rs).
Proof using Hb.
  destruct twice_table as [Htab Hrs]. apply Forall_forall. intros [i js] (r & Hx & Hr)%list_elem_of_In%list_elem_of_bind.
  destruct (calls_of_rows prefix BASICBLOCK ignored rs es _ Htab Hrs r Hr) as (_ & Hl & Hne).
  assert (Hall : ∀ j, j ∈ js → 0 <= i ∧ 0 <= j).
  { intros j Hj. destruct (calls_id_defined prefix BASICBLOCK ignored rs es _ Htab Hrs r i j Hr) as (_ & ? & ?); [|lia].
    apply Hl. by exists js. }
  destruct (Hne _ Hx) as [Hjs _]. cbn in Hjs. split; cbn.
  - destruct js as [|j js]; [done|]. apply (Hall j). by left.
  - apply Forall_forall. intros j Hj%list_elem_of_In. by apply Hall.
Qed.

Lemma twice_sections : Forall wf_section (build_sections rs).
Proof using Hb.
  destruct twice_table as [Htab Hrs]. apply Forall_forall. intros s Hs%list_elem_of_In.
  apply (build_sections_elem prefix BASICBLOCK ignored rs es _ Htab Hrs) in Hs as (r & f & cf & F & Hr & Hch & ->).
  destruct (checked_facts prefix BASICBLOCK ignored rs es _ Htab Hrs r f cf F Hr Hch) as (_ & _ & Hid & _ & _ & _ & Hsize).
  destruct (section_facts prefix BASICBLOCK ignored rs es _ Htab Hrs r f cf F Hr Hch) as (Hnum & Hnd & _ & Hone & Hrow).
  cbn zeta in *. split; [cbn; lia|]. split; [lia|]. split; [|done]. apply Forall_forall. intros x Hx%list_elem_of_In.
  destruct (Hrow x Hx) as [? Hj]. split; [lia|]. eapply Forall_impl; [|exact Hj]. cbn. lia.
Qed.

(** A function that a module defines, with blocks that are checked, has a section. *)
Lemma checked_section r f : r ∈ rs → f ∈ defined ignored r → isIgnoredBlocksFunction (r_st r) f = false →
  ∃ cf, _FunctionMap (r_st r) !! f = Some cf ∧ ids_of es !! f = Some (cf_id cf) ∧
    cf_id cf ∈ sec_fct <$> sections_of (r_env r) (r_st r).
Proof using Hb.
  destruct twice_table as [Htab Hrs]. intros Hr Hf Hblocks. destruct (Hrs r Hr) as (_ & es0 & Hc).
  destruct (defined_map prefix BASICBLOCK ignored es0 r Hc f Hf) as (cf & F & Hcf & HF & Hd).
  apply getFunction_elem in HF as Hname. destruct Hname as [_ Hname].
  assert (Hch : checked_in r f cf F).
  { split; [done|]. split; [done|]. unfold checked_blocks, isIgnoredFunction.
    rewrite Hname, Hblocks, Hd, (an_ignored _ _ _ _ _ _ _ (cp_analysed _ _ _ _ _ Hc)), bool_decide_eq_false_2; [done|].
    by apply defined_elem in Hf as [? _]. }
  exists cf. destruct (checked_facts prefix BASICBLOCK ignored rs es _ Htab Hrs r f cf F Hr Hch) as (_ & Hid & _).
  split; [done|]. split; [done|]. apply list_elem_of_fmap. exists (section_of F cf). split; [done|].
  unfold sections_of. apply list_elem_of_bind. exists (f, cf). cbn [fst snd]. destruct Hch as (_ & _ & Hch).
  rewrite HF, Hch. split; [by apply list_elem_of_singleton|].
  by apply (order_checked prefix BASICBLOCK ignored rs es _ Htab Hrs r (f, cf) Hr).
Qed.

Lemma build_twice pe rs1 r1 rs2 r2 rs3 f : rs = rs1 ++ r1 :: rs2 ++ r2 :: rs3 →
  f ∈ defined ignored r1 → isIgnoredBlocksFunction (r_st r1) f = false →
  f ∈ defined ignored r2 → isIgnoredBlocksFunction (r_st r2) f = false →
  (∃ cf1 cf2, _FunctionMap (r_st r1) !! f = Some cf1 ∧ _FunctionMap (r_st r2) !! f = Some cf2 ∧ cf_id cf1 = cf_id cf2) ∧
  prelink pe (build_files BASICBLOCK no_files rs es) = PyErr (SysExit 255).
Proof using Hb.
  intros Hrs Hf1 Hb1 Hf2 Hb2. destruct twice_table as [(Hwf & Hnd & _) _].
  destruct (checked_section r1 f) as (cf1 & H1 & Hid1 & Hs1); [rewrite Hrs; set_solver|done..|].
  destruct (checked_section r2 f) as (cf2 & H2 & Hid2 & Hs2); [rewrite Hrs; set_solver|done..|].
  rewrite Hid1 in Hid2. injection Hid2 as Hid. split; [by exists cf1, cf2|].
  destruct (first_repeat sec_fct (build_sections rs)) as (secs1 & s & secs2 & Hsecs & Hsnd & Hin).
  { rewrite Hrs. unfold build_sections. rewrite bind_app, fmap_app. intros [_ [_ Hn]]%list.NoDup_app.
    cbn [mbind list_bind] in Hn. rewrite fmap_app in Hn. apply list.NoDup_app in Hn as (_ & Hn & _).
    apply (Hn (cf_id cf1) Hs1). rewrite bind_app, fmap_app. apply elem_of_app. right. cbn [mbind list_bind].
    rewrite fmap_app. apply elem_of_app. left. by rewrite Hid. }
  pose proof twice_sections as Hsw. rewrite Hsecs in Hsw. destruct (parse_callgraph_rows _ twice_rows) as [m Hm].
  unfold prelink, build_files, no_files. cbn [f_fctid f_trans f_bbtrans f_ipdom default from_option id app].
  rewrite (parse_fctids_spec es Hwf Hnd), py_bind_ok, Hm, py_bind_ok, decide_True, Hsecs by done.
  by rewrite parse_bb_twice.
Qed.

End Twice.
