(* ===== verification/PassExamples.v ===== *)
(** * A concrete binary

    Two modules: one with [main], which calls [work] and jumps to the block it
    returns from, and a constructor; one that defines [work], which calls a
    function that is ignored.  The theorems on the pass and on the prelink
    script are instantiated on it. *)

From S2P Require Import Prelude CSem Wire MonitorData Dot Text Ir Pass Injector.
From S2P Require Import RunRefine LoadPackets LoadModule.
From S2P Require Import PassTable PassAnalysis PassFiles InjectSpec PassRun Exec Prelink PrelinkSpec Build BuildSpec BuildPack Program Binary Linking Source Processes.
From Stdlib Require Import Strings.Byte.
From Stdlib Require Strings.String.
Import Strings.String.StringSyntax.
#[local] Open Scope string_scope.
#[local] Open Scope Z_scope.
#[local] Open Scope list_scope.

(** A compiler and an interpreter. *)
Definition ex_env : pass_env :=
  PassEnv (λ V, map_to_list) (λ F a b, Some b) false true true true true (Some (lit "log" ++ [newline])) (λ taken n, n).

Lemma ex_env_ok : env_ok ex_env.
Proof. split; [by intros V m|by intros taken n]. Qed.

Definition ex_py : py_env := PyEnv (λ V, map_to_list) (λ V, map_to_list).

Lemma ex_py_ok : py_env_ok ex_py.
Proof. by split. Qed.

(** The first module. *)
Definition ex_defined (f : list byte) (l : linkage) (bs : list basic_block) : function :=
  MkFunction f false bs l DefaultVisibility.

Definition ex_main_function : function :=
  ex_defined (lit "main") ExternalLinkage
    [BasicBlock 0 [OtherInst; CallInst (lit "work") [OtherValue]; OtherInst] (BranchInst [1%nat]);
     BasicBlock 1 [PHINode; OtherInst] ReturnInst].
Definition ex_setup_function : function :=
  ex_defined (lit "setup") InternalLinkage [BasicBlock 0 [OtherInst] ReturnInst].

Definition ex_main_module : ir_module :=
  IrModule [ex_main_function; declared (lit "work"); ex_setup_function] None
    (Some (GlobalVariable true
       (Some (ConstantArray [ConstantStruct [ConstantOther; ConstantFunction (lit "setup"); ConstantNull]])) 0))
    None.

(** The second one. *)
Definition ex_work_function : function :=
  ex_defined (lit "work") ExternalLinkage
    [BasicBlock 0 [CallInst (lit "log") []] (BranchInst [1%nat; 2%nat]);
     BasicBlock 1 [OtherInst] (BranchInst [2%nat]);
     BasicBlock 2 [] ReturnInst].

Definition ex_work_module : ir_module :=
  IrModule [ex_work_function; declared (lit "log")] None None None.

Definition ex_ignored : gset (list byte) := {[ lit "log" ]}.
Definition ex_prefix : text := lit "out/prog".

Definition ex_compilation (M : ir_module) : compilation :=
  Compilation ex_env (Some (lit "ignored.txt")) (LockResult 3 0) M.
Definition ex_compilations : list compilation := [ex_compilation ex_main_module; ex_compilation ex_work_module].

Definition ex_lists : list (list (list byte * text) * (list (list byte) * list (list byte))) :=
  [([], ([lit "setup"], [])); ([], ([], []))].

Lemma ex_ignored_are : ignored_are ex_env (Some (lit "ignored.txt")) ex_ignored.
Proof.
  eexists. split; [reflexivity|].
  replace (lines (lit "log" ++ [newline])) with [lit "log"] by (vm_compute; reflexivity).
  unfold ex_ignored. cbn [list_to_set]. by rewrite union_empty_r_L.
Qed.

Lemma ex_word : word (ex_prefix ++ lit ".fctid").
Proof. apply (bool_decide_unpack _). vm_compute. done. Qed.

(** ** The modules are supported *)

Ltac decide_true := apply (bool_decide_unpack _); vm_compute; exact I.

Lemma ex_main_supported : supported ex_main_module [] [lit "setup"] [].
Proof.
  split; [decide_true..| | | |].
  - by vm_compute.
  - done.
  - split; [done|]. split; [done|]. eexists. split; [reflexivity|]. repeat constructor.
    do 3 eexists. split; [done|]. by left.
  - done.
Qed.

Lemma ex_work_supported : supported ex_work_module [] [] [].
Proof.
  split; [decide_true..| | | |]; try done.
Qed.

Lemma ex_supported : Forall2 (λ u l, supported_compilation ex_ignored u l.1 l.2.1 l.2.2) ex_compilations ex_lists.
Proof.
  constructor; [split|constructor; [split|constructor]].
  1,5: apply ex_env_ok. 1,4: done. 1,3: apply ex_ignored_are. - apply ex_main_supported. - apply ex_work_supported.
Qed.

(** ** The binary *)

(** The result of a computation that ends well. *)
Definition ok_or {A} (d : A) (m : pass A) : A := match m with Ok a => a | Stop _ => d end.

Lemma ok_or_eq {A} (d : A) m : match m with Ok _ => True | Stop _ => False end → m = Ok (ok_or d m).
Proof. by destruct m. Qed.

(** The outcome of a compilation. *)
Definition ex_state (files : cfi_files) (M : ir_module) : ControlFlowIntegrity :=
  ok_or (MkCFI M ∅ ∅ ∅ ∅ ∅ ∅ [] 0) (analysis ex_env (ex_prefix ++ lit ".fctid") (Some (lit "ignored.txt")) M files).
Definition ex_compile (files : cfi_files) (M : ir_module) (ctors : list (list byte)) : compiled :=
  Compiled ex_env M [] ctors [] (ex_state files M) (ok_or M (InjectCode ex_env (ex_state files M) BASICBLOCK)).

Definition ex_r1 : compiled := ex_compile no_files ex_main_module [lit "setup"].
Definition ex_es1 : list entry := Eval vm_compute in written ex_env [] (r_st ex_r1).
Definition ex_r2 : compiled := ex_compile (lines_file ex_es1) ex_work_module [].
Definition ex_es : list entry := Eval vm_compute in written ex_env ex_es1 (r_st ex_r2).
Definition ex_rs : list compiled := [ex_r1; ex_r2].

Lemma ex_from1 : compiled_from ex_prefix BASICBLOCK ex_ignored [] ex_r1.
Proof.
  apply (compiled_from_run _ _ _ no_files [] 0 ex_env (Some (lit "ignored.txt"))).
  - split; [apply table_nil|reflexivity].
  - apply ex_word.
  - apply ex_env_ok.
  - apply ex_ignored_are.
  - apply ex_main_supported.
  - vm_compute. discriminate.
  - apply ok_or_eq. vm_compute. exact I.
  - apply ok_or_eq. vm_compute. exact I.
Qed.

Lemma ex_es1_eq : written ex_env [] (r_st ex_r1) = ex_es1.
Proof. vm_compute. reflexivity. Qed.

Lemma ex_table1 : table ex_es1 3.
Proof.
  rewrite <- ex_es1_eq. destruct (compiled_table _ _ _ [] 0 ex_r1 table_nil ex_from1) as (Ht & _).
  replace 3 with (_fun_id_ctr (r_st ex_r1)) by (vm_compute; reflexivity). exact Ht.
Qed.

Lemma ex_from2 : compiled_from ex_prefix BASICBLOCK ex_ignored ex_es1 ex_r2.
Proof.
  apply (compiled_from_run _ _ _ (lines_file ex_es1) ex_es1 3 ex_env (Some (lit "ignored.txt"))).
  - apply lines_file_table, ex_table1.
  - apply ex_word.
  - apply ex_env_ok.
  - apply ex_ignored_are.
  - apply ex_work_supported.
  - vm_compute. discriminate.
  - apply ok_or_eq. vm_compute. exact I.
  - apply ok_or_eq. vm_compute. exact I.
Qed.

Lemma ex_builds : builds ex_prefix BASICBLOCK ex_ignored [] ex_rs ex_es.
Proof.
  apply builds_cons; [apply ex_from1|]. change (r_env ex_r1) with ex_env. rewrite ex_es1_eq.
  apply builds_cons; [apply ex_from2|]. change (r_env ex_r2) with ex_env.
  replace (written ex_env ex_es1 (r_st ex_r2)) with ex_es by (vm_compute; reflexivity). constructor.
Qed.

Lemma ex_rs_elem (P : compiled → Prop) : P ex_r1 → P ex_r2 → ∀ r, r ∈ ex_rs → P r.
Proof. intros H1 H2 r [->|[->|[]%elem_of_nil]%elem_of_cons]%elem_of_cons; done. Qed.

Lemma ex_one_definition : one_definition ex_ignored ex_rs.
Proof. decide_true. Qed.

Lemma ex_proper : Forall (proper_roles ex_ignored) ex_rs.
Proof.
  apply Forall_elem_iff, ex_rs_elem; unfold proper_roles; intros f [Hf|Hf];
    first [by apply elem_of_nil in Hf | apply list_elem_of_singleton in Hf as ->; split; [decide_true|done]].
Qed.

Lemma ex_packable : packable ex_rs.
Proof.
  split.
  - intros r F Hr. revert F. pattern r. revert r Hr. apply ex_rs_elem; decide_true.
  - intros s x Hs. revert x. pattern s. revert s Hs. decide_true.
  - vm_compute. reflexivity.
Qed.

Lemma ex_disciplined : Forall (disciplined ex_ignored) ex_rs.
Proof. apply Forall_elem_iff, ex_rs_elem; unfold disciplined; decide_true. Qed.

Lemma ex_built : built ex_prefix BASICBLOCK ex_ignored ex_rs ex_es.
Proof. apply builds_built; [apply ex_builds|apply ex_one_definition|apply ex_proper|apply ex_packable]. Qed.

(** A third module, with a static function of the name of one of the first module. *)
Definition ex_twin_module : ir_module := IrModule [ex_setup_function] None None None.
Definition ex_r3 : compiled := ex_compile (lines_file ex_es) ex_twin_module [].

Lemma ex_twin_supported : supported ex_twin_module [] [] [].
Proof. split; [decide_true..| | | |]; done. Qed.

Lemma ex_es_table : table ex_es (Z.of_nat (length ex_es)).
Proof. apply (bt_table _ _ _ _ _ ex_built). Qed.

Lemma ex_from3 : compiled_from ex_prefix BASICBLOCK ex_ignored ex_es ex_r3.
Proof.
  apply (compiled_from_run _ _ _ (lines_file ex_es) ex_es (Z.of_nat (length ex_es)) ex_env (Some (lit "ignored.txt"))).
  - apply lines_file_table, ex_es_table.
  - apply ex_word.
  - apply ex_env_ok.
  - apply ex_ignored_are.
  - apply ex_twin_supported.
  - vm_compute. discriminate.
  - apply ok_or_eq. vm_compute. exact I.
  - apply ok_or_eq. vm_compute. exact I.
Qed.

Definition ex_es3 : list entry := Eval vm_compute in written ex_env ex_es (r_st ex_r3).
Definition ex_twice : list compiled := [ex_r1; ex_r2; ex_r3].

Lemma ex_twice_builds : builds ex_prefix BASICBLOCK ex_ignored [] ex_twice ex_es3.
Proof.
  apply builds_cons; [apply ex_from1|]. change (r_env ex_r1) with ex_env. rewrite ex_es1_eq.
  apply builds_cons; [apply ex_from2|]. change (r_env ex_r2) with ex_env.
  replace (written ex_env ex_es1 (r_st ex_r2)) with ex_es by (vm_compute; reflexivity).
  apply builds_cons; [apply ex_from3|]. change (r_env ex_r3) with ex_env.
  replace (written ex_env ex_es (r_st ex_r3)) with ex_es3 by (vm_compute; reflexivity). constructor.
Qed.

(** ** Executions *)

Lemma exec_nil m callee : exec_insts m callee [] [].
Proof. done. Qed.

Lemma exec_cons m callee inst insts tr1 tr2 :
  emits m callee inst tr1 → exec_insts m callee insts tr2 → exec_insts m callee (inst :: insts) (tr1 ++ tr2).
Proof. intros H1 H2. by exists tr1, tr2. Qed.

Lemma runs_intro binary resolve k m f F tr : binary m ≫= (λ b, code_of b.1 f) = Some F →
  exec_function m (λ g, runs binary resolve k (resolve m g) g) F tr → runs binary resolve (S k) m f tr.
Proof. intros HF Hex. cbn [runs]. by rewrite HF. Qed.

Definition ex_sig_in (m : Z) (e : client_event) (f b : Z) : client_signal := ClientSignal (client_event_code e) m f b.

(** An instruction that sends [tr], with what it calls. *)
Ltac emit tr := apply (exec_cons _ _ _ _ tr); [vm_compute; reflexivity|].

Lemma exec_branch_at m callee F B B' tr1 tr2 tr : tr = tr1 ++ tr2 →
  exec_insts m callee (bb_insts B) tr1 → B' ∈ fn_blocks F → bb_label B' ∈ successors (bb_term B) →
  exec_from m callee F B' tr2 → exec_from m callee F B tr.
Proof. intros ->. apply exec_branch. Qed.

Ltac silent := emit (@nil client_signal).

(** The packets of the binary but the last one. *)
Definition ex_tables : tables := tables_of ex_py BASICBLOCK ex_es ex_rs.
Definition ex_load_world : world :=
  World [] [] [] [] (writes_of (module_packets (char_array (le_bytes 4 3)) ex_tables) ++ []) [].

(** ** A function that is not supported *)

(** A function with an error path after its [return]. *)
Definition ex_early_function : function :=
  ex_defined (lit "early") ExternalLinkage
    [BasicBlock 0 [OtherInst] (BranchInst [1%nat; 2%nat]); BasicBlock 1 [] ReturnInst;
     BasicBlock 2 [OtherInst] UnreachableInst].
Definition ex_early_module : ir_module := IrModule [ex_early_function] None None None.
Definition ex_early : compiled := ex_compile no_files ex_early_module [].
Definition ex_early_code : function :=
  Eval vm_compute in default ex_early_function (getFunction (r_code ex_early) (lit "early")).
Definition ex_early_signals : list client_signal :=
  [ex_sig_in 0 CFI_ENTER 0 0; ex_sig_in 0 CFI_BEFORE_JUMP 0 0; ex_sig_in 0 CFI_AFTER_JUMP 0 1;
   ex_sig_in 0 CFI_BEFORE_JUMP 0 1].

Lemma ex_early_from : compiled_from ex_prefix BASICBLOCK ex_ignored [] ex_early.
Proof.
  apply (compiled_from_run _ _ _ no_files [] 0 ex_env (Some (lit "ignored.txt"))).
  - split; [apply table_nil|reflexivity].
  - apply ex_word.
  - apply ex_env_ok.
  - apply ex_ignored_are.
  - split; [decide_true..| | | |]; done.
  - vm_compute. discriminate.
  - apply ok_or_eq. vm_compute. exact I.
  - apply ok_or_eq. vm_compute. exact I.
Qed.

(** It runs, from its first block to its [return]. *)
Lemma ex_early_runs : exec_function 0 (λ _ _, False) ex_early_code ex_early_signals.
Proof.
  eexists _, _. split; [reflexivity|].
  eapply (exec_branch_at _ _ _ _ _ (take 2 ex_early_signals) (drop 2 ex_early_signals)); [reflexivity| | | |].
  - silent. emit [ex_sig_in 0 CFI_ENTER 0 0]. silent. emit [ex_sig_in 0 CFI_BEFORE_JUMP 0 0]. apply exec_nil.
  - right; left.
  - left.
  - apply exec_return; [reflexivity|].
    emit [ex_sig_in 0 CFI_AFTER_JUMP 0 1]. emit [ex_sig_in 0 CFI_BEFORE_JUMP 0 1]. apply exec_nil.
Qed.

