(* ===== verification/ProgramExamples.v ===== *)
(** * A concrete program of two binaries

    A library, with a function that the program calls, a constructor that calls
    it too and a destructor; and a program, with [main] and a constructor.  The
    theorems on processes are instantiated on its executions. *)

From S2P Require Import Prelude CSem Wire Dot Text Ir Pass Injector.
From S2P Require Import RunRefine Main Sessions LoadPackets LoadModule.
From S2P Require Import PassTable PassAnalysis PassFiles InjectSpec PassRun Exec Prelink PrelinkSpec Build BuildSpec BuildPack Program Binary Linking Source Processes.
From S2P Require Import Client Startup StartupSpec ClientProcess Closing PassExamples.
From S2P Require Import MonitorData.
From Stdlib Require Import Strings.Byte.
From Stdlib Require Strings.String.
Import Strings.String.StringSyntax.
#[local] Open Scope string_scope.
#[local] Open Scope Z_scope.
#[local] Open Scope list_scope.

(** ** The binaries *)

Definition ex_prepare_function : function :=
  ex_defined (lit "prepare") InternalLinkage [BasicBlock 0 [CallInst (lit "work") []] ReturnInst].
Definition ex_cleanup_function : function :=
  ex_defined (lit "cleanup") InternalLinkage [BasicBlock 0 [OtherInst] ReturnInst].

Definition ex_list_of (f : list byte) : option global_variable :=
  Some (GlobalVariable true (Some (ConstantArray [ConstantStruct [ConstantOther; ConstantFunction f; ConstantNull]])) 0).

Definition ex_lib_module : ir_module :=
  IrModule [ex_work_function; ex_prepare_function; ex_cleanup_function; declared (lit "log")] None
    (ex_list_of (lit "prepare")) (ex_list_of (lit "cleanup")).

Definition ex_lib_state : ControlFlowIntegrity := ex_state no_files ex_lib_module.
Definition ex_lib : compiled :=
  Compiled ex_env ex_lib_module [] [lit "prepare"] [lit "cleanup"] ex_lib_state
    (ok_or ex_lib_module (InjectCode ex_env ex_lib_state BASICBLOCK)).
Definition ex_lib_es : list entry := Eval vm_compute in written ex_env [] (r_st ex_lib).
Definition ex_exe_es : list entry := ex_es1.


Lemma ex_lib_supported : supported ex_lib_module [] [lit "prepare"] [lit "cleanup"].
Proof.
  split; [decide_true..| | | |].
  - by vm_compute.
  - done.
  - split; [done|]. split; [done|]. eexists. split; [reflexivity|]. repeat constructor.
    do 3 eexists. split; [done|]. by left.
  - split; [done|]. split; [done|]. eexists. split; [reflexivity|]. repeat constructor.
    do 3 eexists. split; [done|]. by left.
Qed.

Lemma ex_lib_from : compiled_from ex_prefix BASICBLOCK ex_ignored [] ex_lib.
Proof.
  apply (compiled_from_run _ _ _ no_files [] 0 ex_env (Some (lit "ignored.txt"))).
  - split; [apply table_nil|reflexivity].
  - apply ex_word.
  - apply ex_env_ok.
  - apply ex_ignored_are.
  - apply ex_lib_supported.
  - vm_compute. discriminate.
  - apply ok_or_eq. vm_compute. exact I.
  - apply ok_or_eq. vm_compute. exact I.
Qed.

(** Each binary has one module. *)
Lemma ex_single_built r es : compiled_from ex_prefix BASICBLOCK ex_ignored [] r → written (r_env r) [] (r_st r) = es →
  one_definition ex_ignored [r] → proper_roles ex_ignored r → packable [r] →
  built ex_prefix BASICBLOCK ex_ignored [r] es.
Proof.
  intros Hr <- Hone Hp Hpk. apply builds_built; [|done|by constructor|done]. econstructor; [exact Hr|constructor].
Qed.

Lemma ex_single_elem (P : compiled → Prop) r : P r → ∀ r', r' ∈ [r] → P r'.
Proof. by intros H r' ->%list_elem_of_singleton. Qed.

Ltac solve_packable := split;
  [ match goal with |- ∀ r F, r ∈ [?x] → _ => intros r F Hr; revert F; pattern r; revert r Hr; apply ex_single_elem; decide_true end
  | intros s x Hs; revert x; pattern s; revert s Hs; decide_true
  | vm_compute; reflexivity ].

Lemma ex_lib_built : built ex_prefix BASICBLOCK ex_ignored [ex_lib] ex_lib_es.
Proof.
  apply ex_single_built; [exact ex_lib_from|vm_compute; reflexivity|decide_true| |solve_packable].
  intros f [->%list_elem_of_singleton| ->%list_elem_of_singleton]; (split; [decide_true|done]).
Qed.

Lemma ex_exe_built : built ex_prefix BASICBLOCK ex_ignored [ex_r1] ex_exe_es.
Proof.
  apply ex_single_built; [exact ex_from1|exact ex_es1_eq|decide_true| |solve_packable].
  intros f [->%list_elem_of_singleton|[]%elem_of_nil]; (split; [decide_true|done]).
Qed.

(** ** The program *)

Definition ex_binaries : list binary := [([ex_lib], ex_lib_es); ([ex_r1], ex_exe_es)].

(** The dynamic linker. *)
Definition ex_resolve (m : Z) (f : list byte) : Z := if decide (f ∈ [lit "main"; lit "setup"]) then 1 else 0.

Lemma ex_binaries_elem (P : binary → Prop) : P ([ex_lib], ex_lib_es) → P ([ex_r1], ex_exe_es) → ∀ b, b ∈ ex_binaries → P b.
Proof. intros H1 H2 b [->|[->|[]%elem_of_nil]%elem_of_cons]%elem_of_cons; done. Qed.

Lemma ex_binaries_at (P : Z → binary → Prop) : P 0 ([ex_lib], ex_lib_es) → P 1 ([ex_r1], ex_exe_es) →
  ∀ m b, binary_at ex_binaries m = Some b → P m b.
Proof.
  intros H0 H1 m b Hm. pose proof (binary_at_bounds _ _ _ Hm) as Hr. cbn in Hr. unfold binary_at in Hm.
  rewrite decide_True in Hm by lia. assert (m = 0 ∨ m = 1) as [-> | ->] by lia; by injection Hm as <-.
Qed.

Lemma ex_linked : linked_program BASICBLOCK ex_ignored ex_binaries ex_resolve.
Proof.
  split.
  - apply ex_binaries_elem; exists ex_prefix; [exact ex_lib_built|exact ex_exe_built].
  - apply ex_binaries_elem; apply Forall_elem_iff, ex_single_elem; unfold disciplined; decide_true.
  - by apply ex_binaries_elem.
  - by vm_compute.
  - intros b Hb. pattern b. revert b Hb. apply ex_binaries_elem; [intros H; exfalso; revert H|intros _]; decide_true.
  - intros m b f Hm. revert f. apply (ex_binaries_at (λ m b, ∀ f, f ∈ b.1 ≫= defined ex_ignored → ex_resolve m f = m)); [decide_true..|done].
  - intros m b f Hm Hf Hn. assert (H : m = 1 ∧ f = lit "work").
    { revert f Hf Hn. pattern m, b. revert m b Hm. apply ex_binaries_at; decide_true. }
    destruct H as [-> ->]. split; [by vm_compute|]. apply ex_binaries_at; decide_true.
Qed.

Lemma ex_program : whole_program BASICBLOCK ex_ignored ex_binaries ex_resolve.
Proof.
  split; [exact ex_linked| |by vm_compute]. exists [([ex_lib], ex_lib_es)], ([ex_r1], ex_exe_es). split; [done|].
  split; [decide_true|]. constructor; [decide_true|constructor].
Qed.

Lemma ex_packets_small : Forall small_packet (program_packets BASICBLOCK ex_py ex_binaries).
Proof. decide_true. Qed.

(** ** Its executions *)

Abbreviation ex_runs := (runs (binary_at ex_binaries) ex_resolve).

Definition ex_work_signals : list client_signal :=
  [ex_sig_in 0 CFI_ENTER 0 0; ex_sig_in 0 CFI_BEFORE_JUMP 0 0; ex_sig_in 0 CFI_AFTER_JUMP 0 2; ex_sig_in 0 CFI_EXIT 0 0].
Definition ex_prepare_signals : list client_signal :=
  [ex_sig_in 0 CFI_ENTER 1 0; ex_sig_in 0 CFI_CALL 0 0] ++ ex_work_signals ++
  [ex_sig_in 0 CFI_RETURNED 0 0; ex_sig_in 0 CFI_EXIT 1 0].
Definition ex_cleanup_signals : list client_signal := [ex_sig_in 0 CFI_ENTER 2 0; ex_sig_in 0 CFI_EXIT 2 0].
Definition ex_setup_signals : list client_signal := [ex_sig_in 1 CFI_ENTER 2 0; ex_sig_in 1 CFI_EXIT 2 0].
Definition ex_main_signals : list client_signal :=
  [ex_sig_in 1 CFI_ENTER 0 0; ex_sig_in 1 CFI_CALL 1 0] ++ ex_work_signals ++
  [ex_sig_in 1 CFI_RETURNED 1 0; ex_sig_in 1 CFI_BEFORE_JUMP 0 0; ex_sig_in 1 CFI_AFTER_JUMP 0 1; ex_sig_in 1 CFI_EXIT 0 0].

Lemma ex_setup_runs : ex_runs 1 1 (lit "setup") ex_setup_signals.
Proof.
  eapply runs_intro; [vm_compute; reflexivity|]. eexists _, _. split; [reflexivity|].
  apply exec_return; [reflexivity|].
  silent. emit [ex_sig_in 1 CFI_ENTER 2 0]. silent. silent. emit [ex_sig_in 1 CFI_EXIT 2 0]. apply exec_nil.
Qed.

Lemma ex_cleanup_runs : ex_runs 1 0 (lit "cleanup") ex_cleanup_signals.
Proof.
  eapply runs_intro; [vm_compute; reflexivity|]. eexists _, _. split; [reflexivity|].
  apply exec_return; [reflexivity|].
  silent. emit [ex_sig_in 0 CFI_ENTER 2 0]. silent. silent. emit [ex_sig_in 0 CFI_EXIT 2 0]. apply exec_nil.
Qed.

(** [work] goes from its first block to its last one. *)
Lemma ex_work_runs : ex_runs 2 0 (lit "work") ex_work_signals.
Proof.
  eapply runs_intro; [vm_compute; reflexivity|]. eexists _, _. split; [reflexivity|].
  eapply (exec_branch_at _ _ _ _ _ (take 2 ex_work_signals) (drop 2 ex_work_signals)); [reflexivity| | | |].
  - silent. emit [ex_sig_in 0 CFI_ENTER 0 0]. silent. emit [ex_sig_in 0 CFI_BEFORE_JUMP 0 0]. apply exec_nil.
  - right; right; left.
  - right; left.
  - apply exec_return; [reflexivity|].
    emit [ex_sig_in 0 CFI_AFTER_JUMP 0 2]. silent. emit [ex_sig_in 0 CFI_EXIT 0 0]. apply exec_nil.
Qed.

(** The constructor of the library calls it. *)
Lemma ex_prepare_runs : ex_runs 3 0 (lit "prepare") ex_prepare_signals.
Proof.
  eapply runs_intro; [vm_compute; reflexivity|]. eexists _, _. split; [reflexivity|].
  apply exec_return; [reflexivity|].
  silent. emit [ex_sig_in 0 CFI_ENTER 1 0]. emit [ex_sig_in 0 CFI_CALL 0 0].
  apply (exec_cons _ _ _ _ ex_work_signals); [exact ex_work_runs|].
  emit [ex_sig_in 0 CFI_RETURNED 0 0]. silent. emit [ex_sig_in 0 CFI_EXIT 1 0]. apply exec_nil.
Qed.

(** So does [main], from the other binary. *)
Lemma ex_main_runs : ex_runs 3 1 (lit "main") ex_main_signals.
Proof.
  eapply runs_intro; [vm_compute; reflexivity|]. eexists _, _. split; [reflexivity|].
  eapply (exec_branch_at _ _ _ _ _ (take 8 ex_main_signals) (drop 8 ex_main_signals)); [reflexivity| | | |].
  - silent. emit [ex_sig_in 1 CFI_ENTER 0 0]. silent. emit [ex_sig_in 1 CFI_CALL 1 0].
    apply (exec_cons _ _ _ _ ex_work_signals); [exact ex_work_runs|].
    emit [ex_sig_in 1 CFI_RETURNED 1 0]. silent. emit [ex_sig_in 1 CFI_BEFORE_JUMP 0 0]. apply exec_nil.
  - right; left.
  - left.
  - apply exec_return; [reflexivity|].
    silent. emit [ex_sig_in 1 CFI_AFTER_JUMP 0 1]. silent. silent. emit [ex_sig_in 1 CFI_EXIT 0 0]. apply exec_nil.
Qed.

Definition ex_inits : list (list (Z * list byte * list client_signal)) :=
  [[(0, lit "prepare", ex_prepare_signals)]; [(1, lit "setup", ex_setup_signals)]].
Definition ex_mains : list (Z * list byte * list client_signal) := [(1, lit "main", ex_main_signals)].
Definition ex_finis : list (Z * list byte * list client_signal) := [(0, lit "cleanup", ex_cleanup_signals)].

Lemma ex_one_execution m f tr d : ex_runs d m f tr → executions ex_binaries ex_resolve [(m, f)] [(m, f, tr)].
Proof. intros H. split; [done|]. constructor; [by exists d|constructor]. Qed.

Lemma ex_execution : execution ex_binaries ex_resolve ex_inits ex_mains ex_finis.
Proof.
  split.
  - constructor; [|constructor; [|constructor]].
    + replace (in_module startup_functions (0, ([ex_lib], ex_lib_es))) with [(0, lit "prepare")] by (vm_compute; reflexivity).
      eapply ex_one_execution, ex_prepare_runs.
    + replace (in_module startup_functions (0 + 1, ([ex_r1], ex_exe_es))) with [(1, lit "setup")] by (vm_compute; reflexivity).
      eapply ex_one_execution, ex_setup_runs.
  - eapply ex_one_execution, ex_main_runs.
  - replace (numbered 0 ex_binaries ≫= in_module exit_functions) with [(0, lit "cleanup")] by (vm_compute; reflexivity).
    eapply ex_one_execution, ex_cleanup_runs.
Qed.

(** ** The process *)

Definition ex_signals : list client_signal := ex_prepare_signals ++ ex_setup_signals ++ ex_main_signals ++ ex_cleanup_signals.

(** The packets of the binaries, then the signals [sigs]. *)
Definition ex_process_world (sigs : list client_signal) : world :=
  World [] [] [] (client_signal_bytes <$> sigs) (writes_of (program_packets BASICBLOCK ex_py ex_binaries)) [].

Lemma ex_process_favourable sigs : favourable (ex_process_world sigs).
Proof. by repeat split; constructor. Qed.

Lemma ex_process_full sigs : Forall full_packet (w_sig (ex_process_world sigs)).
Proof.
  apply Forall_elem_iff. intros p (s & -> & _)%list_elem_of_fmap. unfold full_packet. apply Nat.le_refl.
Qed.

(** The data of the monitor, when both are loaded. *)
Lemma ex_loaded : ∃ data, linked_upto BASICBLOCK ex_ignored ex_py ex_binaries ex_resolve 2 data.
Proof. exact (linked_exists BASICBLOCK ex_ignored ex_py ex_py_ok ex_binaries ex_resolve ex_program ex_packets_small 2 (le_n 2)). Qed.

(** ** The client *)

Definition ex_work_calls : list (Z * client_call) := [(0, CallEnter 0); (0, CallBefore 0 0); (0, CallAfter 0 2); (0, CallExit 0)].

(** The calls of the support that its functions make. *)
Definition ex_code (m : Z) (f : list byte) : list (Z * client_call) :=
  if decide (f = lit "prepare") then [(0, CallEnter 1); (0, CallCall 0)] ++ ex_work_calls ++ [(0, CallReturned 0); (0, CallExit 1)]
  else if decide (f = lit "cleanup") then [(0, CallEnter 2); (0, CallExit 2)]
  else if decide (f = lit "setup") then [(1, CallEnter 2); (1, CallExit 2)]
  else if decide (f = lit "main") then [(1, CallEnter 0); (1, CallCall 1)] ++ ex_work_calls ++
    [(1, CallReturned 1); (1, CallBefore 0 0); (1, CallAfter 0 1); (1, CallExit 0)]
  else [].

Lemma ex_program_code : program_code ex_ignored ex_binaries ex_resolve ex_code.
Proof.
  intros m B f Hm. revert f. revert m B Hm. apply (ex_binaries_at (λ m B, ∀ f, starting B.1 f → f ∈ B.1 ≫= defined ex_ignored →
    (∃ d, ex_runs d m f (sent (ex_code m f))) ∧ Forall (λ x, 0 <= x.1 < m + 1) (ex_code m f))).
  - intros f [Hf|[Hf| ->]] Hd.
    + assert (f = lit "prepare") as -> by (revert f Hf Hd; decide_true). split; [|decide_true].
      exists 3%nat. replace (sent _) with ex_prepare_signals by (vm_compute; reflexivity). exact ex_prepare_runs.
    + assert (f = lit "cleanup") as -> by (revert f Hf Hd; decide_true). split; [|decide_true].
      exists 1%nat. replace (sent _) with ex_cleanup_signals by (vm_compute; reflexivity). exact ex_cleanup_runs.
    + exfalso. revert Hd. decide_true.
  - intros f [Hf|[Hf| ->]] Hd.
    + assert (f = lit "setup") as -> by (revert f Hf Hd; decide_true). split; [|decide_true].
      exists 1%nat. replace (sent _) with ex_setup_signals by (vm_compute; reflexivity). exact ex_setup_runs.
    + exfalso. revert f Hf Hd. decide_true.
    + split; [|decide_true].
      exists 3%nat. replace (sent _) with ex_main_signals by (vm_compute; reflexivity). exact ex_main_runs.
Qed.

Definition ex_descriptors : descriptors := Descriptors 4 5 6 7.

(** A world where the name of a function cannot be copied and a preloaded answer
    cannot be written. *)
Definition ex_failing_world : world :=
  World (replicate 7 AMoved ++ [AFail]) [] (replicate 13 true ++ [false]) (client_signal_bytes <$> ex_signals)
    (writes_of (program_packets BASICBLOCK ex_py ex_binaries)) [].

Lemma ex_failing_run : ∃ w', monitor_process (Options false false 2 false) 0 ex_failing_world = Val (0, w') ∧ w_sig w' = [].
Proof. eexists. vm_compute. split; reflexivity. Qed.
