(* ===== verification/PassProps.v ===== *)
(** * Properties of the pass, of the prelink script and of whole programs *)

From S2P Require Import Prelude CSem Wire Client MonitorData RunSpec RunRefine LoadSections MonitorLoad LoadWf Sessions.
From S2P Require Import LoadSpec LoadPackets Main Dot Text Ir Pass Injector PassTable PassAnalysis PassFiles InjectSpec.
From S2P Require Import PassRun Exec Prelink PrelinkSpec LoadModule Build BuildSpec BuildPack Program Binary Linking Source Processes.
From S2P Require Import LongSections PassRefusals PassType PassLimits PassExamples ProgramExamples.
From S2P Require Import MonitorData.
From Stdlib Require Import Strings.Byte.
From Stdlib Require Strings.String.
Import Strings.String.StringSyntax.
#[local] Open Scope string_scope.
#[local] Open Scope Z_scope.
#[local] Open Scope list_scope.

(** ** Whole programs *)

(** C1: From the sources to the verdict.  A program of any number of binaries,
    loaded libraries first and the one with [main] last, whose functions are all
    compiled or ignored and return from their last block only, with no value of a
    packet longer than [PIPE_BUF]: the prelink script accepts the files that the
    compilations of each binary left; and the monitor process, without the dump of
    the graphs, where allocations grow in place, writes complete, no time-out
    expires and signals are whole packets, when it reads the packets of the
    generated code and the signals of any executions of the instrumented functions
    across the binaries (the constructors of each binary once it is loaded, [main],
    every destructor), reads all of them and exits with status 0. *)
Theorem program_accepted level ignored pe L resolve opts w inits xs_main finis :
  py_env_ok pe → whole_program level ignored L resolve → OPTION_sm_dump opts = false →
  Forall small_packet (program_packets level pe L) → w_load w = writes_of (program_packets level pe L) →
  favourable w → Forall full_packet (w_sig w) →
  execution L resolve inits xs_main finis → signals w = concat (concat inits ++ xs_main ++ finis).*2 →
  (∀ b, b ∈ L → prelink pe (build_files level no_files b.1 b.2) = PyOk (binary_prelinked level pe b)) ∧
  ∃ w', monitor_process opts 0 w = Val (0, w') ∧ signals w' = [].
Proof.
  intros Hpe Hwp Hdump Hsmall Hload Hw Hps Hex Hsig. split.
  - intros b Hb. destruct (lp_built _ _ _ _ (wp_linked _ _ _ _ Hwp) b Hb) as [prefix []]. by eapply prelink_build.
  - by eapply (whole_accepted level ignored pe Hpe L resolve Hwp Hsmall opts w inits xs_main finis).
Qed.

Lemma program_accepted_witness :
  (∀ b, b ∈ ex_binaries → prelink ex_py (build_files BASICBLOCK no_files b.1 b.2) = PyOk (binary_prelinked BASICBLOCK ex_py b)) ∧
  ∃ w', monitor_process (Options false false 0 false) 0 (ex_process_world ex_signals) = Val (0, w') ∧ signals w' = [].
Proof.
  apply (program_accepted BASICBLOCK ex_ignored ex_py ex_binaries ex_resolve (Options false false 0 false)
    (ex_process_world ex_signals) ex_inits ex_mains ex_finis).
  - exact ex_py_ok.
  - exact ex_program.
  - reflexivity.
  - exact ex_packets_small.
  - reflexivity.
  - apply ex_process_favourable.
  - apply ex_process_full.
  - exact ex_execution.
  - vm_compute. reflexivity.
Defined.

(** C2: The verdict is about the source.  For such a program (see C1), loaded from
    the packets of its generated code, none of them longer than [PIPE_BUF], where
    allocations grow in place, writes complete, no time-out expires and signals are
    whole packets, the monitor process exits with status 0, leaving the signals
    [rest], if and only if the signals before them are runs: for each binary in
    turn, as many as it has constructors, started in the binaries loaded so
    far; then as many as there are destructors in all, plus one for [main].  A
    run starts in any of these functions (which one is not checked), each
    announced jump is a branch of the function it is in, and each announced call
    is a direct call that its code has of the function that is then entered, in
    the binary where the dynamic linker finds it: whatever the client sends, no
    other edge is accepted, and nothing that follows the sources is refused. *)
Theorem program_checked level ignored pe L resolve opts w rest :
  py_env_ok pe → whole_program level ignored L resolve → OPTION_sm_dump opts = false →
  Forall small_packet (program_packets level pe L) → w_load w = writes_of (program_packets level pe L) →
  favourable w → Forall full_packet (w_sig w) →
  (∃ w', monitor_process opts 0 w = Val (0, w') ∧ signals w' = rest) ↔
  ∃ inits trs, startup_runs level ignored L resolve 0 L inits ∧ length trs = S (nb_exits L) ∧
    Forall (source_run level ignored L resolve (Z.of_nat (length L))) trs ∧
    signals w = concat (concat inits) ++ concat trs ++ rest.
Proof.
  intros Hpe Hwp Hdump Hsmall Hload Hw Hps.
  by apply (whole_verdict level ignored pe Hpe L resolve Hwp Hsmall opts Hdump w rest).
Qed.

Lemma program_checked_witness :
  (∃ w', monitor_process (Options false false 0 false) 0 (ex_process_world ex_signals) = Val (0, w') ∧ signals w' = []) ↔
  ∃ inits trs, startup_runs BASICBLOCK ex_ignored ex_binaries ex_resolve 0 ex_binaries inits ∧
    length trs = S (nb_exits ex_binaries) ∧
    Forall (source_run BASICBLOCK ex_ignored ex_binaries ex_resolve 2) trs ∧
    signals (ex_process_world ex_signals) = concat (concat inits) ++ concat trs ++ [].
Proof.
  apply (program_checked BASICBLOCK ex_ignored ex_py ex_binaries ex_resolve);
    [exact ex_py_ok|exact ex_program|reflexivity|exact ex_packets_small|reflexivity|apply ex_process_favourable|
     apply ex_process_full].
Defined.

(** C4: Failures do not weaken the check.  For such a program (see C1), whatever
    allocations of the monitor fail or move, whatever writes fail and time-outs
    expire, when the monitor process exits with status 0 the signals it has read
    are runs of the program: those of the constructors of each binary in turn, then
    as many as there are destructors, plus one for [main].  Nothing is assumed of the
    environment but whole packets: signals are not cut, and no value of the program
    is longer than [PIPE_BUF]. *)
Theorem program_sound level ignored pe L resolve opts w w' :
  py_env_ok pe → whole_program level ignored L resolve → OPTION_sm_dump opts = false →
  Forall small_packet (program_packets level pe L) → w_load w = writes_of (program_packets level pe L) →
  Forall full_packet (w_sig w) → monitor_process opts 0 w = Val (0, w') →
  ∃ inits trs, startup_runs level ignored L resolve 0 L inits ∧ length trs = S (nb_exits L) ∧
    Forall (source_run level ignored L resolve (Z.of_nat (length L))) trs ∧
    signals w = concat (concat inits) ++ concat trs ++ signals w'.
Proof.
  intros Hpe Hwp Hdump Hsmall Hload Hps.
  by apply (whole_sound level ignored pe Hpe L resolve Hwp Hsmall opts Hdump w).
Qed.

(** A name and the second preloaded answer are lost. *)
Lemma program_sound_witness : ∃ inits trs,
  startup_runs BASICBLOCK ex_ignored ex_binaries ex_resolve 0 ex_binaries inits ∧ length trs = S (nb_exits ex_binaries) ∧
  Forall (source_run BASICBLOCK ex_ignored ex_binaries ex_resolve 2) trs ∧
  ex_signals = concat (concat inits) ++ concat trs ++ [].
Proof.
  destruct ex_failing_run as (w' & Hrun & Hs).
  destruct (program_sound BASICBLOCK ex_ignored ex_py ex_binaries ex_resolve (Options false false 2 false)
    ex_failing_world w') as (inits & trs & H1 & H2 & H3 & H4);
    [exact ex_py_ok|exact ex_program|reflexivity|exact ex_packets_small|reflexivity|
     apply ex_process_full|exact Hrun|].
  exists inits, trs. split; [exact H1|]. split; [exact H2|]. split; [exact H3|].
  unfold signals in H4. rewrite Hs in H4. vm_compute in H4 |- *. exact H4.
Defined.

(** C9: The monitor knows the graphs of the source, neither more nor less.  When
    a module of the monitor was loaded from the tables of a binary, the call of
    function [j] from function [i] is allowed if and only if the code of one of
    its modules has a direct call of [j] in [i]; and, when blocks are checked,
    a jump is allowed if and only if the code of the function has that branch. *)
Theorem source_graphs prefix level ignored pe rs es data m md :
  py_env_ok pe → built prefix level ignored rs es → module_at data m = Val md →
  loaded (tables_of pe level es rs) true (tb_sections (tables_of pe level es rs)) md →
  (∀ i j, may_call data m i j = true ↔ ∃ r, r ∈ rs ∧ calls_id (r_st r) i j) ∧
  (level = BASICBLOCK → ∀ r f cf F, r ∈ rs → checked_in r f cf F →
     ∀ i j, may_jump data m (cf_id cf) i j = true ↔ jumps F i j).
Proof.
  intros Hpe Hb Hmd Hld%(loaded_agrees prefix level ignored pe Hpe rs es Hb). split.
  - intros i j. by apply (may_call_iff prefix level ignored rs es Hb data m md).
  - intros Hlevel r f cf F Hr Hch i j. by apply (may_jump_iff prefix level ignored rs es Hb data m md Hmd Hld r f).
Qed.

Lemma source_graphs_witness : ∃ data,
  (∀ i j, may_call data 0 i j = true ↔ ∃ r, r ∈ [ex_lib] ∧ calls_id (r_st r) i j) ∧
  (BASICBLOCK = BASICBLOCK → ∀ r f cf F, r ∈ [ex_lib] → checked_in r f cf F →
     ∀ i j, may_jump data 0 (cf_id cf) i j = true ↔ jumps F i j).
Proof.
  destruct ex_loaded as [data [Hup _]]. exists data.
  destruct (lu_modules _ _ _ _ _ Hup 0) as (b & md & [= <-] & Hmd & Hld); [split; reflexivity|].
  apply (source_graphs ex_prefix BASICBLOCK ex_ignored ex_py [ex_lib] ex_lib_es data 0 md);
    [exact ex_py_ok|exact ex_lib_built|exact Hmd|exact Hld].
Defined.

(** C10: Instrumented executions follow the grammar.  In a process whose binaries
    were compiled with the pass, whose monitor has loaded the graphs of some of
    them and lands the calls from these where the dynamic linker does, any
    terminating execution of a function of theirs, through any number of nested
    calls across the binaries, sends the signals of an activation of it. *)
Theorem executions_are_activations level ignored binary resolve there data k m rs es f id tr :
  process level ignored binary resolve there data → there m → binary m = Some (rs, es) →
  f ∈ rs ≫= defined ignored → ids_of es !! f = Some id →
  runs binary resolve k m f tr → activation data m id tr.
Proof. intros Hp. by apply (runs_activation level ignored binary resolve there data k Hp). Qed.

Lemma executions_are_activations_witness : ∃ data, activation data 1 0 ex_main_signals.
Proof.
  destruct ex_loaded as [data Hk]. exists data.
  apply (executions_are_activations BASICBLOCK ex_ignored (binary_at ex_binaries) ex_resolve (λ m, 0 <= m < 2)
    data 3 1 [ex_r1] ex_exe_es (lit "main")).
  - exact (linked_process BASICBLOCK ex_ignored ex_py ex_py_ok ex_binaries ex_resolve ex_linked 2 data Hk).
  - split; [discriminate|reflexivity].
  - reflexivity.
  - decide_true.
  - vm_compute. reflexivity.
  - exact ex_main_runs.
Defined.

(** ** Compilations *)

(** C11: The pass never stops on code it supports.  Any number of compilations of
    supported modules, one after the other from no files, end; they leave the
    table of all the functions, the call graphs, the control-flow graphs (at
    the level of blocks) and the post-dominators of all the modules, in order,
    and the modules instrumented. *)
Theorem build_ends prefix level ignored us ls :
  Forall2 (λ u l, supported_compilation ignored u l.1 l.2.1 l.2.2) us ls →
  word (prefix ++ lit ".fctid") → total_functions us <= 2 ^ 31 → us ≠ [] →
  ∃ rs es, compile_all prefix level us no_files = Ok (r_code <$> rs, build_files level no_files rs es) ∧
    builds prefix level ignored [] rs es ∧ Forall3 compiles us ls rs.
Proof.
  intros Hus Hword Hlen Hne.
  apply (compile_all_files prefix level ignored us ls Hus Hword no_files [] 0); [by split; [apply table_nil|]|lia|done].
Qed.

Lemma build_ends_witness : ∃ rs es,
  compile_all ex_prefix BASICBLOCK ex_compilations no_files =
    Ok (r_code <$> rs, build_files BASICBLOCK no_files rs es) ∧
  builds ex_prefix BASICBLOCK ex_ignored [] rs es ∧ Forall3 compiles ex_compilations ex_lists rs.
Proof.
  apply (build_ends ex_prefix BASICBLOCK ex_ignored ex_compilations ex_lists);
    [exact ex_supported|exact ex_word|vm_compute; discriminate|discriminate].
Defined.

(** C17: Compilations agree on the identifiers.  From any table, compilations
    leave a table where the identifiers are unique and have no gap, where the
    functions known before keep theirs, and where every function of every
    module that is neither ignored nor an intrinsic has the one with which its
    module was instrumented. *)
Theorem binary_table prefix level ignored es rs es' n :
  builds prefix level ignored es rs es' → table es n →
  (∃ n', table es' n') ∧ ids_of es ⊆ ids_of es' ∧
  ∀ r F, r ∈ rs → F ∈ m_functions (r_source r) → fn_name F ∉ ignored → fn_intrinsic F = false →
    ∃ cf, _FunctionMap (r_st r) !! fn_name F = Some cf ∧ ids_of es' !! fn_name F = Some (cf_id cf).
Proof.
  intros Hb Htab. destruct (builds_table _ _ _ _ _ _ Hb n Htab) as (Hn & Hsub & Hrs).
  split; [done|]. split; [done|]. intros r F Hr HF Hni Hint. destruct (Hrs r Hr) as (Hids & es0 & Hc).
  destruct (an_all _ _ _ _ _ _ _ (cp_analysed _ _ _ _ _ Hc) F HF) as [cf Hcf].
  { by apply (concerned_iff prefix level ignored es0 r Hc F HF). }
  exists cf. split; [done|]. destruct (an_write _ _ _ _ _ _ _ (cp_analysed _ _ _ _ _ Hc)) as [_ _ _ Hmap _ _].
  destruct (Hmap _ _ Hcf) as (_ & Hid & _). by eapply lookup_weaken.
Qed.

Lemma binary_table_witness :
  (∃ n', table ex_es n') ∧ ids_of [] ⊆ ids_of ex_es ∧
  ∀ r F, r ∈ ex_rs → F ∈ m_functions (r_source r) → fn_name F ∉ ex_ignored → fn_intrinsic F = false →
    ∃ cf, _FunctionMap (r_st r) !! fn_name F = Some cf ∧ ids_of ex_es !! fn_name F = Some (cf_id cf).
Proof. exact (binary_table ex_prefix BASICBLOCK ex_ignored [] ex_rs ex_es 0 ex_builds table_nil). Defined.

(** C18: The flags agree with the whole binary.  After the compilations of a
    binary where no function is defined in two modules, and where constructors and
    destructors are defined in their module and are not [main], the flag of every
    function in the table is what the function is in the binary, whichever module
    was compiled first: constructor, destructor, [main], defined in some module, or
    in none. *)
Theorem table_flags prefix level ignored rs es f id fl :
  builds prefix level ignored [] rs es → one_definition ignored rs → Forall (proper_roles ignored) rs →
  (f, (id, fl)) ∈ es → flag_to_int fl = role ignored rs f.
Proof.
  intros Hb Hone Hp.
  destruct (builds_roles _ _ _ _ _ _ Hb [] 0 table_nil Hp Hone) as [H _]; [|exact (H f id fl)].
  split; [by intros ? ? ? Hin%elem_of_nil|by intros ? Hin%elem_of_nil].
Qed.

Lemma table_flags_witness : flag_to_int (lit "Init") = role ex_ignored ex_rs (lit "setup").
Proof.
  apply (table_flags ex_prefix BASICBLOCK ex_ignored ex_rs ex_es _ 2);
    [exact ex_builds|exact ex_one_definition|exact ex_proper|decide_true].
Defined.

(** C12: The script packs what the pass wrote.  On the files of a binary, the
    prelink script ends without an error, and the code it generates sends the
    packets of well-formed tables: one entry for each line of the function
    table, one for each line of the graphs; and the end of the loading if
    [main] is there. *)
Theorem prelink_accepts prefix level ignored pe rs es :
  py_env_ok pe → built prefix level ignored rs es → es ≠ [] →
  let t := tables_of pe level es rs in
  ∃ p, prelink pe (build_files level no_files rs es) = PyOk p ∧
    init_packets p = module_packets (char_array (le_bytes 4 (Z.of_nat (length es)))) t ++
      (if decide (lit "main" ∈ es.*1) then [(CFI_LOADING_TERMINATED, [])] else []) ∧
    wf_tables t ∧ tb_num t = Z.of_nat (length es).
Proof.
  intros Hpe [Htab Hrs Hone Hproper Hroles Hnames Hpk] Hne t.
  exists (prelinked_of pe level rs es (Z.of_nat (length es))). split; [by eapply prelink_build|].
  split; [apply packets_build|]. split.
  - eapply (tables_wf pe Hpe prefix level ignored rs es _ Htab Hrs Hone Hpk Hnames). destruct es; [done|cbn; lia].
  - by eapply tables_num.
Qed.

Lemma prelink_accepts_witness : ∃ p,
  prelink ex_py (build_files BASICBLOCK no_files ex_rs ex_es) = PyOk p ∧
  init_packets p = module_packets (char_array (le_bytes 4 (Z.of_nat (length ex_es))))
      (tables_of ex_py BASICBLOCK ex_es ex_rs) ++
    (if decide (lit "main" ∈ ex_es.*1) then [(CFI_LOADING_TERMINATED, [])] else []) ∧
  wf_tables (tables_of ex_py BASICBLOCK ex_es ex_rs) ∧
  tb_num (tables_of ex_py BASICBLOCK ex_es ex_rs) = Z.of_nat (length ex_es).
Proof.
  apply (prelink_accepts ex_prefix BASICBLOCK ex_ignored ex_py ex_rs ex_es);
    [exact ex_py_ok|exact ex_built|discriminate].
Defined.

(** C15: A module is loaded as it was packed.  From the packets of any well-formed
    tables, none of them longer than [PIPE_BUF], on writes that succeed and
    allocations that succeed in place, without the dump of the graphs, the loader
    appends one module to the monitor and touches no other; its function table, its
    call graph and its control-flow graphs are those of the tables, edge for edge,
    and every invariant of the data holds again. *)
Theorem module_loaded opts mon v t rest w :
  wf_tables t → OPTION_sm_dump opts = false → load_inv mon → nb_modules mon + 1 < 2 ^ 32 → favourable w →
  Forall small_packet (module_packets v t) → w_load w = writes_of (module_packets v t) ++ rest →
  ∃ mon' md w', monitor_load_module opts mon w = Val ((0, mon'), w') ∧
    nb_modules mon' = nb_modules mon + 1 ∧ module_at mon' (nb_modules mon) = Val md ∧
    (∀ k, 0 <= k < nb_modules mon → module_at mon' k = module_at mon k) ∧
    load_inv mon' ∧ wf_module md ∧ loaded t true (tb_sections t) md ∧
    w_load w' = rest ∧ w_sig w' = w_sig w.
Proof.
  intros Ht Hd Hinv Hnb Hw Hs Hl.
  destruct (load_module_spec opts mon v t rest w Ht Hd Hinv Hnb Hw Hs Hl)
    as (mon' & md & w' & H1 & H2 & H3 & H4 & H5 & H6 & _ & H8 & H9 & H10 & _).
  by exists mon', md, w'.
Qed.

Lemma module_loaded_witness : ∃ mon' md w',
  monitor_load_module (Options false false 0 false) (MonitorData 0 Null) ex_load_world = Val ((0, mon'), w') ∧
  nb_modules mon' = 1 ∧ module_at mon' 0 = Val md ∧
  (∀ k, 0 <= k < 0 → module_at mon' k = module_at (MonitorData 0 Null) k) ∧
  load_inv mon' ∧ wf_module md ∧ loaded ex_tables true (tb_sections ex_tables) md ∧
  w_load w' = [] ∧ w_sig w' = [].
Proof.
  apply (module_loaded (Options false false 0 false) (MonitorData 0 Null) (char_array (le_bytes 4 3)) ex_tables []
    ex_load_world).
  - exact (binary_tables ex_prefix BASICBLOCK ex_ignored ex_py ex_py_ok ex_rs ex_es ex_built ltac:(discriminate)).
  - reflexivity.
  - split; [by left|done].
  - reflexivity.
  - by repeat split; constructor.
  - decide_true.
  - reflexivity.
Defined.

(** C39: Sections that do not fit the pipe.  The packets of well-formed tables
    are written as they are for [module_loaded], but the value of one of them has
    more than [PIPE_BUF] bytes: the pipe splits that write, the read of the value
    is short, and the loader, which frees what it has read of it twice, has
    undefined behaviour. *)
Theorem long_section_double_free opts mon v t rest w :
  wf_tables t → load_inv mon → nb_modules mon + 1 < 2 ^ 32 → favourable w →
  Forall countable_packet (module_packets v t) → ¬ Forall small_packet (module_packets v t) →
  w_load w = wire (module_packets v t) ++ rest → monitor_load_module opts mon w = Undef DoubleFree.
Proof. intros. by eapply load_module_long. Qed.

(** A table of one function with a long name. *)
Definition ex_long_tables : tables :=
  Tables [FctEntry 0 0 (replicate (Z.to_nat 4096) x61)] [] None.

Lemma long_section_double_free_witness :
  monitor_load_module (Options false false 0 false) (MonitorData 0 Null)
    (World [] [] [] [] (wire (module_packets (char_array (le_bytes 4 1)) ex_long_tables)) []) = Undef DoubleFree.
Proof.
  apply (long_section_double_free (Options false false 0 false) (MonitorData 0 Null) (char_array (le_bytes 4 1)) ex_long_tables []).
  - split; [done|decide_true|decide_true|constructor|done|constructor..|done].
  - split; [by left|done].
  - reflexivity.
  - by repeat split; constructor.
  - decide_true.
  - apply (bool_decide_unpack _). vm_compute. exact I.
  - by rewrite app_nil_r.
Defined.

(** C16: A compilation leaves valid code.  On a module that is supported, when the
    file of the functions is a well-formed table or is not there (whatever the other
    files hold), the file of the ignored functions, if one is given, can be read and
    all files can be written, LLVM iterates on its maps and gives
    names as documented, the name of the file is a word, and the functions
    that are numbered stay below 2^31: the pass ends, and the module it leaves is
    well-formed - the names of its functions are unique, the labels of each function
    too, no branch leads out of its function, and every called function is declared
    as what it is called for. *)
Theorem instrumented_wellformed env prefix level ign lock ignored M annotations ctors dtors files es n :
  env_ok env → opens_all env → table_file files es n → word (prefix ++ lit ".fctid") →
  ignored_are env ign ignored → supported M annotations ctors dtors →
  n + Z.of_nat (length (m_functions M)) <= 2 ^ 31 →
  ∃ M' files', runOnModule env prefix level ign lock M files = Ok (M', files') ∧ wf_ir M'.
Proof.
  intros Henv Hopen Htab Hword Hign Hsup Hlen.
  destruct (runOnModule_spec env Henv Hopen files es n Htab prefix Hword ign ignored Hign M annotations ctors dtors
    Hsup Hlen level lock) as (st & M' & Hst & _ & Hrun & _).
  destruct (analysis_spec env files es n Htab _ Hword ign ignored Hign M annotations ctors dtors Hsup Hlen)
    as (st' & Han & _ & Hst').
  exists M', (files_after env level es st files). split; [done|].
  rewrite runOnModule_steps, Han in Hrun. cbn [mbind pass_bind] in Hrun. inv_pass.
  by eapply (code_wf env Henv level M ignored annotations ctors dtors es st').
Qed.

Lemma instrumented_wellformed_witness : ∃ M' files',
  runOnModule ex_env ex_prefix BASICBLOCK (Some (lit "ignored.txt")) (LockResult 3 0) ex_main_module no_files =
    Ok (M', files') ∧ wf_ir M'.
Proof.
  apply (instrumented_wellformed ex_env ex_prefix BASICBLOCK (Some (lit "ignored.txt")) (LockResult 3 0) ex_ignored
    ex_main_module [] [lit "setup"] [] no_files [] 0);
    [exact ex_env_ok|done|by split; [apply table_nil|]|exact ex_word|exact ex_ignored_are|exact ex_main_supported|
     vm_compute; discriminate].
Defined.

(** C19: Unsupported code is refused.  A compilation that ends without an error
    has found no indirect call and no invoke in the functions that are neither
    ignored nor intrinsics: on a module with one, the pass stops, so that
    nothing that escapes the call graph is left unnoticed. *)
Theorem unsupported_refused env prefix level ign lock ignored M M' files files' F :
  env_ok env → ignored_are env ign ignored → NoDup (fn_name <$> m_functions M) →
  runOnModule env prefix level ign lock M files = Ok (M', files') →
  F ∈ m_functions M → fn_name F ∉ ignored → fn_intrinsic F = false →
  Forall (λ B, Forall plain_instruction (bb_insts B) ∧ is_invoke (bb_term B) = false) (fn_blocks F).
Proof. intros. by eapply runOnModule_plain. Qed.

Lemma unsupported_refused_witness :
  Forall (λ B, Forall plain_instruction (bb_insts B) ∧ is_invoke (bb_term B) = false) (fn_blocks ex_main_function).
Proof.
  set (run := runOnModule ex_env ex_prefix BASICBLOCK (Some (lit "ignored.txt")) (LockResult 3 0) ex_main_module no_files).
  assert (Hrun : run = Ok (ok_or (ex_main_module, no_files) run)) by (apply ok_or_eq; vm_compute; exact I).
  apply (unsupported_refused ex_env ex_prefix BASICBLOCK (Some (lit "ignored.txt")) (LockResult 3 0) ex_ignored
    ex_main_module (ok_or (ex_main_module, no_files) run).1 no_files (ok_or (ex_main_module, no_files) run).2);
    [exact ex_env_ok|exact ex_ignored_are|decide_true|fold run; rewrite Hrun; by destruct (ok_or _ run)|
     left|decide_true|reflexivity].
Defined.

(** ** Limits *)

(** C38: Early returns are not supported.  The exit of a function is announced in
    its last block only: when blocks are checked and the last block does not
    return, no execution of the instrumented function, whatever it calls, is an
    activation of any function, in any data of the monitor. *)
Theorem early_return_refused prefix ignored es r f cf F F' m callee tr data m' g :
  compiled_from prefix BASICBLOCK ignored es r → checked_in r f cf F →
  (∀ B, list.last (fn_blocks F) = Some B → bb_term B ≠ ReturnInst) →
  getFunction (r_code r) f = Some F' → exec_function m callee F' tr → ¬ activation data m' g tr.
Proof.
  intros Hr Hch Hlast HF' Hex. destruct (checked_code _ _ _ _ _ _ _ _ Hr Hch HF') as (-> & Han & Hlen).
  by eapply early_return_no_activation.
Qed.

Lemma early_return_refused_witness : ¬ activation (MonitorData 0 Null) 0 0 ex_early_signals.
Proof.
  apply (early_return_refused ex_prefix ex_ignored [] ex_early (lit "early")
    (MkCFIFct (lit "early") 0 (numbers_of ex_early_function)) ex_early_function ex_early_code 0 (λ _ _, False)).
  - exact ex_early_from.
  - split; [|split]; vm_compute; reflexivity.
  - intros B [= <-]. discriminate.
  - vm_compute. reflexivity.
  - exact ex_early_runs.
Defined.

(** The lock does not protect the files.  The result of a compilation does
    not depend on whether the lock file could be opened nor on whether it could
    be locked: the failures are not detected, with assertions or without. *)
Theorem lock_ignored env prefix level ign lock lock' M files :
  runOnModule env prefix level ign lock M files = runOnModule env prefix level ign lock' M files.
Proof. by rewrite !runOnModule_steps. Qed.

(** A malformed table is accepted.  When the table of a prefix has, after
    some entries, anything that is not one, the compilation is the same as
    without it: the rest of the table is dropped, without the error that the
    code means to report. *)
Theorem malformed_table_accepted env prefix level ign lock M files es junk :
  Forall wf_entry es → no_entry junk → opens_fctid env = true →
  runOnModule env prefix level ign lock M (with_table (Some (concat (fctid_line <$> es) ++ junk)) files) =
  runOnModule env prefix level ign lock M (with_table (Some (concat (fctid_line <$> es))) files).
Proof. intros. by apply runOnModule_junk. Qed.

Lemma malformed_table_accepted_witness :
  let run t := runOnModule ex_env ex_prefix BASICBLOCK (Some (lit "ignored.txt")) (LockResult 3 0) ex_work_module
    (with_table (Some t) no_files) in
  run (concat (fctid_line <$> ex_es1) ++ lit "main zero Main" ++ [newline]) = run (concat (fctid_line <$> ex_es1)).
Proof.
  apply (malformed_table_accepted ex_env ex_prefix BASICBLOCK (Some (lit "ignored.txt")) (LockResult 3 0)
    ex_work_module no_files ex_es1); [apply ex_table1|vm_compute; reflexivity|reflexivity].
Defined.

(** C40: A name defined twice stops the build.  When two of the modules of a
    binary, supported and compiled one after the other from no files, at the level
    of the basic blocks, define a function of the
    same name - static functions, whose names are not unique in C - and its blocks
    are checked in both, the function has one number in both modules, and at the
    second section of blocks with that number the prelink script exits with status
    255. *)
Theorem duplicate_stops_prelink prefix ignored pe es rs1 r1 rs2 r2 rs3 f :
  builds prefix BASICBLOCK ignored [] (rs1 ++ r1 :: rs2 ++ r2 :: rs3) es →
  f ∈ defined ignored r1 → isIgnoredBlocksFunction (r_st r1) f = false →
  f ∈ defined ignored r2 → isIgnoredBlocksFunction (r_st r2) f = false →
  (∃ cf1 cf2, _FunctionMap (r_st r1) !! f = Some cf1 ∧ _FunctionMap (r_st r2) !! f = Some cf2 ∧ cf_id cf1 = cf_id cf2) ∧
  prelink pe (build_files BASICBLOCK no_files (rs1 ++ r1 :: rs2 ++ r2 :: rs3) es) = PyErr (SysExit 255).
Proof. intros Hb. by eapply (build_twice prefix ignored _ es Hb). Qed.

Lemma duplicate_stops_prelink_witness :
  (∃ cf1 cf2, _FunctionMap (r_st ex_r1) !! lit "setup" = Some cf1 ∧ _FunctionMap (r_st ex_r3) !! lit "setup" = Some cf2 ∧
     cf_id cf1 = cf_id cf2) ∧
  prelink ex_py (build_files BASICBLOCK no_files ex_twice ex_es3) = PyErr (SysExit 255).
Proof.
  apply (duplicate_stops_prelink ex_prefix ex_ignored ex_py ex_es3 [] ex_r1 [ex_r2] ex_r3 [] (lit "setup")).
  - exact ex_twice_builds.
  - decide_true.
  - vm_compute. reflexivity.
  - decide_true.
  - vm_compute. reflexivity.
Defined.

(** ** Literals *)

(** C35: What is packed is what is compiled.  The C string literals that the
    prelink script generates from packed bytes are literals that the compiler
    reads, and the characters it makes of them are those bytes. *)
Theorem literal_roundtrip s : literal_bytes (literal s) = Some s.
Proof. apply literal_bytes_literal. Qed.
