(* ===== verification/StartupProps.v ===== *)
(** * Properties of the startup code, and of both processes together *)

From S2P Require Import Prelude CSem Wire Network Client LoadSections MonitorLoad Dot Main Sessions LoadPackets Text Ir Pass PassTable.
From S2P Require Import PassFiles Prelink PrelinkSpec Startup StartupSpec Wrappers LoadModule Build BuildSpec BuildPack.
From S2P Require Import Program Binary Linking Source Processes ClientProcess Closing PassExamples ProgramExamples.
From S2P Require Import MonitorData.
From Stdlib Require Import Strings.Byte.
From Stdlib Require Strings.String.
Import Strings.String.StringSyntax.
#[local] Open Scope string_scope.
#[local] Open Scope Z_scope.
#[local] Open Scope list_scope.

(** C3: Both processes together.  For a program whose binaries were compiled and
    prelinked, with no value of a packet longer than [PIPE_BUF], where nothing
    fails around it: the client, in the environment of the
    monitor program and reading the answers that the monitor writes, starts every
    binary (packets, module number, constructors), runs [main] and the
    destructors and returns; and the monitor, reading the packets and the signals
    that this client writes, exits with status 0.  Every copy of the support ends
    with the number of its own module.  And when the two run at the same time,
    doing their blocking writes and reads in the orders of these two executions,
    on pipes that hold three packets and one more than the answers that are
    preloaded, no schedule leaves them waiting for each other: until both have
    finished, one of them can go on. *)
Theorem program_closes level ignored pe L resolve code opts fds env :
  py_env_ok pe → whole_program level ignored L resolve → OPTION_sm_dump opts = false →
  Forall small_packet (program_packets level pe L) → program_code ignored L resolve code → wf_descriptors fds →
  ∃ sts wc wm,
    client_program (client_environment fds env) code (binary_prelinked level pe <$> L)
      (replicate (length L) client_start)
      (World [] [] [] (output PSig (w_out wm)) (output PLoad (w_out wm)) []) = Val ((Returned, sts), wc) ∧
    monitor_process opts 0 (World [] [] [] (output PSig (w_out wc)) (output PLoad (w_out wc)) []) = Val (0, wm) ∧
    copies_started (Z.of_nat (length L)) sts ∧
    ∀ cap, roomy cap opts → never_blocks cap (network_start (w_log wc) (w_log wm)).
Proof.
  intros Hpe Hwp Hdump Hsmall Hcode Hfds.
  by apply (processes_close level ignored pe Hpe L resolve Hwp Hsmall code Hcode opts fds env).
Qed.

Lemma program_closes_witness : ∃ sts wc wm,
  client_program (client_environment ex_descriptors ∅) ex_code (binary_prelinked BASICBLOCK ex_py <$> ex_binaries)
    (replicate 2 client_start)
    (World [] [] [] (output PSig (w_out wm)) (output PLoad (w_out wm)) []) = Val ((Returned, sts), wc) ∧
  monitor_process (Options false false 3 false) 0
    (World [] [] [] (output PSig (w_out wc)) (output PLoad (w_out wc)) []) = Val (0, wm) ∧
  copies_started 2 sts ∧
  ∀ cap, roomy cap (Options false false 3 false) → never_blocks cap (network_start (w_log wc) (w_log wm)).
Proof.
  apply (program_closes BASICBLOCK ex_ignored ex_py ex_binaries ex_resolve ex_code (Options false false 3 false)
    ex_descriptors ∅);
    [exact ex_py_ok|exact ex_program|reflexivity|exact ex_packets_small|exact ex_program_code|].
  repeat split; vm_compute; discriminate || reflexivity.
Defined.

(** C13: The startup fails closed.  Whatever the environment, the pipes and the
    monitor do, the generated constructor either comes to the functions of the
    program with all the writes of the packets of its binary made, in order and
    split by the pipe, and the two bytes of its module number received, or aborts
    before any of them is run, having made a part of these writes: when a descriptor
    is missing or negative, a write fails, or the answer is missing or too short. *)
Theorem startup_fails_closed {S} (assign : (client_state → client_state) → S → S) env p call st w :
  (∃ id q st1 w1, _init_cfi env p assign call st w = _init_wrapper p call st1 w1 ∧ started assign id st st1 ∧
     in_u 16 id ∧ w_load w = q :: w_load w1 ∧ take 2 q = le_bytes 2 id ∧
     w_out w1 = w_out w ++ (OLoad <$> wire (init_packets p)) ∧ w_sig w1 = w_sig w) ∨
  (∃ st1 w1 k, _init_cfi env p assign call st w = Val ((Aborted, st1), w1) ∧
     w_out w1 = w_out w ++ (OLoad <$> first_writes k (writes_of (init_packets p))) ∧
     (connect env assign st w = Val ((Aborted, st), w) ∨ ¬ writes_complete w ∨
      ∀ q ps, w_load w = q :: ps → (length q < 2)%nat)).
Proof.
  destruct (startup_cases assign env p call st w)
    as [(id & q & st1 & w1 & H1 & H2 & H3 & H4 & H5 & H6 & H7 & _)|H]; [left|by right].
  by exists id, q, st1, w1.
Qed.

(** C14: The wrappers call what they must.  For the binary of a supported build
    whose constructors and destructors have names that C can call, the functions
    that C reads in the text of the wrappers generated by the prelink script are
    the constructors of all its modules, and its destructors that are not
    constructors, each exactly once. *)
Theorem wrappers_call prefix level ignored pe rs es p :
  py_env_ok pe → built prefix level ignored rs es → prelink pe (build_files level no_files rs es) = PyOk p →
  Forall (λ f, identifier f = true) (startup_functions rs) → Forall (λ f, identifier f = true) (exit_functions rs) →
  wrapper_calls (printed (gen_init_wrapper (fcts_init p))) ≡ₚ startup_functions rs ∧
  wrapper_calls (printed (gen_fini_wrapper (fcts_fini p))) ≡ₚ exit_functions rs.
Proof.
  intros Hpe Hb Hp Hi Hf. pose proof Hb as [].
  rewrite (prelink_build pe Hpe prefix level ignored rs es _ bt_table bt_modules bt_one bt_packable bt_names) in Hp.
  injection Hp as <-.
  split.
  - apply (wrapper_permutation prefix level ignored pe Hpe rs es Hb); [by eapply init_startup|apply (bool_decide_unpack _); vm_compute; exact I|done].
  - apply (wrapper_permutation prefix level ignored pe Hpe rs es Hb); [by eapply fini_exit|apply (bool_decide_unpack _); vm_compute; exact I|done].
Qed.

Lemma wrappers_call_witness :
  wrapper_calls (printed (gen_init_wrapper (fcts_init (binary_prelinked BASICBLOCK ex_py ([ex_lib], ex_lib_es)))))
    ≡ₚ [lit "prepare"] ∧
  wrapper_calls (printed (gen_fini_wrapper (fcts_fini (binary_prelinked BASICBLOCK ex_py ([ex_lib], ex_lib_es)))))
    ≡ₚ [lit "cleanup"].
Proof.
  apply (wrappers_call ex_prefix BASICBLOCK ex_ignored ex_py [ex_lib] ex_lib_es);
    [exact ex_py_ok|exact ex_lib_built|vm_compute; reflexivity|decide_true|decide_true].
Defined.
