(* ===== verification/Examples.v ===== *)
(** * A concrete session

    A library with one function and a program that calls it: the packets that
    load them, the data the loader builds, the signals of one run.  The
    theorems of the development are instantiated on it. *)

From S2P Require Import Prelude CSem Wire CStack BlockStack CallStack MonitorData.
From S2P Require Import MonitorRun RunSpec RunRefine LoadSections Relocate Dot MonitorLoad.
From S2P Require Import LoadWf LoadSpec Main Sessions LoadRuns.
From Stdlib Require Import Strings.Byte.

Definition ex_opts : options := Options false false 0 false.
Definition ex_trace_opts : options := Options true false 0 false.

(** A packet, as the reads of the monitor see it. *)
Definition packet (e : loading_event) (value : list byte) : list (list byte) :=
  [le_bytes 4 (loading_event_code e); le_bytes 4 (Z.of_nat (length value))] ++
  match value with [] => [] | _ => [value] end.

Definition nm_main : list byte := [x6d; x61; x69; x6e].
Definition nm_puts : list byte := [x70; x75; x74; x73].

(** The library: one function, of one block, that calls nothing. *)
Definition lib_functions : list fct_entry := [FctEntry 0 FCT_INTERNAL nm_puts].
Definition lib_packets : list (list byte) :=
  packet CFI_LOADING_MODULE_BEGIN [] ++
  packet CFI_LOADING_SECTION_FUNCTION_ID (fct_l_bytes lib_functions) ++
  packet CFI_LOADING_SECTION_FUNCTION_TRANSITION (fct_trans_l_bytes [TransEntry 0 []]) ++
  packet CFI_LOADING_SECTION_BLOCK_TRANSITION (block_trans_l_bytes 0 1 [TransEntry 0 []]) ++
  packet CFI_LOADING_MODULE_END [].

(** The program: [main], of two blocks, calls the external [puts]. *)
Definition prog_functions : list fct_entry :=
  [FctEntry 0 FCT_MAIN nm_main; FctEntry 1 FCT_EXTERNAL nm_puts].
Definition prog_calls : list trans_entry := [TransEntry 0 [1]; TransEntry 1 []].
Definition prog_blocks : list trans_entry := [TransEntry 0 [1]; TransEntry 1 []].
Definition prog_packets : list (list byte) :=
  packet CFI_LOADING_MODULE_BEGIN [] ++
  packet CFI_LOADING_SECTION_FUNCTION_ID (fct_l_bytes prog_functions) ++
  packet CFI_LOADING_SECTION_FUNCTION_TRANSITION (fct_trans_l_bytes prog_calls) ++
  packet CFI_LOADING_SECTION_BLOCK_TRANSITION (block_trans_l_bytes 0 2 prog_blocks) ++
  packet CFI_LOADING_MODULE_END [].

Definition ex_packets : list (list byte) :=
  lib_packets ++ prog_packets ++ packet CFI_LOADING_TERMINATED [].

Definition sg (e : client_event) (m f b : Z) : client_signal := ClientSignal (client_event_code e) m f b.

(** [main] calls [puts], then jumps to its second block and returns. *)
Definition ex_signals : list client_signal :=
  [sg CFI_ENTER 1 0 0; sg CFI_CALL 1 1 0; sg CFI_ENTER 0 0 0; sg CFI_EXIT 0 0 0;
   sg CFI_RETURNED 1 1 0; sg CFI_BEFORE_JUMP 1 0 0; sg CFI_AFTER_JUMP 1 0 1; sg CFI_EXIT 1 0 0].

(** A jump that is not in the graph, after the entry. *)
Definition ex_hijacked : list client_signal :=
  [sg CFI_ENTER 1 0 0; sg CFI_BEFORE_JUMP 1 0 0; sg CFI_AFTER_JUMP 1 0 0].

Definition world_of (load : list (list byte)) (sigs : list client_signal) : world :=
  World [] [] [] (client_signal_bytes <$> sigs) load [].

Definition ex_data : monitor_data :=
  match monitor_load ex_opts (world_of ex_packets []) with
  | Val ((_, data), _) => data
  | _ => MonitorData 0 Null
  end.

(** The world after the run of the example. *)
Definition ex_final : world :=
  match monitor_run ex_opts ex_data (world_of [] ex_signals) with
  | Val (_, w') => w'
  | _ => world_of [] []
  end.

(** The variables of a run that has read its first signal. *)
Definition ex_state : run_state :=
  match (call_stack_init stack_new ≫= λ '(_, cs), block_stack_init stack_new ≫= λ '(_, bs),
         mret (initial_state cs bs) : C run_state) (world_of [] []) with
  | Val (st, _) => set_sig (Some <$> client_signal_bytes (sg CFI_ENTER 1 0 0)) st
  | _ => initial_state stack_new stack_new
  end.

(** The variables after that signal. *)
Definition ex_next : run_state :=
  match dispatch ex_opts ex_data ex_state (world_of [] []) with
  | Val (Next st, _) => st
  | _ => ex_state
  end.

(** [full_rows], as a test. *)
Definition full_graph_b (g : cptr (list (cptr (list Z)))) : bool :=
  match g with Live rows => forallb non_null rows | _ => false end.
Definition full_rows_b (data : monitor_data) : bool :=
  match modules data with
  | Live ms =>
      forallb (λ md, bool_decide (nb_functions md = 0) ||
        full_graph_b (call_graph md) &&
        match functions md with
        | Live fs => forallb (λ fd, bool_decide (nb_blocks fd = 0) ||
                                    full_graph_b (control_flow_graph fd)) fs
        | _ => true
        end) ms
  | _ => true
  end.

(** A library with an initialisation function, which calls [puts] before any
    module defines it; the module that does is loaded next. *)
Definition early_functions : list fct_entry :=
  [FctEntry 0 FCT_INIT nm_main; FctEntry 1 FCT_EXTERNAL nm_puts].
Definition early_first : list (list byte) :=
  packet CFI_LOADING_MODULE_BEGIN [] ++
  packet CFI_LOADING_SECTION_FUNCTION_ID (fct_l_bytes early_functions) ++
  packet CFI_LOADING_SECTION_FUNCTION_TRANSITION (fct_trans_l_bytes prog_calls) ++
  packet CFI_LOADING_SECTION_BLOCK_TRANSITION (block_trans_l_bytes 0 2 prog_blocks) ++
  packet CFI_LOADING_MODULE_END [].
Definition early_packets : list (list byte) :=
  early_first ++ lib_packets ++ packet CFI_LOADING_TERMINATED [].

(** The initialisation function; its call of [puts] is answered as a call of
    function 0 of module 0, itself.  Then a run of it as the program. *)
Definition early_init : list client_signal :=
  [sg CFI_ENTER 0 0 0; sg CFI_CALL 0 1 0; sg CFI_ENTER 0 0 0; sg CFI_EXIT 0 0 0;
   sg CFI_RETURNED 0 1 0; sg CFI_EXIT 0 0 0].
Definition early_signals : list client_signal :=
  early_init ++ [sg CFI_ENTER 0 0 0; sg CFI_EXIT 0 0 0].

(** The modules after the first one is read, and after its relocation. *)
Definition early_read : monitor_data :=
  match monitor_load_module ex_opts (MonitorData 0 Null) (world_of early_packets []) with
  | Val ((_, data), _) => data
  | _ => MonitorData 0 Null
  end.
Definition early_module : module_data :=
  match module_at early_read 0 with Val md => md | _ => new_module end.
Definition early_puts : function_data := FunctionData (Live nm_puts) FCT_EXTERNAL 0 Null Null.
Definition early_started : monitor_data :=
  match compute_relocations_of_module early_read 0 false with
  | Val (_, data) => data
  | _ => MonitorData 0 Null
  end.
(** After the whole load, and the world then. *)
Definition early_loaded : monitor_data * world :=
  match monitor_load ex_opts (world_of early_packets early_signals) with
  | Val ((_, data), w) => (data, w)
  | _ => (MonitorData 0 Null, world_of [] [])
  end.

(** ** Facts *)

Lemma full_graph_b_ok g : full_graph_b g = true → full_graph g.
Proof.
  destruct g as [|rows|]; cbn; [done| |done]. intros H. exists rows. split; [done|].
  apply Forall_forall. intros row Hrow ->. rewrite forallb_forall in H. by apply H in Hrow.
Qed.

Lemma full_rows_b_ok data : full_rows_b data = true → full_rows data.
Proof.
  unfold full_rows_b. intros H m md Hm Hn. unfold module_at in Hm.
  destruct (modules data) as [|ms|]; cbn in Hm; [done| |done].
  apply arr_get_Val in Hm as [_ Hm%list_elem_of_lookup_2%list_elem_of_In].
  rewrite forallb_forall in H. apply H in Hm. rewrite bool_decide_false in Hm by done. cbn in Hm.
  apply andb_true_iff in Hm as [Hg Hf]. split; [by apply full_graph_b_ok|].
  intros f fd Hfd Hb. unfold function_at in Hfd. destruct (functions md) as [|fs|]; cbn in Hfd; [done| |done].
  apply arr_get_Val in Hfd as [_ Hfd%list_elem_of_lookup_2%list_elem_of_In].
  rewrite forallb_forall in Hf. apply Hf in Hfd. rewrite bool_decide_false in Hfd by done.
  by apply full_graph_b_ok.
Qed.

Lemma ex_full : full_rows ex_data.
Proof. apply full_rows_b_ok. vm_compute. reflexivity. Qed.

Lemma ex_runs : monitor_run ex_opts ex_data (world_of [] ex_signals) = Val (0, ex_final).
Proof. vm_compute. reflexivity. Qed.

Lemma ex_loads : ∃ w', monitor_load ex_opts (world_of ex_packets []) = Val ((0, ex_data), w').
Proof. eexists. vm_compute. reflexivity. Qed.

Lemma ex_few : few_modules ex_data.
Proof. vm_compute. split; discriminate. Qed.

Lemma ex_ready : run_ready ex_data.
Proof.
  destruct ex_loads as [w' Hload].
  destruct (monitor_load_linked _ _ _ _ Hload ex_few) as [Hwf Hall]. by apply linked_ready; [|apply ex_few|].
Qed.

Lemma early_inv : load_inv early_read.
Proof.
  assert (∃ w', monitor_load_module ex_opts (MonitorData 0 Null) (world_of early_packets []) =
    Val ((0, early_read), w')) as [w' H] by (eexists; vm_compute; reflexivity).
  apply monitor_load_module_inv in H as [Hinv _]; [exact Hinv| |lia].
  split; [left; split; reflexivity|]. apply (bool_decide_unpack _). vm_compute. exact I.
Qed.

Lemma early_read_wf : wf_data early_read.
Proof. apply early_inv. Qed.

Lemma early_blank : blank early_module.
Proof.
  intros i r H. unfold reloc_at in H.
  replace (relocations early_module) with (Live (zeroed 2 0)) in H by (vm_compute; reflexivity).
  cbn [deref] in H. rewrite res_bind_Val in H. exact (arr_get_zeroed_inv _ _ _ _ H).
Qed.

Lemma world_favourable load sigs : favourable (world_of load sigs).
Proof. repeat split; constructor. Qed.

Lemma world_full load sigs : Forall full_packet (w_sig (world_of load sigs)).
Proof.
  apply Forall_fmap, Forall_true. intros s. unfold full_packet; cbn.
  by rewrite client_signal_bytes_length.
Qed.

Lemma world_signals load sigs : Forall wf_signal sigs → signals (world_of load sigs) = sigs.
Proof. apply signals_of_bytes. Qed.

Lemma ex_signals_wf : Forall wf_signal ex_signals.
Proof. apply (bool_decide_unpack _). vm_compute. exact I. Qed.

(** The grammar on the example. *)
Lemma ex_run_trace : run_trace ex_data ex_signals.
Proof.
  assert (Hv : arun ex_data 0 Idle ex_signals = Accept 8 []) by (vm_compute; reflexivity).
  apply arun_accepts_iff in Hv as (tr & Htr & Heq & _). by rewrite app_nil_r in Heq; subst.
Qed.

Lemma ex_state_rel : rel ex_opts ex_data ex_state Idle.
Proof.
  destruct (stack_init_ok CALL_STACK_EXTEND_SIZE zero_call_stack_element ltac:(done) (world_of [] []))
    as (bc & cs & w1 & H1 & Hc & _); [constructor|].
  destruct (stack_init_ok BLOCK_STACK_EXTEND_SIZE 0 ltac:(done) w1) as (bb & bs & w2 & H2 & Hb & _).
  { vm_compute in H1. injection H1 as _ <-. constructor. }
  replace ex_state with (set_sig (Some <$> client_signal_bytes (sg CFI_ENTER 1 0 0)) (initial_state cs bs)).
  - exists bc, [], bb, []. by repeat split.
  - unfold ex_state. rewrite C_bind_eq. unfold call_stack_init. rewrite H1, C_bind_eq.
    unfold block_stack_init. by rewrite H2.
Qed.

