(* ===== verification/RunProps.v ===== *)
(** * Properties of the run-time checks

    What [monitor_run] guarantees, and where it does not. *)

From S2P Require Import Prelude CSem Wire CStack BlockStack CallStack MonitorData.
From S2P Require Import MonitorRun RunSpec RunRefine RunTotal LoadSections Relocate Dot.
From S2P Require Import MonitorLoad LoadWf Main Sessions Failures Examples.

(** ** Language *)

(** C6: Soundness of the control-flow check.  When [monitor_run] returns 0 on
    loaded data, in any environment (allocations may fail or move, writes fail
    and time-outs expire at any time; signals are whole packets), the signals it consumed are the trace of
    one activation of an entry point, as the grammar of the graphs defines it, and
    it wrote exactly one answer per signal. *)
Theorem run_sound opts data w w' :
  run_ready data → Forall full_packet (w_sig w) →
  monitor_run opts data w = Val (0, w') →
  ∃ tr, run_trace data tr ∧ signals w = tr ++ signals w' ∧
    w_out w' = w_out w ++ replicate (length tr) ok_answer.
Proof.
  intros Hready Hps Hrun%monitor_run_settled.
  destruct (monitor_run_accepts opts data Hready _ _ (settled_favourable w) Hps Hrun) as (tr & Htr & Hsig & Hs & _).
  exists tr. split; [done|]. split; [done|]. apply Hs.
Qed.

Lemma run_sound_witness :
  ∃ tr, run_trace ex_data tr ∧ signals (world_of [] ex_signals) = tr ++ signals ex_final ∧
    w_out ex_final = [] ++ replicate (length tr) ok_answer.
Proof.
  apply (run_sound ex_opts ex_data (world_of [] ex_signals) ex_final ex_ready (world_full _ _) ex_runs).
Defined.

(** C7: Completeness of the control-flow check.  Where allocations grow in place,
    writes complete and no time-out expires, and on whole packets: the signals of
    an activation of an entry point that respects the graphs are all accepted:
    [monitor_run] returns 0, leaves the signals that follow in the pipe and
    answers each signal. *)
Theorem run_complete opts data w tr rest :
  run_ready data → favourable w → Forall full_packet (w_sig w) →
  run_trace data tr → signals w = tr ++ rest →
  ∃ w', monitor_run opts data w = Val (0, w') ∧ signals w' = rest ∧
    w_out w' = w_out w ++ replicate (length tr) ok_answer.
Proof.
  intros Hready Hfav Hps Htr Hsig.
  destruct (monitor_run_accepted opts data Hready tr rest w Hfav Hps Htr Hsig) as (w' & Hr & Hs & Hsv & _).
  exists w'. split; [done|]. split; [done|]. apply Hsv.
Qed.

Lemma run_complete_witness :
  ∃ w', monitor_run ex_trace_opts ex_data (world_of [] ex_signals) = Val (0, w') ∧ signals w' = [] ∧
    w_out w' = [] ++ replicate (length ex_signals) ok_answer.
Proof.
  apply (run_complete ex_trace_opts ex_data (world_of [] ex_signals) ex_signals [] ex_ready
    (world_favourable _ _) (world_full _ _) ex_run_trace).
  rewrite app_nil_r. apply world_signals, ex_signals_wf.
Defined.

(** C8: The monitor fails closed.  On loaded data whose graphs have all their rows
    (otherwise a refused jump or call may read a null row, see
    [null_row_read]), where allocations grow in place, writes complete and no
    time-out expires, and on whole packets: after [good] signals that the
    automaton follows without coming to the end of a trace, a signal it has no transition for ends the run with an
    error code between 4 and 7; the client has been sent one answer per good
    signal, no answer for the bad one, and after that nothing but trace lines is
    written. *)
Theorem run_fail_closed opts data w good bad rest c :
  run_ready data → full_rows data → favourable w → Forall full_packet (w_sig w) →
  signals w = good ++ bad :: rest → asteps data Idle good = Some c → c ≠ Finished →
  astep data c bad = None →
  ∃ e w' tr, monitor_run opts data w = Val (e, w') ∧ refusal e ∧
    w_out w' = w_out w ++ replicate (length good) ok_answer ++ tr ∧ Forall is_trace tr.
Proof.
  intros Hready Hrows Hfav Hps Hsig Hgood Hc Hbad.
  assert (Hv : arun data 0 Idle (signals w) = Reject (length good)).
  { rewrite Hsig, (arun_asteps _ _ _ _ _ _ Hgood Hc). cbn. by rewrite Hbad. }
  assert (Hne : w_sig w ≠ []).
  { intros H. unfold signals in Hsig. rewrite H in Hsig. by destruct good. }
  pose proof (monitor_run_verdict opts data Hready w Hfav Hps Hne) as Hout.
  fold (signals w) in Hout. rewrite Hv in Hout.
  destruct Hout as [(e & w' & tr & H)|[_ Hnf]]; [by exists e, w', tr|done].
Qed.

Lemma run_fail_closed_witness :
  ∃ e w' tr, monitor_run ex_opts ex_data (world_of [] ex_hijacked) = Val (e, w') ∧ refusal e ∧
    w_out w' = [] ++ replicate 2 ok_answer ++ tr ∧ Forall is_trace tr.
Proof.
  apply (run_fail_closed ex_opts ex_data (world_of [] ex_hijacked)
    [sg CFI_ENTER 1 0 0; sg CFI_BEFORE_JUMP 1 0 0] (sg CFI_AFTER_JUMP 1 0 0) []
    (Active ExpectJump 1 0 0 []) ex_ready ex_full (world_favourable _ _) (world_full _ _)).
  - vm_compute. reflexivity.
  - vm_compute. reflexivity.
  - discriminate.
  - vm_compute. reflexivity.
Defined.

(** C22: No undefined behaviour where nothing fails.  On loaded data whose graphs
    have all their rows, with a first signal in the pipe, whole packets, and an
    environment where allocations grow in place, writes complete and no time-out
    expires, [monitor_run] returns, with 0 or an error code between 4 and 7: it
    never reads or writes out of bounds, through a null or stale pointer, or an
    uninitialised object.  Outside of such an environment it may: a [realloc] that
    moves a stack is a use after free ([block_push_moved]), and a row that could
    not be allocated a null dereference ([null_row_read]). *)
Theorem run_defined opts data w :
  run_ready data → full_rows data → favourable w → Forall full_packet (w_sig w) → w_sig w ≠ [] →
  ∃ e w', monitor_run opts data w = Val (e, w') ∧ (e = 0 ∨ refusal e).
Proof.
  intros Hready Hrows Hfav Hps Hne.
  pose proof (monitor_run_verdict opts data Hready w Hfav Hps Hne) as Hout.
  destruct (arun data 0 Idle _).
  - destruct Hout as (w' & -> & _). exists 0, w'. split; [done|]. by left.
  - destruct Hout as [(e & w' & tr & -> & He & _)|[_ Hnf]]; [|done]. exists e, w'. split; [done|]. by right.
Qed.

Lemma run_defined_witness :
  ∃ e w', monitor_run ex_trace_opts ex_data (world_of [] ex_hijacked) = Val (e, w') ∧ (e = 0 ∨ refusal e).
Proof.
  apply (run_defined ex_trace_opts ex_data (world_of [] ex_hijacked) ex_ready ex_full
    (world_favourable _ _) (world_full _ _)).
  discriminate.
Defined.

(** C23: Termination.  For any data, any signals (short ones included), any
    answers of the allocator and of the system calls, the loop of
    [monitor_run] ends, and the run leaves the loading pipe as it was. *)
Theorem run_terminates opts data w :
  match monitor_run opts data w with
  | Val (_, w') => w_load w' = w_load w
  | Undef _ => True
  | NoFuel => False
  end.
Proof. apply (monitor_run_ends opts data w). Qed.

(** C25: Simulation, one signal at a time.  From local variables in relation
    with a configuration of the automaton, the switch accepts the signal
    exactly when the automaton has a transition, and the relation holds
    again; otherwise it sets an error and leaves the stacks and the world as
    they were (or stops on a graph row that was never allocated). *)
Theorem dispatch_simulates opts data s st w c :
  run_ready data → wf_signal s → rs_sig st = Some <$> client_signal_bytes s →
  rel opts data st c → in_place w → error st = 0 →
  match astep data c s with
  | Some Finished => dispatch opts data st w = finish st w
  | Some c' => accepted opts data st w c' (dispatch opts data st w)
  | None => refused data st w (dispatch opts data st w)
  end.
Proof.
  intros Hready Hs Hsig Hrel Hw He. pose proof (dispatch_sim opts data Hready s Hs st Hsig w c Hrel) as Hsim.
  destruct (astep data c s) as [[]|]; [by apply Hsim..|done|done].
Qed.

Lemma dispatch_simulates_witness :
  accepted ex_opts ex_data ex_state (world_of [] []) (Active InFunction 1 0 0 [])
    (dispatch ex_opts ex_data ex_state (world_of [] [])).
Proof.
  apply (dispatch_simulates ex_opts ex_data (sg CFI_ENTER 1 0 0) ex_state (world_of [] []) Idle ex_ready).
  - apply (bool_decide_unpack _). vm_compute. exact I.
  - unfold ex_state. vm_compute. reflexivity.
  - apply ex_state_rel.
  - constructor.
  - vm_compute. reflexivity.
Defined.

(** C26: The automaton accepts exactly the grammar: it accepts after [k]
    signals, with [rest] left, if and only if the first [k] signals are the
    trace of an activation of an entry point. *)
Theorem automaton_is_grammar data sigs k rest :
  arun data 0 Idle sigs = Accept k rest ↔
  ∃ tr, run_trace data tr ∧ sigs = tr ++ rest ∧ k = length tr.
Proof. apply arun_accepts_iff. Qed.

(** Options do not change the verdict.  Keeping traces, a time-out that
    does not expire or preloaded answers change neither which runs are
    accepted nor what they leave in the pipe. *)
Theorem options_irrelevant opts opts' data w rest :
  run_ready data → favourable w → Forall full_packet (w_sig w) →
  (∃ w', monitor_run opts data w = Val (0, w') ∧ signals w' = rest) ↔
  (∃ w', monitor_run opts' data w = Val (0, w') ∧ signals w' = rest).
Proof.
  intros Hready Hfav Hps.
  assert (Himp : ∀ o o', (∃ w', monitor_run o data w = Val (0, w') ∧ signals w' = rest) →
                         (∃ w', monitor_run o' data w = Val (0, w') ∧ signals w' = rest)).
  { intros o o' (w' & Hrun & <-).
    destruct (monitor_run_accepts o data Hready w w' Hfav Hps Hrun) as (tr & Htr & Hsig & _).
    destruct (monitor_run_accepted o' data Hready tr _ w Hfav Hps Htr Hsig) as (w2 & ? & ? & _).
    by exists w2. }
  split; apply Himp.
Qed.

Lemma options_irrelevant_witness :
  ∃ w', monitor_run (Options true true 3 true) ex_data (world_of [] ex_signals) = Val (0, w') ∧
        signals w' = signals ex_final.
Proof.
  exact (proj1 (options_irrelevant ex_opts (Options true true 3 true) ex_data (world_of [] ex_signals)
    (signals ex_final) ex_ready (world_favourable _ _) (world_full _ _))
    (ex_intro _ ex_final (conj ex_runs eq_refl))).
Defined.

(** A signal is not taken twice.  In the state in which the case of its
    event leaves the monitor, the same signal is refused with error 4, for any
    data: this is what stops the loop when a read fails and leaves the
    previous signal in place. *)
Theorem stale_signal_refused opts data st w st' w1 w2 err :
  dispatch opts data st w = Val (Next st', w1) →
  dispatch opts data (set_error err st') w2 = Val (Exit (set_error 4 st'), w2).
Proof.
  intros H. destruct (dispatch_leaves _ _ _ _ _ _ H) as (z & e & Hz & He & Hst & Hsig).
  rewrite (dispatch_repeat opts data (set_error err st') w2 z e); [done| |done|done].
  cbn. by rewrite Hsig.
Qed.

Lemma stale_signal_refused_witness :
  dispatch ex_opts ex_data (set_error 1 ex_next) (world_of [] []) =
    Val (Exit (set_error 4 ex_next), world_of [] []).
Proof.
  apply (stale_signal_refused ex_opts ex_data ex_state (world_of [] []) ex_next (world_of [] [])).
  vm_compute. reflexivity.
Defined.

(** A row that was never allocated is dereferenced.  A jump out of a block
    whose row of the control-flow graph is null (a block for which no
    transition was loaded) is not refused: reading the row is undefined. *)
Theorem null_row_read opts data s st w m f md fd rows :
  wf_signal s → rs_sig st = Some <$> client_signal_bytes s → carries s CFI_AFTER_JUMP →
  state st = SM_STATE_ExpectJump → current_module st = sig_module s →
  current_function st = sig_function s → current_function_data st = Some (m, f) →
  module_at data m = Val md → function_at md f = Val fd → sig_block s < nb_blocks fd →
  control_flow_graph fd = Live rows → arr_get rows (curblock st) = Val Null →
  dispatch opts data st w = Undef NullDeref.
Proof.
  intros Hs Hsig Hev Hst Hm Hf Hfd Hmd Hfn Hlt Hg Hrow. unfold dispatch.
  rewrite Hsig, get_event_bytes, C_bind_eq, lift_Val by done. unfold carries in Hev. rewrite Hev.
  unfold on_after_jump, state_is_not, module_differs, function_differs, block_too_big, no_jump.
  rewrite Hsig, get_module_bytes, get_function_bytes, get_block_bytes by done.
  rewrite Hst, Hm, Hf, Hfd. cbn [mbind res_bind function_of]. rewrite Hmd. cbn [mbind res_bind].
  rewrite Hfn. cbn [mbind res_bind]. unfold graph_at. rewrite Hg. cbn [deref mbind res_bind].
  rewrite Hrow. cbn [deref mbind res_bind].
  rewrite !bool_decide_false by (tauto || lia). done.
Qed.

(** In [main] of the example, without the row of its first block. *)
Lemma null_row_read_witness :
  dispatch ex_opts (MonitorData 1 (Live [ModuleData 1 0 0 Null Null
      (Live [FunctionData Null FCT_MAIN 2 (Live [Null; Null]) Null])]))
    (RunState SM_STATE_ExpectJump 0 0 0 0 (Some 0) (Some (0, 0)) 0 stack_new stack_new
      (Some <$> client_signal_bytes (sg CFI_AFTER_JUMP 0 0 1))) (world_of [] []) = Undef NullDeref.
Proof.
  apply (null_row_read ex_opts _ (sg CFI_AFTER_JUMP 0 0 1) _ _ 0 0
    (ModuleData 1 0 0 Null Null (Live [FunctionData Null FCT_MAIN 2 (Live [Null; Null]) Null]))
    (FunctionData Null FCT_MAIN 2 (Live [Null; Null]) Null) [Null; Null]);
    try reflexivity.
  apply (bool_decide_unpack _). vm_compute. exact I.
Defined.

(** The first read is not checked.  When the client has closed its pipe
    before its first signal, [monitor_run] goes on to its switch with a signal
    that was never written. *)
Theorem first_read_unchecked opts data w :
  favourable w → w_sig w = [] → monitor_run opts data w = Undef UninitRead.
Proof. apply (monitor_run_no_signal opts data w). Qed.

Lemma first_read_unchecked_witness :
  monitor_run ex_opts ex_data (world_of [] []) = Undef UninitRead.
Proof.
  apply (first_read_unchecked ex_opts ex_data (world_of [] [])).
  - apply world_favourable.
  - reflexivity.
Defined.
