(* ===== verification/StackProps.v ===== *)
(** * Properties of the stacks

    As long as the allocator grows allocations in place the stacks are stacks;
    the other answers of the allocator are not handled. *)

From S2P Require Import Prelude CSem CStack BlockStack CallStack.

(** ** Sequences of operations *)

Fixpoint push_all {E} (push : cstack E → E → Z → C (Z * cstack E)) (s : cstack E) (vs : list E) :
    C (Z * cstack E) :=
  match vs with
  | [] => mret (0, s)
  | v :: vs =>
      '(err, s) ← push s v 0;
      if decide (err ≠ 0) then mret (err, s) else push_all push s vs
  end.

Fixpoint pop_all {E} (pop : cstack E → res (E * cstack E)) (n : nat) (s : cstack E) : res (list E * cstack E) :=
  match n with
  | O => Val ([], s)
  | S n => '(v, s) ← pop s; '(vs, s) ← pop_all pop n s; Val (v :: vs, s)
  end.

(** Stacks that are full, and a world whose next answer is [o]. *)
Definition full_stack : block_stack :=
  CStack (Ptr 0 0) (Ptr 0 4095) (Ptr 0 4095) {[ 0%nat := zeroed 4096 (Some 0) ]} 1.
Definition full_calls : call_stack :=
  CStack (Ptr 0 0) (Ptr 0 511) (Ptr 0 511) {[ 0%nat := zeroed 512 (Some zero_call_stack_element) ]} 1.
Definition world_alloc (os : list alloc_outcome) : world := World os [] [] [] [] [].

(** ** Lemmas *)

Lemma full_stack_repr : stack_repr 0 (zeroed 4096 0) full_stack.
Proof.
  exists (zeroed 4096 (Some 0)). unfold full_stack. cbn [st_first st_last st_top st_bufs].
  pose proof (zeroed_length 4096 (Some 0) ltac:(done)). pose proof (zeroed_length 4096 0 ltac:(done)).
  repeat split; try (f_equal; lia); try lia.
Qed.

Lemma full_stack_full : Z.of_nat (length (zeroed 4096 0)) = stack_capacity full_stack.
Proof. by rewrite zeroed_length. Qed.

Lemma push_all_ok {E init push} `{!StackContract E init push} vs : ∀ b l s w,
  in_place w → stack_repr b l s →
  ∃ s' w', push_all push s vs w = Val ((0, s'), w') ∧ stack_repr b (l ++ vs) s' ∧ quiet w w'.
Proof.
  induction vs as [|v vs IH]; intros b l s w Hw Hs; cbn [push_all].
  { exists s, w. rewrite app_nil_r. split; [done|]. split; [done|reflexivity]. }
  destruct (contract_push b l s v w Hw Hs) as (s1 & w1 & H1 & Hs1 & Hq1).
  destruct (IH b (l ++ [v]) s1 w1 (quiet_in_place _ _ Hq1 Hw) Hs1) as (s2 & w2 & H2 & Hs2 & Hq2).
  exists s2, w2. rewrite C_bind_eq, H1. cbn beta iota. rewrite decide_False by (by intros []).
  split; [done|]. split; [by rewrite <- app_assoc in Hs2|]. by etrans.
Qed.

Lemma pop_all_ok {E} (vs : list E) : ∀ b l s, stack_repr b (l ++ reverse vs) s →
  ∃ s', pop_all stack_pop (length vs) s = Val (vs, s') ∧ stack_repr b l s'.
Proof.
  induction vs as [|v vs IH]; intros b l s Hs; cbn [pop_all length].
  { exists s. split; [done|]. by rewrite app_nil_r in Hs. }
  rewrite reverse_cons, app_assoc in Hs. destruct (stack_pop_ok _ _ _ _ Hs) as (s1 & -> & Hs1).
  destruct (IH _ _ _ Hs1) as (s2 & H2 & Hs2). exists s2. cbn [mbind res_bind]. by rewrite H2.
Qed.

(** From a stack that holds [l], pushing [vs] and popping as many elements. *)
Lemma push_pop_ok {E init push} `{!StackContract E init push} b l s vs w : in_place w → stack_repr b l s →
  ∃ s' w', push_all push s vs w = Val ((0, s'), w') ∧ stack_repr b (l ++ vs) s' ∧
    ∃ s'', pop_all stack_pop (length vs) s' = Val (reverse vs, s'') ∧ stack_repr b l s''.
Proof.
  intros Hw Hs. destruct (push_all_ok vs b l s w Hw Hs) as (s' & w' & Hp & Hs' & _).
  exists s', w'. split; [done|]. split; [done|].
  rewrite <- (length_reverse vs). apply pop_all_ok. by rewrite reverse_involutive.
Qed.

(** ** Properties *)

(** C30: Last in, first out, at any depth, for the stack of blocks and for the
    stack of calls.  When allocations grow in place: a stack that is initialised
    is empty; on a stack that holds [l], any number of pushes succeeds (across as
    many extensions as it takes) and leaves [l] below; the same number of pops
    returns the elements in reverse order and brings the stack back to [l]; and
    the test for an empty stack says whether [l] is. *)
Theorem stack_lifo w : in_place w →
  ((∃ b s w', block_stack_init stack_new w = Val ((0, s), w') ∧ stack_repr b [] s) ∧
   ∀ b l s vs, stack_repr b l s → BLOCK_STACK_IS_EMPTY s = Val (bool_decide (l = [])) ∧
     ∃ s' w', push_all BLOCK_STACK_PUSH s vs w = Val ((0, s'), w') ∧ stack_repr b (l ++ vs) s' ∧
       ∃ s'', pop_all BLOCK_STACK_POP (length vs) s' = Val (reverse vs, s'') ∧ stack_repr b l s'') ∧
  ((∃ b s w', call_stack_init stack_new w = Val ((0, s), w') ∧ stack_repr b [] s) ∧
   ∀ b l s vs, stack_repr b l s → CALL_STACK_IS_EMPTY s = Val (bool_decide (l = [])) ∧
     ∃ s' w', push_all CALL_STACK_PUSH s vs w = Val ((0, s'), w') ∧ stack_repr b (l ++ vs) s' ∧
       ∃ s'', pop_all CALL_STACK_POP (length vs) s' = Val (reverse vs, s'') ∧ stack_repr b l s'').
Proof.
  intros Hw. split; split.
  - destruct (contract_init (init := block_stack_init) w Hw) as (b & s & w' & H & Hs & _). by exists b, s, w'.
  - intros b l s vs Hs. split; [by eapply stack_is_empty_ok|]. by apply (push_pop_ok (push := BLOCK_STACK_PUSH)).
  - destruct (contract_init (init := call_stack_init) w Hw) as (b & s & w' & H & Hs & _). by exists b, s, w'.
  - intros b l s vs Hs. split; [by eapply stack_is_empty_ok|]. by apply (push_pop_ok (push := CALL_STACK_PUSH)).
Qed.

(** On a stack that is full: the pushes extend it. *)
Lemma stack_lifo_witness :
  BLOCK_STACK_IS_EMPTY full_stack = Val false ∧
  ∃ s' w', push_all BLOCK_STACK_PUSH full_stack [7; 8] (world_alloc [AInPlace]) = Val ((0, s'), w') ∧
    stack_repr 0 (zeroed 4096 0 ++ [7; 8]) s' ∧
    ∃ s'', pop_all BLOCK_STACK_POP 2 s' = Val (reverse [7; 8], s'') ∧ stack_repr 0 (zeroed 4096 0) s''.
Proof.
  destruct (stack_lifo (world_alloc [AInPlace])) as [[_ H] _].
  - apply (bool_decide_unpack _). vm_compute. exact I.
  - apply (H 0%nat (zeroed 4096 0) full_stack [7; 8]). apply full_stack_repr.
Defined.

(** A [realloc] that moves the allocation is fatal.  The extension of a
    full block stack does not move [top] to the new allocation: the element is
    stored into the old one, which has been freed. *)
Theorem block_push_moved b l (s : block_stack) v err w w' :
  stack_repr b l s → Z.of_nat (length l) = stack_capacity s → (b < st_next s)%nat →
  next_alloc w = Val (AMoved, w') →
  BLOCK_STACK_PUSH s v err w = Undef UseAfterFree.
Proof. apply stack_push_moved. Qed.

Lemma block_push_moved_witness :
  BLOCK_STACK_PUSH full_stack 7 0 (world_alloc [AMoved]) = Undef UseAfterFree.
Proof.
  apply (block_push_moved 0 (zeroed 4096 0) full_stack 7 0 (world_alloc [AMoved]) (world_alloc [])).
  - apply full_stack_repr.
  - apply full_stack_full.
  - apply (bool_decide_unpack _). vm_compute. exact I.
  - reflexivity.
Defined.

(** A failed extension is reported, and leaks.  The push returns -1 and
    stores nothing; but [first] is now null, so that freeing the stack leaves
    its allocation allocated. *)
Theorem block_push_failed b l (s : block_stack) v err w w' :
  stack_repr b l s → Z.of_nat (length l) = stack_capacity s → next_alloc w = Val (AFail, w') →
  ∃ s', BLOCK_STACK_PUSH s v err w = Val ((-1, s'), w') ∧ st_bufs s' = st_bufs s ∧
    block_stack_free s' = Val s' ∧ is_Some (st_bufs s' !! b).
Proof.
  intros Hs Hcap Hw. eexists. split; [by apply (stack_push_fail _ b l)|]. split; [done|].
  split; [done|]. destruct Hs as (buf & _ & _ & _ & Hb & _). by eexists.
Qed.

Lemma block_push_failed_witness :
  ∃ s', BLOCK_STACK_PUSH full_stack 7 0 (world_alloc [AFail]) = Val ((-1, s'), world_alloc []) ∧
    st_bufs s' = st_bufs full_stack ∧ block_stack_free s' = Val s' ∧ is_Some (st_bufs s' !! 0%nat).
Proof.
  apply (block_push_failed 0 (zeroed 4096 0) full_stack 7 0 (world_alloc [AFail]) (world_alloc [])).
  - apply full_stack_repr.
  - apply full_stack_full.
  - reflexivity.
Defined.

(** A pending error is kept by a push that fits, lost by one that extends.
    The same macro called with an error pending returns the error and stores
    nothing when the stack has room, and returns 0 and stores the element when
    it has to extend the stack. *)
Theorem call_push_pending_error b l (s : call_stack) v err w :
  stack_repr b l s → err ≠ 0 → in_place w →
  if decide (Z.of_nat (length l) < stack_capacity s)
  then CALL_STACK_PUSH s v err w = Val ((err, s), w)
  else ∃ s' w', CALL_STACK_PUSH s v err w = Val ((0, s'), w') ∧ stack_repr b (l ++ [v]) s'.
Proof.
  intros Hs Herr Hw. case_decide as Hlt; [by apply (stack_push_error _ b l)|].
  assert (Hcap : Z.of_nat (length l) = stack_capacity s).
  { pose proof (stack_repr_capacity _ _ _ Hs). lia. }
  destruct (stack_push_ok CALL_STACK_EXTEND_SIZE ltac:(done) b l s v w Hw Hs) as (s' & w' & Hp & Hs' & _).
  exists s', w'. split; [|done]. etrans; [|exact Hp]. unfold CALL_STACK_PUSH.
  by rewrite !(stack_push_unfold_full _ _ _ _ _ _ _ Hs Hcap).
Qed.

Lemma full_calls_repr : stack_repr 0 (zeroed 512 zero_call_stack_element) full_calls.
Proof.
  exists (zeroed 512 (Some zero_call_stack_element)). unfold full_calls. cbn [st_first st_last st_top st_bufs].
  pose proof (zeroed_length 512 (Some zero_call_stack_element) ltac:(done)).
  pose proof (zeroed_length 512 zero_call_stack_element ltac:(done)).
  repeat split; try (f_equal; lia); try lia.
Qed.

Lemma call_push_pending_error_witness :
  ∃ s' w', CALL_STACK_PUSH full_calls zero_call_stack_element 1 (world_alloc []) = Val ((0, s'), w') ∧
    stack_repr 0 (zeroed 512 zero_call_stack_element ++ [zero_call_stack_element]) s'.
Proof.
  apply (call_push_pending_error 0 (zeroed 512 zero_call_stack_element) full_calls
    zero_call_stack_element 1 (world_alloc [])).
  - apply full_calls_repr.
  - discriminate.
  - constructor.
Defined.

(** Restoring a saved top undoes what was pushed since.  [blocks_sp], the
    top saved by a call, brings the block stack back to its contents at the
    call, whatever number of blocks was pushed in between. *)
Theorem block_restore_top b l (s1 s2 : block_stack) vs w w' :
  stack_repr b l s1 → in_place w → push_all BLOCK_STACK_PUSH s1 vs w = Val ((0, s2), w') →
  stack_repr b l (BLOCK_STACK_RESTORE_TOP s2 (BLOCK_STACK_TOP_PTR s1)).
Proof.
  intros Hs1 Hw Hp. destruct (push_all_ok vs b l s1 w Hw Hs1) as (s3 & w3 & Hp3 & Hs3 & _).
  assert (s3 = s2) as -> by congruence. unfold BLOCK_STACK_TOP_PTR.
  rewrite (stack_top_ok _ _ _ Hs1).
  pose proof (stack_restore_top_ok b (l ++ vs) s2 (length l) Hs3 ltac:(rewrite length_app; lia)) as H.
  by rewrite take_app_length in H.
Qed.

Lemma block_restore_top_witness :
  stack_repr 0 (zeroed 4096 0) (BLOCK_STACK_RESTORE_TOP
    (match push_all BLOCK_STACK_PUSH full_stack [7; 8] (world_alloc []) with
     | Val ((_, s2), _) => s2 | _ => full_stack end) (BLOCK_STACK_TOP_PTR full_stack)).
Proof.
  apply (block_restore_top 0 (zeroed 4096 0) full_stack _ [7; 8] (world_alloc []) (world_alloc [])).
  - apply full_stack_repr.
  - constructor.
  - vm_compute. reflexivity.
Defined.
