(* ===== verification/WireProps.v ===== *)
(** * Properties of the messages *)

From S2P Require Import Prelude CSem Wire CStack LoadPackets LoadModule LongSections.
From Stdlib Require Import Strings.Byte.

(** A world with packets to read. *)
Definition world_sig (ps : list (list byte)) : world := World [] [] [] ps [] [].
Definition world_load (ps : list (list byte)) : world := World [] [] [] [] ps [].

(** ** Lemmas *)

#[local] Instance OLoad_inj : Inj (=) (=) OLoad.
Proof. by intros ?? [= ->]. Qed.

(** A write that did not fail is visible. *)
Lemma write_bytes_ok e w ok w' : write_bytes e w = Val (ok, w') →
  w_out w' = if ok then w_out w ++ [e] else w_out w.
Proof. unfold write_bytes. by intros [= <- <-]. Qed.

(** So is one on the loading pipe, as the packets it makes. *)
Lemma write_load_ok bs w ok w' : write_load bs w = Val (ok, w') →
  w_out w' = if ok then w_out w ++ (OLoad <$> pipe_packets bs) else w_out w.
Proof. unfold write_load. intros [= <- <-]. by destruct (w_write w) as [|[] ?]. Qed.

Lemma write_loading_packet_out e v w w' : WRITE_LOADING_PACKET e v 0 w = Val (0, w') →
  w_out w' = w_out w ++ (OLoad <$> wire [(e, v)]).
Proof.
  rewrite wire_cons, app_nil_r. unfold WRITE_LOADING_PACKET. intros H. inv_C. apply write_load_ok in E. destruct a; inv_C; try done.
  apply write_load_ok in E0. destruct a; inv_C; try done. rewrite pipe_packets_field in *.
  case_decide as Hz; inv_C.
  - apply write_load_ok in E1. destruct a; [|done]. by rewrite E1, E0, E, <- !app_assoc.
  - assert (v = []) as -> by (destruct v; [done|cbn in Hz; lia]). by rewrite E0, E, <- !app_assoc.
Qed.

(** ** Signals *)

(** C33: Signals survive the pipe.  What [WRITE_CLIENT_SIGNAL] writes without
    error, [READ_CLIENT_SIGNAL] reads back without error, whatever was in its
    destination: event, module, function and block are those of the signal. *)
Theorem signal_roundtrip s w w' p wm ps dst err :
  wf_signal s → WRITE_CLIENT_SIGNAL s 0 w = Val (0, w') → w_out w' = w_out w ++ [OSig p] →
  w_sig wm = p :: ps → length dst = sizeof_client_signal →
  ∃ o wm', READ_CLIENT_SIGNAL dst err wm = Val ((o, err), wm') ∧ w_sig wm' = ps ∧
    get_event o = Val (sig_event s) ∧ get_module o = Val (sig_module s) ∧
    get_function o = Val (sig_function s) ∧ get_block o = Val (sig_block s).
Proof.
  intros Hs Hw Hout Hsig Hdst.
  assert (Hp : p = client_signal_bytes s).
  { unfold WRITE_CLIENT_SIGNAL in Hw. inv_C. apply write_bytes_ok in E. destruct a; [|done].
    rewrite E in Hout. apply (inj (app _)) in Hout. by injection Hout. }
  subst p. unfold READ_CLIENT_SIGNAL, read_sig. rewrite C_bind_eq, Hsig.
  rewrite take_ge by (by rewrite client_signal_bytes_length).
  eexists _, _. rewrite C_ret_eq, client_signal_bytes_length, decide_False by tauto. split; [done|].
  split; [done|]. unfold overlay.
  rewrite drop_ge, app_nil_r by (rewrite length_fmap, client_signal_bytes_length; lia).
  autorewrite with wire; try done.
Qed.

Lemma signal_roundtrip_witness :
  ∃ o wm', READ_CLIENT_SIGNAL (uninit sizeof_client_signal) 0
      (world_sig [client_signal_bytes (ClientSignal 2 1 70000 9)]) = Val ((o, 0), wm') ∧ w_sig wm' = [] ∧
    get_event o = Val 2 ∧ get_module o = Val 1 ∧ get_function o = Val 70000 ∧ get_block o = Val 9.
Proof.
  apply (signal_roundtrip (ClientSignal 2 1 70000 9) (world_sig [])
    (emits (world_sig []) [OSig (client_signal_bytes (ClientSignal 2 1 70000 9))])
    (client_signal_bytes (ClientSignal 2 1 70000 9))
    (world_sig [client_signal_bytes (ClientSignal 2 1 70000 9)]) [] (uninit sizeof_client_signal) 0);
    try reflexivity.
  apply (bool_decide_unpack _). vm_compute. exact I.
Defined.

(** A short read is an error and leaves the rest of the destination.  A
    packet shorter than a signal sets the error to 1, overwrites the first
    bytes of the destination and keeps the others as they were. *)
Theorem short_signal p ps dst err w :
  w_sig w = p :: ps → (length p < sizeof_client_signal)%nat →
  ∃ w', READ_CLIENT_SIGNAL dst err w = Val ((((Some <$> p) ++ drop (length p) dst), 1), w') ∧
    w_sig w' = ps.
Proof.
  intros Hw Hlt. unfold READ_CLIENT_SIGNAL, read_sig. rewrite C_bind_eq, Hw, take_ge by lia.
  eexists. rewrite C_ret_eq, decide_True by lia. unfold overlay. rewrite length_fmap. by split.
Qed.

Lemma short_signal_witness :
  ∃ w', READ_CLIENT_SIGNAL (Some <$> client_signal_bytes (ClientSignal 2 1 7 9)) 0 (world_sig [[x03]]) =
      Val ((((Some <$> [x03]) ++ drop 1 (Some <$> client_signal_bytes (ClientSignal 2 1 7 9))), 1), w') ∧
    w_sig w' = [].
Proof.
  apply (short_signal [x03] [] (Some <$> client_signal_bytes (ClientSignal 2 1 7 9)) 0 (world_sig [[x03]])).
  - reflexivity.
  - apply (bool_decide_unpack _). vm_compute. exact I.
Defined.

(** ** Identifiers *)

(** The 64-bit identifiers are a pairing.  For a module number of 16 bits
    and a function number of 32 bits [MODULE_FUNCTION] is [m * 2^32 + f], and
    the two projections give the numbers back. *)
Theorem module_function_pairing m f :
  in_u 16 m → in_u 32 f →
  MODULE_FUNCTION m f = m * 2 ^ 32 + f ∧
  MODULE_FUNCTION_GET_MODULE (MODULE_FUNCTION m f) = m ∧
  MODULE_FUNCTION_GET_FUNCTION (MODULE_FUNCTION m f) = f.
Proof.
  intros Hm Hf. rewrite MODULE_FUNCTION_GET_MODULE_eq, MODULE_FUNCTION_GET_FUNCTION_eq.
  unfold u16, u32. rewrite !u_small by done. split; [|done].
  unfold MODULE_FUNCTION, u64, in_u in *. rewrite Z.shiftl_mul_pow2 by lia.
  change 0xffffffff with (Z.ones 32). rewrite Z.land_ones by lia.
  change (2 ^ 16) with 65536 in *. change (2 ^ 64) with 18446744073709551616.
  change (2 ^ 32) with 4294967296 in *.
  rewrite (Z.mod_small m), (Z.mod_small (m * _)), (Z.mod_small f 18446744073709551616),
    (Z.mod_small f 4294967296) by lia.
  pose proof (Z.add_lor_land (m * 4294967296) f) as Hsum.
  assert (Hland : Z.land (m * 4294967296) f = 0); [|lia].
  apply Z.bits_inj'. intros i Hi. change 4294967296 with (2 ^ 32).
  rewrite Z.land_spec, Z.bits_0, <- Z.shiftl_mul_pow2, Z.shiftl_spec by lia.
  destruct (decide (i < 32)).
  - by rewrite (Z.testbit_neg_r m) by lia.
  - rewrite (in_u_testbit 32 f i) by (unfold in_u; lia). apply andb_false_r.
Qed.

Lemma module_function_pairing_witness :
  MODULE_FUNCTION 65535 4294967295 = 65535 * 2 ^ 32 + 4294967295 ∧
  MODULE_FUNCTION_GET_MODULE (MODULE_FUNCTION 65535 4294967295) = 65535 ∧
  MODULE_FUNCTION_GET_FUNCTION (MODULE_FUNCTION 65535 4294967295) = 4294967295.
Proof.
  apply (module_function_pairing 65535 4294967295); apply (bool_decide_unpack _); vm_compute; exact I.
Defined.

(** ** Loading packets *)

(** C34: Loading packets survive the pipe if they fit.  The writes of
    [WRITE_LOADING_PACKET], for a value whose length fits in 32 bits, when they do not fail, reach the other end split into
    packets of at most [PIPE_BUF] bytes.  Where allocations succeed, for a value of
    at most [PIPE_BUF] bytes,
    [READ_LOADING_PACKET] reads back the event, the size and the value, in an
    allocation of its own (none for an empty value), which [FREE_LOADING_PACKET]
    then frees; for a longer one it fails with error 4, and leaves a pointer to the
    allocation that it has freed: [FREE_LOADING_PACKET] frees it again. *)
Theorem loading_packet_roundtrip e v w w' qs wm ps dst :
  in_u 32 (Z.of_nat (length v)) → WRITE_LOADING_PACKET e v 0 w = Val (0, w') →
  w_out w' = w_out w ++ (OLoad <$> qs) → w_load wm = qs ++ ps → in_place wm →
  length (pkt_event dst) = 4%nat →
  if decide (Z.of_nat (length v) <= PIPE_BUF) then
    ∃ pkt wm', READ_LOADING_PACKET dst 0 wm = Val ((pkt, 0), wm') ∧ w_load wm' = ps ∧
      obj_field (pkt_event pkt) 0 4 = Val (loading_event_code e) ∧
      pkt_size pkt = Z.of_nat (length v) ∧
      pkt_value pkt = (if decide (v = []) then Null else Live v) ∧
      ∃ pkt', FREE_LOADING_PACKET pkt = Val pkt' ∧ pkt_value pkt' = Null
  else
    ∃ pkt wm', READ_LOADING_PACKET dst 0 wm = Val ((pkt, 4), wm') ∧ FREE_LOADING_PACKET pkt = Undef DoubleFree.
Proof.
  intros Hv Hw Hout Hload Hpl Hdst. rewrite (write_loading_packet_out _ _ _ _ Hw) in Hout.
  apply (inj (app _)), (inj (fmap OLoad)) in Hout. subst qs. case_decide as Hlen.
  - rewrite wire_small in Hload by (by constructor; [|constructor]).
    unfold writes_of in Hload. cbn [fmap list_fmap concat fst snd] in Hload. rewrite app_nil_r in Hload.
    destruct (read_packet e v dst ps wm Hv Hload Hpl Hdst) as (wm' & Hread & Hps & _).
    eexists _, wm'. split; [exact Hread|]. split; [exact Hps|]. cbn [pkt_event pkt_size pkt_value].
    split; [apply packet_event_field|]. split; [done|]. split; [done|].
    destruct (FREE_packet_of e v) as (pkt & -> & _ & Hnull). by exists pkt.
  - destruct (read_long e v dst ps wm) as (pkt & wm' & Hread & Hfree & _); [by split; [|cbn; lia]|done|done|].
    by exists pkt, wm'.
Qed.

Lemma loading_packet_roundtrip_witness :
  ∃ pkt wm', READ_LOADING_PACKET (LoadingPacket (uninit 4) 0 Null) 0
      (world_load [le_bytes 4 4; le_bytes 4 3; [x01; x02; x03]]) = Val ((pkt, 0), wm') ∧ w_load wm' = [] ∧
    obj_field (pkt_event pkt) 0 4 = Val (loading_event_code CFI_LOADING_SECTION_BLOCK_IPD) ∧
    pkt_size pkt = 3 ∧ pkt_value pkt = Live [x01; x02; x03] ∧
    ∃ pkt', FREE_LOADING_PACKET pkt = Val pkt' ∧ pkt_value pkt' = Null.
Proof.
  apply (loading_packet_roundtrip CFI_LOADING_SECTION_BLOCK_IPD [x01; x02; x03] (world_load [])
    (emits (world_load []) [OLoad (le_bytes 4 4); OLoad (le_bytes 4 3); OLoad [x01; x02; x03]])
    [le_bytes 4 4; le_bytes 4 3; [x01; x02; x03]]
    (world_load [le_bytes 4 4; le_bytes 4 3; [x01; x02; x03]]) [] (LoadingPacket (uninit 4) 0 Null));
    try reflexivity.
  - apply (bool_decide_unpack _). vm_compute. exact I.
  - constructor.
Defined.

(** A value cut short is freed twice.  When the read of a value returns
    fewer bytes than its size, [READ_LOADING_PACKET] reports error 4 and frees
    the value but keeps the pointer, and the [FREE_LOADING_PACKET] that every
    path of the loader ends with frees it again. *)
Theorem short_value_double_free dst w ev size p ps :
  w_load w = ev :: size :: p :: ps → length ev = 4%nat → length size = 4%nat →
  0 < le_value size → Z.of_nat (length p) < le_value size → in_place w →
  ∃ pkt w', READ_LOADING_PACKET dst 0 w = Val ((pkt, 4), w') ∧
    FREE_LOADING_PACKET pkt = Undef DoubleFree.
Proof.
  intros Hload Hev Hsz Hpos Hlt Hpl.
  destruct (read_short_value dst w ev size p ps Hload Hev Hsz Hpos Hlt Hpl) as (pkt & w' & Hread & Hfree & _). by exists pkt, w'.
Qed.

Lemma short_value_double_free_witness :
  ∃ pkt w', READ_LOADING_PACKET (LoadingPacket (uninit 4) 0 Null) 0
      (world_load [le_bytes 4 1; le_bytes 4 9; [x01; x00]]) = Val ((pkt, 4), w') ∧
    FREE_LOADING_PACKET pkt = Undef DoubleFree.
Proof.
  apply (short_value_double_free (LoadingPacket (uninit 4) 0 Null)
    (world_load [le_bytes 4 1; le_bytes 4 9; [x01; x00]]) (le_bytes 4 1) (le_bytes 4 9) [x01; x00] []);
    try reflexivity.
  constructor.
Defined.
