(* ===== verification/LoadProps.v ===== *)
(** * Properties of the loader *)

From S2P Require Import Prelude CSem Wire CStack BlockStack CallStack MonitorData.
From S2P Require Import MonitorRun RunSpec RunRefine RunTotal LoadSections Relocate Dot.
From S2P Require Import MonitorLoad LoadWf LoadTotal LoadFree LoadSpec Main Sessions.
From S2P Require Import LoadRuns Examples.
From Stdlib Require Import Strings.Byte.

(** ** Definitions used in the statements *)

(** The lines of the edges that leave node [i], and of all edges, in order. *)
Definition row_lines (n : Z) (g : cptr (list (cptr (list Z)))) (i : Z) : list (list byte) :=
  omap (λ j, if truth (graph_at g i j) then Some (edge_line i j) else None) (seqZ 0 n).
Definition edge_lines (n : Z) (g : cptr (list (cptr (list Z)))) : list (list byte) :=
  seqZ 0 n ≫= row_lines n g.

(** ** Whole loads *)

(** A successful load leaves data fit for the checks.  When [monitor_load]
    returns 0 (and has met no more modules than a [module_id] can number),
    every array of the data has the size its module or function announces and
    every external function is relocated to a function that exists. *)
Theorem load_ready opts w data w' :
  monitor_load opts w = Val ((0, data), w') → few_modules data → run_ready data.
Proof.
  intros H Hfew. destruct (monitor_load_linked _ _ _ _ H Hfew). by apply linked_ready.
Qed.

Lemma load_ready_witness : run_ready ex_data.
Proof.
  refine (load_ready ex_opts (world_of ex_packets []) ex_data
    (match monitor_load ex_opts (world_of ex_packets []) with Val (_, w) => w | _ => world_of [] [] end) _ ex_few).
  vm_compute. reflexivity.
Defined.

(** C21: Relocations are right.  After a successful load of at most 2^16 modules,
    the relocation of an external function is the first function that has its name
    and is not external, in the last loaded module, other than its own, that has
    one. *)
Theorem load_links opts w data w' m md i fd :
  monitor_load opts w = Val ((0, data), w') → few_modules data →
  module_at data m = Val md → 0 <= i < nb_functions md → function_at md i = Val fd →
  FUNCTION_IS_EXTERNAL fd = true →
  ∃ k l, best_definer data m fd (nb_modules data) k l ∧ reloc_at md i = Val (MODULE_FUNCTION k l).
Proof.
  intros H Hfew Hm Hi Hfd Hx. destruct (monitor_load_linked _ _ _ _ H Hfew) as [Hwf Hall].
  destruct (module_at_wf _ _ _ Hwf Hm) as [_ Hr]. by eapply (Hall m Hr).
Qed.

(** The call of [main] to [puts] goes to the library. *)
Lemma load_links_witness :
  ∃ k l, best_definer ex_data 1 (FunctionData (Live nm_puts) FCT_EXTERNAL 0 Null Null) 2 k l ∧
    (md ← module_at ex_data 1; reloc_at md 1) = Val (MODULE_FUNCTION k l).
Proof.
  set (md := match module_at ex_data 1 with Val md => md | _ => new_module end).
  apply (load_links ex_opts (world_of ex_packets []) ex_data
    (match monitor_load ex_opts (world_of ex_packets []) with Val (_, w) => w | _ => world_of [] [] end)
    1 md 1 (FunctionData (Live nm_puts) FCT_EXTERNAL 0 Null Null)).
  - vm_compute. reflexivity.
  - exact ex_few.
  - vm_compute. reflexivity.
  - apply (bool_decide_unpack _). vm_compute. exact I.
  - vm_compute. reflexivity.
  - reflexivity.
Defined.

(** C24: The loader terminates.  For any packets, signals and answers of the
    system, [monitor_load] (with the runs of the initialisation functions it
    makes) ends. *)
Theorem load_terminates opts w : monitor_load opts w ≠ NoFuel.
Proof. apply (monitor_load_ends opts w). Qed.

(** C31: Sections keep the data well-formed.  Whatever the bytes of a section
    (unknown events and the end of the module included), when it is processed
    without error a well-formed module stays well-formed: matrices stay square
    at the announced size, arrays have their announced length. *)
Theorem section_keeps_wf opts event value md w md' w' :
  load_section opts event value md w = Val ((0, md'), w') → wf_module md → wf_module md'.
Proof. apply load_section_wf. Qed.

Lemma section_keeps_wf_witness :
  wf_module (ModuleData 2 0 0 (Live [Null; Null]) (Live [0; 0])
    (Live (foldl place (zeroed 2 zero_function) prog_functions))).
Proof.
  refine (section_keeps_wf ex_opts (loading_event_code CFI_LOADING_SECTION_FUNCTION_ID)
    (Live (fct_l_bytes prog_functions)) new_module (world_of [] []) _ (world_of [] []) _ new_module_wf).
  vm_compute. reflexivity.
Defined.

(** ** Sections *)

(** Function tables survive the section.  Loading the encoding of a table
    of functions with distinct identifiers, whatever bytes follow it, into a
    new module gives each
    function its name and flags at its identifier, no block yet, and counts
    the initialisation and termination functions. *)
Theorem function_table_roundtrip es tl w :
  in_u 32 (Z.of_nat (length es)) → Forall (wf_fct (Z.of_nat (length es))) es →
  NoDup (fe_id <$> es) → in_place w →
  ∃ md w', load_section_function_id (Live (fct_l_bytes es ++ tl)) new_module w = Val ((0, md), w') ∧
    wf_module md ∧ nb_functions md = Z.of_nat (length es) ∧
    nb_entrypoint_inits md = flagged FCT_INIT es ∧ nb_entrypoint_finis md = flagged FCT_FINI es ∧
    ∀ e, e ∈ es → function_at md (fe_id e) = Val (fct_of e).
Proof.
  intros Hn Hwf Hnd Hw.
  destruct (load_function_id_spec tl es new_module w Hn Hwf Hw) as (w' & Hload & _); [done..|].
  eexists _, w'. split; [exact Hload|].
  split; [by eapply load_section_function_id_wf; [exact Hload|apply new_module_wf|]|].
  split; [done|]. split; [done|]. split; [done|]. intros e He.
  unfold function_at. cbn [functions deref mbind res_bind].
  apply arr_get_Val. rewrite List.Forall_forall in Hwf.
  destruct (Hwf e ltac:(by apply list_elem_of_In)) as [[? ?] _]. split; [done|].
  eapply foldl_place_lookup; [|done|done|apply zeroed_length; lia].
  by rewrite List.Forall_forall.
Qed.

Lemma prog_functions_wf : Forall (wf_fct 2) prog_functions.
Proof. repeat constructor; try done; try (by apply (bool_decide_unpack _)). Qed.

Lemma function_table_roundtrip_witness :
  ∃ md w', load_section_function_id (Live (fct_l_bytes prog_functions ++ [x00])) new_module (world_of [] []) =
      Val ((0, md), w') ∧ wf_module md ∧ nb_functions md = 2 ∧
    nb_entrypoint_inits md = flagged FCT_INIT prog_functions ∧
    nb_entrypoint_finis md = flagged FCT_FINI prog_functions ∧
    ∀ e, e ∈ prog_functions → function_at md (fe_id e) = Val (fct_of e).
Proof.
  apply (function_table_roundtrip prog_functions [x00] (world_of [] [])).
  - apply (bool_decide_unpack _). vm_compute. exact I.
  - apply prog_functions_wf.
  - apply (bool_decide_unpack _). vm_compute. exact I.
  - constructor.
Defined.

(** Call graphs survive the section.  Loading the encoding of a list of
    functions (each at most once) with their callees, whatever bytes follow
    it, into a module whose call
    graph is empty gives a graph whose edges are exactly the listed calls, and
    touches nothing else of the module. *)
Theorem call_graph_roundtrip n ts tl md w :
  in_u 32 n → 0 < n → in_u 32 (Z.of_nat (length ts)) → Forall (wf_trans n) ts → NoDup (te_id <$> ts) →
  nb_functions md = n → call_graph md = Live (zeroed n Null) → in_place w →
  ∃ g w', load_section_function_transition (Live (fct_trans_l_bytes ts ++ tl)) md w =
      Val ((0, set_call_graph g md), w') ∧ wf_graph n g ∧
    ∀ i j, edge g i j ↔ listed ts i j.
Proof.
  intros Hu Hpos Hlen Hts Hnd Hn Hg Hw. destruct (zeroed_graph n) as [Hno Hnull].
  destruct (function_transition_spec tl n ts md w Hu Hts Hw Hn) as (g & w' & Hrun & _ & Hg' & He & _).
  - rewrite Hg. by apply wf_graph_zeroed; lia.
  - done.
  - intros t Ht. rewrite Hg. apply Hnull. rewrite List.Forall_forall in Hts.
    by apply list_elem_of_In, Hts in Ht as [? _].
  - exists g, w'. split.
    + unfold load_section_function_transition. rewrite Hg. cbn [non_null negb].
      rewrite decide_False by lia. cbn [deref]. rewrite C_bind_eq, lift_Val.
      unfold msg_num, msg_list, fct_trans_l_bytes. rewrite <- app_assoc, field_le4 by done.
      by rewrite C_bind_eq, lift_Val, drop_le4, Nat2Z.id.
    + split; [done|]. intros i j. rewrite He, Hg. split; [|by right]. intros [H|H]; [by apply Hno in H|done].
Qed.

Lemma call_graph_roundtrip_witness :
  ∃ g w', load_section_function_transition (Live (fct_trans_l_bytes prog_calls ++ [x00]))
      (ModuleData 2 0 0 (Live (zeroed 2 Null)) Null Null) (world_of [] []) =
      Val ((0, set_call_graph g (ModuleData 2 0 0 (Live (zeroed 2 Null)) Null Null)), w') ∧ wf_graph 2 g ∧
    ∀ i j, edge g i j ↔ listed prog_calls i j.
Proof.
  apply (call_graph_roundtrip 2 prog_calls [x00] (ModuleData 2 0 0 (Live (zeroed 2 Null)) Null Null) (world_of [] []));
    try reflexivity; try (apply (bool_decide_unpack _); vm_compute; exact I).
Defined.

(** Control-flow graphs survive the section.  Loading the encoding of the
    blocks of a function, each with its successors, gives that function a
    graph whose edges are exactly the listed jumps and leaves the other
    functions alone; the rows of the blocks that were not listed are null. *)
Theorem block_graph_roundtrip n f ts md fd w :
  in_u 32 n → n ≠ 0 → in_u 32 (Z.of_nat (length ts)) → Forall (wf_trans n) ts →
  in_u 32 (nb_functions md) → 0 <= f < nb_functions md → function_at md f = Val fd → nb_blocks fd = 0 →
  in_place w →
  ∃ md' fd' w', load_section_block_transition (Live (block_trans_l_bytes f n ts)) md w = Val ((0, md'), w') ∧
    function_at md' f = Val fd' ∧ nb_blocks fd' = n ∧ name fd' = name fd ∧ flags fd' = flags fd ∧
    (∀ i j, edge (control_flow_graph fd') i j ↔ listed ts i j) ∧
    (∀ i, 0 <= i < n → row_null (control_flow_graph fd') i ↔ i ∉ te_id <$> ts) ∧
    (∀ k, k ≠ f → function_at md' k = function_at md k).
Proof.
  intros Hu Hz Hlen Hts Hnf Hf Hfd Hnb Hw.
  destruct (load_block_transition_spec n f ts md fd w Hu Hz Hlen Hts Hnf Hf Hfd Hnb Hw)
    as (fs & g & w' & Hload & Hfd' & He & Hr & Hoth). cbn zeta in *.
  eexists _, _, w'. split; [exact Hload|]. split; [exact Hfd'|]. done.
Qed.

Lemma block_graph_roundtrip_witness :
  ∃ md' fd' w', load_section_block_transition (Live (block_trans_l_bytes 0 3 prog_blocks))
      (ModuleData 2 0 0 Null Null (Live (foldl place (zeroed 2 zero_function) prog_functions)))
      (world_of [] []) = Val ((0, md'), w') ∧
    function_at md' 0 = Val fd' ∧ nb_blocks fd' = 3 ∧ name fd' = Live nm_main ∧ flags fd' = FCT_MAIN ∧
    (∀ i j, edge (control_flow_graph fd') i j ↔ listed prog_blocks i j) ∧
    (∀ i, 0 <= i < 3 → row_null (control_flow_graph fd') i ↔ i ∉ te_id <$> prog_blocks) ∧
    (∀ k, k ≠ 0 → function_at md' k = function_at (ModuleData 2 0 0 Null Null
       (Live (foldl place (zeroed 2 zero_function) prog_functions))) k).
Proof.
  apply (block_graph_roundtrip 3 0 prog_blocks
    (ModuleData 2 0 0 Null Null (Live (foldl place (zeroed 2 zero_function) prog_functions)))
    (FunctionData (Live nm_main) FCT_MAIN 0 Null Null) (world_of [] []));
    try reflexivity; try discriminate; try (apply (bool_decide_unpack _); vm_compute; exact I).
Defined.

(** ** Relocations *)

Lemma relocation_loop_error n : ∀ j mid fatal data md err md',
  relocation_loop n j mid fatal data md = Val (err, md') → err ≠ 0 →
  err = 1 ∧ fatal = true ∧ ∃ i fd, j <= i < j + Z.of_nat n ∧ function_at md i = Val fd ∧
    FUNCTION_IS_EXTERNAL fd = true ∧ search data mid fd = Val None.
Proof.
  induction n as [|n IH]; intros j mid fatal data md err md' H Herr; cbn [relocation_loop] in H; inv_res;
    [done|].
  assert (Hrest : ∀ md1, relocation_loop n (j + 1) mid fatal data md1 = Val (err, md') →
    functions md1 = functions md → err = 1 ∧ fatal = true ∧
    ∃ i fd, j <= i < j + Z.of_nat (S n) ∧ function_at md i = Val fd ∧
      FUNCTION_IS_EXTERNAL fd = true ∧ search data mid fd = Val None).
  { intros md1 H1 Hfs. apply IH in H1 as (He & Hf & i & fd & Hi & Hfd & Hx & Hs); [|done].
    split; [done|]. split; [done|]. exists i, fd. split; [lia|]. unfold function_at in *.
    by rewrite Hfs in Hfd. }
  destruct (FUNCTION_IS_EXTERNAL a) eqn:Hx; [|by apply (Hrest md)]. inv_res.
  destruct a0 as [[k l]|]; inv_res; [by eapply Hrest|]. destruct fatal; inv_res; [|by eapply Hrest].
  split; [done|]. split; [done|]. exists j, a. split; [lia|]. done.
Qed.

(** C37: Calls before their definition is loaded.  When a module has just been
    loaded and relocated, a call of an external function that no loaded module
    defines is expected to land in function 0 of module 0, whatever that is;
    the other modules are left as they were. *)
Theorem unresolved_call data data' md i fd :
  compute_relocations_of_module data (nb_modules data - 1) false = Val (0, data') →
  wf_data data → few_modules data → has_function data 0 0 →
  module_at data (nb_modules data - 1) = Val md → blank md →
  function_at md i = Val fd → FUNCTION_IS_EXTERNAL fd = true →
  (∀ k l, ¬ definer data (nb_modules data - 1) fd k l) →
  target data' (nb_modules data - 1) i = Val (0, 0) ∧
  ∀ k, k ≠ nb_modules data - 1 → module_at data' k = module_at data k.
Proof.
  intros H Hwf Hfew H0 Hmd Hblank Hfd Hx Hno.
  destruct (start_linked _ _ _ H Hwf Hfew Hmd Hblank) as (Hwf' & Hsc & Hoth & Hpl). split; [|done].
  destruct (data_same_code_at _ _ _ _ Hsc Hmd) as (md' & Hmd' & Hs).
  eapply unresolved_target; [done|done|by eapply data_same_code_has_function|done| |done|].
  - by rewrite (same_code_function_at _ _ _ Hs).
  - intros k l Hd. apply (Hno k l). by eapply data_same_code_definer.
Qed.

(** The initialisation function of the example calls [puts] too early. *)
Lemma unresolved_call_witness :
  target early_started (nb_modules early_read - 1) 1 = Val (0, 0) ∧
  ∀ k, k ≠ nb_modules early_read - 1 → module_at early_started k = module_at early_read k.
Proof.
  apply (unresolved_call early_read early_started early_module 1 early_puts).
  - vm_compute. reflexivity.
  - exact early_read_wf.
  - vm_compute. split; discriminate.
  - exists early_module. split; [vm_compute; reflexivity|]. vm_compute. split; [discriminate|reflexivity].
  - vm_compute. reflexivity.
  - exact early_blank.
  - vm_compute. reflexivity.
  - vm_compute. reflexivity.
  - intros k l (Hne & mk & g & s & Hk & _). apply (module_at_wf _ _ _ early_read_wf) in Hk as [_ Hk].
    revert Hne Hk. replace (nb_modules early_read) with 1 by (vm_compute; reflexivity). lia.
Defined.

(** Relocation reports exactly the unresolved functions.  When it is told
    that they are not fatal [compute_relocations_of_module] always returns 0;
    otherwise an error means that some external function of the module is
    defined by no other module. *)
Theorem unresolved_reported data mid fatal err data' :
  compute_relocations_of_module data mid fatal = Val (err, data') → few_modules data → err ≠ 0 →
  err = 1 ∧ fatal = true ∧ ∃ md i fd, module_at data (u16 mid) = Val md ∧ 0 <= i < nb_functions md ∧
    function_at md i = Val fd ∧ FUNCTION_IS_EXTERNAL fd = true ∧
    ∀ k l, 0 <= k < nb_modules data → ¬ definer data (u16 mid) fd k l.
Proof.
  unfold compute_relocations_of_module. intros H Hfew Herr. inv_res. destruct a0 as [e md']. inv_res.
  apply relocation_loop_error in E0 as (-> & -> & i & fd & Hi & Hfd & Hx & Hs); [|done].
  split; [done|]. split; [done|]. exists a, i, fd. split; [done|]. split; [lia|]. split; [done|].
  split; [done|]. rewrite search_all in Hs by done. intros k l Hk.
  eapply search_modules_None; [exact Hs|]. lia.
Qed.

(** The program loaded without its library. *)
Lemma unresolved_reported_witness :
  let md := ModuleData 1 0 0 Null (Live [0]) (Live [FunctionData (Live nm_puts) FCT_EXTERNAL 0 Null Null]) in
  let data := MonitorData 1 (Live [md]) in
  1 = 1 ∧ true = true ∧ ∃ md i fd, module_at data (u16 0) = Val md ∧ 0 <= i < nb_functions md ∧
    function_at md i = Val fd ∧ FUNCTION_IS_EXTERNAL fd = true ∧
    ∀ k l, 0 <= k < nb_modules data → ¬ definer data (u16 0) fd k l.
Proof.
  intros md data. apply (unresolved_reported data 0 true 1 data).
  - vm_compute. reflexivity.
  - vm_compute. split; discriminate.
  - discriminate.
Defined.

(** ** Release *)

(** C32: Well-formed data (its table of modules null when it has no module) is
    released, each allocation once.  The allocations
    that [monitor_data_free] gives back are those that the data own - the
    module table, the three arrays of each module, the rows of its call graph,
    and for each function its name, its graph, the rows of the graph and its
    post-dominators - each exactly once, and the data end with no module.  Only
    the arrays of the modules without functions, which hold nothing, are never
    given back. *)
Theorem free_releases data :
  wf_data data → (nb_modules data = 0 → modules data = Null) →
  ∃ l, monitor_data_free data = Val (MonitorData 0 Null, l) ∧
    NoDup l ∧ owned data ≡ₚ l ++ left_behind data.
Proof.
  intros Hwf Hnil. destruct (monitor_data_free_wf data Hwf Hnil) as (l & Hfree & Hl). exists l.
  split; [done|]. split; [|done]. assert (Hnd := NoDup_owned data). rewrite Hl in Hnd.
  by apply list.NoDup_app in Hnd as [? _].
Qed.

Lemma free_releases_witness :
  ∃ l, monitor_data_free ex_data = Val (MonitorData 0 Null, l) ∧
    NoDup l ∧ owned ex_data ≡ₚ l ++ left_behind ex_data.
Proof.
  apply (free_releases ex_data).
  - apply ex_ready.
  - vm_compute. discriminate.
Defined.

(** On the example every allocation of the data is given back. *)
Example ex_released :
  left_behind ex_data = [] ∧
  match monitor_data_free ex_data with Val (_, l) => length l = length (owned ex_data) | _ => False end.
Proof. vm_compute. done. Qed.

(** The arrays of a module without functions are not: a leak, of allocations
    of no byte. *)
Example empty_module_kept :
  let data := MonitorData 1 (Live [ModuleData 0 0 0 (Live []) (Live []) (Live [])]) in
  match monitor_data_free data with Val (_, l) => l = [BModules] | _ => False end ∧
  left_behind data = [BInModule 0 BFunctions; BInModule 0 BCallGraph; BInModule 0 BRelocations].
Proof. vm_compute. done. Qed.

Lemma function_id_loop_not_2 n : ∀ ptr md w err md' w',
  function_id_loop n ptr md w = Val ((err, md'), w') → err ≠ 2.
Proof.
  induction n as [|n IH]; intros ptr md w err md' w' H; cbn [function_id_loop] in H; inv_C; [done|].
  case_decide; inv_C; [done|]. by eapply IH.
Qed.

(** A failed allocation cannot be cleaned up.  When an allocation fails in
    the section of the functions of a new module, the count of functions is
    already set: the [monitor_data_free] that follows dereferences the array
    that is missing. *)
Theorem failed_section_not_freed fct w md' w' :
  load_section_function_id fct new_module w = Val ((2, md'), w') → nb_functions md' ≠ 0 →
  free_module md' = Undef NullDeref.
Proof.
  unfold load_section_function_id. intros H Hn. rewrite decide_False in H by (by intros []). inv_C.
  assert (Hpos : ∀ md, free_functions (Z.to_nat a0) 0 md = free_functions (S (Nat.pred (Z.to_nat a0))) 0 md
    ∨ a0 = 0).
  { intros md. destruct (decide (a0 = 0)); [by right|]. left. f_equal.
    match goal with E : msg_num _ = _ |- _ => apply (field_in_u _ _ 4) in E; unfold in_u in E end. lia. }
  match goal with E : calloc a0 Null _ = Val (?g, _) |- _ =>
    destruct (calloc_inv _ _ _ _ _ E) as [->| ->]; cbn [non_null negb] in H; inv_C end.
  { unfold free_module. cbn [nb_functions set_call_graph set_nb_functions] in *.
    destruct (Hpos (set_call_graph Null (set_nb_functions a0 new_module))) as [->|]; [done|done]. }
  assert (Hfirst : 0 < a0 → free_row BCallRow (Live (zeroed a0 Null)) 0 = Val (Live (zeroed a0 Null), [])).
  { intros. unfold free_row, graph_row. cbn [deref mbind res_bind].
    by rewrite zeroed_get by lia. }
  assert (Ha0 : 0 <= a0).
  { match goal with E : msg_num _ = _ |- _ => apply (field_in_u _ _ 4) in E; unfold in_u in E end. lia. }
  match goal with E : calloc a0 0 _ = Val (?r, _) |- _ =>
    destruct (calloc_inv _ _ _ _ _ E) as [->| ->]; cbn [non_null negb] in H; inv_C end.
  { unfold free_module. cbn [nb_functions set_call_graph set_nb_functions set_relocations] in *.
    match goal with |- (free_functions _ _ ?md ≫= _) = _ => destruct (Hpos md) as [->|]; [|done] end.
    cbn [free_functions call_graph set_call_graph set_relocations]. rewrite Hfirst by lia. done. }
  match goal with E : calloc a0 zero_function _ = Val (?fs, _) |- _ =>
    destruct (calloc_inv _ _ _ _ _ E) as [->| ->]; cbn [non_null negb] in H; inv_C end.
  { unfold free_module.
    cbn [nb_functions set_call_graph set_nb_functions set_relocations set_functions] in *.
    match goal with |- (free_functions _ _ ?md ≫= _) = _ => destruct (Hpos md) as [->|]; [|done] end.
    cbn [free_functions call_graph set_call_graph set_relocations set_functions]. rewrite Hfirst by lia. done. }
  by apply function_id_loop_not_2 in H.
Qed.

Lemma failed_section_not_freed_witness :
  free_module (ModuleData 2 0 0 (Live [Null; Null]) Null Null) = Undef NullDeref.
Proof.
  apply (failed_section_not_freed (Live (fct_l_bytes prog_functions))
    (World [AInPlace; AFail] [] [] [] [] []) _ (World [] [] [] [] [] [])).
  - vm_compute. reflexivity.
  - discriminate.
Defined.

(** ** Errors *)

(** Sections out of order or out of range are refused.  A second function
    section, a transition or post-dominator section before the functions, and
    a function number beyond the table are errors; the module is left as it
    was and the packet is not read further. *)
Theorem section_guards value md w :
  (nb_functions md ≠ 0 → load_section_function_id value md w = Val ((1, md), w)) ∧
  (call_graph md = Null → load_section_function_transition value md w = Val ((1, md), w)) ∧
  (functions md = Null → load_section_block_transition value md w = Val ((1, md), w)) ∧
  (functions md = Null → load_section_block_ipd value md w = Val ((1, md), w)) ∧
  (∀ n t ptr, 0 <= nb_functions md <= te_id t → in_u 32 (te_id t) →
     function_transition_loop (S n) (trans_bytes t ++ ptr) md w = Val ((3, md), w)) ∧
  (∀ n e ptr, 0 <= nb_functions md <= fe_id e → in_u 32 (fe_id e) →
     function_id_loop (S n) (fct_bytes e ++ ptr) md w = Val ((3, md), w)).
Proof.
  split; [intros H; unfold load_section_function_id; by rewrite decide_True|].
  split; [intros H; unfold load_section_function_transition; by rewrite H|].
  split; [intros H; unfold load_section_block_transition; by rewrite H|].
  split; [intros H; unfold load_section_block_ipd; by rewrite H|]. split.
  - intros n t ptr Hr Hu. cbn [function_transition_loop]. unfold msg_trans_id, trans_bytes.
    rewrite <- app_assoc, field_le4, C_bind_eq, lift_Val by done. by rewrite decide_True by lia.
  - intros n e ptr Hr Hu. cbn [function_id_loop]. unfold msg_fct_f_id. rewrite fct_bytes_split.
    rewrite field_le4, C_bind_eq, lift_Val by done. by rewrite decide_True by lia.
Qed.

(** ** Dump *)

Lemma dot_row_ok n g i : wf_graph n g → 0 <= i < n → ∀ (k : nat) j w,
  0 <= j → j + Z.of_nat k = n →
  dot_row k g i j w = Val ((), emits w (ODot <$>
    omap (λ j, if truth (graph_at g i j) then Some (edge_line i j) else None) (seqZ j (Z.of_nat k)))).
Proof.
  intros Hg Hi. induction k as [|k IH]; intros j w Hj Hk; cbn [dot_row].
  { by rewrite emits_nil. }
  assert (Hedge : has_edge g i j = Val (truth (graph_at g i j))).
  { assert (Hg' := Hg). destruct Hg' as (rows & -> & Hlen & _). unfold has_edge. cbn [deref mbind res_bind].
    destruct (arr_get_in_range rows i) as [row Hrow]; [lia|]. unfold graph_at. cbn [deref mbind res_bind].
    rewrite Hrow. cbn [mbind res_bind].
    destruct (graph_row_wf n (Live rows) i row Hg Hrow) as [->|(r & -> & Hr)]; [done|].
    cbn [non_null deref mbind res_bind]. destruct (arr_get_in_range r j) as [x Hx]; [lia|].
    rewrite Hx. done. }
  rewrite Hedge, C_bind_eq, lift_Val. rewrite Nat2Z.inj_succ, seqZ_cons by lia. cbn [omap list_omap].
  replace (Z.pred (Z.succ (Z.of_nat k))) with (Z.of_nat k) by lia.
  replace (Z.succ j) with (j + 1) by lia.
  destruct (truth (graph_at g i j)); rewrite C_bind_eq.
  - unfold printf, emit. rewrite IH by lia. cbn [fmap list_fmap].
    by rewrite <- emit_emits, <- emits_app.
  - by rewrite C_ret_eq, IH by lia.
Qed.

Lemma dot_rows_ok n g : wf_graph n g → ∀ (k : nat) i w,
  0 <= i → i + Z.of_nat k = n →
  dot_rows k n g i w = Val ((), emits w (ODot <$> (seqZ i (Z.of_nat k) ≫= row_lines n g))).
Proof.
  intros Hg. induction k as [|k IH]; intros i w Hi Hk; cbn [dot_rows].
  { by rewrite emits_nil. }
  rewrite C_bind_eq, (dot_row_ok n g i Hg) by lia. rewrite Z2Nat.id by lia.
  rewrite IH by lia. fold (row_lines n g i).
  rewrite Nat2Z.inj_succ, (seqZ_cons i) by lia.
  replace (Z.pred (Z.succ (Z.of_nat k))) with (Z.of_nat k) by lia.
  replace (Z.succ i) with (i + 1) by lia.
  by rewrite bind_cons, fmap_app, emits_app.
Qed.

(** The dump is the graph.  For a well-formed module [monitor_call_graph]
    prints the header, one line per edge of the call graph in increasing
    order, and the footer; rows that are null are skipped, not read. *)
Theorem dot_prints_edges md w :
  wf_graph (nb_functions md) (call_graph md) → 0 <= nb_functions md →
  monitor_call_graph md w = Val ((), emits w (ODot <$>
    ([open_line; call_graph_title] ++ edge_lines (nb_functions md) (call_graph md) ++ [close_line]))).
Proof.
  intros Hg Hn. unfold monitor_call_graph, printf, emit. rewrite !C_bind_eq.
  rewrite (dot_rows_ok _ _ Hg) by lia. rewrite Z2Nat.id by lia. unfold edge_lines.
  rewrite !fmap_app. rewrite !emits_app. unfold emits. cbn. by rewrite <- !app_assoc.
Qed.

Lemma dot_prints_edges_witness :
  monitor_call_graph (ModuleData 2 0 0 (Live [Live [0; 1]; Null]) Null Null) (world_of [] []) =
    Val ((), emits (world_of [] []) (ODot <$>
      ([open_line; call_graph_title] ++ edge_lines 2 (Live [Live [0; 1]; Null]) ++ [close_line]))).
Proof.
  apply (dot_prints_edges (ModuleData 2 0 0 (Live [Live [0; 1]; Null]) Null Null) (world_of [] [])).
  - exists [Live [0; 1]; Null]. split; [reflexivity|]. split; [reflexivity|].
    constructor; [right; exists [0; 1]; split; reflexivity|].
    constructor; [left; reflexivity|constructor].
  - discriminate.
Defined.
