(* ===== verification/SystemProps.v ===== *)
(** * Properties of the client, of the protocol and of the whole monitor *)

From S2P Require Import Prelude CSem Wire CStack BlockStack CallStack MonitorData.
From S2P Require Import MonitorRun RunSpec RunRefine RunTotal LoadSections Relocate Dot.
From S2P Require Import MonitorLoad LoadWf LoadFree LoadSpec Main Sessions Client Network MonitorLog.
From S2P Require Import LoadRuns LoadPackets LoadModule LongSections Startup StartupSpec ClientProcess Protocol Examples.
From S2P Require Import MonitorData.
From Stdlib Require Import Strings.Byte.

(** ** Definitions used in the statements *)

(** A world in which the client finds the answers [ps]. *)
Definition client_world (ps : list (list byte)) : world := World [] [] [] ps [] [].

Definition ok_packet : list byte := le_bytes 1 CFI_OK.

(** A support that was given its descriptors and the number of its module. *)
Definition ex_client : client_state := __CFI_SET_MODULE_ID 1 (__CFI_SET_FDS 3 4 client_start).

(** No condition of [main] stops it before the monitor process. *)
Definition starts (env : startup) : Prop :=
  getenv_LD_PRELOAD env = false ∧ getenv_FD_CLIENT_TO_MONITOR env = false ∧
  getenv_FD_MONITOR_TO_CLIENT env = false ∧ getenv_FD_LOADING_TO_MONITOR env = false ∧
  getenv_FD_MONITOR_TO_LOADING env = false ∧ 2 <= argc env ∧ pipe_results env = (0, 0, 0, 0) ∧
  0 < fork_result env.

#[export] Instance starts_dec env : Decision (starts env).
Proof. unfold starts. apply _. Defined.

(** ** The client *)

(** C29: The client fails closed.  When the writes of the signals complete, a
    program whose support is connected gets past one call per answer [CFI_OK] at the
    head of the pipe and no more: at the first answer that is missing or different
    it has written the signal of that call and is aborted.  What it writes are the
    signals of its calls, in order. *)
Theorem client_fails_closed cs st w :
  connected st → Forall (λ b, b = true) (w_write w) →
  ∃ w', run_calls cs st w =
      Val ((Nat.min (length cs) (ok_answers (w_sig w)),
            if decide (length cs <= ok_answers (w_sig w))%nat then Returned else Aborted), w') ∧
    w_out w' = w_out w ++
      ((λ c, OSig (client_signal_bytes (call_signal (sig_module (_cs st)) c))) <$>
         take (S (ok_answers (w_sig w))) cs).
Proof. apply run_calls_spec. Qed.

Lemma client_fails_closed_witness :
  ∃ w', run_calls [CallEnter 0; CallBefore 0 0; CallAfter 0 0] ex_client (client_world [ok_packet; [x00]]) =
      Val ((1%nat, Aborted), w') ∧
    w_out w' = [OSig (client_signal_bytes (sg CFI_ENTER 1 0 0));
                OSig (client_signal_bytes (sg CFI_BEFORE_JUMP 1 0 0))].
Proof.
  apply (client_fails_closed [CallEnter 0; CallBefore 0 0; CallAfter 0 0] ex_client
    (client_world [ok_packet; [x00]])).
  - split; vm_compute; discriminate.
  - constructor.
Defined.

(** ** The protocol *)

(** C27: Bounded lag.  A client makes the calls [xs], from any copies of the
    support that have started, with any result; the monitor runs on loaded data,
    with any result, in a favourable environment and on whole packets.  At every
    point of every schedule of what they do on the pipes, [dc] being what the
    client has done and [dm] what the monitor has done: the client has written
    the signals of its first calls, in order, and read an answer to each of them
    but the last one at most; the first [checked] of these signals were read and
    are followed by the automaton (complete traces, then the beginning of one),
    and the client has not got more answers than that plus the answers that are
    preloaded. *)
Theorem protocol_lag opts data k xs sts wc r wc' wm e wm' cap y :
  run_ready data → copies_started k sts → k <= 2 ^ 16 → Forall (λ x, 0 <= x.1 < k) xs →
  w_log wc = [] → in_sequence (copy_call <$> xs) sts wc = Val (r, wc') →
  favourable wm → Forall full_packet (w_sig wm) → w_log wm = [] → main_runs opts data wm = Val (e, wm') →
  rtc (advance cap) (network_start (w_log wc') (w_log wm')) y →
  ∃ dc dm, w_log wc' = dc ++ client_todo y ∧ w_log wm' = dm ++ monitor_todo y ∧
    sents PSig dc = client_signal_bytes <$> take (length (sents PSig dc)) (sent xs) ∧
    (length (gots PSig dc) <= length (sents PSig dc) <= S (length (gots PSig dc)))%nat ∧
    ∃ checked, (checked <= length (gots PSig dm) <= length (sents PSig dc))%nat ∧
      (length (gots PSig dc) <= nb_preloaded opts + checked)%nat ∧ followed data (take checked (sent xs)).
Proof. intros Hready Hst Hk Hxs Hwc Hcalls Hw Hps. by eapply reached_lag. Qed.

(** Two copies of the support, which have started. *)
Definition ex_copies : list client_state :=
  [__CFI_SET_MODULE_ID 0 (__CFI_SET_FDS 3 4 client_start); __CFI_SET_MODULE_ID 1 (__CFI_SET_FDS 3 4 client_start)].

Lemma ex_copies_started : copies_started 2 ex_copies.
Proof.
  intros m Hm. assert (m = 0 ∨ m = 1) as [->| ->] by lia; eexists; (split; [reflexivity|]);
    (split; [|reflexivity]); split; vm_compute; discriminate.
Qed.

(** A program that makes a jump that is not in its graph, as each process sees it. *)
Definition ex_jump : list (Z * client_call) := [(1, CallEnter 0); (1, CallBefore 0 0); (1, CallAfter 0 0)].
Definition world_after {A} (r : res (A * world)) : world := match r with Val (_, w) => w | _ => world_of [] [] end.
Definition ex_jump_run : res (outcome * list client_state * world) :=
  in_sequence (copy_call <$> ex_jump) ex_copies (client_world [ok_packet; ok_packet]).
Definition ex_jump_result : outcome * list client_state := match ex_jump_run with Val (r, _) => r | _ => (Returned, []) end.
Definition ex_jump_client : world := world_after ex_jump_run.
Definition ex_jump_monitor : world := world_after (main_runs ex_opts ex_data (world_of [] ex_hijacked)).

(** The client has sent the signal after the jump, which the monitor has refused. *)
Lemma protocol_lag_witness :
  ∃ dc dm, w_log ex_jump_client = dc ++ [Eof PSig] ∧ w_log ex_jump_monitor = dm ++ [] ∧
    sents PSig dc = client_signal_bytes <$> take (length (sents PSig dc)) (sent ex_jump) ∧
    (length (gots PSig dc) <= length (sents PSig dc) <= S (length (gots PSig dc)))%nat ∧
    ∃ checked, (checked <= length (gots PSig dm) <= length (sents PSig dc))%nat ∧
      (length (gots PSig dc) <= nb_preloaded ex_opts + checked)%nat ∧ followed ex_data (take checked (sent ex_jump)).
Proof.
  apply (protocol_lag ex_opts ex_data 2 ex_jump ex_copies (client_world [ok_packet; ok_packet])
    ex_jump_result ex_jump_client (world_of [] ex_hijacked) 4 ex_jump_monitor 16
    (Network [Eof PSig] [] nothing nothing)).
  - apply ex_ready.
  - apply ex_copies_started.
  - done.
  - repeat constructor; done.
  - done.
  - vm_compute. reflexivity.
  - apply world_favourable.
  - apply world_full.
  - done.
  - vm_compute. reflexivity.
  - vm_compute. repeat (eapply rtc_l; [first [eapply step_monitor; constructor; vm_compute; (reflexivity || lia)
      | eapply step_client; constructor; vm_compute; (reflexivity || lia)]|]). apply rtc_refl.
Defined.

(** C28: A program that follows its graphs runs to the end.  On loaded data, when
    the signals of the calls of a client, from copies of the support that have
    started, are a session - one trace for the program and one for each
    termination function - and the client and the monitor are each fed with what
    the other one writes: all the calls return, the runs of the monitor end with
    status 0 and no signal is left; and when the pipes hold one packet more than
    the answers that are preloaded, no schedule of what both do blocks before
    both have finished, and all of them have as many steps. *)
Theorem protocol_completes opts data nb k xs sts :
  run_ready data → count_finis (Z.to_nat (nb_modules data)) 0 data 0 = Val nb →
  copies_started k sts → k <= 2 ^ 16 → Forall (λ x, 0 <= x.1 < k) xs → session data (S (Z.to_nat nb)) (sent xs) [] →
  ∃ sts' wc wm,
    in_sequence (copy_call <$> xs) sts (World [] [] [] (output PSig (w_out wm)) [] []) = Val ((Returned, sts'), wc) ∧
    main_runs opts data (World [] [] [] (output PSig (w_out wc)) [] []) = Val (0, wm) ∧ signals wm = [] ∧
    ∀ cap, (nb_preloaded opts < cap)%nat → never_blocks cap (network_start (w_log wc) (w_log wm)).
Proof. intros Hready Hnb Hst Hk Hxs Hses. by eapply session_closes. Qed.

(** The calls of the example, from its two copies. *)
Definition ex_calls : list (Z * client_call) :=
  [(1, CallEnter 0); (1, CallCall 1); (0, CallEnter 0); (0, CallExit 0); (1, CallReturned 1);
   (1, CallBefore 0 0); (1, CallAfter 0 1); (1, CallExit 0)].

(** With an answer that is preloaded. *)
Definition ahead_opts : options := Options false false 1 false.

Lemma protocol_completes_witness :
  ∃ sts' wc wm,
    in_sequence (copy_call <$> ex_calls) ex_copies (World [] [] [] (output PSig (w_out wm)) [] []) = Val ((Returned, sts'), wc) ∧
    main_runs ahead_opts ex_data (World [] [] [] (output PSig (w_out wc)) [] []) = Val (0, wm) ∧ signals wm = [] ∧
    ∀ cap, (1 < cap)%nat → never_blocks cap (network_start (w_log wc) (w_log wm)).
Proof.
  apply (protocol_completes ahead_opts ex_data 0 2 ex_calls ex_copies).
  - apply ex_ready.
  - vm_compute. reflexivity.
  - apply ex_copies_started.
  - done.
  - repeat constructor; done.
  - change (sent ex_calls) with (ex_signals ++ []). apply (session_run ex_data 0 ex_signals [] []); [apply ex_run_trace|constructor].
Defined.

(** ** The monitor *)

(** The runs of [main] accept exactly the sessions.  On loaded data and in
    a favourable environment, the termination functions the modules announce
    can be counted, and what follows the load ends with status 0 if and only if
    the signals of the client are one trace for the program followed by one
    trace for each of them. *)
Theorem main_accepts_sessions opts data w :
  run_ready data → favourable w → Forall full_packet (w_sig w) →
  ∃ nb, count_finis (Z.to_nat (nb_modules data)) 0 data 0 = Val nb ∧
    ((∃ w', main_runs opts data w = Val (0, w')) ↔
     ∃ rest, session data (S (Z.to_nat nb)) (signals w) rest).
Proof.
  intros Hready Hfav Hps. destruct (finis_counted data (proj1 Hready)) as (nb & Hnb).
  exists nb. split; [done|]. by apply main_runs_session.
Qed.

Lemma main_accepts_sessions_witness :
  ∃ nb, count_finis (Z.to_nat (nb_modules ex_data)) 0 ex_data 0 = Val nb ∧
    ((∃ w', main_runs ex_opts ex_data (world_of [] ex_signals) = Val (0, w')) ↔
     ∃ rest, session ex_data (S (Z.to_nat nb)) (signals (world_of [] ex_signals)) rest).
Proof.
  exact (main_accepts_sessions ex_opts ex_data (world_of [] ex_signals) ex_ready
    (world_favourable _ _) (world_full _ _)).
Defined.

(** C5: End to end.  Where allocations grow in place, writes complete, no time-out
    expires and signals are whole packets, when the loader returns 0 with [data] (at most 2^16 modules, the first one with a function), the
    signals it consumed are, module by module in the order of loading, one
    trace per initialisation function, checked on the modules loaded so far;
    [data] is well-formed and every external function in it is linked to its
    definition; and the monitor process then exits with status 0 if and only if
    the signals that follow are a session of [data]. *)
Theorem process_accepts_sessions opts w data w1 :
  monitor_load opts w = Val ((0, data), w1) → few_modules data → has_function data 0 0 →
  favourable w → Forall full_packet (w_sig w) →
  run_ready data ∧ (∀ m, 0 <= m < nb_modules data → linked data m) ∧
  startup_session data 0 (signals w) (signals w1) ∧
  ∃ nb, count_finis (Z.to_nat (nb_modules data)) 0 data 0 = Val nb ∧
    ((∃ w', monitor_process opts 0 w = Val (0, w')) ↔
     ∃ rest, session data (S (Z.to_nat nb)) (signals w1) rest).
Proof.
  intros Hload Hfew H0 Hfav Hps. destruct (monitor_load_linked _ _ _ _ Hload Hfew) as [Hwf Hall].
  assert (Hready : run_ready data) by (by apply linked_ready). split; [done|]. split; [done|].
  destruct (monitor_load_sessions _ _ _ _ Hload Hfew H0 (conj Hfav Hps)) as [Hst [Hfav1 Hps1]].
  split; [done|]. destruct (finis_counted data Hwf) as (nb & Hnb). exists nb. split; [done|].
  rewrite <- (main_runs_session opts data Hready w1 nb Hfav1 Hps1 Hnb).
  setoid_rewrite (process_runs_iff opts w data w1 _ Hload Hwf); [done|].
  intros Hz. destruct H0 as (md & Hm%module_at_wf & _); [|done]. lia.
Qed.

(** A load with an initialisation run. *)
Lemma process_accepts_sessions_witness :
  run_ready early_loaded.1 ∧ (∀ m, 0 <= m < nb_modules early_loaded.1 → linked early_loaded.1 m) ∧
  startup_session early_loaded.1 0 (signals (world_of early_packets early_signals))
    (signals early_loaded.2) ∧
  ∃ nb, count_finis (Z.to_nat (nb_modules early_loaded.1)) 0 early_loaded.1 0 = Val nb ∧
    ((∃ w', monitor_process ex_opts 0 (world_of early_packets early_signals) = Val (0, w')) ↔
     ∃ rest, session early_loaded.1 (S (Z.to_nat nb)) (signals early_loaded.2) rest).
Proof.
  apply (process_accepts_sessions ex_opts (world_of early_packets early_signals)
    early_loaded.1 early_loaded.2).
  - vm_compute. reflexivity.
  - vm_compute. split; discriminate.
  - eexists. split; [vm_compute; reflexivity|]. vm_compute. split; [discriminate|reflexivity].
  - apply world_favourable.
  - apply world_full.
Defined.

(** C20: A failure kills the client.  Whenever the monitor process ends with a
    status other than 0 (a load that fails, a signal that is refused), the
    last thing it does is to send SIGKILL to the client; when it ends with 0
    the data were loaded and all the runs accepted. *)
Theorem process_kills opts r w s w' :
  monitor_process opts r w = Val (s, w') →
  if decide (s = 0)
  then ∃ data w1, monitor_load opts w = Val ((0, data), w1) ∧ main_runs opts data w1 = Val (0, w')
  else ∃ out, w_out w' = out ++ [OKill].
Proof.
  intros H. case_decide as Hs; [subst; by eapply monitor_process_inv|by eapply monitor_process_kills].
Qed.

Lemma process_kills_witness :
  ∃ out, w_out (match monitor_process ex_opts 0 (world_of ex_packets ex_hijacked) with
                | Val (_, w) => w | _ => world_of [] [] end) = out ++ [OKill].
Proof.
  apply (process_kills ex_opts 0 (world_of ex_packets ex_hijacked) 4).
  vm_compute. reflexivity.
Defined.

(** C36: What is accepted fits the pipes.  The pipes are opened with [O_DIRECT],
    which splits a write of more than [PIPE_BUF] bytes, and the loader reads each
    value with one [read]: when the monitor process ends with status 0, on
    whatever packets were written (of sizes on 32 bits) and whatever else happens,
    the end of the load was announced and no value that was written before it has
    more than [PIPE_BUF] bytes. *)
Theorem accepted_sections_fit opts w ps w' :
  w_load w = wire ps → Forall countable_packet ps → monitor_process opts 0 w = Val (0, w') →
  ∃ qs v rest, ps = qs ++ (CFI_LOADING_TERMINATED, v) :: rest ∧
    Forall (λ p, Z.of_nat (length p.2) <= PIPE_BUF) (qs ++ [(CFI_LOADING_TERMINATED, v)]).
Proof.
  intros Hl Hps (data & w1 & Hload & _)%monitor_process_inv. unfold monitor_load in Hload.
  apply C_bind_inv in Hload as ([err d] & w2 & Hloop & Hload). case_decide; [by inv_C|]. assert (err = 0) as -> by lia.
  apply (modules_loop_wire _ _ _ _ _ _ _ Hps Hl) in Hloop as (v & rest & (qs & Heq & Hq) & Hv).
  exists qs, v, rest. split; [done|]. apply Forall_app. by split; [|constructor].
Qed.

(** The packets of the example, as they were written. *)
Fixpoint grouped (n : nat) (ws : list (list byte)) : list (loading_event * list byte) :=
  match n, ws with
  | S n, e :: l :: ws =>
      let ev := default CFI_LOADING_MODULE_BEGIN (loading_event_case (le_value e)) in
      if decide (le_value l = 0) then (ev, []) :: grouped n ws
      else match ws with v :: ws => (ev, v) :: grouped n ws | [] => [] end
  | _, _ => []
  end.
Definition ex_packets_written : list (loading_event * list byte) := grouped (length ex_packets) ex_packets.

Lemma accepted_sections_fit_witness : ∃ qs v rest,
  ex_packets_written = qs ++ (CFI_LOADING_TERMINATED, v) :: rest ∧
  Forall (λ p, Z.of_nat (length p.2) <= PIPE_BUF) (qs ++ [(CFI_LOADING_TERMINATED, v)]).
Proof.
  apply (accepted_sections_fit ex_opts (world_of ex_packets ex_signals) ex_packets_written
    (match monitor_process ex_opts 0 (world_of ex_packets ex_signals) with
     | Val (_, w) => w | _ => world_of [] [] end)).
  - vm_compute. reflexivity.
  - apply (bool_decide_unpack _). vm_compute. exact I.
  - vm_compute. reflexivity.
Defined.

(** [main] starts nothing it must not.  Unless the process was started
    with a program to run, without LD_PRELOAD, outside of a monitored program,
    and got its four pipes and its child, [main] returns an error status
    (or is the child, which executes the program) without reading a packet or
    a signal and without writing an answer. *)
Theorem main_guards env opts w :
  if decide (starts env) then main env opts w = monitor_process (set_options env opts) (sigaction_result env) w
  else ∃ s, s < 0 ∧ (main env opts w = Val (s, w) ∨ main env opts w = Val (s, emits w [OExec])).
Proof.
  destruct (decide (starts env)) as [Hst|Hst]; unfold starts in Hst; unfold main;
    destruct (pipe_results env) as [[[p1 p2] p3] p4].
  - destruct Hst as (-> & -> & -> & -> & -> & Ha & [= -> -> -> ->] & Hf). cbn [orb].
    rewrite decide_False by lia. rewrite !(decide_False (P := 0 ≠ 0)) by (by intros []).
    by rewrite decide_True.
  - destruct (getenv_LD_PRELOAD env); [by exists (-1); split; [|left]|].
    destruct (getenv_FD_CLIENT_TO_MONITOR env), (getenv_FD_MONITOR_TO_CLIENT env),
      (getenv_FD_LOADING_TO_MONITOR env), (getenv_FD_MONITOR_TO_LOADING env); cbn [orb];
      try (by exists (-1); split; [|left]).
    case_decide; [by exists (-2); split; [|left]|].
    do 4 (case_decide; [by exists (-3); split; [|left]|]).
    case_decide; [exfalso; apply Hst; repeat split; try done; try lia; do 3 f_equal; lia|].
    case_decide; [exists (-4); split; [done|]; right; done|]. by exists (-5); split; [|left].
Qed.
